(** * dbc_compare: the DBC parser and the structural differ

    A shallow embedding of [src/dbc_compare.py]: the Python values the
    comparison works on, the entity classes [Signal], [Message] and
    [DBCDatabase], the regular-expression sweeps of [parse_dbc], the row
    builders, [compare_dbc_files] and [categorize_changes].

    Modelling conventions.
    - A Python [int] is a [Z].  [int()] converts a string of at most 4300
      digits, the limit the interpreter starts with, and raises
      [ValueError] on a longer one.
    - A Python [float] is an IEEE 754 binary64 value, written as a
      [spec_float]; comparisons and truncation are exact on the value
      [(-1)^s * m * 2^e].
    - A Python [str] is a [string]; the character classes of [re] and of
      [str.strip]/[str.split] are the ones Python uses on code points
      below 128.  Documents with code points above 127 are outside the
      model.
    - An [OrderedDict] is an association list in insertion order, read
      with [od_get] and written with [od_set].
    - A raised exception is the [Raise] branch of [result]. *)

From Stdlib Require Import ZArith NArith List String Ascii Bool Lia.
From Stdlib Require Import Permutation Sorted.
From Stdlib Require Import Floats.SpecFloat.
Import ListNotations.

Local Open Scope string_scope.
Local Open Scope list_scope.
Local Open Scope Z_scope.

(* ================================================================== *)
(** ** Exceptions *)

Inductive exn : Type := ValueError | OverflowError | IndexError | AttributeError.

Inductive result (A : Type) : Type :=
| Ok (a : A)
| Raise (e : exn).
Arguments Ok {A} a.
Arguments Raise {A} e.

Definition bind {A B : Type} (c : result A) (k : A -> result B) : result B :=
  match c with
  | Ok a => k a
  | Raise e => Raise e
  end.

Declare Scope py_scope.
Delimit Scope py_scope with py.
Notation "x <- c1 ;; c2" := (bind c1 (fun x => c2))
  (at level 61, c1 at next level, right associativity) : py_scope.
Local Open Scope py_scope.

(** The value a computation returned, if it returned. *)
Definition returned {A : Type} (c : result A) : option A :=
  match c with
  | Ok a => Some a
  | Raise _ => None
  end.

(** [rows.append]/[rows.extend] of the results of a loop body, stopping at
    the first exception. *)
Fixpoint concat_mapM {A B : Type} (f : A -> result (list B)) (l : list A)
  : result (list B) :=
  match l with
  | [] => Ok []
  | x :: l' => ys <- f x ;; zs <- concat_mapM f l' ;; Ok (ys ++ zs)
  end.

(* ================================================================== *)
(** ** Python values *)

(** [int(v)] for a float [v]: truncation toward zero; [OverflowError] on an
    infinity, [ValueError] on a NaN. *)
Definition int_of_float (f : spec_float) : result Z :=
  match f with
  | S754_zero _ => Ok 0
  | S754_infinity _ => Raise OverflowError
  | S754_nan => Raise ValueError
  | S754_finite s m e =>
      let a := if 0 <=? e then Zpos m * 2 ^ e else Zpos m / 2 ^ (- e) in
      Ok (if s then - a else a)
  end.

(** [f == z] for a float [f] and an int [z]: exact comparison of values. *)
Definition float_eq_int (f : spec_float) (z : Z) : bool :=
  match f with
  | S754_zero _ => z =? 0
  | S754_infinity _ => false
  | S754_nan => false
  | S754_finite s m e =>
      let sm := if s then Zneg m else Zpos m in
      if 0 <=? e then sm * 2 ^ e =? z else sm =? z * 2 ^ (- e)
  end.

(** [f == g] for two floats: IEEE equality. *)
Definition float_eqb (f g : spec_float) : bool :=
  match f, g with
  | S754_zero _, S754_zero _ => true
  | S754_infinity s, S754_infinity s' => Bool.eqb s s'
  | S754_finite s m e, S754_finite s' m' e' =>
      let d := Z.min e e' in
      Bool.eqb s s' && (Zpos m * 2 ^ (e - d) =? Zpos m' * 2 ^ (e' - d))
  | _, _ => false
  end.

(** The values a row cell holds. *)
Inductive pyval : Type :=
| VNone
| VInt (z : Z)
| VFloat (f : spec_float)
| VStr (s : string).

(** [a == b]. *)
Definition py_eq (a b : pyval) : bool :=
  match a, b with
  | VNone, VNone => true
  | VInt x, VInt y => x =? y
  | VInt x, VFloat f => float_eq_int f x
  | VFloat f, VInt y => float_eq_int f y
  | VFloat f, VFloat g => float_eqb f g
  | VStr s, VStr t => String.eqb s t
  | _, _ => false
  end.

(** [a != b]. *)
Definition py_ne (a b : pyval) : bool := negb (py_eq a b).

(** Truth value of a [str]. *)
Definition str_truthy (s : string) : bool := negb (String.eqb s "").

(** [s if s else None]. *)
Definition str_or_none (s : string) : pyval :=
  if str_truthy s then VStr s else VNone.

(** [l[i]]. *)
Definition py_index {A : Type} (l : list A) (i : nat) : result A :=
  match nth_error l i with
  | Some x => Ok x
  | None => Raise IndexError
  end.

(** [sep.join(l)]. *)
Definition join (sep : string) (l : list string) : string := String.concat sep l.

(** [format(z, "X")]: upper-case hexadecimal, a minus sign on a negative. *)
Definition hex_digit (n : N) : ascii :=
  match n with
  | 0%N => "0" | 1%N => "1" | 2%N => "2" | 3%N => "3" | 4%N => "4"
  | 5%N => "5" | 6%N => "6" | 7%N => "7" | 8%N => "8" | 9%N => "9"
  | 10%N => "A" | 11%N => "B" | 12%N => "C" | 13%N => "D" | 14%N => "E"
  | _ => "F"
  end%char.

Fixpoint hex_digits (fuel : nat) (n : N) (acc : string) : string :=
  match fuel with
  | O => acc
  | S fuel' =>
      let acc' := String (hex_digit (n mod 16)) acc in
      if (n / 16 =? 0)%N then acc' else hex_digits fuel' (n / 16)%N acc'
  end.

Definition format_X (z : Z) : string :=
  let n := Z.to_N (Z.abs z) in
  String.append (if z <? 0 then "-" else "")
                (hex_digits (S (N.to_nat (N.log2 n))) n "").

(** [sorted(set(l))] for a list [l], by a three-way comparison. *)
Section SortedSet.
Context {A : Type} (cmp : A -> A -> comparison).

Fixpoint insert_uniq (x : A) (l : list A) : list A :=
  match l with
  | [] => [x]
  | y :: l' =>
      match cmp x y with
      | Lt => x :: l
      | Eq => l
      | Gt => y :: insert_uniq x l'
      end
  end.

Definition sorted_set (l : list A) : list A :=
  fold_right insert_uniq [] l.
End SortedSet.

(* ================================================================== *)
(** ** OrderedDict *)

Section OrderedDict.
Context {K V : Type} (eqb : K -> K -> bool).

(** [d.get(k)]. *)
Fixpoint od_get (k : K) (d : list (K * V)) : option V :=
  match d with
  | [] => None
  | (k', v) :: d' => if eqb k k' then Some v else od_get k d'
  end.

(** [d[k] = v]: a present key keeps its position. *)
Fixpoint od_set (k : K) (v : V) (d : list (K * V)) : list (K * V) :=
  match d with
  | [] => [(k, v)]
  | (k', v') :: d' =>
      if eqb k k' then (k', v) :: d' else (k', v') :: od_set k v d'
  end.

(** [k in d]. *)
Definition od_mem (k : K) (d : list (K * V)) : bool :=
  match od_get k d with Some _ => true | None => false end.

Definition od_keys (d : list (K * V)) : list K := map fst d.
Definition od_values (d : list (K * V)) : list V := map snd d.
End OrderedDict.

(** [list(OrderedDict.fromkeys(l))]: the first occurrence of every
    element, in order. *)
Fixpoint fromkeys_aux {K : Type} (eqb : K -> K -> bool) (seen l : list K) : list K :=
  match l with
  | [] => []
  | k :: l' =>
      if existsb (eqb k) seen then fromkeys_aux eqb seen l'
      else k :: fromkeys_aux eqb (k :: seen) l'
  end.

Definition fromkeys {K : Type} (eqb : K -> K -> bool) (l : list K) : list K :=
  fromkeys_aux eqb [] l.

(* ================================================================== *)
(** ** Column layout and enum tables *)

Definition NUM_MSG_COLS : nat := 19.
Definition NUM_SIG_COLS : nat := 18.
Definition NUM_COLS_PER_SIDE : nat := (NUM_MSG_COLS + NUM_SIG_COLS)%nat.

Definition MSG_SEND_TYPE_ENUM : list string :=
  ["Cyclic"; "NoMsgSendType"; "NotUsed"; "NotUsed"; "NotUsed";
   "NotUsed"; "NotUsed"; "IfActive"; "NoMsgSendType"; "NotUsed"].
Definition SIG_SEND_TYPE_ENUM : list string :=
  ["Cyclic"; "NoSigSendType"; "OnWriteWithRepetition"; "OnChange";
   "OnChangeWithRepetition"; "IfActive"; "IfActiveWithRepetition";
   "NoSigSendType"].
Definition VFRAME_FORMAT_ENUM : list string :=
  ["StandardCAN"; "ExtendedCAN"; "reserved"; "J1939PG";
   "reserved"; "reserved"; "reserved"; "reserved";
   "reserved"; "reserved"; "reserved"; "reserved";
   "reserved"; "reserved"; "StandardCAN_FD"; "ExtendedCAN_FD"].
Definition CANFD_BRS_ENUM : list string := ["0"; "1"].
Definition DIAG_ENUM : list string := ["No"; "Yes"].
Definition IL_ENUM : list string := ["No"; "Yes"].
Definition NM_ENUM : list string := ["No"; "Yes"].

(** [enum_lookup(enum_list, index, default)] on an int [index]. *)
Definition enum_lookup (enum_list : list string) (index : Z) (default : string)
  : string :=
  if (0 <=? index) && (index <? Z.of_nat (List.length enum_list))
  then nth (Z.to_nat index) enum_list default
  else default.

(* ================================================================== *)
(** ** The entity classes *)

Module Signal.
Record t : Type := mk {
  name : string;
  start_bit : Z;
  length : Z;
  byte_order : Z;
  value_type : string;
  factor : spec_float;
  offset : spec_float;
  minimum : spec_float;
  maximum : spec_float;
  unit : string;
  receivers : list string;
  comment : string;
  value_desc : string;
  invalid_value : string;
  start_value : Z;
  inactive_value : Z;
  send_type : Z;
  timeout_time : Z;
  long_symbol : string
}.

(** [1.0] and [0.0]. *)
Definition one : spec_float := S754_finite false 1 0.
Definition zero : spec_float := S754_zero false.

(** [Signal()]. *)
Definition init : t :=
  mk "" 0 0 0 "+" one zero zero zero "" [] "" "" "" 0 0 0 0 "".

Definition endian_str (s : t) : string :=
  if byte_order s =? 0 then "big" else "little".

Definition signed_str (s : t) : string :=
  if String.eqb (value_type s) "-" then "signed" else "unsigned".

Definition natural_start_bit (s : t) : Z := start_bit s.

Definition display_name (s : t) : string :=
  if str_truthy (long_symbol s) && negb (String.eqb (long_symbol s) (name s))
  then long_symbol s else name s.

(** The fields [apply_sig_attr] writes with [setattr]. *)
Inductive int_field : Type :=
  F_start_value | F_inactive_value | F_send_type | F_timeout_time.
Inductive str_field : Type := F_invalid_value | F_long_symbol.

Definition set_int (f : int_field) (v : Z) (s : t) : t :=
  match s with
  | mk n sb ln bo vt fa off mi ma un rc cm vd iv sv inv st tmo ls =>
      match f with
      | F_start_value => mk n sb ln bo vt fa off mi ma un rc cm vd iv v inv st tmo ls
      | F_inactive_value => mk n sb ln bo vt fa off mi ma un rc cm vd iv sv v st tmo ls
      | F_send_type => mk n sb ln bo vt fa off mi ma un rc cm vd iv sv inv v tmo ls
      | F_timeout_time => mk n sb ln bo vt fa off mi ma un rc cm vd iv sv inv st v ls
      end
  end.

Definition get_int (f : int_field) (s : t) : Z :=
  match f with
  | F_start_value => start_value s
  | F_inactive_value => inactive_value s
  | F_send_type => send_type s
  | F_timeout_time => timeout_time s
  end.

Definition set_str (f : str_field) (v : string) (s : t) : t :=
  match s with
  | mk n sb ln bo vt fa off mi ma un rc cm vd iv sv inv st tmo ls =>
      match f with
      | F_invalid_value => mk n sb ln bo vt fa off mi ma un rc cm vd v sv inv st tmo ls
      | F_long_symbol => mk n sb ln bo vt fa off mi ma un rc cm vd iv sv inv st tmo v
      end
  end.

Definition get_str (f : str_field) (s : t) : string :=
  match f with
  | F_invalid_value => invalid_value s
  | F_long_symbol => long_symbol s
  end.

Definition set_value_desc (v : string) (s : t) : t :=
  match s with
  | mk n sb ln bo vt fa off mi ma un rc cm vd iv sv inv st tmo ls =>
      mk n sb ln bo vt fa off mi ma un rc cm v iv sv inv st tmo ls
  end.

Definition set_comment (v : string) (s : t) : t :=
  match s with
  | mk n sb ln bo vt fa off mi ma un rc cm vd iv sv inv st tmo ls =>
      mk n sb ln bo vt fa off mi ma un rc v vd iv sv inv st tmo ls
  end.
End Signal.

Module Message.
Record t : Type := mk {
  msg_id : Z;
  name : string;
  dlc : Z;
  transmitter : string;
  signals : list (string * Signal.t);
  comment : string;
  cycle_time : Z;
  cycle_time_fast : Z;
  cycle_time_active : Z;
  send_type : Z;
  nr_of_repetition : Z;
  delay_time : Z;
  start_delay_time : Z;
  il_support : Z;
  nm_message : Z;
  nm_asr_message : Z;
  vframe_format : Z;
  canfd_brs : Z;
  diag_request : Z;
  diag_response : Z;
  diag_state : Z;
  long_symbol : string
}.

(** [Message()]. *)
Definition init : t :=
  mk 0 "" 0 "" [] "" 0 0 0 0 0 0 0 1 0 0 14 1 0 0 0 "".

Definition display_name (m : t) : string :=
  if str_truthy (long_symbol m) && negb (String.eqb (long_symbol m) (name m))
  then long_symbol m else name m.

(** The fields the message-level integer attributes are stored in. *)
Inductive int_field : Type :=
  F_cycle_time | F_cycle_time_fast | F_cycle_time_active | F_send_type
| F_nr_of_repetition | F_delay_time | F_start_delay_time | F_il_support
| F_nm_message | F_nm_asr_message | F_vframe_format | F_canfd_brs
| F_diag_request | F_diag_response | F_diag_state.

Definition set_int (f : int_field) (v : Z) (m : t) : t :=
  match m with
  | mk i n d tx sg cm ct ctf cta st nr dt sdt il nm nma vf brs dq dr ds ls =>
      match f with
      | F_cycle_time => mk i n d tx sg cm v ctf cta st nr dt sdt il nm nma vf brs dq dr ds ls
      | F_cycle_time_fast => mk i n d tx sg cm ct v cta st nr dt sdt il nm nma vf brs dq dr ds ls
      | F_cycle_time_active => mk i n d tx sg cm ct ctf v st nr dt sdt il nm nma vf brs dq dr ds ls
      | F_send_type => mk i n d tx sg cm ct ctf cta v nr dt sdt il nm nma vf brs dq dr ds ls
      | F_nr_of_repetition => mk i n d tx sg cm ct ctf cta st v dt sdt il nm nma vf brs dq dr ds ls
      | F_delay_time => mk i n d tx sg cm ct ctf cta st nr v sdt il nm nma vf brs dq dr ds ls
      | F_start_delay_time => mk i n d tx sg cm ct ctf cta st nr dt v il nm nma vf brs dq dr ds ls
      | F_il_support => mk i n d tx sg cm ct ctf cta st nr dt sdt v nm nma vf brs dq dr ds ls
      | F_nm_message => mk i n d tx sg cm ct ctf cta st nr dt sdt il v nma vf brs dq dr ds ls
      | F_nm_asr_message => mk i n d tx sg cm ct ctf cta st nr dt sdt il nm v vf brs dq dr ds ls
      | F_vframe_format => mk i n d tx sg cm ct ctf cta st nr dt sdt il nm nma v brs dq dr ds ls
      | F_canfd_brs => mk i n d tx sg cm ct ctf cta st nr dt sdt il nm nma vf v dq dr ds ls
      | F_diag_request => mk i n d tx sg cm ct ctf cta st nr dt sdt il nm nma vf brs v dr ds ls
      | F_diag_response => mk i n d tx sg cm ct ctf cta st nr dt sdt il nm nma vf brs dq v ds ls
      | F_diag_state => mk i n d tx sg cm ct ctf cta st nr dt sdt il nm nma vf brs dq dr v ls
      end
  end.

Definition get_int (f : int_field) (m : t) : Z :=
  match f with
  | F_cycle_time => cycle_time m
  | F_cycle_time_fast => cycle_time_fast m
  | F_cycle_time_active => cycle_time_active m
  | F_send_type => send_type m
  | F_nr_of_repetition => nr_of_repetition m
  | F_delay_time => delay_time m
  | F_start_delay_time => start_delay_time m
  | F_il_support => il_support m
  | F_nm_message => nm_message m
  | F_nm_asr_message => nm_asr_message m
  | F_vframe_format => vframe_format m
  | F_canfd_brs => canfd_brs m
  | F_diag_request => diag_request m
  | F_diag_response => diag_response m
  | F_diag_state => diag_state m
  end.

Definition set_long_symbol (v : string) (m : t) : t :=
  match m with
  | mk i n d tx sg cm ct ctf cta st nr dt sdt il nm nma vf brs dq dr ds ls =>
      mk i n d tx sg cm ct ctf cta st nr dt sdt il nm nma vf brs dq dr ds v
  end.

Definition set_comment (v : string) (m : t) : t :=
  match m with
  | mk i n d tx sg cm ct ctf cta st nr dt sdt il nm nma vf brs dq dr ds ls =>
      mk i n d tx sg v ct ctf cta st nr dt sdt il nm nma vf brs dq dr ds ls
  end.

Definition set_signals (v : list (string * Signal.t)) (m : t) : t :=
  match m with
  | mk i n d tx sg cm ct ctf cta st nr dt sdt il nm nma vf brs dq dr ds ls =>
      mk i n d tx v cm ct ctf cta st nr dt sdt il nm nma vf brs dq dr ds ls
  end.
End Message.

Module DBCDatabase.
Record t : Type := mk {
  messages : list (Z * Message.t);
  nodes : list string;
  bus_type : string;
  db_name : string;
  baudrate : Z;
  baudrate_canfd : Z
}.

(** [DBCDatabase()]. *)
Definition init : t := mk [] [] "" "" 500000 2000000.

Definition set_messages (v : list (Z * Message.t)) (d : t) : t :=
  mk v (nodes d) (bus_type d) (db_name d) (baudrate d) (baudrate_canfd d).
Definition set_nodes (v : list string) (d : t) : t :=
  mk (messages d) v (bus_type d) (db_name d) (baudrate d) (baudrate_canfd d).
Definition set_bus_type (v : string) (d : t) : t :=
  mk (messages d) (nodes d) v (db_name d) (baudrate d) (baudrate_canfd d).
Definition set_db_name (v : string) (d : t) : t :=
  mk (messages d) (nodes d) (bus_type d) v (baudrate d) (baudrate_canfd d).
End DBCDatabase.

(** [db.messages.get(msg_id)] and [msg.signals.get(sig_name)]. *)
Definition get_message (msg_id : Z) (db : DBCDatabase.t) : option Message.t :=
  od_get Z.eqb msg_id (DBCDatabase.messages db).
Definition get_signal (sig_name : string) (msg : Message.t) : option Signal.t :=
  od_get String.eqb sig_name (Message.signals msg).

(* ================================================================== *)
(** ** Comparison logic *)

(** [format_number(val)] on a float. *)
Definition format_number (val : spec_float) : result pyval :=
  z <- int_of_float val ;;
  Ok (if float_eq_int val z then VInt z else VFloat val).

(** [normalize_val(v)]. *)
Definition normalize_val (v : pyval) : result pyval :=
  match v with
  | VNone => Ok VNone
  | VFloat f =>
      z <- int_of_float f ;;
      Ok (if float_eq_int f z then VInt z else v)
  | _ => Ok v
  end.

(** The message columns shared by [build_signal_row] and
    [build_empty_msg_row]. *)
Definition msg_part (msg : Message.t) : list pyval :=
  [ VStr (String.append "0x" (format_X (Message.msg_id msg)));
    VStr (Message.display_name msg);
    VStr (enum_lookup MSG_SEND_TYPE_ENUM (Message.send_type msg) "Cyclic");
    VInt (Message.cycle_time msg);
    VInt (Message.cycle_time_fast msg);
    VInt (Message.cycle_time_active msg);
    VInt (Message.nr_of_repetition msg);
    VInt (Message.delay_time msg);
    VInt (Message.start_delay_time msg);
    VInt (Message.dlc msg);
    VStr (enum_lookup VFRAME_FORMAT_ENUM (Message.vframe_format msg) "StandardCAN_FD");
    VStr (enum_lookup CANFD_BRS_ENUM (Message.canfd_brs msg) "1");
    VStr (Message.transmitter msg);
    VStr (enum_lookup IL_ENUM (Message.il_support msg) "Yes");
    VStr (enum_lookup NM_ENUM (Message.nm_message msg) "No");
    VStr (enum_lookup DIAG_ENUM (Message.diag_request msg) "No");
    VStr (enum_lookup DIAG_ENUM (Message.diag_response msg) "No");
    VStr (enum_lookup DIAG_ENUM (Message.diag_state msg) "No");
    str_or_none (Message.comment msg) ].

(** [build_signal_row(msg, sig)]. *)
Definition build_signal_row (msg : Message.t) (sig : Signal.t)
  : result (list pyval) :=
  let receivers := join ", " (Signal.receivers sig) in
  let val_desc := str_or_none (Signal.value_desc sig) in
  scale <- format_number (Signal.factor sig) ;;
  offset <- format_number (Signal.offset sig) ;;
  min <- format_number (Signal.minimum sig) ;;
  max <- format_number (Signal.maximum sig) ;;
  Ok (msg_part msg ++
      [ VStr (Signal.display_name sig);
        VInt (Signal.natural_start_bit sig);
        VInt (Signal.length sig);
        VStr (Signal.endian_str sig);
        VStr (Signal.signed_str sig);
        scale; offset; min; max;
        str_or_none (Signal.unit sig);
        str_or_none (Signal.invalid_value sig);
        VInt (Signal.start_value sig);
        VInt (Signal.inactive_value sig);
        VStr (enum_lookup SIG_SEND_TYPE_ENUM (Signal.send_type sig) "Cyclic");
        VInt (Signal.timeout_time sig);
        val_desc;
        str_or_none (Signal.comment sig);
        VStr receivers ]).

(** [build_empty_msg_row(msg)]. *)
Definition build_empty_msg_row (msg : Message.t) : list pyval :=
  msg_part msg ++ repeat VNone NUM_SIG_COLS.

(** [build_empty_row()]. *)
Definition build_empty_row : list pyval := repeat VNone NUM_COLS_PER_SIDE.

(** The indices [i] of [idx] with
    [normalize_val(old_row[i]) != normalize_val(new_row[i])]. *)
Fixpoint diff_indices (old_row new_row : list pyval) (idx : list nat)
  : result (list nat) :=
  match idx with
  | [] => Ok []
  | i :: idx' =>
      a <- py_index old_row i ;;
      na <- normalize_val a ;;
      b <- py_index new_row i ;;
      nb <- normalize_val b ;;
      rest <- diff_indices old_row new_row idx' ;;
      Ok (if py_ne na nb then i :: rest else rest)
  end.

(** [check_row_diff(old_row, new_row)]; the set [diff_cols] is the list of
    its elements in ascending order. *)
Definition check_row_diff (old_row new_row : list pyval)
  : result (bool * list nat) :=
  diff_cols <- diff_indices old_row new_row (seq 0 (List.length old_row)) ;;
  Ok (Nat.ltb 0 (List.length diff_cols), diff_cols).

(** A tuple [(old_row, new_row, has_diff, diff_cols)]. *)
Record row_tuple : Type := mk_row {
  old_row : list pyval;
  new_row : list pyval;
  has_diff : bool;
  diff_cols : list nat
}.

(** [set(range(NUM_COLS_PER_SIDE))]. *)
Definition all_cols : list nat := seq 0 NUM_COLS_PER_SIDE.

(** [sorted(set(list(old_db.messages.keys()) + list(new_db.messages.keys())))]. *)
Definition all_msg_ids (old_db new_db : DBCDatabase.t) : list Z :=
  sorted_set Z.compare
    (od_keys (DBCDatabase.messages old_db) ++ od_keys (DBCDatabase.messages new_db)).

(** [list(OrderedDict.fromkeys(list(old_msg.signals.keys()) +
    list(new_msg.signals.keys())))]. *)
Definition all_sig_names (old_msg new_msg : Message.t) : list string :=
  fromkeys String.eqb
    (od_keys (Message.signals old_msg) ++ od_keys (Message.signals new_msg)).

(** The body of the loop over [all_sig_names] in [compare_dbc_files]. *)
Definition compare_signal (old_msg new_msg : Message.t) (sig_name : string)
  : result (list row_tuple) :=
  match get_signal sig_name old_msg, get_signal sig_name new_msg with
  | Some old_sig, Some new_sig =>
      old_row <- build_signal_row old_msg old_sig ;;
      new_row <- build_signal_row new_msg new_sig ;;
      d <- check_row_diff old_row new_row ;;
      Ok [mk_row old_row new_row (fst d) (snd d)]
  | Some old_sig, None =>
      old_row <- build_signal_row old_msg old_sig ;;
      let new_row := build_empty_msg_row new_msg in
      d <- check_row_diff old_row new_row ;;
      Ok [mk_row old_row new_row (fst d) (snd d)]
  | None, Some new_sig =>
      let old_row := build_empty_msg_row old_msg in
      new_row <- build_signal_row new_msg new_sig ;;
      d <- check_row_diff old_row new_row ;;
      Ok [mk_row old_row new_row (fst d) (snd d)]
  | None, None => Ok []
  end.

(** The body of the loop over [all_msg_ids] in [compare_dbc_files]: the
    rows appended for [msg_id]. *)
Definition compare_message (old_db new_db : DBCDatabase.t) (msg_id : Z)
  : result (list row_tuple) :=
  match get_message msg_id old_db, get_message msg_id new_db with
  | Some old_msg, Some new_msg =>
      match all_sig_names old_msg new_msg with
      | [] =>
          let old_row := build_empty_msg_row old_msg in
          let new_row := build_empty_msg_row new_msg in
          d <- check_row_diff old_row new_row ;;
          Ok [mk_row old_row new_row (fst d) (snd d)]
      | names => concat_mapM (compare_signal old_msg new_msg) names
      end
  | Some old_msg, None =>
      match Message.signals old_msg with
      | [] => Ok [mk_row (build_empty_msg_row old_msg) build_empty_row true all_cols]
      | sigs =>
          concat_mapM
            (fun kv => old_row <- build_signal_row old_msg (snd kv) ;;
                       Ok [mk_row old_row build_empty_row true all_cols])
            sigs
      end
  | None, Some new_msg =>
      match Message.signals new_msg with
      | [] => Ok [mk_row build_empty_row (build_empty_msg_row new_msg) true all_cols]
      | sigs =>
          concat_mapM
            (fun kv => new_row <- build_signal_row new_msg (snd kv) ;;
                       Ok [mk_row build_empty_row new_row true all_cols])
            sigs
      end
  | None, None => Ok []
  end.

(** [compare_dbc_files(old_db, new_db)]. *)
Definition compare_dbc_files (old_db new_db : DBCDatabase.t)
  : result (list row_tuple) :=
  concat_mapM (compare_message old_db new_db) (all_msg_ids old_db new_db).

(* ================================================================== *)
(** ** Categorized changes *)

(** [get_msg_rx_ecus(msg)]. *)
Definition get_msg_rx_ecus (msg : Message.t) : string :=
  let rx :=
    flat_map
      (fun sig =>
         filter (fun r => str_truthy r && negb (String.eqb r "Vector__XXX"))
                (Signal.receivers sig))
      (od_values (Message.signals msg)) in
  join ", " (sorted_set String.compare rx).

(** [get_msg_signal_list(msg)]: the names joined by a line feed. *)
Definition get_msg_signal_list (msg : Message.t) : string :=
  join (String "010"%char "")
       (map Signal.display_name (od_values (Message.signals msg))).

(** [build_msg_summary_row(msg)]. *)
Definition build_msg_summary_row (msg : Message.t) : list pyval :=
  [ VStr (String.append "0x" (format_X (Message.msg_id msg)));
    VStr (Message.display_name msg);
    VInt (Message.dlc msg);
    VStr (get_msg_signal_list msg);
    VStr (enum_lookup MSG_SEND_TYPE_ENUM (Message.send_type msg) "Cyclic");
    VInt (Message.cycle_time msg);
    VStr (Message.transmitter msg);
    VStr (get_msg_rx_ecus msg) ].

(** [build_sig_summary_row(msg, sig)]. *)
Definition build_sig_summary_row (msg : Message.t) (sig : Signal.t)
  : result (list pyval) :=
  min <- format_number (Signal.minimum sig) ;;
  max <- format_number (Signal.maximum sig) ;;
  scale <- format_number (Signal.factor sig) ;;
  Ok [ VStr (String.append "0x" (format_X (Message.msg_id msg)));
       VStr (Message.display_name msg);
       VStr (Signal.display_name sig);
       VInt (Signal.natural_start_bit sig);
       VInt (Signal.length sig);
       VInt (Signal.start_value sig);
       min;
       max;
       VStr (if str_truthy (Signal.unit sig) then Signal.unit sig else "");
       scale;
       VStr (if str_truthy (Signal.value_desc sig) then Signal.value_desc sig else "");
       VStr (join ", " (Signal.receivers sig)) ].

(** The dictionary [categorize_changes] returns. *)
Record changes : Type := mk_changes {
  new_messages : list Message.t;
  removed_messages : list Message.t;
  modified_messages : list (Message.t * Message.t * list nat);
  new_signals : list (Message.t * Signal.t);
  removed_signals : list (Message.t * Signal.t);
  modified_signals : list (Message.t * Message.t * Signal.t * Signal.t * list nat)
}.

Definition no_changes : changes := mk_changes [] [] [] [] [] [].

(** Appending to one of the six lists. *)
Definition add_new_messages (l : list Message.t) (c : changes) : changes :=
  mk_changes (new_messages c ++ l) (removed_messages c) (modified_messages c)
             (new_signals c) (removed_signals c) (modified_signals c).
Definition add_removed_messages (l : list Message.t) (c : changes) : changes :=
  mk_changes (new_messages c) (removed_messages c ++ l) (modified_messages c)
             (new_signals c) (removed_signals c) (modified_signals c).
Definition add_modified_messages (l : list (Message.t * Message.t * list nat))
  (c : changes) : changes :=
  mk_changes (new_messages c) (removed_messages c) (modified_messages c ++ l)
             (new_signals c) (removed_signals c) (modified_signals c).
Definition add_new_signals (l : list (Message.t * Signal.t)) (c : changes) : changes :=
  mk_changes (new_messages c) (removed_messages c) (modified_messages c)
             (new_signals c ++ l) (removed_signals c) (modified_signals c).
Definition add_removed_signals (l : list (Message.t * Signal.t)) (c : changes) : changes :=
  mk_changes (new_messages c) (removed_messages c) (modified_messages c)
             (new_signals c) (removed_signals c ++ l) (modified_signals c).
Definition add_modified_signals
  (l : list (Message.t * Message.t * Signal.t * Signal.t * list nat))
  (c : changes) : changes :=
  mk_changes (new_messages c) (removed_messages c) (modified_messages c)
             (new_signals c) (removed_signals c) (modified_signals c ++ l).

(** A loop whose body updates the accumulated state and may raise. *)
Fixpoint foldM {A S : Type} (body : S -> A -> result S) (l : list A) (s : S)
  : result S :=
  match l with
  | [] => Ok s
  | x :: l' => s' <- body s x ;; foldM body l' s'
  end.

(** The body of the loop over [all_sigs] in [categorize_changes]. *)
Definition categorize_signal (old_msg new_msg : Message.t) (c : changes)
  (sig_name : string) : result changes :=
  match get_signal sig_name old_msg, get_signal sig_name new_msg with
  | Some old_sig, None => Ok (add_removed_signals [(old_msg, old_sig)] c)
  | None, Some new_sig => Ok (add_new_signals [(new_msg, new_sig)] c)
  | Some old_sig, Some new_sig =>
      old_full <- build_sig_summary_row old_msg old_sig ;;
      let old_sr := skipn 3 old_full in
      new_full <- build_sig_summary_row new_msg new_sig ;;
      let new_sr := skipn 3 new_full in
      sig_diffs <- diff_indices old_sr new_sr (seq 0 (List.length old_sr)) ;;
      Ok (match sig_diffs with
          | [] => c
          | _ => add_modified_signals
                   [(old_msg, new_msg, old_sig, new_sig, sig_diffs)] c
          end)
  | None, None => Ok c
  end.

(** The body of the loop over [all_msg_ids] in [categorize_changes].  An id
    of neither database reaches the attribute access on [None]. *)
Definition categorize_message (old_db new_db : DBCDatabase.t) (c : changes)
  (msg_id : Z) : result changes :=
  match get_message msg_id old_db, get_message msg_id new_db with
  | Some old_msg, None =>
      Ok (add_removed_signals
            (map (fun sig => (old_msg, sig)) (od_values (Message.signals old_msg)))
            (add_removed_messages [old_msg] c))
  | None, Some new_msg =>
      Ok (add_new_signals
            (map (fun sig => (new_msg, sig)) (od_values (Message.signals new_msg)))
            (add_new_messages [new_msg] c))
  | Some old_msg, Some new_msg =>
      let old_row := build_msg_summary_row old_msg in
      let new_row := build_msg_summary_row new_msg in
      msg_diffs <- diff_indices old_row new_row (seq 0 (List.length old_row)) ;;
      let c1 := match msg_diffs with
                | [] => c
                | _ => add_modified_messages [(old_msg, new_msg, msg_diffs)] c
                end in
      foldM (categorize_signal old_msg new_msg) (all_sig_names old_msg new_msg) c1
  | None, None => Raise AttributeError
  end.

(** [categorize_changes(old_db, new_db)]. *)
Definition categorize_changes (old_db new_db : DBCDatabase.t) : result changes :=
  foldM (categorize_message old_db new_db) (all_msg_ids old_db new_db) no_changes.

(* ================================================================== *)
(** ** Strings and numbers of the parser *)

Definition code (c : ascii) : nat := nat_of_ascii c.
Definition in_range (lo hi : nat) (c : ascii) : bool :=
  (Nat.leb lo (code c)) && (Nat.leb (code c) hi).

(** [c.isspace()], the class [\s]: tab to carriage return, the four
    separators 28 to 31, and the space. *)
Definition is_space (c : ascii) : bool := in_range 9 13 c || in_range 28 32 c.
(** The class [\d]. *)
Definition is_digit (c : ascii) : bool := in_range 48 57 c.
(** The class [\w]. *)
Definition is_word (c : ascii) : bool :=
  is_digit c || in_range 65 90 c || in_range 97 122 c || Ascii.eqb c "_".
(** The line feed. *)
Definition is_newline (c : ascii) : bool := Ascii.eqb c "010".

Fixpoint drop_while (p : ascii -> bool) (s : string) : string :=
  match s with
  | String c s' => if p c then drop_while p s' else s
  | EmptyString => EmptyString
  end.

Definition string_rev (s : string) : string :=
  string_of_list_ascii (rev (list_ascii_of_string s)).

(** [s.strip()] for a class of blanks. *)
Definition strip_by (p : ascii -> bool) (s : string) : string :=
  string_rev (drop_while p (string_rev (drop_while p s))).

(** [s.strip()]. *)
Definition strip (s : string) : string := strip_by is_space s.

(** The pieces of [s] between the characters of class [p]; [cur] is the
    piece being read, reversed. *)
Fixpoint pieces (p : ascii -> bool) (s : string) (cur : list ascii) : list string :=
  match s with
  | EmptyString => [string_of_list_ascii (rev cur)]
  | String c s' =>
      if p c then string_of_list_ascii (rev cur) :: pieces p s' []
      else pieces p s' (c :: cur)
  end.

(** [s.split(",")]. *)
Definition split_on (sep : ascii) (s : string) : list string :=
  pieces (Ascii.eqb sep) s [].

(** [s.split()]: the maximal runs without blanks. *)
Definition split (s : string) : list string :=
  filter str_truthy (pieces is_space s []).

(** *** [int(s)] *)

(** [int(s)] on a string of decimal digits with an optional minus sign,
    which is all the patterns of [parse_dbc] hand to it.  [int_value s] is
    the integer the string denotes. *)
Definition digit_val (c : ascii) : Z := Z.of_nat (code c) - 48.

Fixpoint int_of_digits (s : string) (acc : Z) : Z :=
  match s with
  | EmptyString => acc
  | String c s' => int_of_digits s' (10 * acc + digit_val c)
  end.

Definition int_value (s : string) : Z :=
  match s with
  | String "-" s' => - int_of_digits s' 0
  | _ => int_of_digits s 0
  end.

(** The interpreter converts no string of more than 4300 digits: [int]
    raises [ValueError] on one.  Leading zeros count, the sign does not. *)
Definition int_max_str_digits : nat := 4300.

Definition digit_count (s : string) : nat :=
  match s with
  | String "-" s' => String.length s'
  | _ => String.length s
  end.

Definition py_int (s : string) : result Z :=
  if Nat.ltb int_max_str_digits (digit_count s) then Raise ValueError
  else Ok (int_value s).

(** *** [float(s)] *)

(** The nearest binary64 to [n / d] for positive [n] and [d], ties to the
    even significand; an infinity from [2^1024] on. *)
Definition round_binary64 (neg : bool) (n d : Z) : spec_float :=
  let scaled := fun e : Z => if 0 <=? e then (n, d * 2 ^ e) else (n * 2 ^ (- e), d) in
  let e0 := Z.log2 n - Z.log2 d - 52 in
  let e1 := if fst (scaled e0) / snd (scaled e0) <? 2 ^ 52 then e0 - 1 else e0 in
  let e := Z.max e1 (-1074) in
  let a := fst (scaled e) in
  let b := snd (scaled e) in
  let m := a / b in
  let r := a mod b in
  let m' := if (b <? 2 * r) || ((b =? 2 * r) && Z.odd m) then m + 1 else m in
  if m' =? 0 then S754_zero neg
  else if 1024 <=? Z.log2 m' + e then S754_infinity neg
  else S754_finite neg (Z.to_pos m') e.

(** The float nearest to [digits * 10 ^ exp10]. *)
Definition decimal_to_float (neg : bool) (digits exp10 : Z) : spec_float :=
  if digits =? 0 then S754_zero neg
  else if 0 <=? exp10 then round_binary64 neg (digits * 10 ^ exp10) 1
  else round_binary64 neg digits (10 ^ (- exp10)).

(** The blanks [float] skips around an ASCII literal. *)
Definition is_float_space (c : ascii) : bool :=
  in_range 9 13 c || Ascii.eqb c " ".

(** Underscores are allowed between two digits only; the result is the
    literal without them. [prev] is the character before [s]. *)
Fixpoint remove_underscores (prev : ascii) (s : string) : option string :=
  match s with
  | EmptyString => if Ascii.eqb prev "_" then None else Some EmptyString
  | String c s' =>
      if Ascii.eqb c "_" then
        if is_digit prev then remove_underscores c s' else None
      else if Ascii.eqb prev "_" && negb (is_digit c) then None
      else option_map (String c) (remove_underscores c s')
  end.

(** The leading digits of [s] and what follows them. *)
Fixpoint take_digits (s : string) : string * string :=
  match s with
  | String c s' =>
      if is_digit c then
        let r := take_digits s' in (String c (fst r), snd r)
      else (EmptyString, s)
  | EmptyString => (EmptyString, EmptyString)
  end.

(** A leading sign: whether it is a minus, and what follows it. *)
Definition take_sign (s : string) : bool * string :=
  match s with
  | String "-" s' => (true, s')
  | String "+" s' => (false, s')
  | _ => (false, s)
  end.

Definition lower (c : ascii) : ascii :=
  if in_range 65 90 c then ascii_of_nat (code c + 32) else c.

Fixpoint lowercase (s : string) : string :=
  match s with
  | EmptyString => EmptyString
  | String c s' => String (lower c) (lowercase s')
  end.

(** A literal without blanks and underscores: [inf], [infinity], [nan] in
    any case, or digits with an optional point and an optional exponent,
    after an optional sign. *)
Definition parse_float_literal (s : string) : option spec_float :=
  let neg := fst (take_sign s) in
  let body := snd (take_sign s) in
  let low := lowercase body in
  if String.eqb low "inf" || String.eqb low "infinity" then Some (S754_infinity neg)
  else if String.eqb low "nan" then Some S754_nan
  else
    let ip := fst (take_digits body) in
    let r1 := snd (take_digits body) in
    let fp := match r1 with String "." r => fst (take_digits r) | _ => EmptyString end in
    let r2 := match r1 with String "." r => snd (take_digits r) | _ => r1 end in
    let digits := int_of_digits (String.append ip fp) 0 in
    let scale := - Z.of_nat (String.length fp) in
    if String.eqb ip "" && String.eqb fp "" then None
    else
      match r2 with
      | EmptyString => Some (decimal_to_float neg digits scale)
      | String c r3 =>
          if Ascii.eqb (lower c) "e" then
            let eneg := fst (take_sign r3) in
            let ed := fst (take_digits (snd (take_sign r3))) in
            let r4 := snd (take_digits (snd (take_sign r3))) in
            if String.eqb ed "" || negb (String.eqb r4 "") then None
            else
              let ev := int_of_digits ed 0 in
              Some (decimal_to_float neg digits (scale + (if eneg then - ev else ev)))
          else None
      end.

(** [float(s)]. *)
Definition py_float (s : string) : result spec_float :=
  match remove_underscores "000" (strip_by is_float_space s) with
  | None => Raise ValueError
  | Some lit =>
      match parse_float_literal lit with
      | Some f => Ok f
      | None => Raise ValueError
      end
  end.

(* ================================================================== *)
(** ** The fragment of [re] the parser uses *)

(** Every pattern of [parse_dbc] is a sequence of single characters and
    character classes, each taken once, optionally, or repeated, with
    capture groups that do not nest. *)
Inductive cclass : Type :=
| Lit (c : ascii)          (* the character itself *)
| Space                    (* \s *)
| Word                     (* \w *)
| Digit                    (* \d *)
| AnyButNewline            (* . *)
| NoneOf (cs : string)     (* [^...] *)
| OneOf (cs : string).     (* [...] *)

Fixpoint mem_char (c : ascii) (cs : string) : bool :=
  match cs with
  | EmptyString => false
  | String d cs' => Ascii.eqb c d || mem_char c cs'
  end.

Definition in_class (k : cclass) (c : ascii) : bool :=
  match k with
  | Lit d => Ascii.eqb c d
  | Space => is_space c
  | Word => is_word c
  | Digit => is_digit c
  | AnyButNewline => negb (is_newline c)
  | NoneOf cs => negb (mem_char c cs)
  | OneOf cs => mem_char c cs
  end.

Inductive item : Type :=
| One (k : cclass)         (* k *)
| Opt (k : cclass)         (* k? *)
| Star (k : cclass)        (* k* *)
| LazyStar (k : cclass)    (* k*? *)
| GroupOpen                (* ( *)
| GroupClose.              (* ) *)

Definition snoc (s : string) (c : ascii) : string :=
  String.append s (String c EmptyString).

(** Backtracking match of [r] at the head of [s], the alternatives tried in
    the order of [re]: a greedy repetition from the longest, a lazy one from
    the shortest.  [cur] is the text read since the last open parenthesis,
    [caps] the closed groups, last first.  The result is the groups in
    order and what is left of [s]. *)
Fixpoint rmatch (r : list item) (s : string) (cur : string) (caps : list string)
  {struct r} : option (list string * string) :=
  match r with
  | [] => Some (rev caps, s)
  | GroupOpen :: r' => rmatch r' s EmptyString caps
  | GroupClose :: r' => rmatch r' s EmptyString (cur :: caps)
  | One k :: r' =>
      match s with
      | String c s' => if in_class k c then rmatch r' s' (snoc cur c) caps else None
      | EmptyString => None
      end
  | Opt k :: r' =>
      match s with
      | String c s' =>
          if in_class k c then
            match rmatch r' s' (snoc cur c) caps with
            | Some x => Some x
            | None => rmatch r' s cur caps
            end
          else rmatch r' s cur caps
      | EmptyString => rmatch r' s cur caps
      end
  | Star k :: r' =>
      (fix star (s : string) (cur : string) {struct s} :=
         match s with
         | String c s' =>
             if in_class k c then
               match star s' (snoc cur c) with
               | Some x => Some x
               | None => rmatch r' s cur caps
               end
             else rmatch r' s cur caps
         | EmptyString => rmatch r' s cur caps
         end) s cur
  | LazyStar k :: r' =>
      (fix lazy (s : string) (cur : string) {struct s} :=
         match rmatch r' s cur caps with
         | Some x => Some x
         | None =>
             match s with
             | String c s' => if in_class k c then lazy s' (snoc cur c) else None
             | EmptyString => None
             end
         end) s cur
  end.

(** A match object: [start()], [end()] and the groups. *)
Record rematch : Type := mk_match {
  m_start : nat;
  m_end : nat;
  m_groups : list string
}.

(** [m.group(i)] for [i >= 1]. *)
Definition group (m : rematch) (i : nat) : string :=
  nth (Nat.pred i) (m_groups m) EmptyString.

(** A compiled pattern: whether it starts with [^] (in [re.MULTILINE]
    mode), and its items. *)
Record pattern : Type := mk_pattern {
  anchored : bool;
  items : list item
}.

(** The scan of [finditer]: [s] is the text from offset [pos] on, [bol]
    tells whether [pos] starts a line, [skip] counts the characters of the
    last match still ahead. *)
Fixpoint scan (p : pattern) (s : string) (bol : bool) (skip : nat) (pos : nat)
  : list rematch :=
  let attempt :=
    match skip with
    | O => if negb (anchored p) || bol then rmatch (items p) s EmptyString [] else None
    | S _ => None
    end in
  match attempt with
  | Some (caps, rest) =>
      let n := (String.length s - String.length rest)%nat in
      mk_match pos (pos + n) caps ::
        match s with
        | EmptyString => []
        | String c s' => scan p s' (is_newline c) (Nat.pred n) (S pos)
        end
  | None =>
      match s with
      | EmptyString => []
      | String c s' => scan p s' (is_newline c) (Nat.pred skip) (S pos)
      end
  end.

(** [list(p.finditer(s))]. *)
Definition finditer (p : pattern) (s : string) : list rematch :=
  scan p s true 0 0.

(** [p.search(s)]. *)
Definition search (p : pattern) (s : string) : option rematch :=
  hd_error (finditer p s).

(** [s[i:j]] for [i <= j]. *)
Definition slice (s : string) (i j : nat) : string := substring i (j - i) s.

(** Pattern building. *)
Definition dquote : ascii := "034".
Definition lit (s : string) : list item :=
  map (fun c => One (Lit c)) (list_ascii_of_string s).
Definition plus (k : cclass) : list item := [One k; Star k].
Definition grp (r : list item) : list item := GroupOpen :: r ++ [GroupClose].
Definition quoted (r : list item) : list item :=
  One (Lit dquote) :: r ++ [One (Lit dquote)].
(** Digits, a word, blanks, optional blanks, an integer with an optional
    minus sign, and a run without a double quote. *)
Definition digits : list item := plus Digit.
Definition word : list item := plus Word.
Definition blanks : list item := plus Space.
Definition blanks0 : list item := [Star Space].
Definition integer : list item := Opt (Lit "-") :: plus Digit.
Definition unquoted : list item := [Star (NoneOf (String dquote EmptyString))].

(* ================================================================== *)
(** ** The patterns of [parse_dbc] *)

(** The node list: BU_, optional blanks, a colon, optional blanks, the
    rest of the line. *)
Definition bu_pattern : pattern :=
  mk_pattern true
    (lit "BU_" ++ blanks0 ++ lit ":" ++ blanks0 ++ grp [Star AnyButNewline]).

(** A message declaration: BO_, id, name, colon, length, transmitter. *)
Definition msg_pattern : pattern :=
  mk_pattern true
    (lit "BO_" ++ blanks ++ grp digits ++ blanks ++ grp word ++ blanks0 ++
     lit ":" ++ blanks0 ++ grp digits ++ blanks ++ grp word).

(** A signal declaration: name, start|length@order sign, (factor,offset),
    [min|max], the quoted unit, the receivers to the end of the line. *)
Definition sig_pattern : pattern :=
  mk_pattern true
    (blanks ++ lit "SG_" ++ blanks ++ grp word ++ blanks0 ++ lit ":" ++ blanks0 ++
     grp digits ++ lit "|" ++ grp digits ++ lit "@" ++
     grp [One (OneOf "01")] ++ grp [One (OneOf "+-")] ++ blanks0 ++
     lit "(" ++ grp (plus (NoneOf ",")) ++ lit "," ++ grp (plus (NoneOf ")")) ++
     lit ")" ++ blanks0 ++
     lit "[" ++ grp (plus (NoneOf "|")) ++ lit "|" ++ grp (plus (NoneOf "]")) ++
     lit "]" ++ blanks0 ++
     quoted (grp unquoted) ++ blanks0 ++ grp [Star AnyButNewline]).

(** A message-level integer attribute of the given name. *)
Definition msg_int_attr_pattern (attr_name : string) : pattern :=
  mk_pattern true
    (lit "BA_ " ++ quoted (lit attr_name) ++ lit " BO_ " ++ grp digits ++
     lit " " ++ grp integer ++ blanks0 ++ lit ";").

(** The long symbol of a message. *)
Definition lm_pattern : pattern :=
  mk_pattern true
    (lit "BA_ " ++ quoted (lit "SystemMessageLongSymbol") ++ lit " BO_ " ++
     grp digits ++ lit " " ++ quoted (grp unquoted) ++ blanks0 ++ lit ";").

(** A signal-level integer and string attribute of the given name. *)
Definition sig_int_attr_pattern (attr_name : string) : pattern :=
  mk_pattern true
    (lit "BA_ " ++ quoted (lit attr_name) ++ lit " SG_ " ++ grp digits ++
     lit " " ++ grp word ++ lit " " ++ grp integer ++ blanks0 ++ lit ";").

Definition sig_str_attr_pattern (attr_name : string) : pattern :=
  mk_pattern true
    (lit "BA_ " ++ quoted (lit attr_name) ++ lit " SG_ " ++ grp digits ++
     lit " " ++ grp word ++ lit " " ++ quoted (grp unquoted) ++ blanks0 ++ lit ";").

(** A value table, and one of its pairs. *)
Definition val_pattern : pattern :=
  mk_pattern true
    (lit "VAL_" ++ blanks ++ grp digits ++ blanks ++ grp word ++ blanks ++
     grp [LazyStar AnyButNewline] ++ blanks0 ++ lit ";").

Definition pair_pattern : pattern :=
  mk_pattern false (grp digits ++ blanks ++ quoted (grp unquoted)).

(** The comment of a signal and of a message. *)
Definition cm_sig_pattern : pattern :=
  mk_pattern true
    (lit "CM_" ++ blanks ++ lit "SG_" ++ blanks ++ grp digits ++ blanks ++
     grp word ++ blanks ++ quoted (grp unquoted) ++ blanks0 ++ lit ";").

Definition cm_msg_pattern : pattern :=
  mk_pattern true
    (lit "CM_" ++ blanks ++ lit "BO_" ++ blanks ++ grp digits ++ blanks ++
     quoted (grp unquoted) ++ blanks0 ++ lit ";").

(** A global string attribute of the given name. *)
Definition global_attr_pattern (attr_name : string) : pattern :=
  mk_pattern true
    (lit "BA_" ++ blanks ++ quoted (lit attr_name) ++ blanks ++
     quoted (grp unquoted) ++ blanks0 ++ lit ";").

(* ================================================================== *)
(** ** [parse_dbc] *)

(** The body of the loop over the signal lines of a message block. *)
Definition parse_signal (sm : rematch) : result Signal.t :=
  let name := group sm 1 in
  start_bit <- py_int (group sm 2) ;;
  length <- py_int (group sm 3) ;;
  byte_order <- py_int (group sm 4) ;;
  let value_type := group sm 5 in
  factor <- py_float (group sm 6) ;;
  offset <- py_float (group sm 7) ;;
  minimum <- py_float (group sm 8) ;;
  maximum <- py_float (group sm 9) ;;
  let unit := group sm 10 in
  let receivers_str := strip (group sm 11) in
  let receivers :=
    map strip (filter (fun r => str_truthy (strip r)) (split_on "," receivers_str)) in
  Ok (Signal.mk name start_bit length byte_order value_type
                factor offset minimum maximum unit receivers
                (Signal.comment Signal.init) (Signal.value_desc Signal.init)
                (Signal.invalid_value Signal.init) (Signal.start_value Signal.init)
                (Signal.inactive_value Signal.init) (Signal.send_type Signal.init)
                (Signal.timeout_time Signal.init) (Signal.long_symbol Signal.init)).

(** The signals of a message block: [msg.signals[sig.name] = sig] for each
    signal line in turn. *)
Definition parse_signals (msg_block : string) : result (list (string * Signal.t)) :=
  foldM (fun signals sm =>
           sig <- parse_signal sm ;;
           Ok (od_set String.eqb (Signal.name sig) sig signals))
        (finditer sig_pattern msg_block) [].

(** A [Message()] with its four declared fields assigned. *)
Definition declared_message (msg_id : Z) (name : string) (dlc : Z)
  (transmitter : string) : Message.t :=
  Message.mk msg_id name dlc transmitter
    (Message.signals Message.init) (Message.comment Message.init)
    (Message.cycle_time Message.init) (Message.cycle_time_fast Message.init)
    (Message.cycle_time_active Message.init) (Message.send_type Message.init)
    (Message.nr_of_repetition Message.init) (Message.delay_time Message.init)
    (Message.start_delay_time Message.init) (Message.il_support Message.init)
    (Message.nm_message Message.init) (Message.nm_asr_message Message.init)
    (Message.vframe_format Message.init) (Message.canfd_brs Message.init)
    (Message.diag_request Message.init) (Message.diag_response Message.init)
    (Message.diag_state Message.init) (Message.long_symbol Message.init).

(** The loop over [msg_matches]: a block runs from the end of its
    declaration to the start of the next one, or to the end of the text. *)
Fixpoint parse_messages (content : string) (msg_matches : list rematch)
  (messages : list (Z * Message.t)) : result (list (Z * Message.t)) :=
  match msg_matches with
  | [] => Ok messages
  | mm :: rest =>
      msg_id <- py_int (group mm 1) ;;
      dlc <- py_int (group mm 3) ;;
      let msg := declared_message msg_id (group mm 2) dlc (group mm 4) in
      let start_pos := m_end mm in
      let end_pos := match rest with
                     | next :: _ => m_start next
                     | [] => String.length content
                     end in
      let msg_block := slice content start_pos end_pos in
      signals <- parse_signals msg_block ;;
      let msg := Message.set_signals signals msg in
      parse_messages content rest (od_set Z.eqb (Message.msg_id msg) msg messages)
  end.

(** *** The attribute sweeps *)

Section Update.
Context {K V : Type} (eqb : K -> K -> bool).

(** [d[k]] replaced by [f d[k]], for a key of [d]. *)
Fixpoint od_update (k : K) (f : V -> V) (d : list (K * V)) : list (K * V) :=
  match d with
  | [] => []
  | (k', v) :: d' =>
      if eqb k k' then (k', f v) :: d' else (k', v) :: od_update k f d'
  end.
End Update.

(** [if msg_id in db.messages: db.messages[msg_id].<field> = ...]. *)
Definition update_message (msg_id : Z) (f : Message.t -> Message.t)
  (messages : list (Z * Message.t)) : list (Z * Message.t) :=
  if od_mem Z.eqb msg_id messages then od_update Z.eqb msg_id f messages
  else messages.

(** [msg_id in db.messages and sig_name in db.messages[msg_id].signals]. *)
Definition has_signal (msg_id : Z) (sig_name : string)
  (messages : list (Z * Message.t)) : bool :=
  match od_get Z.eqb msg_id messages with
  | Some msg => od_mem String.eqb sig_name (Message.signals msg)
  | None => false
  end.

(** Under that guard, [db.messages[msg_id].signals[sig_name].<field> = ...]. *)
Definition update_signal (msg_id : Z) (sig_name : string) (f : Signal.t -> Signal.t)
  (messages : list (Z * Message.t)) : list (Z * Message.t) :=
  if has_signal msg_id sig_name messages then
    od_update Z.eqb msg_id
      (fun msg => Message.set_signals
                    (od_update String.eqb sig_name f (Message.signals msg)) msg)
      messages
  else messages.

(** [parse_msg_int_attr(attr_name)]: for each match,
    [results[int(m.group(1))] = int(m.group(2))], the assigned value
    converted before the key. *)
Definition parse_msg_int_attr (content attr_name : string) : result (list (Z * Z)) :=
  foldM (fun results m =>
           val <- py_int (group m 2) ;;
           msg_id <- py_int (group m 1) ;;
           Ok (od_set Z.eqb msg_id val results))
        (finditer (msg_int_attr_pattern attr_name) content) [].

(** The loop over the items of such a dictionary. *)
Definition apply_msg_int_attr (f : Message.int_field) (attr_dict : list (Z * Z))
  (messages : list (Z * Message.t)) : list (Z * Message.t) :=
  fold_left (fun msgs kv => update_message (fst kv) (Message.set_int f (snd kv)) msgs)
            attr_dict messages.

(** The attribute stored in each integer field of a message. *)
Definition msg_int_attr_name (f : Message.int_field) : string :=
  match f with
  | Message.F_cycle_time => "GenMsgCycleTime"
  | Message.F_cycle_time_fast => "GenMsgCycleTimeFast"
  | Message.F_cycle_time_active => "GenMsgCycleTimeActive"
  | Message.F_send_type => "GenMsgSendType"
  | Message.F_nr_of_repetition => "GenMsgNrOfRepetition"
  | Message.F_delay_time => "GenMsgDelayTime"
  | Message.F_start_delay_time => "GenMsgStartDelayTime"
  | Message.F_il_support => "GenMsgILSupport"
  | Message.F_nm_message => "NmMessage"
  | Message.F_nm_asr_message => "NmAsrMessage"
  | Message.F_vframe_format => "VFrameFormat"
  | Message.F_canfd_brs => "CANFD_BRS"
  | Message.F_diag_request => "DiagRequest"
  | Message.F_diag_response => "DiagResponse"
  | Message.F_diag_state => "DiagState"
  end.

(** The fifteen message-level integer attributes, in the order of their
    sweeps. *)
Definition msg_int_fields : list Message.int_field :=
  [ Message.F_cycle_time; Message.F_cycle_time_fast; Message.F_cycle_time_active;
    Message.F_send_type; Message.F_nr_of_repetition; Message.F_delay_time;
    Message.F_start_delay_time; Message.F_il_support; Message.F_nm_message;
    Message.F_nm_asr_message; Message.F_vframe_format; Message.F_canfd_brs;
    Message.F_diag_request; Message.F_diag_response; Message.F_diag_state ].

(** The sweep of one message-level integer attribute, and the fifteen
    of them. *)
Definition sweep_msg_int (f : Message.int_field) (content : string)
  (messages : list (Z * Message.t)) : result (list (Z * Message.t)) :=
  attr_dict <- parse_msg_int_attr content (msg_int_attr_name f) ;;
  Ok (apply_msg_int_attr f attr_dict messages).

Definition sweep_msg_int_attrs (content : string) (messages : list (Z * Message.t))
  : result (list (Z * Message.t)) :=
  foldM (fun msgs f => sweep_msg_int f content msgs) msg_int_fields messages.

(** The sweep of the long symbols of messages. *)
Definition sweep_long_symbol (content : string) (messages : list (Z * Message.t))
  : result (list (Z * Message.t)) :=
  foldM (fun msgs m =>
           msg_id <- py_int (group m 1) ;;
           Ok (update_message msg_id (Message.set_long_symbol (group m 2)) msgs))
        (finditer lm_pattern content) messages.

(** Keys of the signal attribute dictionaries. *)
Definition sig_key_eqb (a b : Z * string) : bool :=
  Z.eqb (fst a) (fst b) && String.eqb (snd a) (snd b).

(** [parse_sig_int_attr(attr_name)]: for each match,
    [results[(int(m.group(1)), m.group(2))] = int(m.group(3))], the assigned
    value converted before the key. *)
Definition parse_sig_int_attr (content attr_name : string)
  : result (list (Z * string * Z)) :=
  foldM (fun results m =>
           val <- py_int (group m 3) ;;
           msg_id <- py_int (group m 1) ;;
           Ok (od_set sig_key_eqb (msg_id, group m 2) val results))
        (finditer (sig_int_attr_pattern attr_name) content) [].

(** [parse_sig_str_attr(attr_name)]: for each match,
    [results[(int(m.group(1)), m.group(2))] = m.group(3)]. *)
Definition parse_sig_str_attr (content attr_name : string)
  : result (list (Z * string * string)) :=
  foldM (fun results m =>
           msg_id <- py_int (group m 1) ;;
           Ok (od_set sig_key_eqb (msg_id, group m 2) (group m 3) results))
        (finditer (sig_str_attr_pattern attr_name) content) [].

(** [apply_sig_attr(attr_dict, field_name)], with the [setattr] on
    [field_name] as the function [set]. *)
Definition apply_sig_attr {T : Type} (attr_dict : list (Z * string * T))
  (set : T -> Signal.t -> Signal.t) (messages : list (Z * Message.t))
  : list (Z * Message.t) :=
  fold_left (fun msgs kv =>
               update_signal (fst (fst kv)) (snd (fst kv)) (set (snd kv)) msgs)
            attr_dict messages.

(** The attribute stored in each field of a signal. *)
Definition sig_int_attr_name (f : Signal.int_field) : string :=
  match f with
  | Signal.F_start_value => "GenSigStartValue"
  | Signal.F_inactive_value => "GenSigInactiveValue"
  | Signal.F_send_type => "GenSigSendType"
  | Signal.F_timeout_time => "GenSigTimeoutTime_ALL"
  end.

Definition sig_str_attr_name (f : Signal.str_field) : string :=
  match f with
  | Signal.F_invalid_value => "InvalidValue"
  | Signal.F_long_symbol => "SystemSignalLongSymbol"
  end.

Definition sweep_sig_int (f : Signal.int_field) (content : string)
  (messages : list (Z * Message.t)) : result (list (Z * Message.t)) :=
  attr_dict <- parse_sig_int_attr content (sig_int_attr_name f) ;;
  Ok (apply_sig_attr attr_dict (Signal.set_int f) messages).

Definition sweep_sig_str (f : Signal.str_field) (content : string)
  (messages : list (Z * Message.t)) : result (list (Z * Message.t)) :=
  attr_dict <- parse_sig_str_attr content (sig_str_attr_name f) ;;
  Ok (apply_sig_attr attr_dict (Signal.set_str f) messages).

(** The six signal-level attributes, in the order of their sweeps. *)
Definition sweep_sig_attrs (content : string) (messages : list (Z * Message.t))
  : result (list (Z * Message.t)) :=
  messages <- sweep_sig_int Signal.F_start_value content messages ;;
  messages <- sweep_sig_int Signal.F_inactive_value content messages ;;
  messages <- sweep_sig_int Signal.F_send_type content messages ;;
  messages <- sweep_sig_int Signal.F_timeout_time content messages ;;
  messages <- sweep_sig_str Signal.F_invalid_value content messages ;;
  sweep_sig_str Signal.F_long_symbol content messages.

(** The description a value table collapses to: each pair as number, colon,
    blank, label, the pairs joined by a comma and a blank. *)
Definition value_description (val_str : string) : string :=
  join ", "
       (map (fun pm => String.append (group pm 1) (String.append ": " (group pm 2)))
            (finditer pair_pattern val_str)).

(** The sweep of the value tables. *)
Definition sweep_val (content : string) (messages : list (Z * Message.t))
  : result (list (Z * Message.t)) :=
  foldM (fun msgs vm =>
           msg_id <- py_int (group vm 1) ;;
           let sig_name := group vm 2 in
           let val_str := strip (group vm 3) in
           Ok (update_signal msg_id sig_name
                 (Signal.set_value_desc (value_description val_str)) msgs))
        (finditer val_pattern content) messages.

(** The sweeps of the comments of signals and of messages. *)
Definition sweep_cm_sig (content : string) (messages : list (Z * Message.t))
  : result (list (Z * Message.t)) :=
  foldM (fun msgs cm =>
           msg_id <- py_int (group cm 1) ;;
           Ok (update_signal msg_id (group cm 2) (Signal.set_comment (group cm 3)) msgs))
        (finditer cm_sig_pattern content) messages.

Definition sweep_cm_msg (content : string) (messages : list (Z * Message.t))
  : result (list (Z * Message.t)) :=
  foldM (fun msgs cm =>
           msg_id <- py_int (group cm 1) ;;
           Ok (update_message msg_id (Message.set_comment (group cm 2)) msgs))
        (finditer cm_msg_pattern content) messages.

(** All the sweeps after the declarations, in the order of the source. *)
Definition sweep_all (content : string) (messages : list (Z * Message.t))
  : result (list (Z * Message.t)) :=
  messages <- sweep_msg_int_attrs content messages ;;
  messages <- sweep_long_symbol content messages ;;
  messages <- sweep_sig_attrs content messages ;;
  messages <- sweep_val content messages ;;
  messages <- sweep_cm_sig content messages ;;
  sweep_cm_msg content messages.

(** The node list and the global attributes. *)
Definition parse_nodes (content : string) : list string :=
  match search bu_pattern content with
  | Some bu_match => split (strip (group bu_match 1))
  | None => DBCDatabase.nodes DBCDatabase.init
  end.

Definition parse_global (content attr_name default : string) : string :=
  match search (global_attr_pattern attr_name) content with
  | Some m => group m 1
  | None => default
  end.

(** [parse_dbc], from the text [content] read from the file. *)
Definition parse_dbc (content : string) : result DBCDatabase.t :=
  let nodes := parse_nodes content in
  messages <- parse_messages content (finditer msg_pattern content) [] ;;
  messages <- sweep_all content messages ;;
  Ok (DBCDatabase.mk
        messages
        nodes
        (parse_global content "BusType" (DBCDatabase.bus_type DBCDatabase.init))
        (parse_global content "DBName" (DBCDatabase.db_name DBCDatabase.init))
        (DBCDatabase.baudrate DBCDatabase.init)
        (DBCDatabase.baudrate_canfd DBCDatabase.init)).

(* ================================================================== *)
(** ** Conditions and readings used by the statements *)

(** A float that is neither an infinity nor a NaN. *)
Definition float_finite (f : spec_float) : bool :=
  match f with
  | S754_zero _ => true
  | S754_finite _ _ _ => true
  | _ => false
  end.

(** The scale, offset, minimum and maximum of a signal are finite. *)
Definition signal_finite (s : Signal.t) : bool :=
  float_finite (Signal.factor s) && float_finite (Signal.offset s) &&
  float_finite (Signal.minimum s) && float_finite (Signal.maximum s).

Definition message_finite (m : Message.t) : bool :=
  forallb signal_finite (od_values (Message.signals m)).

Definition db_finite (db : DBCDatabase.t) : bool :=
  forallb message_finite (od_values (DBCDatabase.messages db)).

(** A row tuple that reports no difference. *)
Definition no_diff (r : row_tuple) : Prop :=
  has_diff r = false /\ diff_cols r = [].

(** *** The categorized changes, read off the two databases *)

(** Componentwise concatenation of two records of changes. *)
Definition changes_app (c d : changes) : changes :=
  mk_changes (new_messages c ++ new_messages d)
             (removed_messages c ++ removed_messages d)
             (modified_messages c ++ modified_messages d)
             (new_signals c ++ new_signals d)
             (removed_signals c ++ removed_signals d)
             (modified_signals c ++ modified_signals d).

Definition is_Ok {A : Type} (c : result A) : bool :=
  match c with Ok _ => true | Raise _ => false end.

(** The summary rows of a signal pair of both versions can be built. *)
Definition pair_ok (old_msg new_msg : Message.t) (sig_name : string) : bool :=
  match get_signal sig_name old_msg, get_signal sig_name new_msg with
  | Some old_sig, Some new_sig =>
      is_Ok (build_sig_summary_row old_msg old_sig) &&
      is_Ok (build_sig_summary_row new_msg new_sig)
  | _, _ => true
  end.

(** The changed summary fields of a signal pair. *)
Definition sig_diffs_of (old_msg new_msg : Message.t) (old_sig new_sig : Signal.t)
  : list nat :=
  match build_sig_summary_row old_msg old_sig, build_sig_summary_row new_msg new_sig with
  | Ok old_full, Ok new_full =>
      match diff_indices (skipn 3 old_full) (skipn 3 new_full)
                         (seq 0 (List.length (skipn 3 old_full))) with
      | Ok d => d
      | Raise _ => []
      end
  | _, _ => []
  end.

(** What one signal name adds to the changes. *)
Definition sig_delta (old_msg new_msg : Message.t) (sig_name : string) : changes :=
  match get_signal sig_name old_msg, get_signal sig_name new_msg with
  | Some old_sig, None => add_removed_signals [(old_msg, old_sig)] no_changes
  | None, Some new_sig => add_new_signals [(new_msg, new_sig)] no_changes
  | Some old_sig, Some new_sig =>
      match sig_diffs_of old_msg new_msg old_sig new_sig with
      | [] => no_changes
      | d => add_modified_signals [(old_msg, new_msg, old_sig, new_sig, d)] no_changes
      end
  | None, None => no_changes
  end.

(** The changed summary columns of a message pair. *)
Definition msg_diffs_of (old_msg new_msg : Message.t) : list nat :=
  match diff_indices (build_msg_summary_row old_msg) (build_msg_summary_row new_msg)
                     (seq 0 (List.length (build_msg_summary_row old_msg))) with
  | Ok d => d
  | Raise _ => []
  end.

(** The loop body of [categorize_changes] returns for a message id. *)
Definition msg_ok (old_db new_db : DBCDatabase.t) (msg_id : Z) : bool :=
  match get_message msg_id old_db, get_message msg_id new_db with
  | Some old_msg, Some new_msg =>
      forallb (pair_ok old_msg new_msg) (all_sig_names old_msg new_msg)
  | None, None => false
  | _, _ => true
  end.

(** What one message id adds to the changes. *)
Definition msg_delta (old_db new_db : DBCDatabase.t) (msg_id : Z) : changes :=
  match get_message msg_id old_db, get_message msg_id new_db with
  | Some old_msg, None =>
      add_removed_signals
        (map (fun sig => (old_msg, sig)) (od_values (Message.signals old_msg)))
        (add_removed_messages [old_msg] no_changes)
  | None, Some new_msg =>
      add_new_signals
        (map (fun sig => (new_msg, sig)) (od_values (Message.signals new_msg)))
        (add_new_messages [new_msg] no_changes)
  | Some old_msg, Some new_msg =>
      fold_left changes_app
        (map (sig_delta old_msg new_msg) (all_sig_names old_msg new_msg))
        (match msg_diffs_of old_msg new_msg with
         | [] => no_changes
         | d => add_modified_messages [(old_msg, new_msg, d)] no_changes
         end)
  | None, None => no_changes
  end.

(** The added and the removed entities of a record of changes. *)
Definition added (c : changes) : list Message.t * list (Message.t * Signal.t) :=
  (new_messages c, new_signals c).
Definition removed (c : changes) : list Message.t * list (Message.t * Signal.t) :=
  (removed_messages c, removed_signals c).

(** *** The rows of one message in the row-level view *)

(** [chunk] is the run of rows the iteration for [msg_id] contributes to
    the result [rows] of [compare_dbc_files]; the rows before and after it
    belong to the other message ids. *)
Definition rows_of_message (old_db new_db : DBCDatabase.t) (msg_id : Z)
  (rows chunk : list row_tuple) : Prop :=
  exists l1 l2 pre post,
    all_msg_ids old_db new_db = l1 ++ msg_id :: l2 /\
    ~ In msg_id l1 /\ ~ In msg_id l2 /\
    concat_mapM (compare_message old_db new_db) l1 = Ok pre /\
    concat_mapM (compare_message old_db new_db) l2 = Ok post /\
    compare_message old_db new_db msg_id = Ok chunk /\
    rows = pre ++ chunk ++ post.


(** *** The comparison behind the modified buckets *)

(** Some cell of two rows of the same length differs. *)
Definition rows_differ (r1 r2 : list pyval) : bool :=
  existsb (fun ab => py_ne (fst ab) (snd ab)) (combine r1 r2).

(** One of the eight summary columns of a message pair differs: the
    hexadecimal id, the display name, the length, the list of signal names,
    the label of the send type, the cycle time, the transmitter, or the
    sorted receivers of all signals. *)
Definition msg_summary_differs (o n : Message.t) : bool :=
  negb (String.eqb (String.append "0x" (format_X (Message.msg_id o)))
                   (String.append "0x" (format_X (Message.msg_id n)))) ||
  (negb (String.eqb (Message.display_name o) (Message.display_name n)) ||
  (negb (Message.dlc o =? Message.dlc n) ||
  (negb (String.eqb (get_msg_signal_list o) (get_msg_signal_list n)) ||
  (negb (String.eqb (enum_lookup MSG_SEND_TYPE_ENUM (Message.send_type o) "Cyclic")
                    (enum_lookup MSG_SEND_TYPE_ENUM (Message.send_type n) "Cyclic")) ||
  (negb (Message.cycle_time o =? Message.cycle_time n) ||
  (negb (String.eqb (Message.transmitter o) (Message.transmitter n)) ||
   negb (String.eqb (get_msg_rx_ecus o) (get_msg_rx_ecus n)))))))).

(** One of the nine summary fields of a signal pair differs: the start bit,
    the length, the start value, the minimum, the maximum, the unit, the
    scale, the value table, or the receivers. *)
Definition sig_summary_differs (s t : Signal.t) : bool :=
  negb (Signal.start_bit s =? Signal.start_bit t) ||
  (negb (Signal.length s =? Signal.length t) ||
  (negb (Signal.start_value s =? Signal.start_value t) ||
  (negb (float_eqb (Signal.minimum s) (Signal.minimum t)) ||
  (negb (float_eqb (Signal.maximum s) (Signal.maximum t)) ||
  (negb (String.eqb (Signal.unit s) (Signal.unit t)) ||
  (negb (float_eqb (Signal.factor s) (Signal.factor t)) ||
  (negb (String.eqb (Signal.value_desc s) (Signal.value_desc t)) ||
   negb (String.eqb (join ", " (Signal.receivers s))
                    (join ", " (Signal.receivers t)))))))))).

(** *** The parser, read through its matches *)

(** The float fields of a signal line are accepted by [float]. *)
Definition signal_floats_ok (sm : rematch) : bool :=
  is_Ok (py_float (group sm 6)) && is_Ok (py_float (group sm 7)) &&
  is_Ok (py_float (group sm 8)) && is_Ok (py_float (group sm 9)).

(** The message blocks of a text, one per message declaration. *)
Fixpoint msg_blocks (content : string) (msg_matches : list rematch) : list string :=
  match msg_matches with
  | [] => []
  | mm :: rest =>
      slice content (m_end mm)
            (match rest with
             | next :: _ => m_start next
             | [] => String.length content
             end)
        :: msg_blocks content rest
  end.

(** Every signal line of every message block has float fields that
    [float] accepts. *)
Definition floats_ok (content : string) : bool :=
  forallb (fun block => forallb signal_floats_ok (finditer sig_pattern block))
          (msg_blocks content (finditer msg_pattern content)).

(** [int] accepts the string: it has at most 4300 digits. *)
Definition int_ok (s : string) : bool :=
  Nat.leb (digit_count s) int_max_str_digits.

(** The integers of a message declaration, and of a signal line, are
    accepted by [int]. *)
Definition msg_ints_ok (mm : rematch) : bool :=
  int_ok (group mm 1) && int_ok (group mm 3).

Definition signal_ints_ok (sm : rematch) : bool :=
  int_ok (group sm 2) && int_ok (group sm 3) && int_ok (group sm 4).

(** The integers and the floats of a signal line are accepted. *)
Definition signal_ok (sm : rematch) : bool :=
  signal_ints_ok sm && signal_floats_ok sm.

(** The message a declaration opens, with the signals of its block, on
    the integers the declaration denotes. *)
Definition new_message (mm : rematch) (signals : list (string * Signal.t))
  : Message.t :=
  Message.set_signals signals
    (declared_message (int_value (group mm 1)) (group mm 2)
                      (int_value (group mm 3)) (group mm 4)).

(** The kinds of records swept after the declarations, in the order of
    their sweeps. *)
Inductive kind : Type :=
| K_msg_int (f : Message.int_field)
| K_long_symbol
| K_sig_int (f : Signal.int_field)
| K_sig_str (f : Signal.str_field)
| K_val
| K_cm_sig
| K_cm_msg.

Definition kinds : list kind :=
  map K_msg_int msg_int_fields ++
  [ K_long_symbol;
    K_sig_int Signal.F_start_value; K_sig_int Signal.F_inactive_value;
    K_sig_int Signal.F_send_type; K_sig_int Signal.F_timeout_time;
    K_sig_str Signal.F_invalid_value; K_sig_str Signal.F_long_symbol;
    K_val; K_cm_sig; K_cm_msg ].

Definition kind_pattern (k : kind) : pattern :=
  match k with
  | K_msg_int f => msg_int_attr_pattern (msg_int_attr_name f)
  | K_long_symbol => lm_pattern
  | K_sig_int f => sig_int_attr_pattern (sig_int_attr_name f)
  | K_sig_str f => sig_str_attr_pattern (sig_str_attr_name f)
  | K_val => val_pattern
  | K_cm_sig => cm_sig_pattern
  | K_cm_msg => cm_msg_pattern
  end.

(** What the loops of the sweeps do with the integers their records
    denote: the dictionary of a message attribute,
    [results[int(m.group(1))] = int(m.group(2))], the dictionary of a signal
    attribute, [results[(int(m.group(1)), m.group(2))] = value(m.group(3))],
    and the bodies of the loops over long symbols, value tables and
    comments. *)
Definition msg_int_attr_dict (matches : list rematch) : list (Z * Z) :=
  fold_left (fun results m =>
               od_set Z.eqb (int_value (group m 1)) (int_value (group m 2)) results)
            matches [].

Definition sig_attr_dict {T : Type} (value : string -> T) (matches : list rematch)
  : list (Z * string * T) :=
  fold_left (fun results m =>
               od_set sig_key_eqb (int_value (group m 1), group m 2)
                      (value (group m 3)) results)
            matches [].

Definition long_symbol_step (msgs : list (Z * Message.t)) (m : rematch)
  : list (Z * Message.t) :=
  update_message (int_value (group m 1)) (Message.set_long_symbol (group m 2)) msgs.

Definition val_step (msgs : list (Z * Message.t)) (vm : rematch)
  : list (Z * Message.t) :=
  let msg_id := int_value (group vm 1) in
  let sig_name := group vm 2 in
  let val_str := strip (group vm 3) in
  update_signal msg_id sig_name (Signal.set_value_desc (value_description val_str)) msgs.

Definition cm_sig_step (msgs : list (Z * Message.t)) (cm : rematch)
  : list (Z * Message.t) :=
  update_signal (int_value (group cm 1)) (group cm 2) (Signal.set_comment (group cm 3)) msgs.

Definition cm_msg_step (msgs : list (Z * Message.t)) (cm : rematch)
  : list (Z * Message.t) :=
  update_message (int_value (group cm 1)) (Message.set_comment (group cm 2)) msgs.

(** The integers a record of kind [k] hands to [int] are accepted. *)
Definition rec_ints_ok (k : kind) (m : rematch) : bool :=
  match k with
  | K_msg_int _ => int_ok (group m 2) && int_ok (group m 1)
  | K_sig_int _ => int_ok (group m 3) && int_ok (group m 1)
  | _ => int_ok (group m 1)
  end.

(** The sweep of one kind over the matches of its pattern, when [int]
    accepts the integers of them all. *)
Definition sweep_matches (k : kind) (matches : list rematch)
  (messages : list (Z * Message.t)) : list (Z * Message.t) :=
  match k with
  | K_msg_int f => apply_msg_int_attr f (msg_int_attr_dict matches) messages
  | K_long_symbol => fold_left long_symbol_step matches messages
  | K_sig_int f =>
      apply_sig_attr (sig_attr_dict int_value matches) (Signal.set_int f) messages
  | K_sig_str f =>
      apply_sig_attr (sig_attr_dict (fun s => s) matches) (Signal.set_str f) messages
  | K_val => fold_left val_step matches messages
  | K_cm_sig => fold_left cm_sig_step matches messages
  | K_cm_msg => fold_left cm_msg_step matches messages
  end.

(** The matches of every kind in a text, and the sweeps over them. *)
Definition scan_all (content : string) : list (kind * list rematch) :=
  map (fun k => (k, finditer (kind_pattern k) content)) kinds.

Definition overlay (scans : list (kind * list rematch))
  (messages : list (Z * Message.t)) : list (Z * Message.t) :=
  fold_left (fun msgs km => sweep_matches (fst km) (snd km) msgs) scans messages.

(** The sweep of one kind as the program runs it: [ValueError] when a
    record of the kind holds an integer that [int] refuses. *)
Definition checked_sweep (k : kind) (content : string)
  (messages : list (Z * Message.t)) : result (list (Z * Message.t)) :=
  if forallb (rec_ints_ok k) (finditer (kind_pattern k) content)
  then Ok (sweep_matches k (finditer (kind_pattern k) content) messages)
  else Raise ValueError.

(** The messages after all the sweeps over the records of a text. *)
Definition swept (content : string) (messages : list (Z * Message.t))
  : list (Z * Message.t) :=
  overlay (scan_all content) messages.

(** [int] accepts the integers of every record of every kind. *)
Definition scans_ints_ok (scans : list (kind * list rematch)) : bool :=
  forallb (fun km => forallb (rec_ints_ok (fst km)) (snd km)) scans.

Definition records_ints_ok (content : string) : bool :=
  scans_ints_ok (scan_all content).

(** [int] accepts every integer [parse_dbc] converts: the ids and lengths
    of the message declarations, the start bits, lengths and byte orders
    of the signal lines of the message blocks, and the ids and values of
    the records of every kind, whether the entity they name is declared or
    not. *)
Definition ints_ok (content : string) : bool :=
  forallb msg_ints_ok (finditer msg_pattern content) &&
  forallb (fun block => forallb signal_ints_ok (finditer sig_pattern block))
          (msg_blocks content (finditer msg_pattern content)) &&
  records_ints_ok content.

(** Whether a record is scoped to a signal, and the entity it names. *)
Definition signal_scoped (k : kind) : bool :=
  match k with
  | K_msg_int _ | K_long_symbol | K_cm_msg => false
  | _ => true
  end.

Definition rec_msg_id (m : rematch) : Z := int_value (group m 1).
Definition rec_sig_name (m : rematch) : string := group m 2.

(** The record names a message id that is not declared or, for a record
    scoped to a signal, a signal name that is not declared in it. *)
Definition dangling (k : kind) (m : rematch) (messages : list (Z * Message.t)) : bool :=
  if signal_scoped k then negb (has_signal (rec_msg_id m) (rec_sig_name m) messages)
  else negb (od_mem Z.eqb (rec_msg_id m) messages).

Definition kind_eqb (a b : kind) : bool :=
  match a, b with
  | K_msg_int f, K_msg_int g =>
      String.eqb (msg_int_attr_name f) (msg_int_attr_name g)
  | K_long_symbol, K_long_symbol => true
  | K_sig_int f, K_sig_int g =>
      String.eqb (sig_int_attr_name f) (sig_int_attr_name g)
  | K_sig_str f, K_sig_str g =>
      String.eqb (sig_str_attr_name f) (sig_str_attr_name g)
  | K_val, K_val => true
  | K_cm_sig, K_cm_sig => true
  | K_cm_msg, K_cm_msg => true
  | _, _ => false
  end.

(** The captured groups of the matches of every kind: what the sweeps
    read of a match. *)
Definition groups_of (scans : list (kind * list rematch))
  : list (kind * list (list string)) :=
  map (fun km => (fst km, map m_groups (snd km))) scans.

(** [content'] has the declarations, the node list and the global
    attributes of [content], and its records carry the groups of the
    records of [content], wherever they stand in the text, except that the
    matches of kind [k] are [remaining]. *)
Definition same_but (k : kind) (remaining : list rematch) (content content' : string)
  : Prop :=
  parse_messages content' (finditer msg_pattern content') [] =
    parse_messages content (finditer msg_pattern content) [] /\
  parse_nodes content' = parse_nodes content /\
  parse_global content' "BusType" (DBCDatabase.bus_type DBCDatabase.init) =
    parse_global content "BusType" (DBCDatabase.bus_type DBCDatabase.init) /\
  parse_global content' "DBName" (DBCDatabase.db_name DBCDatabase.init) =
    parse_global content "DBName" (DBCDatabase.db_name DBCDatabase.init) /\
  groups_of (scan_all content') =
    groups_of (map (fun km => if kind_eqb (fst km) k then (fst km, remaining) else km)
                   (scan_all content)).

(** The last element of a list that satisfies a test. *)
Definition last_with {A : Type} (p : A -> bool) (l : list A) : option A :=
  find p (rev l).

(** The declared skeleton of a list of messages: the message ids with the
    signal names of each message. *)
Definition shape (messages : list (Z * Message.t)) : list (Z * list string) :=
  map (fun kv => (fst kv, od_keys (Message.signals (snd kv)))) messages.

(** *** The value a record carries and the field it is stored in *)

(** The signal of a message of a list of messages. *)
Definition get_sig (id : Z) (name : string) (messages : list (Z * Message.t))
  : option Signal.t :=
  match od_get Z.eqb id messages with
  | Some msg => od_get String.eqb name (Message.signals msg)
  | None => None
  end.

(** The value of a record of kind [k]. *)
Definition rec_value (k : kind) (m : rematch) : pyval :=
  match k with
  | K_msg_int _ => VInt (int_value (group m 2))
  | K_long_symbol => VStr (group m 2)
  | K_sig_int _ => VInt (int_value (group m 3))
  | K_sig_str _ => VStr (group m 3)
  | K_val => VStr (value_description (strip (group m 3)))
  | K_cm_sig => VStr (group m 3)
  | K_cm_msg => VStr (group m 2)
  end.

(** The field of a message, and of a signal, that the records of kind [k]
    are stored in. *)
Definition msg_field (k : kind) (msg : Message.t) : pyval :=
  match k with
  | K_msg_int f => VInt (Message.get_int f msg)
  | K_long_symbol => VStr (Message.long_symbol msg)
  | K_cm_msg => VStr (Message.comment msg)
  | _ => VNone
  end.

Definition sig_field (k : kind) (sig : Signal.t) : pyval :=
  match k with
  | K_sig_int f => VInt (Signal.get_int f sig)
  | K_sig_str f => VStr (Signal.get_str f sig)
  | K_val => VStr (Signal.value_desc sig)
  | K_cm_sig => VStr (Signal.comment sig)
  | _ => VNone
  end.

(** The stored value of kind [k] for a message id and, for a kind scoped
    to a signal, a signal name; nothing when the entity is not declared. *)
Definition stored (k : kind) (id : Z) (name : string)
  (messages : list (Z * Message.t)) : option pyval :=
  if signal_scoped k then option_map (sig_field k) (get_sig id name messages)
  else option_map (msg_field k) (od_get Z.eqb id messages).

(** The record is keyed by the given message id and signal name. *)
Definition targets (k : kind) (id : Z) (name : string) (m : rematch) : bool :=
  if signal_scoped k then sig_key_eqb (id, name) (rec_msg_id m, rec_sig_name m)
  else id =? rec_msg_id m.

(** The value a field has when no record sets it. *)
Definition default_value (k : kind) : pyval :=
  if signal_scoped k then sig_field k Signal.init else msg_field k Message.init.

(** The fields a declaration fixes. *)
Definition msg_decl (msg : Message.t) : Z * string * Z * string :=
  (Message.msg_id msg, Message.name msg, Message.dlc msg, Message.transmitter msg).

Definition sig_decl (sig : Signal.t)
  : string * Z * Z * Z * string * spec_float * spec_float * spec_float * spec_float *
    string * list string :=
  (Signal.name sig, Signal.start_bit sig, Signal.length sig, Signal.byte_order sig,
   Signal.value_type sig, Signal.factor sig, Signal.offset sig, Signal.minimum sig,
   Signal.maximum sig, Signal.unit sig, Signal.receivers sig).

(** The message declarations of a text, each with its block. *)
Definition declarations (content : string) : list (rematch * string) :=
  combine (finditer msg_pattern content)
          (msg_blocks content (finditer msg_pattern content)).

(** The assignment a record of kind [k] makes to its message or signal. *)
Definition msg_set (k : kind) (r : rematch) : Message.t -> Message.t :=
  match k with
  | K_msg_int f => Message.set_int f (int_value (group r 2))
  | K_long_symbol => Message.set_long_symbol (group r 2)
  | K_cm_msg => Message.set_comment (group r 2)
  | _ => fun m => m
  end.

Definition sig_set (k : kind) (r : rematch) : Signal.t -> Signal.t :=
  match k with
  | K_sig_int f => Signal.set_int f (int_value (group r 3))
  | K_sig_str f => Signal.set_str f (group r 3)
  | K_val => Signal.set_value_desc (value_description (strip (group r 3)))
  | K_cm_sig => Signal.set_comment (group r 3)
  | _ => fun s => s
  end.

(** The last declaration of a message id in a text, with its block, and
    the last signal line of a name in that block. *)
Definition last_declaration (content : string) (id : Z) : option (rematch * string) :=
  last_with (fun d => id =? int_value (group (fst d) 1)) (declarations content).

Definition last_signal_line (content : string) (id : Z) (name : string)
  : option rematch :=
  match last_declaration content id with
  | Some (_, block) =>
      last_with (fun sm => String.eqb name (group sm 1)) (finditer sig_pattern block)
  | None => None
  end.

(** The text declares the entity that the records of kind [k] with the
    given message id and signal name are stored in. *)
Definition entity_declared (k : kind) (id : Z) (name : string) (content : string)
  : bool :=
  if signal_scoped k then
    match last_signal_line content id name with Some _ => true | None => false end
  else
    match last_declaration content id with Some _ => true | None => false end.

(* ================================================================== *)
(** ** Readings used by the proofs *)

(** A cell [normalize_val] leaves as it is and [==] equates with itself. *)
Definition stable (v : pyval) : Prop :=
  normalize_val v = Ok v /\ py_eq v v = true.

(** The signed significand of a finite float. *)
Definition signed_m (s : bool) (m : positive) : Z := if s then Zneg m else Zpos m.

(** The dictionary that a loop [results[key(m)] = value(m)] over the
    matches builds from [acc], and the loop over the items of such a
    dictionary that updates the messages with [upd]. *)
Definition dict_of {K T : Type} (eqb : K -> K -> bool) (value : rematch -> T)
  (key : rematch -> K) (ms : list rematch) (acc : list (K * T)) : list (K * T) :=
  fold_left (fun results m => od_set eqb (key m) (value m) results) ms acc.

Definition apply_dict {K T : Type}
  (upd : K -> T -> list (Z * Message.t) -> list (Z * Message.t))
  (d : list (K * T)) (msgs : list (Z * Message.t)) : list (Z * Message.t) :=
  fold_left (fun ms kv => upd (fst kv) (snd kv) ms) d msgs.

(** The value a record would leave, or else the value before. *)
Definition expected (k : kind) (id : Z) (name : string) (ms : list rematch) (x : pyval)
  : pyval :=
  match last_with (targets k id name) ms with
  | Some r => rec_value k r
  | None => x
  end.

(** The field of the entity that a record is keyed by holds the value of
    the record, if that entity is declared. *)
Definition settled (k : kind) (r : rematch) (msgs : list (Z * Message.t)) : Prop :=
  forall v, stored k (rec_msg_id r) (rec_sig_name r) msgs = Some v -> v = rec_value k r.

(* ================================================================== *)
(** ** Example texts *)

Definition newline : string := String "010" EmptyString.

(** A text between double quotes. *)
Definition in_quotes (s : string) : string :=
  String dquote (String.append s (String dquote EmptyString)).

(** The text made of the given lines. *)
Definition text_of (lines : list string) : string := String.concat newline lines.

(** A signal line. *)
Definition sg_line (name layout scaling range unit receivers : string) : string :=
  String.concat " " [" SG_"; name; ":"; layout; scaling; range; in_quotes unit; receivers].

(** An attribute record of a message and of a signal. *)
Definition ba_msg_line (attr id value : string) : string :=
  String.concat " " ["BA_"; in_quotes attr; "BO_"; String.append id (String.append " " (String.append value ";"))].

Definition ba_sig_line (attr id name value : string) : string :=
  String.concat " " ["BA_"; in_quotes attr; "SG_"; id; String.append name (String.append " " (String.append value ";"))].

(** Two messages, the first with one signal. *)
Definition doc_engine : string :=
  text_of [ "BU_: ECU1 ECU2";
            "BO_ 256 EngineData: 8 ECU1";
            sg_line "Speed" "0|16@1+" "(0.1,0)" "[0|250]" "km/h" "ECU2";
            "BO_ 512 Status: 2 ECU2" ].

(** The first message of [doc_engine] alone. *)
Definition doc_engine_only : string :=
  text_of [ "BU_: ECU1 ECU2";
            "BO_ 256 EngineData: 8 ECU1";
            sg_line "Speed" "0|16@1+" "(0.1,0)" "[0|250]" "km/h" "ECU2" ].

(** [doc_engine] with a scale that is not a number in its first signal
    line, followed by a well-formed signal line. *)
Definition doc_bad_factor : string :=
  text_of [ "BU_: ECU1 ECU2";
            "BO_ 256 EngineData: 8 ECU1";
            sg_line "Speed" "0|16@1+" "(abc,0)" "[0|250]" "km/h" "ECU2";
            sg_line "Rpm" "16|16@1+" "(1,0)" "[0|8000]" "rpm" "ECU2";
            "BO_ 512 Status: 2 ECU2" ].

(** [doc_engine] with another offset, byte order and sign of the signal,
    comments on the message and on the signal, and a send type and a
    timeout of the signal. *)
Definition doc_engine_revised : string :=
  text_of [ "BU_: ECU1 ECU2";
            "BO_ 256 EngineData: 8 ECU1";
            sg_line "Speed" "0|16@0-" "(0.1,5)" "[0|250]" "km/h" "ECU2";
            "BO_ 512 Status: 2 ECU2";
            String.concat " " ["CM_ BO_ 256"; String.append (in_quotes "engine frame") ";"];
            String.concat " " ["CM_ SG_ 256 Speed"; String.append (in_quotes "wheel speed") ";"];
            ba_sig_line "GenSigSendType" "256" "Speed" "3";
            ba_sig_line "GenSigTimeoutTime_ALL" "256" "Speed" "500" ].

(** [doc_engine] with a longer message and a wider signal. *)
Definition doc_engine_wider : string :=
  text_of [ "BU_: ECU1 ECU2";
            "BO_ 256 EngineData: 4 ECU1";
            sg_line "Speed" "0|12@1+" "(0.1,0)" "[0|250]" "km/h" "ECU2";
            "BO_ 512 Status: 2 ECU2" ].

(** A signal whose maximum is infinite. *)
Definition doc_unbounded : string :=
  text_of [ "BO_ 256 EngineData: 8 ECU1";
            sg_line "Speed" "0|16@1+" "(0.1,0)" "[0|inf]" "km/h" "ECU2" ].

(** A message declared twice, each time with a signal declared twice in
    its block; two cycle times and two comments for the message; two start
    values, two comments and two value tables for the signal of the second
    declaration. *)
Definition doc_repeats : string :=
  text_of [ "BO_ 256 EngineData: 8 ECU1";
            sg_line "Speed" "0|16@1+" "(0.1,0)" "[0|250]" "km/h" "ECU2";
            sg_line "Speed" "8|8@1+" "(1,0)" "[0|100]" "mph" "ECU2";
            "BO_ 256 EngineInfo: 4 ECU2";
            sg_line "Rpm" "0|16@1+" "(1,0)" "[0|8000]" "rpm" "ECU1";
            sg_line "Rpm" "16|16@1+" "(2,0)" "[0|9000]" "rpm" "ECU1";
            ba_msg_line "GenMsgCycleTime" "256" "100";
            ba_msg_line "GenMsgCycleTime" "256" "20";
            String.concat " " ["CM_ BO_ 256"; String.append (in_quotes "first") ";"];
            String.concat " " ["CM_ BO_ 256"; String.append (in_quotes "second") ";"];
            ba_sig_line "GenSigStartValue" "256" "Rpm" "7";
            ba_sig_line "GenSigStartValue" "256" "Rpm" "9";
            String.concat " " ["CM_ SG_ 256 Rpm"; String.append (in_quotes "one") ";"];
            String.concat " " ["CM_ SG_ 256 Rpm"; String.append (in_quotes "two") ";"];
            String.concat " " ["VAL_ 256 Rpm 0"; in_quotes "idle"; ";"];
            String.concat " " ["VAL_ 256 Rpm 0"; in_quotes "stopped"; "1";
                               in_quotes "running"; ";"] ].

(** [doc_engine] with the cycle time of its first message set to the
    default, and the same text without that record. *)
Definition doc_default_cycle : string :=
  text_of [ "BU_: ECU1 ECU2";
            "BO_ 256 EngineData: 8 ECU1";
            sg_line "Speed" "0|16@1+" "(0.1,0)" "[0|250]" "km/h" "ECU2";
            ba_msg_line "GenMsgCycleTime" "256" "0";
            "BO_ 512 Status: 2 ECU2";
            ba_msg_line "GenMsgCycleTime" "512" "50" ].

Definition doc_absent_cycle : string :=
  text_of [ "BU_: ECU1 ECU2";
            "BO_ 256 EngineData: 8 ECU1";
            sg_line "Speed" "0|16@1+" "(0.1,0)" "[0|250]" "km/h" "ECU2";
            "BO_ 512 Status: 2 ECU2";
            ba_msg_line "GenMsgCycleTime" "512" "50" ].

(** [doc_engine] with a cycle time for a message id that is not declared,
    and the same text without that record. *)
Definition doc_stray_cycle : string :=
  text_of [ "BU_: ECU1 ECU2";
            "BO_ 256 EngineData: 8 ECU1";
            ba_msg_line "GenMsgCycleTime" "999" "10";
            sg_line "Speed" "0|16@1+" "(0.1,0)" "[0|250]" "km/h" "ECU2";
            "BO_ 512 Status: 2 ECU2";
            ba_msg_line "GenMsgCycleTime" "512" "50" ].

Definition doc_no_stray_cycle : string :=
  text_of [ "BU_: ECU1 ECU2";
            "BO_ 256 EngineData: 8 ECU1";
            sg_line "Speed" "0|16@1+" "(0.1,0)" "[0|250]" "km/h" "ECU2";
            "BO_ 512 Status: 2 ECU2";
            ba_msg_line "GenMsgCycleTime" "512" "50" ].

(** A comment for a message id that is not declared, whose text holds a
    line that reads as a message declaration. *)
Definition doc_stray_comment : string :=
  text_of [ "BO_ 256 EngineData: 8 ECU1";
            String.append "CM_ BO_ 999 " (String dquote "see");
            "BO_ 768 Hidden: 8 ECU1";
            String dquote ";" ].

(** The cycle time record for an undeclared message id, followed on its
    line by a text that reads as a message declaration once it starts the
    line. *)
Definition doc_stray_joined : string :=
  String.append (ba_msg_line "GenMsgCycleTime" "999" "10") "BO_ 5 M: 8 E".

(** The text of [n] copies of a character. *)
Fixpoint run_of (c : ascii) (n : nat) : string :=
  match n with
  | O => EmptyString
  | S n' => String c (run_of c n')
  end.

(** A cycle time for an undeclared message id of [n] digits. *)
Definition doc_long_id (n : nat) : string :=
  text_of [ "BO_ 256 EngineData: 8 ECU1";
            ba_msg_line "GenMsgCycleTime" (run_of "1" n) "10" ].

(** A message declaration with a length of [n] digits. *)
Definition doc_long_dlc (n : nat) : string :=
  String.append "BO_ 256 EngineData: " (String.append (run_of "0" n) " ECU1").

(** A signal line without receivers, followed by a line that matches no
    record, and the same text without that line. *)
Definition doc_loose_line : string :=
  text_of [ "BO_ 256 EngineData: 8 ECU1";
            sg_line "Speed" "0|16@1+" "(0.1,0)" "[0|250]" "km/h" "";
            "hello world" ].

Definition doc_no_loose_line : string :=
  text_of [ "BO_ 256 EngineData: 8 ECU1";
            sg_line "Speed" "0|16@1+" "(0.1,0)" "[0|250]" "km/h" "" ].




(** [content] without the text of the match [m]. *)
Definition without_record (content : string) (m : rematch) : string :=
  String.append (slice content 0 (m_start m))
                (slice content (m_end m) (String.length content)).

(** The database parsed from a text that [parse_dbc] accepts. *)
Definition database_of (content : string) : DBCDatabase.t :=
  match parse_dbc content with
  | Ok db => db
  | Raise _ => DBCDatabase.init
  end.

(** The [i]-th record of kind [k] in a text. *)
Definition record_at (k : kind) (content : string) (i : nat) : rematch :=
  nth i (finditer (kind_pattern k) content) (mk_match 0 0 []).

(** The float that the texts 5 and 5.0 denote. *)
Definition float_five : spec_float := S754_finite false 5629499534213120 (-50).

(** A database with the messages of another in reverse order. *)
Definition reversed (db : DBCDatabase.t) : DBCDatabase.t :=
  DBCDatabase.set_messages (rev (DBCDatabase.messages db)) db.

(** The signal of a name in a message of the database parsed from a text. *)
Definition signal_of (content : string) (id : Z) (name : string) : Signal.t :=
  match get_sig id name (DBCDatabase.messages (database_of content)) with
  | Some sig => sig
  | None => Signal.init
  end.

(** The last signal line of a name in the last block of a message id. *)
Definition signal_line_of (content : string) (id : Z) (name : string) : rematch :=
  match last_signal_line content id name with
  | Some sm => sm
  | None => mk_match 0 0 []
  end.

(* ================================================================== *)
(** ** Bus matching *)

(** [p.match(s)]: the pattern at the start of the text only. *)
Definition re_match (r : list item) (s : string) : option rematch :=
  match rmatch r s EmptyString [] with
  | Some (caps, rest) => Some (mk_match 0 (String.length s - String.length rest) caps)
  | None => None
  end.

(** [s.startswith(p)] and [s.endswith(p)]. *)
Fixpoint startswith (p s : string) : bool :=
  match p, s with
  | EmptyString, _ => true
  | String a p', String b s' => Ascii.eqb a b && startswith p' s'
  | String _ _, EmptyString => false
  end.

Definition endswith (p s : string) : bool :=
  startswith (string_rev p) (string_rev s).

(** The pattern of [extract_bus_prefix]: digits, an underscore and a
    shortest run of word characters in a group, then an underscore.  The
    flag [re.IGNORECASE] changes nothing, the pattern has no letters. *)
Definition bus_prefix_pattern : list item :=
  grp (digits ++ lit "_" ++ [One Word; LazyStar Word]) ++ lit "_".

(** [extract_bus_prefix(filename)]. *)
Definition extract_bus_prefix (filename : string) : option string :=
  match re_match bus_prefix_pattern filename with
  | Some m => Some (group m 1)
  | None => None
  end.

(** [s.split(sep, 1)]: the text before the first [sep] and the text after
    it, or the text alone. *)
Fixpoint split_once (sep : ascii) (s : string) (cur : list ascii) : list string :=
  match s with
  | EmptyString => [string_of_list_ascii (rev cur)]
  | String c s' =>
      if Ascii.eqb sep c then [string_of_list_ascii (rev cur); s']
      else split_once sep s' (c :: cur)
  end.

(** [extract_bus_name(bus_prefix)]. *)
Definition extract_bus_name (bus_prefix : string) : string :=
  match split_once "_" bus_prefix [] with
  | [_; name] => name
  | _ => bus_prefix
  end.

(** The test of [find_dbc_files] on a file name. *)
Definition is_dbc_file (fname : string) : bool :=
  endswith ".dbc" (lowercase fname) && negb (startswith "~$" fname).

(** [find_dbc_files(folder)], on the names that [os.listdir(folder)]
    returned, with [os.path.join] as [path_join]. *)
Definition find_dbc_files (path_join : string -> string -> string)
  (folder : string) (listing : list string) : list (string * string) :=
  fold_left
    (fun dbc_files fname =>
       if is_dbc_file fname then
         match extract_bus_prefix fname with
         | Some prefix =>
             if str_truthy prefix
             then od_set String.eqb prefix (path_join folder fname) dbc_files
             else dbc_files
         | None => dbc_files
         end
       else dbc_files)
    listing [].

(* ================================================================== *)
(** ** Readings used by the further statements *)

(** Every character of a text is of a class. *)
Fixpoint all_in (p : ascii -> bool) (s : string) : bool :=
  match s with
  | EmptyString => true
  | String c s' => p c && all_in p s'
  end.

(** A text does not start with a character of a class. *)
Definition stops (p : ascii -> bool) (s : string) : bool :=
  match s with
  | EmptyString => true
  | String c _ => negb (p c)
  end.

(** The file name is taken by [find_dbc_files] and has the bus prefix
    [prefix]. *)
Definition file_of_bus (prefix fname : string) : bool :=
  is_dbc_file fname &&
  match extract_bus_prefix fname with
  | Some p => String.eqb prefix p
  | None => false
  end.

(** An entry of the message dictionary is keyed by the id of its message,
    whose signals are keyed by their names without repetition. *)
Definition entry_ok (kv : Z * Message.t) : Prop :=
  Message.msg_id (snd kv) = fst kv /\
  NoDup (od_keys (Message.signals (snd kv))) /\
  Forall (fun ns => Signal.name (snd ns) = fst ns) (Message.signals (snd kv)).

(** A non-empty text of word characters. *)
Definition word_text (s : string) : bool := str_truthy s && all_in is_word s.

(** A non-empty text of decimal digits. *)
Definition digit_text (s : string) : bool := str_truthy s && all_in is_digit s.

(** The ranges of the fields a message declaration and a signal line fix. *)
Definition msg_declared (m : Message.t) : Prop :=
  0 <= Message.msg_id m /\ 0 <= Message.dlc m /\
  word_text (Message.name m) = true /\ word_text (Message.transmitter m) = true.

Definition sig_declared (s : Signal.t) : Prop :=
  word_text (Signal.name s) = true /\
  0 <= Signal.start_bit s /\ 0 <= Signal.length s /\
  (Signal.byte_order s = 0 \/ Signal.byte_order s = 1) /\
  (Signal.value_type s = "+" \/ Signal.value_type s = "-") /\
  all_in (fun c => negb (Ascii.eqb c dquote)) (Signal.unit s) = true /\
  Forall (fun r => r <> EmptyString) (Signal.receivers s).

(** The four floats of a signal that the rows show, and the three of them
    that the summary of a signal shows. *)
Definition row_floats (s : Signal.t) : list spec_float :=
  [Signal.factor s; Signal.offset s; Signal.minimum s; Signal.maximum s].

Definition summary_floats (s : Signal.t) : list spec_float :=
  [Signal.minimum s; Signal.maximum s; Signal.factor s].



(** The float [int] refuses with the exception [e]: an infinity with
    [OverflowError], a NaN with [ValueError]. *)
Definition refused (e : exn) (f : spec_float) : Prop :=
  (e = OverflowError /\ exists s, f = S754_infinity s) \/
  (e = ValueError /\ f = S754_nan).

(** A signal of some message of the database. *)
Definition holds_signal (db : DBCDatabase.t) (sig : Signal.t) : Prop :=
  exists msg, In msg (od_values (DBCDatabase.messages db)) /\
              In sig (od_values (Message.signals msg)).

(** No message id and, within a message, no signal name is a key twice. *)
Definition keys_unique (db : DBCDatabase.t) : Prop :=
  NoDup (od_keys (DBCDatabase.messages db)) /\
  Forall (fun kv => NoDup (od_keys (Message.signals (snd kv)))) (DBCDatabase.messages db).

(** The columns in which the cells of the two rows of a tuple differ. *)
Definition differing_cols (r : row_tuple) : list nat :=
  filter (fun i => py_ne (nth i (old_row r) VNone) (nth i (new_row r) VNone)) all_cols.

(** The shape of a row tuple: two full rows, the changed columns either
    all of them or the differing ones, and the flag set exactly when some
    column is changed. *)
Definition row_shape (r : row_tuple) : Prop :=
  List.length (old_row r) = NUM_COLS_PER_SIDE /\
  List.length (new_row r) = NUM_COLS_PER_SIDE /\
  (diff_cols r = all_cols \/ diff_cols r = differing_cols r) /\
  (has_diff r = true <-> diff_cols r <> []).

(** A row tuple with its two sides exchanged. *)
Definition swap_sides (r : row_tuple) : row_tuple :=
  mk_row (new_row r) (old_row r) (has_diff r) (diff_cols r).

(** The order of [sorted] on strings. *)
Definition str_lt (a b : string) : Prop := String.compare a b = Lt.

(** A receiver that [get_msg_rx_ecus] lists for a message: a receiver of
    one of its signals other than the empty text and the placeholder. *)
Definition listed_receiver (msg : Message.t) (r : string) : Prop :=
  r <> EmptyString /\ r <> "Vector__XXX" /\
  exists sig, In sig (od_values (Message.signals msg)) /\ In r (Signal.receivers sig).

(** A value table as a DBC file writes it: each pair as a number, a blank
    and the quoted label, the pairs separated by a blank. *)
Definition table_text (pairs : list (string * string)) : string :=
  join " " (map (fun p => String.append (fst p) (String " " (in_quotes (snd p)))) pairs).

(** The number of rows the row-level view holds for a message id: one per
    signal name, and one for a message without signals. *)
Definition rows_for (old_db new_db : DBCDatabase.t) (msg_id : Z) : nat :=
  match get_message msg_id old_db, get_message msg_id new_db with
  | Some old_msg, Some new_msg => Nat.max 1 (List.length (all_sig_names old_msg new_msg))
  | Some old_msg, None => Nat.max 1 (List.length (Message.signals old_msg))
  | None, Some new_msg => Nat.max 1 (List.length (Message.signals new_msg))
  | None, None => 0
  end.

(** Every message is stored under its own id. *)
Definition keyed_by_id (db : DBCDatabase.t) : Prop :=
  forall id msg, get_message id db = Some msg -> Message.msg_id msg = id.

(** *** Further example texts *)

(** [doc_engine] with a second signal, declared before the first. *)
Definition doc_engine_more : string :=
  text_of [ "BU_: ECU1 ECU2";
            "BO_ 256 EngineData: 8 ECU1";
            sg_line "Rpm" "16|16@1+" "(1,0)" "[0|8000]" "rpm" "ECU2";
            sg_line "Speed" "0|16@1+" "(0.1,0)" "[0|250]" "km/h" "ECU2";
            "BO_ 512 Status: 2 ECU2" ].

(** A value table whose first label holds a semicolon. *)
Definition doc_value_table : string :=
  text_of [ "BO_ 256 EngineData: 8 ECU1";
            sg_line "Speed" "0|16@1+" "(0.1,0)" "[0|250]" "km/h" "ECU2";
            String.concat " " ["VAL_ 256 Speed 0"; in_quotes "a;b"; "1";
                               String.append (in_quotes "c") ";"] ].

(** A node line without names, followed by a message declaration. *)
Definition doc_no_nodes : string :=
  text_of [ "BU_:"; "BO_ 256 EngineData: 8 ECU1" ].

(** The message of an id in the database parsed from a text. *)
Definition message_of (content : string) (id : Z) : Message.t :=
  match get_message id (database_of content) with
  | Some msg => msg
  | None => Message.init
  end.

(** Four messages declared in descending order of their ids, and a later
    version that drops two of them, adds two others and changes the length
    of the remaining two. *)
Definition doc_fleet_old : string :=
  text_of [ "BO_ 768 Doors: 8 ECU1"; "BO_ 640 Lights: 8 ECU1";
            "BO_ 512 Status: 2 ECU2"; "BO_ 256 EngineData: 8 ECU1" ].

Definition doc_fleet_new : string :=
  text_of [ "BO_ 1024 Radio: 8 ECU1"; "BO_ 896 Seats: 8 ECU1";
            "BO_ 512 Status: 4 ECU2"; "BO_ 256 EngineData: 4 ECU1" ].

(* ================================================================== *)
(** * Proofs *)

(* ================================================================== *)
(** ** Exceptions: inversion and loops *)

Lemma bind_Ok {A B : Type} (c : result A) (k : A -> result B) (b : B) :
  bind c k = Ok b <-> exists a, c = Ok a /\ k a = Ok b.
Proof.
  split.
  - destruct c as [a|e]; simpl; intros H; [eauto | discriminate].
  - intros (a & -> & H). exact H.
Qed.

Lemma bind_Ok_l {A B : Type} (c : result A) (k : A -> result B) (a : A) :
  c = Ok a -> bind c k = k a.
Proof. intros ->. reflexivity. Qed.

(** Unfold the binds of a hypothesis that says a computation returned. *)
Ltac inv_bind H :=
  repeat match type of H with
         | bind _ _ = Ok _ =>
             let a := fresh "a" in
             let Ha := fresh "Ha" in
             apply bind_Ok in H; destruct H as (a & Ha & H)
         | Ok _ = Ok _ => injection H as H
         end.

Lemma concat_mapM_Ok {A B : Type} (f : A -> result (list B)) (l : list A) (r : list B) :
  concat_mapM f l = Ok r <->
  exists chunks, Forall2 (fun x c => f x = Ok c) l chunks /\ r = List.concat chunks.
Proof.
  revert r. induction l as [|x l IH]; intros r; simpl.
  - split.
    + intros H. injection H as <-. exists []. split; [constructor | reflexivity].
    + intros (chunks & HF & ->). inversion HF. reflexivity.
  - split.
    + intros H. apply bind_Ok in H. destruct H as (ys & Hy & H).
      apply bind_Ok in H. destruct H as (zs & Hz & H). injection H as <-.
      apply IH in Hz. destruct Hz as (chunks & HF & ->).
      exists (ys :: chunks). split; [constructor; assumption | reflexivity].
    + intros (chunks & HF & ->). inversion HF as [|? c ? cs Hx Hl]; subst.
      rewrite Hx. simpl.
      assert (Hc : concat_mapM f l = Ok (List.concat cs)) by (apply IH; eauto).
      rewrite Hc. reflexivity.
Qed.

Lemma concat_mapM_ext {A B : Type} (f g : A -> result (list B)) (l : list A) :
  (forall x, In x l -> f x = g x) -> concat_mapM f l = concat_mapM g l.
Proof.
  induction l as [|x l IH]; intros H; simpl; [reflexivity|].
  rewrite (H x (or_introl eq_refl)), IH; [reflexivity|].
  intros y Hy. apply H. right. exact Hy.
Qed.

Lemma concat_mapM_all {A B : Type} (P : B -> Prop) (f : A -> result (list B))
  (l : list A) :
  (forall x, In x l -> exists ys, f x = Ok ys /\ Forall P ys) ->
  exists r, concat_mapM f l = Ok r /\ Forall P r.
Proof.
  induction l as [|x l IH]; intros H; simpl.
  - exists []. split; [reflexivity | constructor].
  - destruct (H x (or_introl eq_refl)) as (ys & Hy & Py).
    destruct IH as (zs & Hz & Pz); [intros y Hy'; apply H; right; exact Hy'|].
    rewrite Hy, Hz. simpl. exists (ys ++ zs). split; [reflexivity|].
    apply Forall_app. split; assumption.
Qed.

Lemma foldM_ext {A S : Type} (f g : S -> A -> result S) (l : list A) (s : S) :
  (forall x c, In x l -> f c x = g c x) -> foldM f l s = foldM g l s.
Proof.
  revert s. induction l as [|x l IH]; intros s H; simpl; [reflexivity|].
  rewrite (H x s (or_introl eq_refl)). destruct (g s x); simpl; [|reflexivity].
  apply IH. intros y c Hy. apply H. right. exact Hy.
Qed.


(* ================================================================== *)
(** ** [sorted(set(l))] on integers *)

Lemma insert_uniq_In (x y : Z) (l : list Z) :
  In y (insert_uniq Z.compare x l) <-> y = x \/ In y l.
Proof.
  induction l as [|z l IH]; simpl.
  - intuition.
  - destruct (Z.compare_spec x z) as [->|Hlt|Hgt]; simpl.
    + intuition.
    + intuition.
    + rewrite IH. intuition.
Qed.

Lemma sorted_set_In (y : Z) (l : list Z) :
  In y (sorted_set Z.compare l) <-> In y l.
Proof.
  induction l as [|x l IH]; simpl; [reflexivity|].
  rewrite insert_uniq_In, IH. intuition.
Qed.

Lemma insert_uniq_sorted (x : Z) (l : list Z) :
  StronglySorted Z.lt l -> StronglySorted Z.lt (insert_uniq Z.compare x l).
Proof.
  induction l as [|z l IH]; intros Hs; simpl.
  - constructor; constructor.
  - inversion Hs as [|? ? Hl Hz]; subst.
    destruct (Z.compare_spec x z) as [->|Hlt|Hgt].
    + exact Hs.
    + constructor; [exact Hs|]. constructor; [exact Hlt|].
      rewrite Forall_forall in *. intros y Hy. specialize (Hz y Hy). lia.
    + constructor; [apply IH; exact Hl|].
      rewrite Forall_forall in *. intros y Hy.
      apply insert_uniq_In in Hy. destruct Hy as [->|Hy]; [lia | apply Hz; exact Hy].
Qed.

Lemma sorted_set_sorted (l : list Z) : StronglySorted Z.lt (sorted_set Z.compare l).
Proof.
  induction l as [|x l IH]; simpl; [constructor | apply insert_uniq_sorted; exact IH].
Qed.

(** Two strictly ascending lists with the same elements are the same list. *)
Lemma sorted_unique (l1 l2 : list Z) :
  StronglySorted Z.lt l1 -> StronglySorted Z.lt l2 ->
  (forall x, In x l1 <-> In x l2) -> l1 = l2.
Proof.
  revert l2. induction l1 as [|a l1 IH]; intros l2 H1 H2 Hin.
  - destruct l2 as [|b l2]; [reflexivity|].
    exfalso. apply (proj2 (Hin b)). left. reflexivity.
  - destruct l2 as [|b l2].
    + exfalso. apply (proj1 (Hin a)). left. reflexivity.
    + inversion H1 as [|? ? Hs1 Ha]; subst. inversion H2 as [|? ? Hs2 Hb]; subst.
      rewrite Forall_forall in Ha, Hb.
      assert (a = b).
      { destruct (proj1 (Hin a) (or_introl eq_refl)) as [E|Hab]; [congruence|].
        destruct (proj2 (Hin b) (or_introl eq_refl)) as [E|Hba]; [congruence|].
        specialize (Ha b Hba). specialize (Hb a Hab). lia. }
      subst b. f_equal. apply IH; [assumption | assumption |].
      intros x. split; intros Hx.
      * destruct (proj1 (Hin x) (or_intror Hx)) as [E|Hx']; [|exact Hx'].
        subst x. specialize (Ha a Hx). lia.
      * destruct (proj2 (Hin x) (or_intror Hx)) as [E|Hx']; [|exact Hx'].
        subst x. specialize (Hb a Hx). lia.
Qed.

Lemma sorted_set_same (l1 l2 : list Z) :
  (forall x, In x l1 <-> In x l2) ->
  sorted_set Z.compare l1 = sorted_set Z.compare l2.
Proof.
  intros H. apply sorted_unique; try apply sorted_set_sorted.
  intros x. rewrite !sorted_set_In. apply H.
Qed.

(* ================================================================== *)
(** ** Dictionaries *)

Lemma od_get_In {V : Type} (k : Z) (d : list (Z * V)) (v : V) :
  od_get Z.eqb k d = Some v -> In (k, v) d.
Proof.
  induction d as [|[k' v'] d IH]; simpl; [discriminate|].
  destruct (Z.eqb_spec k k') as [->|Hne].
  - intros H. injection H as ->. left. reflexivity.
  - intros H. right. apply IH. exact H.
Qed.

Lemma od_get_None {V : Type} (k : Z) (d : list (Z * V)) :
  od_get Z.eqb k d = None <-> ~ In k (od_keys d).
Proof.
  induction d as [|[k' v'] d IH]; simpl; [intuition|].
  destruct (Z.eqb_spec k k') as [->|Hne].
  - split; [discriminate | intros H; exfalso; apply H; left; reflexivity].
  - rewrite IH. unfold od_keys. simpl. intuition congruence.
Qed.

Lemma od_get_str_In {V : Type} (k : string) (d : list (string * V)) (v : V) :
  od_get String.eqb k d = Some v -> In (k, v) d.
Proof.
  induction d as [|[k' v'] d IH]; simpl; [discriminate|].
  destruct (String.eqb_spec k k') as [->|Hne].
  - intros H. injection H as ->. left. reflexivity.
  - intros H. right. apply IH. exact H.
Qed.

Lemma od_get_str_None {V : Type} (k : string) (d : list (string * V)) :
  od_get String.eqb k d = None <-> ~ In k (od_keys d).
Proof.
  induction d as [|[k' v'] d IH]; simpl; [intuition|].
  destruct (String.eqb_spec k k') as [->|Hne].
  - split; [discriminate | intros H; exfalso; apply H; left; reflexivity].
  - rewrite IH. unfold od_keys. simpl. intuition congruence.
Qed.

Lemma In_od_values {K V : Type} (k : K) (v : V) (d : list (K * V)) :
  In (k, v) d -> In v (od_values d).
Proof. intros H. unfold od_values. apply (in_map snd) in H. exact H. Qed.

(* ================================================================== *)
(** ** Cells and rows *)

Lemma stable_VInt (z : Z) : stable (VInt z).
Proof. split; [reflexivity | apply Z.eqb_refl]. Qed.

Lemma stable_VStr (s : string) : stable (VStr s).
Proof. split; [reflexivity | apply String.eqb_refl]. Qed.

Lemma stable_VNone : stable VNone.
Proof. split; reflexivity. Qed.

Lemma stable_str_or_none (s : string) : stable (str_or_none s).
Proof.
  unfold str_or_none. destruct (str_truthy s); [apply stable_VStr | apply stable_VNone].
Qed.

Lemma float_eqb_refl (f : spec_float) : float_finite f = true -> float_eqb f f = true.
Proof.
  destruct f as [s|s| |s m e]; simpl; try discriminate; intros _; [reflexivity|].
  rewrite Bool.eqb_reflx, Z.eqb_refl. reflexivity.
Qed.

Lemma int_of_float_finite (f : spec_float) :
  float_finite f = true -> exists z, int_of_float f = Ok z.
Proof.
  destruct f as [s|s| |s m e]; simpl; try discriminate; intros _; eauto.
Qed.

Lemma format_number_finite (f : spec_float) :
  float_finite f = true -> exists v, format_number f = Ok v /\ stable v.
Proof.
  intros Hf. destruct (int_of_float_finite f Hf) as (z & Hz).
  unfold format_number. rewrite Hz. simpl.
  destruct (float_eq_int f z) eqn:E.
  - exists (VInt z). split; [reflexivity | apply stable_VInt].
  - exists (VFloat f). split; [reflexivity|]. split.
    + simpl. rewrite Hz. simpl. rewrite E. reflexivity.
    + simpl. apply float_eqb_refl. exact Hf.
Qed.

Lemma format_number_stable (f : spec_float) (v : pyval) :
  format_number f = Ok v -> stable v.
Proof.
  intros H. destruct (float_finite f) eqn:Hf.
  - destruct (format_number_finite f Hf) as (v' & Hv & Hs). congruence.
  - destruct f; simpl in *; discriminate.
Qed.

Lemma msg_part_stable (m : Message.t) : Forall stable (msg_part m).
Proof.
  unfold msg_part.
  repeat (constructor;
          [first [apply stable_VInt | apply stable_VStr | apply stable_str_or_none]|]).
  constructor.
Qed.

Lemma msg_part_length (m : Message.t) : List.length (msg_part m) = NUM_MSG_COLS.
Proof. reflexivity. Qed.

Lemma repeat_None_stable (n : nat) : Forall stable (repeat VNone n).
Proof. induction n; simpl; constructor; [apply stable_VNone | assumption]. Qed.

Lemma build_empty_msg_row_stable (m : Message.t) : Forall stable (build_empty_msg_row m).
Proof.
  unfold build_empty_msg_row. apply Forall_app. split;
    [apply msg_part_stable | apply repeat_None_stable].
Qed.

Lemma build_signal_row_finite (m : Message.t) (s : Signal.t) :
  signal_finite s = true ->
  exists row, build_signal_row m s = Ok row /\ Forall stable row.
Proof.
  unfold signal_finite. rewrite !andb_true_iff. intros [[[Hf Ho] Hmi] Hma].
  destruct (format_number_finite _ Hf) as (vf & Ef & Sf).
  destruct (format_number_finite _ Ho) as (vo & Eo & So).
  destruct (format_number_finite _ Hmi) as (vmi & Emi & Smi).
  destruct (format_number_finite _ Hma) as (vma & Ema & Sma).
  unfold build_signal_row. rewrite Ef, Eo, Emi, Ema. cbn [bind].
  eexists. split; [reflexivity|].
  apply Forall_app. split; [apply msg_part_stable|].
  repeat (constructor;
          [first [assumption | apply stable_VInt | apply stable_VStr
                 | apply stable_str_or_none]|]).
  constructor.
Qed.

Lemma build_signal_row_Ok (m : Message.t) (s : Signal.t) (row : list pyval) :
  build_signal_row m s = Ok row -> signal_finite s = true.
Proof.
  unfold build_signal_row, signal_finite. intros H. inv_bind H.
  assert (F : forall f v, format_number f = Ok v -> float_finite f = true).
  { intros f v Hv. destruct f; simpl in *; try discriminate; reflexivity. }
  rewrite (F _ _ Ha), (F _ _ Ha0), (F _ _ Ha1), (F _ _ Ha2). reflexivity.
Qed.

(** Equal rows of stable cells have no differing index. *)
Lemma diff_indices_self (row : list pyval) (idx : list nat) :
  Forall stable row -> Forall (fun i => (i < List.length row)%nat) idx ->
  diff_indices row row idx = Ok [].
Proof.
  intros Hrow. induction idx as [|i idx IH]; intros Hidx; simpl; [reflexivity|].
  inversion Hidx as [|? ? Hi Hrest]; subst.
  unfold py_index. destruct (nth_error row i) as [v|] eqn:E.
  - assert (Hv : stable v).
    { rewrite Forall_forall in Hrow. apply Hrow. eapply nth_error_In. exact E. }
    destruct Hv as [Hn He]. simpl. rewrite Hn. simpl. rewrite IH by assumption.
    simpl. unfold py_ne. rewrite He. reflexivity.
  - apply nth_error_None in E. lia.
Qed.

Lemma seq_bounded (n : nat) : Forall (fun i => (i < n)%nat) (seq 0 n).
Proof. apply Forall_forall. intros i Hi. apply in_seq in Hi. lia. Qed.

Lemma check_row_diff_self (row : list pyval) :
  Forall stable row -> check_row_diff row row = Ok (false, []).
Proof.
  intros H. unfold check_row_diff.
  rewrite diff_indices_self; [reflexivity | exact H | apply seq_bounded].
Qed.

(* ================================================================== *)
(** ** Finite databases *)

Lemma get_signal_finite (m : Message.t) (name : string) (s : Signal.t) :
  message_finite m = true -> get_signal name m = Some s -> signal_finite s = true.
Proof.
  unfold message_finite, get_signal. intros Hm Hs.
  rewrite forallb_forall in Hm. apply Hm.
  eapply In_od_values. apply od_get_str_In. exact Hs.
Qed.

Lemma get_message_finite (db : DBCDatabase.t) (id : Z) (m : Message.t) :
  db_finite db = true -> get_message id db = Some m -> message_finite m = true.
Proof.
  unfold db_finite, get_message. intros Hd Hm.
  rewrite forallb_forall in Hd. apply Hd.
  eapply In_od_values. apply od_get_In. exact Hm.
Qed.

Lemma all_msg_ids_In (old_db new_db : DBCDatabase.t) (id : Z) :
  In id (all_msg_ids old_db new_db) <->
  In id (od_keys (DBCDatabase.messages old_db)) \/
  In id (od_keys (DBCDatabase.messages new_db)).
Proof. unfold all_msg_ids. rewrite sorted_set_In, in_app_iff. reflexivity. Qed.

Lemma all_msg_ids_present (old_db new_db : DBCDatabase.t) (id : Z) :
  In id (all_msg_ids old_db new_db) ->
  get_message id old_db <> None \/ get_message id new_db <> None.
Proof.
  intros H. apply all_msg_ids_In in H. unfold get_message.
  destruct H as [H|H]; [left | right]; intros E; apply od_get_None in E; contradiction.
Qed.

(* ================================================================== *)
(** ** Self comparison *)



Lemma build_sig_summary_row_finite (m : Message.t) (s : Signal.t) :
  signal_finite s = true ->
  exists row, build_sig_summary_row m s = Ok row /\ Forall stable row /\
              List.length row = 12%nat.
Proof.
  unfold signal_finite. rewrite !andb_true_iff. intros [[[Hf Ho] Hmi] Hma].
  destruct (format_number_finite _ Hf) as (vf & Ef & Sf).
  destruct (format_number_finite _ Hmi) as (vmi & Emi & Smi).
  destruct (format_number_finite _ Hma) as (vma & Ema & Sma).
  unfold build_sig_summary_row. rewrite Ef, Emi, Ema. cbn [bind].
  eexists. split; [reflexivity|]. split; [|reflexivity].
  repeat (constructor;
          [first [assumption | apply stable_VInt | apply stable_VStr]|]).
  constructor.
Qed.

Lemma Forall_skipn {A : Type} (P : A -> Prop) (n : nat) (l : list A) :
  Forall P l -> Forall P (skipn n l).
Proof.
  revert l. induction n as [|n IH]; intros l H; simpl; [exact H|].
  destruct l; [constructor|]. inversion H; subst. apply IH. assumption.
Qed.


Lemma build_msg_summary_row_stable (m : Message.t) :
  Forall stable (build_msg_summary_row m).
Proof.
  unfold build_msg_summary_row.
  repeat (constructor; [first [apply stable_VInt | apply stable_VStr]|]).
  constructor.
Qed.


(* ================================================================== *)
(** ** The categorized changes as a concatenation of per-id changes *)

Lemma changes_app_nil_r (c : changes) : changes_app c no_changes = c.
Proof. destruct c. unfold changes_app. simpl. rewrite !app_nil_r. reflexivity. Qed.

Lemma changes_app_nil_l (c : changes) : changes_app no_changes c = c.
Proof. destruct c. reflexivity. Qed.

Lemma changes_app_assoc (a b c : changes) :
  changes_app (changes_app a b) c = changes_app a (changes_app b c).
Proof. unfold changes_app. simpl. rewrite <- !app_assoc. reflexivity. Qed.

Lemma fold_changes_app (ds : list changes) (c : changes) :
  fold_left changes_app ds c = changes_app c (fold_left changes_app ds no_changes).
Proof.
  revert c. induction ds as [|d ds IH]; intros c; simpl.
  - symmetry. apply changes_app_nil_r.
  - rewrite IH. rewrite (IH (changes_app no_changes d)).
    rewrite changes_app_nil_l. apply changes_app_assoc.
Qed.

(** Every cell of a row is stable and every index is in range: the
    comparison of the two rows returns. *)
Lemma diff_indices_total (r1 r2 : list pyval) (idx : list nat) :
  Forall stable r1 -> Forall stable r2 ->
  Forall (fun i => (i < List.length r1)%nat /\ (i < List.length r2)%nat) idx ->
  exists d, diff_indices r1 r2 idx = Ok d.
Proof.
  intros H1 H2. induction idx as [|i idx IH]; intros Hidx; simpl; [eauto|].
  inversion Hidx as [|? ? [Hi1 Hi2] Hrest]; subst.
  destruct (IH Hrest) as (d & Hd).
  unfold py_index.
  destruct (nth_error r1 i) as [a|] eqn:E1; [|apply nth_error_None in E1; lia].
  destruct (nth_error r2 i) as [b|] eqn:E2; [|apply nth_error_None in E2; lia].
  rewrite Forall_forall in H1, H2.
  destruct (H1 a (nth_error_In _ _ E1)) as [Na _].
  destruct (H2 b (nth_error_In _ _ E2)) as [Nb _].
  cbn [bind]. rewrite Na. cbn [bind]. rewrite Nb. cbn [bind]. rewrite Hd. cbn [bind].
  eauto.
Qed.

Lemma build_sig_summary_row_Ok (m : Message.t) (s : Signal.t) (row : list pyval) :
  build_sig_summary_row m s = Ok row ->
  Forall stable row /\ List.length row = 12%nat.
Proof.
  unfold build_sig_summary_row. intros H. inv_bind H. subst row.
  split; [|reflexivity].
  pose proof (format_number_stable _ _ Ha). pose proof (format_number_stable _ _ Ha0).
  pose proof (format_number_stable _ _ Ha1).
  repeat (constructor;
          [first [assumption | apply stable_VInt | apply stable_VStr]|]).
  constructor.
Qed.

Lemma skipn3_length {A : Type} (l : list A) :
  List.length l = 12%nat -> List.length (skipn 3 l) = 9%nat.
Proof. intros H. rewrite length_skipn, H. reflexivity. Qed.

Lemma sig_diff_indices_total (m1 m2 : Message.t) (s1 s2 : Signal.t) (r1 r2 : list pyval) :
  build_sig_summary_row m1 s1 = Ok r1 -> build_sig_summary_row m2 s2 = Ok r2 ->
  exists d, diff_indices (skipn 3 r1) (skipn 3 r2)
                         (seq 0 (List.length (skipn 3 r1))) = Ok d.
Proof.
  intros H1 H2.
  destruct (build_sig_summary_row_Ok _ _ _ H1) as [S1 L1].
  destruct (build_sig_summary_row_Ok _ _ _ H2) as [S2 L2].
  apply diff_indices_total; try (apply Forall_skipn; assumption).
  rewrite (skipn3_length _ L1), (skipn3_length _ L2).
  apply Forall_forall. intros i Hi. apply in_seq in Hi. lia.
Qed.

Lemma msg_diff_indices_total (o n : Message.t) :
  exists d, diff_indices (build_msg_summary_row o) (build_msg_summary_row n)
                         (seq 0 (List.length (build_msg_summary_row o))) = Ok d.
Proof.
  apply diff_indices_total; try apply build_msg_summary_row_stable.
  apply Forall_forall. intros i Hi. apply in_seq in Hi. simpl in *. lia.
Qed.

Lemma add_modified_signals_app l c :
  add_modified_signals l c = changes_app c (add_modified_signals l no_changes).
Proof. destruct c. unfold add_modified_signals, changes_app. simpl. rewrite !app_nil_r. reflexivity. Qed.

Lemma add_modified_messages_app l c :
  add_modified_messages l c = changes_app c (add_modified_messages l no_changes).
Proof. destruct c. unfold add_modified_messages, changes_app. simpl. rewrite !app_nil_r. reflexivity. Qed.

Lemma add_new_signals_app l c :
  add_new_signals l c = changes_app c (add_new_signals l no_changes).
Proof. destruct c. unfold add_new_signals, changes_app. simpl. rewrite !app_nil_r. reflexivity. Qed.

Lemma add_removed_signals_app l c :
  add_removed_signals l c = changes_app c (add_removed_signals l no_changes).
Proof. destruct c. unfold add_removed_signals, changes_app. simpl. rewrite !app_nil_r. reflexivity. Qed.

Lemma add_new_messages_app l c :
  add_new_messages l c = changes_app c (add_new_messages l no_changes).
Proof. destruct c. unfold add_new_messages, changes_app. simpl. rewrite !app_nil_r. reflexivity. Qed.

Lemma add_removed_messages_app l c :
  add_removed_messages l c = changes_app c (add_removed_messages l no_changes).
Proof. destruct c. unfold add_removed_messages, changes_app. simpl. rewrite !app_nil_r. reflexivity. Qed.

(** The signal step appends [sig_delta] when the summary rows can be built
    and raises otherwise. *)
Lemma categorize_signal_ok (o n : Message.t) (c : changes) (name : string) :
  pair_ok o n name = true ->
  categorize_signal o n c name = Ok (changes_app c (sig_delta o n name)).
Proof.
  unfold pair_ok, categorize_signal, sig_delta, sig_diffs_of.
  destruct (get_signal name o) as [s|]; destruct (get_signal name n) as [t|]; intros H.
  - destruct (build_sig_summary_row o s) as [r1|] eqn:E1; [|discriminate].
    destruct (build_sig_summary_row n t) as [r2|] eqn:E2; [|discriminate].
    cbn [bind].
    destruct (sig_diff_indices_total _ _ _ _ _ _ E1 E2) as (d & Hd).
    rewrite Hd. cbn [bind]. destruct d.
    + rewrite changes_app_nil_r. reflexivity.
    + rewrite add_modified_signals_app. reflexivity.
  - rewrite add_removed_signals_app. reflexivity.
  - rewrite add_new_signals_app. reflexivity.
  - rewrite changes_app_nil_r. reflexivity.
Qed.

Lemma categorize_signal_raise (o n : Message.t) (c : changes) (name : string) :
  pair_ok o n name = false -> exists e, categorize_signal o n c name = Raise e.
Proof.
  unfold pair_ok, categorize_signal.
  destruct (get_signal name o) as [s|]; destruct (get_signal name n) as [t|];
    try discriminate.
  destruct (build_sig_summary_row o s) as [r1|e1]; cbn [bind]; [|eauto].
  destruct (build_sig_summary_row n t) as [r2|e2]; cbn [bind]; [discriminate | eauto].
Qed.

Lemma foldM_categorize_signal_ok (o n : Message.t) (names : list string) (c : changes) :
  forallb (pair_ok o n) names = true ->
  foldM (categorize_signal o n) names c =
  Ok (fold_left changes_app (map (sig_delta o n) names) c).
Proof.
  revert c. induction names as [|x names IH]; intros c H; simpl; [reflexivity|].
  simpl in H. apply andb_true_iff in H. destruct H as [Hx Hr].
  rewrite (categorize_signal_ok _ _ _ _ Hx). cbn [bind]. apply IH. exact Hr.
Qed.

Lemma foldM_categorize_signal_raise (o n : Message.t) (names : list string) (c : changes) :
  forallb (pair_ok o n) names = false ->
  exists e, foldM (categorize_signal o n) names c = Raise e.
Proof.
  revert c. induction names as [|x names IH]; intros c H; simpl in *; [discriminate|].
  destruct (pair_ok o n x) eqn:Hx.
  - rewrite (categorize_signal_ok _ _ _ _ Hx). cbn [bind]. apply IH. exact H.
  - destruct (categorize_signal_raise o n c x Hx) as (e & He). rewrite He. simpl. eauto.
Qed.

Lemma categorize_message_ok (old_db new_db : DBCDatabase.t) (c : changes) (id : Z) :
  msg_ok old_db new_db id = true ->
  categorize_message old_db new_db c id = Ok (changes_app c (msg_delta old_db new_db id)).
Proof.
  unfold msg_ok, categorize_message, msg_delta, msg_diffs_of.
  destruct (get_message id old_db) as [o|]; destruct (get_message id new_db) as [n|];
    intros H; try discriminate.
  - destruct (msg_diff_indices_total o n) as (d & Hd). rewrite Hd. cbn [bind].
    rewrite (foldM_categorize_signal_ok _ _ _ _ H). f_equal.
    rewrite fold_changes_app.
    rewrite (fold_changes_app _ (match d with [] => _ | _ => _ end)).
    rewrite <- changes_app_assoc. f_equal.
    destruct d; [symmetry; apply changes_app_nil_r | apply add_modified_messages_app].
  - rewrite (add_removed_signals_app _ (add_removed_messages _ c)).
    rewrite add_removed_messages_app, changes_app_assoc. f_equal.
  - rewrite (add_new_signals_app _ (add_new_messages _ c)).
    rewrite add_new_messages_app, changes_app_assoc. f_equal.
Qed.

Lemma categorize_message_raise (old_db new_db : DBCDatabase.t) (c : changes) (id : Z) :
  msg_ok old_db new_db id = false ->
  exists e, categorize_message old_db new_db c id = Raise e.
Proof.
  unfold msg_ok, categorize_message.
  destruct (get_message id old_db) as [o|]; destruct (get_message id new_db) as [n|];
    intros H; try discriminate; [|eauto].
  destruct (msg_diff_indices_total o n) as (d & Hd). rewrite Hd. cbn [bind].
  apply foldM_categorize_signal_raise. exact H.
Qed.

Lemma foldM_categorize_message_ok (old_db new_db : DBCDatabase.t) (ids : list Z)
  (c : changes) :
  forallb (msg_ok old_db new_db) ids = true ->
  foldM (categorize_message old_db new_db) ids c =
  Ok (fold_left changes_app (map (msg_delta old_db new_db) ids) c).
Proof.
  revert c. induction ids as [|x ids IH]; intros c H; simpl; [reflexivity|].
  simpl in H. apply andb_true_iff in H. destruct H as [Hx Hr].
  rewrite (categorize_message_ok _ _ _ _ Hx). cbn [bind]. apply IH. exact Hr.
Qed.

Lemma foldM_categorize_message_raise (old_db new_db : DBCDatabase.t) (ids : list Z)
  (c : changes) :
  forallb (msg_ok old_db new_db) ids = false ->
  exists e, foldM (categorize_message old_db new_db) ids c = Raise e.
Proof.
  revert c. induction ids as [|x ids IH]; intros c H; simpl in *; [discriminate|].
  destruct (msg_ok old_db new_db x) eqn:Hx.
  - rewrite (categorize_message_ok _ _ _ _ Hx). cbn [bind]. apply IH. exact H.
  - destruct (categorize_message_raise old_db new_db c x Hx) as (e & He).
    rewrite He. simpl. eauto.
Qed.

(** [categorize_changes] returns exactly when every id is fine, and then
    its result is the concatenation of the per-id changes in the order of
    [all_msg_ids]. *)
Lemma categorize_changes_ok (old_db new_db : DBCDatabase.t) :
  forallb (msg_ok old_db new_db) (all_msg_ids old_db new_db) = true ->
  categorize_changes old_db new_db =
  Ok (fold_left changes_app
        (map (msg_delta old_db new_db) (all_msg_ids old_db new_db)) no_changes).
Proof. apply foldM_categorize_message_ok. Qed.

Lemma categorize_changes_raise (old_db new_db : DBCDatabase.t) :
  forallb (msg_ok old_db new_db) (all_msg_ids old_db new_db) = false ->
  exists e, categorize_changes old_db new_db = Raise e.
Proof. apply foldM_categorize_message_raise. Qed.

Lemma categorize_changes_Ok_inv (old_db new_db : DBCDatabase.t) (r : changes) :
  categorize_changes old_db new_db = Ok r ->
  forallb (msg_ok old_db new_db) (all_msg_ids old_db new_db) = true /\
  r = fold_left changes_app
        (map (msg_delta old_db new_db) (all_msg_ids old_db new_db)) no_changes.
Proof.
  intros H.
  destruct (forallb (msg_ok old_db new_db) (all_msg_ids old_db new_db)) eqn:E.
  - rewrite (categorize_changes_ok _ _ E) in H. injection H as <-. auto.
  - destruct (categorize_changes_raise _ _ E) as (e & He). congruence.
Qed.

(** The six lists of a concatenation. *)
Lemma fold_changes_new_messages ds c :
  new_messages (fold_left changes_app ds c) = new_messages c ++ flat_map new_messages ds.
Proof.
  revert c. induction ds as [|d ds IH]; intros c; simpl; [symmetry; apply app_nil_r|].
  rewrite IH. simpl. rewrite app_assoc. reflexivity.
Qed.

Lemma fold_changes_removed_messages ds c :
  removed_messages (fold_left changes_app ds c) =
  removed_messages c ++ flat_map removed_messages ds.
Proof.
  revert c. induction ds as [|d ds IH]; intros c; simpl; [symmetry; apply app_nil_r|].
  rewrite IH. simpl. rewrite app_assoc. reflexivity.
Qed.

Lemma fold_changes_modified_messages ds c :
  modified_messages (fold_left changes_app ds c) =
  modified_messages c ++ flat_map modified_messages ds.
Proof.
  revert c. induction ds as [|d ds IH]; intros c; simpl; [symmetry; apply app_nil_r|].
  rewrite IH. simpl. rewrite app_assoc. reflexivity.
Qed.

Lemma fold_changes_new_signals ds c :
  new_signals (fold_left changes_app ds c) = new_signals c ++ flat_map new_signals ds.
Proof.
  revert c. induction ds as [|d ds IH]; intros c; simpl; [symmetry; apply app_nil_r|].
  rewrite IH. simpl. rewrite app_assoc. reflexivity.
Qed.

Lemma fold_changes_removed_signals ds c :
  removed_signals (fold_left changes_app ds c) =
  removed_signals c ++ flat_map removed_signals ds.
Proof.
  revert c. induction ds as [|d ds IH]; intros c; simpl; [symmetry; apply app_nil_r|].
  rewrite IH. simpl. rewrite app_assoc. reflexivity.
Qed.

Lemma fold_changes_modified_signals ds c :
  modified_signals (fold_left changes_app ds c) =
  modified_signals c ++ flat_map modified_signals ds.
Proof.
  revert c. induction ds as [|d ds IH]; intros c; simpl; [symmetry; apply app_nil_r|].
  rewrite IH. simpl. rewrite app_assoc. reflexivity.
Qed.

Lemma flat_map_map {A B C : Type} (f : A -> B) (g : B -> list C) (l : list A) :
  flat_map g (map f l) = flat_map (fun x => g (f x)) l.
Proof. induction l as [|x l IH]; simpl; [reflexivity | rewrite IH; reflexivity]. Qed.

(* ================================================================== *)
(** ** The union of the signal names *)

Lemma existsb_eqb_In (k : string) (seen : list string) :
  existsb (String.eqb k) seen = true <-> In k seen.
Proof.
  rewrite existsb_exists. split.
  - intros (x & Hx & E). apply String.eqb_eq in E. subst. exact Hx.
  - intros H. exists k. split; [exact H | apply String.eqb_refl].
Qed.

Lemma existsb_eqb_equiv (k : string) (s1 s2 : list string) :
  (forall x, In x s1 <-> In x s2) ->
  existsb (String.eqb k) s1 = existsb (String.eqb k) s2.
Proof.
  intros H. apply eq_true_iff_eq. rewrite !existsb_eqb_In. apply H.
Qed.

Lemma fromkeys_aux_equiv (s1 s2 l : list string) :
  (forall x, In x s1 <-> In x s2) ->
  fromkeys_aux String.eqb s1 l = fromkeys_aux String.eqb s2 l.
Proof.
  revert s1 s2. induction l as [|k l IH]; intros s1 s2 H; simpl; [reflexivity|].
  rewrite (existsb_eqb_equiv k s1 s2 H).
  destruct (existsb (String.eqb k) s2).
  - apply IH. exact H.
  - f_equal. apply IH. intros x. simpl. rewrite H. reflexivity.
Qed.

Lemma fromkeys_aux_In (k : string) (seen l : list string) :
  In k (fromkeys_aux String.eqb seen l) <-> In k l /\ ~ In k seen.
Proof.
  revert seen. induction l as [|x l IH]; intros seen; simpl; [tauto|].
  destruct (existsb (String.eqb x) seen) eqn:E.
  - apply existsb_eqb_In in E. rewrite IH. split.
    + intros [H1 H2]. auto.
    + intros [[->|H1] H2]; [contradiction | auto].
  - assert (Hx : ~ In x seen).
    { intros H. apply existsb_eqb_In in H. congruence. }
    simpl. rewrite IH. simpl. split.
    + intros [->|[H1 H2]]; [auto|]. split; [auto | intros H; apply H2; auto].
    + intros [[->|H1] H2]; [auto|].
      destruct (string_dec x k) as [->|Hne]; [auto|]. right. split; [exact H1|].
      intros [E'|H']; [congruence | contradiction].
Qed.

Lemma fromkeys_In (k : string) (l : list string) :
  In k (fromkeys String.eqb l) <-> In k l.
Proof. unfold fromkeys. rewrite fromkeys_aux_In. simpl. tauto. Qed.

Lemma fromkeys_aux_app (seen l1 l2 : list string) :
  fromkeys_aux String.eqb seen (l1 ++ l2) =
  fromkeys_aux String.eqb seen l1 ++ fromkeys_aux String.eqb (l1 ++ seen) l2.
Proof.
  revert seen. induction l1 as [|k l1 IH]; intros seen; simpl; [reflexivity|].
  destruct (existsb (String.eqb k) seen) eqn:E.
  - rewrite IH. f_equal. apply fromkeys_aux_equiv.
    apply existsb_eqb_In in E. intros x. simpl. rewrite !in_app_iff.
    split; [tauto|]. intros [->|H]; tauto.
  - simpl. f_equal. rewrite IH. f_equal. apply fromkeys_aux_equiv.
    intros x. simpl. rewrite !in_app_iff. simpl. tauto.
Qed.

Section Vanishing.
Context {B : Type} (g : string -> list B).

Lemma flat_map_vanish (l : list string) :
  (forall k, In k l -> g k = []) -> flat_map g l = [].
Proof.
  induction l as [|k l IH]; intros H; simpl; [reflexivity|].
  rewrite (H k (or_introl eq_refl)), IH; [reflexivity|].
  intros x Hx. apply H. right. exact Hx.
Qed.

Lemma flat_map_fromkeys_seen (s1 s2 l : list string) :
  (forall k, In k s1 -> g k = []) ->
  flat_map g (fromkeys_aux String.eqb (s1 ++ s2) l) =
  flat_map g (fromkeys_aux String.eqb s2 l).
Proof.
  intros Hg. revert s2. induction l as [|k l IH]; intros s2; simpl; [reflexivity|].
  destruct (existsb (String.eqb k) s2) eqn:E2.
  - assert (E : existsb (String.eqb k) (s1 ++ s2) = true).
    { apply existsb_eqb_In. apply in_or_app. right. apply existsb_eqb_In. exact E2. }
    rewrite E. apply IH.
  - destruct (existsb (String.eqb k) (s1 ++ s2)) eqn:E.
    + apply existsb_eqb_In in E. apply in_app_or in E.
      destruct E as [E1|E]; [|apply existsb_eqb_In in E; congruence].
      simpl. rewrite (Hg k E1). simpl. rewrite <- (IH (k :: s2)).
      f_equal. apply fromkeys_aux_equiv. intros x. rewrite !in_app_iff. simpl.
      split; [tauto|]. intros [H|[->|H]]; tauto.
    + simpl. f_equal. rewrite <- (IH (k :: s2)).
      f_equal. apply fromkeys_aux_equiv. intros x. simpl. rewrite !in_app_iff. simpl.
      tauto.
Qed.

(** A function that is empty on the names of [a] sees the same list in
    the union taken from either side. *)
Lemma flat_map_fromkeys_swap (a b : list string) :
  (forall k, In k a -> g k = []) ->
  flat_map g (fromkeys String.eqb (a ++ b)) = flat_map g (fromkeys String.eqb (b ++ a)).
Proof.
  intros Hg. unfold fromkeys. rewrite !fromkeys_aux_app, !flat_map_app.
  rewrite (flat_map_vanish (fromkeys_aux String.eqb [] a)).
  2:{ intros k Hk. apply fromkeys_aux_In in Hk. apply Hg. tauto. }
  rewrite (flat_map_vanish (fromkeys_aux String.eqb (b ++ []) a)).
  2:{ intros k Hk. apply fromkeys_aux_In in Hk. apply Hg. tauto. }
  rewrite (app_nil_r (flat_map g (fromkeys_aux String.eqb [] b))). simpl.
  apply (flat_map_fromkeys_seen a [] b). exact Hg.
Qed.
End Vanishing.

Lemma forallb_same {A : Type} (f g : A -> bool) (l1 l2 : list A) :
  (forall x, f x = g x) -> (forall x, In x l1 <-> In x l2) ->
  forallb f l1 = forallb g l2.
Proof.
  intros Hfg Hin. apply eq_true_iff_eq. rewrite !forallb_forall. split.
  - intros H x Hx. rewrite <- Hfg. apply H. apply Hin. exact Hx.
  - intros H x Hx. rewrite Hfg. apply H. apply Hin. exact Hx.
Qed.

Lemma all_sig_names_In (o n : Message.t) (k : string) :
  In k (all_sig_names o n) <->
  In k (od_keys (Message.signals o)) \/ In k (od_keys (Message.signals n)).
Proof. unfold all_sig_names. rewrite fromkeys_In, in_app_iff. reflexivity. Qed.

(* ================================================================== *)
(** ** Symmetry of the categorized changes *)

Lemma all_msg_ids_sym (A B : DBCDatabase.t) : all_msg_ids A B = all_msg_ids B A.
Proof.
  unfold all_msg_ids. apply sorted_set_same. intros x. rewrite !in_app_iff. tauto.
Qed.

Lemma pair_ok_sym (o n : Message.t) (k : string) : pair_ok o n k = pair_ok n o k.
Proof.
  unfold pair_ok. destruct (get_signal k o), (get_signal k n); try reflexivity.
  apply andb_comm.
Qed.

Lemma msg_ok_sym (A B : DBCDatabase.t) (id : Z) : msg_ok A B id = msg_ok B A id.
Proof.
  unfold msg_ok. destruct (get_message id A) as [o|], (get_message id B) as [n|];
    try reflexivity.
  apply forallb_same; [apply pair_ok_sym|].
  intros x. rewrite !all_sig_names_In. tauto.
Qed.

Lemma sig_delta_new_messages o n k : new_messages (sig_delta o n k) = [].
Proof.
  unfold sig_delta. destruct (get_signal k o), (get_signal k n); try reflexivity.
  destruct (sig_diffs_of o n t t0); reflexivity.
Qed.

Lemma sig_delta_removed_messages o n k : removed_messages (sig_delta o n k) = [].
Proof.
  unfold sig_delta. destruct (get_signal k o), (get_signal k n); try reflexivity.
  destruct (sig_diffs_of o n t t0); reflexivity.
Qed.

Lemma sig_delta_new_signals o n k :
  new_signals (sig_delta o n k) =
  match get_signal k o, get_signal k n with
  | None, Some t => [(n, t)]
  | _, _ => []
  end.
Proof.
  unfold sig_delta. destruct (get_signal k o), (get_signal k n); try reflexivity.
  destruct (sig_diffs_of o n t t0); reflexivity.
Qed.

Lemma sig_delta_removed_signals o n k :
  removed_signals (sig_delta o n k) =
  match get_signal k o, get_signal k n with
  | Some s, None => [(o, s)]
  | _, _ => []
  end.
Proof.
  unfold sig_delta. destruct (get_signal k o), (get_signal k n); try reflexivity.
  destruct (sig_diffs_of o n t t0); reflexivity.
Qed.

Lemma get_signal_key (k : string) (m : Message.t) :
  In k (od_keys (Message.signals m)) -> get_signal k m <> None.
Proof. intros H E. apply od_get_str_None in E. contradiction. Qed.

Lemma common_new_removed_signals (o n : Message.t) :
  flat_map (fun k => new_signals (sig_delta o n k)) (all_sig_names o n) =
  flat_map (fun k => removed_signals (sig_delta n o k)) (all_sig_names n o).
Proof.
  rewrite (flat_map_ext _ _ (fun k => sig_delta_new_signals o n k)).
  rewrite (flat_map_ext _ _ (fun k => sig_delta_removed_signals n o k)).
  unfold all_sig_names.
  rewrite (flat_map_fromkeys_swap _ (od_keys (Message.signals o))
             (od_keys (Message.signals n))).
  - apply flat_map_ext. intros k.
    destruct (get_signal k o), (get_signal k n); reflexivity.
  - intros k Hk. apply get_signal_key in Hk.
    destruct (get_signal k o); [|congruence]. destruct (get_signal k n); reflexivity.
Qed.

Lemma common_new_removed_messages (o n : Message.t) :
  flat_map (fun k => new_messages (sig_delta o n k)) (all_sig_names o n) =
  flat_map (fun k => removed_messages (sig_delta n o k)) (all_sig_names n o).
Proof.
  rewrite !flat_map_vanish; [reflexivity | |]; intros k _;
    [apply sig_delta_removed_messages | apply sig_delta_new_messages].
Qed.

(** The added entities of a message pair, seen from the other side, are
    its removed entities. *)
Lemma msg_delta_sym (A B : DBCDatabase.t) (id : Z) :
  added (msg_delta A B id) = removed (msg_delta B A id).
Proof.
  unfold msg_delta.
  destruct (get_message id A) as [o|], (get_message id B) as [n|]; try reflexivity.
  unfold added, removed.
  rewrite fold_changes_new_messages, fold_changes_removed_messages,
          fold_changes_new_signals, fold_changes_removed_signals.
  rewrite !flat_map_map.
  rewrite common_new_removed_signals, common_new_removed_messages.
  destruct (msg_diffs_of o n); destruct (msg_diffs_of n o); reflexivity.
Qed.

Lemma added_fold (ds : list changes) :
  added (fold_left changes_app ds no_changes) =
  (flat_map (fun d => fst (added d)) ds, flat_map (fun d => snd (added d)) ds).
Proof.
  unfold added. rewrite fold_changes_new_messages, fold_changes_new_signals. reflexivity.
Qed.

Lemma removed_fold (ds : list changes) :
  removed (fold_left changes_app ds no_changes) =
  (flat_map (fun d => fst (removed d)) ds, flat_map (fun d => snd (removed d)) ds).
Proof.
  unfold removed.
  rewrite fold_changes_removed_messages, fold_changes_removed_signals. reflexivity.
Qed.

(** The added entities of one direction are the removed entities of the
    other, and one call raises exactly when the other does. *)
Lemma added_is_removed (A B : DBCDatabase.t) :
  option_map added (returned (categorize_changes A B)) =
  option_map removed (returned (categorize_changes B A)).
Proof.
  destruct (forallb (msg_ok A B) (all_msg_ids A B)) eqn:E.
  - assert (E' : forallb (msg_ok B A) (all_msg_ids B A) = true).
    { rewrite <- E. rewrite (all_msg_ids_sym B A).
      apply forallb_same; [intros x; apply msg_ok_sym | tauto]. }
    rewrite (categorize_changes_ok _ _ E), (categorize_changes_ok _ _ E').
    simpl. f_equal. rewrite added_fold, removed_fold, !flat_map_map.
    rewrite (all_msg_ids_sym B A).
    f_equal; apply flat_map_ext; intros id; rewrite (msg_delta_sym A B id); reflexivity.
  - assert (E' : forallb (msg_ok B A) (all_msg_ids B A) = false).
    { rewrite <- E. rewrite (all_msg_ids_sym B A).
      apply forallb_same; [intros x; apply msg_ok_sym | tauto]. }
    destruct (categorize_changes_raise _ _ E) as (e & ->).
    destruct (categorize_changes_raise _ _ E') as (e' & ->). reflexivity.
Qed.

(* ================================================================== *)
(** ** The row-level view on finite databases *)

Lemma build_signal_row_length (m : Message.t) (s : Signal.t) (row : list pyval) :
  build_signal_row m s = Ok row -> List.length row = NUM_COLS_PER_SIDE.
Proof.
  unfold build_signal_row. intros H. inv_bind H. subst row. reflexivity.
Qed.

Lemma build_empty_msg_row_length (m : Message.t) :
  List.length (build_empty_msg_row m) = NUM_COLS_PER_SIDE.
Proof. unfold build_empty_msg_row. rewrite length_app. reflexivity. Qed.

Lemma check_row_diff_total (r1 r2 : list pyval) :
  Forall stable r1 -> Forall stable r2 -> List.length r1 = List.length r2 ->
  exists d, check_row_diff r1 r2 = Ok d.
Proof.
  intros H1 H2 Hl. unfold check_row_diff.
  destruct (diff_indices_total r1 r2 (seq 0 (List.length r1)) H1 H2) as (d & Hd).
  - apply Forall_forall. intros i Hi. apply in_seq in Hi. lia.
  - rewrite Hd. cbn [bind]. eauto.
Qed.

Lemma compare_signal_finite (o n : Message.t) (name : string) :
  message_finite o = true -> message_finite n = true ->
  exists rows, compare_signal o n name = Ok rows.
Proof.
  intros Ho Hn. unfold compare_signal.
  destruct (get_signal name o) as [s|] eqn:Es; destruct (get_signal name n) as [t|] eqn:Et.
  - destruct (build_signal_row_finite o s (get_signal_finite _ _ _ Ho Es)) as (r1 & E1 & S1).
    destruct (build_signal_row_finite n t (get_signal_finite _ _ _ Hn Et)) as (r2 & E2 & S2).
    rewrite E1, E2. cbn [bind].
    destruct (check_row_diff_total r1 r2 S1 S2) as (d & Hd).
    { rewrite (build_signal_row_length _ _ _ E1), (build_signal_row_length _ _ _ E2).
      reflexivity. }
    rewrite Hd. cbn [bind]. eauto.
  - destruct (build_signal_row_finite o s (get_signal_finite _ _ _ Ho Es)) as (r1 & E1 & S1).
    rewrite E1. cbn [bind].
    destruct (check_row_diff_total r1 (build_empty_msg_row n) S1
                (build_empty_msg_row_stable n)) as (d & Hd).
    { rewrite (build_signal_row_length _ _ _ E1), build_empty_msg_row_length.
      reflexivity. }
    rewrite Hd. cbn [bind]. eauto.
  - destruct (build_signal_row_finite n t (get_signal_finite _ _ _ Hn Et)) as (r2 & E2 & S2).
    rewrite E2. cbn [bind].
    destruct (check_row_diff_total (build_empty_msg_row o) r2
                (build_empty_msg_row_stable o) S2) as (d & Hd).
    { rewrite (build_signal_row_length _ _ _ E2), build_empty_msg_row_length.
      reflexivity. }
    rewrite Hd. cbn [bind]. eauto.
  - eauto.
Qed.

Lemma concat_mapM_total {A B : Type} (f : A -> result (list B)) (l : list A) :
  (forall x, In x l -> exists ys, f x = Ok ys) -> exists r, concat_mapM f l = Ok r.
Proof.
  intros H. destruct (concat_mapM_all (fun _ => True) f l) as (r & Hr & _); [|eauto].
  intros x Hx. destruct (H x Hx) as (ys & Hy). exists ys. split; [exact Hy|].
  apply Forall_forall. auto.
Qed.

(** The rows of a message that is in one database only. *)
Lemma one_sided_rows (m : Message.t) (sigs : list (string * Signal.t))
  (mk : list pyval -> row_tuple) :
  forallb signal_finite (od_values sigs) = true ->
  exists rows,
    concat_mapM (fun kv => row <- build_signal_row m (snd kv) ;; Ok [mk row]) sigs = Ok rows /\
    List.length rows = List.length sigs /\
    Forall (fun t => exists row, t = mk row /\ List.length row = NUM_COLS_PER_SIDE) rows.
Proof.
  induction sigs as [|[k s] sigs IH]; intros H.
  - exists []. repeat split; constructor.
  - simpl in H. apply andb_true_iff in H. destruct H as [Hs Hr].
    destruct (IH Hr) as (rows & E & L & F).
    destruct (build_signal_row_finite m s Hs) as (row & Erow & _).
    cbn [concat_mapM snd]. rewrite Erow. cbn [bind]. rewrite E. cbn [bind].
    exists ([mk row] ++ rows). split; [reflexivity|]. split.
    + simpl. rewrite L. reflexivity.
    + constructor; [|exact F]. exists row. split; [reflexivity|].
      apply (build_signal_row_length _ _ _ Erow).
Qed.

Lemma compare_message_finite (old_db new_db : DBCDatabase.t) (id : Z) :
  db_finite old_db = true -> db_finite new_db = true ->
  exists rows, compare_message old_db new_db id = Ok rows.
Proof.
  intros Ho Hn. unfold compare_message.
  destruct (get_message id old_db) as [o|] eqn:Eo;
    destruct (get_message id new_db) as [n|] eqn:En.
  - pose proof (get_message_finite _ _ _ Ho Eo) as Fo.
    pose proof (get_message_finite _ _ _ Hn En) as Fn.
    destruct (all_sig_names o n) as [|x names].
    + destruct (check_row_diff_total (build_empty_msg_row o) (build_empty_msg_row n)
                  (build_empty_msg_row_stable o) (build_empty_msg_row_stable n)) as (d & Hd).
      { rewrite !build_empty_msg_row_length. reflexivity. }
      rewrite Hd. cbn [bind]. eauto.
    + apply concat_mapM_total. intros y _. apply compare_signal_finite; assumption.
  - pose proof (get_message_finite _ _ _ Ho Eo) as Fo.
    destruct (Message.signals o) as [|kv sigs] eqn:Es; [eauto|].
    destruct (one_sided_rows o (kv :: sigs)
                (fun row => mk_row row build_empty_row true all_cols)) as (rows & E & _).
    { unfold message_finite in Fo. rewrite Es in Fo. exact Fo. }
    eauto.
  - pose proof (get_message_finite _ _ _ Hn En) as Fn.
    destruct (Message.signals n) as [|kv sigs] eqn:Es; [eauto|].
    destruct (one_sided_rows n (kv :: sigs)
                (fun row => mk_row build_empty_row row true all_cols)) as (rows & E & _).
    { unfold message_finite in Fn. rewrite Es in Fn. exact Fn. }
    eauto.
  - eauto.
Qed.

Lemma compare_dbc_files_finite (old_db new_db : DBCDatabase.t) :
  db_finite old_db = true -> db_finite new_db = true ->
  exists rows, compare_dbc_files old_db new_db = Ok rows.
Proof.
  intros Ho Hn. apply concat_mapM_total. intros id _.
  apply compare_message_finite; assumption.
Qed.

Lemma pair_ok_finite (o n : Message.t) (name : string) :
  message_finite o = true -> message_finite n = true -> pair_ok o n name = true.
Proof.
  intros Ho Hn. unfold pair_ok.
  destruct (get_signal name o) as [s|] eqn:Es; [|reflexivity].
  destruct (get_signal name n) as [t|] eqn:Et; [|reflexivity].
  destruct (build_sig_summary_row_finite o s (get_signal_finite _ _ _ Ho Es)) as (r1 & E1 & _).
  destruct (build_sig_summary_row_finite n t (get_signal_finite _ _ _ Hn Et)) as (r2 & E2 & _).
  rewrite E1, E2. reflexivity.
Qed.

Lemma msg_ok_finite (old_db new_db : DBCDatabase.t) (id : Z) :
  db_finite old_db = true -> db_finite new_db = true ->
  In id (all_msg_ids old_db new_db) -> msg_ok old_db new_db id = true.
Proof.
  intros Ho Hn Hin. unfold msg_ok.
  destruct (get_message id old_db) as [o|] eqn:Eo;
    destruct (get_message id new_db) as [n|] eqn:En; try reflexivity.
  - apply forallb_forall. intros x _. apply pair_ok_finite.
    + apply (get_message_finite _ _ _ Ho Eo).
    + apply (get_message_finite _ _ _ Hn En).
  - apply all_msg_ids_present in Hin. rewrite Eo, En in Hin. tauto.
Qed.

(** On finite databases [categorize_changes] returns the concatenation of
    the per-id changes. *)
Lemma categorize_changes_finite (old_db new_db : DBCDatabase.t) :
  db_finite old_db = true -> db_finite new_db = true ->
  categorize_changes old_db new_db =
  Ok (fold_left changes_app
        (map (msg_delta old_db new_db) (all_msg_ids old_db new_db)) no_changes).
Proof.
  intros Ho Hn. apply categorize_changes_ok. apply forallb_forall.
  intros id Hin. apply msg_ok_finite; assumption.
Qed.

(* ================================================================== *)
(** ** The rows of one message *)

Lemma concat_mapM_app {A B : Type} (f : A -> result (list B)) (l1 l2 : list A)
  (r : list B) :
  concat_mapM f (l1 ++ l2) = Ok r <->
  exists r1 r2, concat_mapM f l1 = Ok r1 /\ concat_mapM f l2 = Ok r2 /\ r = r1 ++ r2.
Proof.
  revert r. induction l1 as [|x l1 IH]; intros r; simpl.
  - split.
    + intros H. exists [], r. auto.
    + intros (r1 & r2 & H1 & H2 & ->). injection H1 as <-. exact H2.
  - split.
    + intros H. apply bind_Ok in H. destruct H as (ys & Hy & H).
      apply bind_Ok in H. destruct H as (zs & Hz & H). injection H as <-.
      apply IH in Hz. destruct Hz as (r1 & r2 & H1 & H2 & ->).
      exists (ys ++ r1), r2. rewrite Hy, H1. cbn [bind].
      split; [reflexivity|]. split; [exact H2 | apply app_assoc].
    + intros (r1 & r2 & H1 & H2 & ->).
      apply bind_Ok in H1. destruct H1 as (ys & Hy & H1).
      apply bind_Ok in H1. destruct H1 as (zs & Hz & H1). injection H1 as <-.
      rewrite Hy. cbn [bind].
      assert (E : concat_mapM f (l1 ++ l2) = Ok (zs ++ r2)) by (apply IH; eauto).
      rewrite E. cbn [bind]. rewrite app_assoc. reflexivity.
Qed.

Lemma sorted_split_notin (l1 l2 : list Z) (x : Z) :
  StronglySorted Z.lt (l1 ++ x :: l2) -> ~ In x l1 /\ ~ In x l2.
Proof.
  induction l1 as [|a l1 IH]; simpl; intros H.
  - inversion H as [|? ? _ Hx]; subst. split; [tauto|].
    intros Hin. rewrite Forall_forall in Hx. specialize (Hx x Hin). lia.
  - inversion H as [|? ? Hs Ha]; subst. destruct (IH Hs) as [N1 N2].
    split; [|exact N2]. intros [->|Hin]; [|contradiction].
    rewrite Forall_forall in Ha. specialize (Ha x (in_elt x l1 l2)). lia.
Qed.

Lemma rows_of_message_intro (old_db new_db : DBCDatabase.t) (id : Z)
  (rows : list row_tuple) :
  compare_dbc_files old_db new_db = Ok rows -> In id (all_msg_ids old_db new_db) ->
  exists chunk, rows_of_message old_db new_db id rows chunk.
Proof.
  unfold compare_dbc_files. intros H Hin.
  destruct (in_split _ _ Hin) as (l1 & l2 & E).
  pose proof (sorted_set_sorted
                (od_keys (DBCDatabase.messages old_db) ++
                 od_keys (DBCDatabase.messages new_db))) as Hs.
  fold (all_msg_ids old_db new_db) in Hs. rewrite E in Hs, H.
  destruct (sorted_split_notin _ _ _ Hs) as [N1 N2].
  apply concat_mapM_app in H. destruct H as (pre & r2 & H1 & H2 & ->).
  simpl in H2. apply bind_Ok in H2. destruct H2 as (chunk & Hc & H2).
  apply bind_Ok in H2. destruct H2 as (post & Hp & H2). injection H2 as <-.
  exists chunk, l1, l2, pre, post. repeat split; assumption.
Qed.

(* ================================================================== *)
(** ** Added against removed *)

(** C3. For any two databases the added messages and signals of
    [categorize_changes A B] are, entity for entity and in the same order,
    the removed messages and signals of [categorize_changes B A]; one call
    raises exactly when the other does, and both return on databases whose
    signals have a finite scale, offset, minimum and maximum. *)
Theorem diff_symmetry (A B : DBCDatabase.t) :
  option_map added (returned (categorize_changes A B)) =
  option_map removed (returned (categorize_changes B A)) /\
  (db_finite A = true -> db_finite B = true ->
   exists r r',
     categorize_changes A B = Ok r /\ categorize_changes B A = Ok r' /\
     new_messages r = removed_messages r' /\ new_signals r = removed_signals r').
Proof.
  split; [apply added_is_removed|].
  intros HA HB. pose proof (added_is_removed A B) as H.
  rewrite (categorize_changes_finite _ _ HA HB), (categorize_changes_finite _ _ HB HA) in H.
  cbn [returned option_map] in H. injection H as H1 H2.
  eexists. eexists. split; [apply (categorize_changes_finite _ _ HA HB)|].
  split; [apply (categorize_changes_finite _ _ HB HA)|]. split; assumption.
Qed.

(* ================================================================== *)
(** ** A message of one database only *)

Lemma get_message_key (db : DBCDatabase.t) (id : Z) (m : Message.t) :
  get_message id db = Some m -> In id (od_keys (DBCDatabase.messages db)).
Proof.
  intros H. apply od_get_In in H. unfold od_keys.
  apply (in_map fst) in H. exact H.
Qed.


Lemma one_sided_rows_Ok (m : Message.t) (sigs : list (string * Signal.t))
  (mk : list pyval -> row_tuple) (rows : list row_tuple) :
  concat_mapM (fun kv => row <- build_signal_row m (snd kv) ;; Ok [mk row]) sigs = Ok rows ->
  List.length rows = List.length sigs /\
  Forall (fun t => exists row, t = mk row /\ List.length row = NUM_COLS_PER_SIDE) rows.
Proof.
  revert rows. induction sigs as [|[k s] sigs IH]; intros rows H.
  - injection H as <-. split; [reflexivity | constructor].
  - cbn [concat_mapM snd] in H. inv_bind H. subst rows.
    apply bind_Ok in Ha. destruct Ha as (row & Hrow & Ha). injection Ha as <-.
    destruct (IH _ Ha0) as [L F]. split.
    + simpl. rewrite L. reflexivity.
    + constructor; [|exact F]. exists row. split; [reflexivity|].
      apply (build_signal_row_length _ _ _ Hrow).
Qed.





(* ================================================================== *)
(** ** A message without signals in both databases *)

Lemma zero_signal_names (o n : Message.t) :
  Message.signals o = [] -> Message.signals n = [] -> all_sig_names o n = [].
Proof. intros Eo En. unfold all_sig_names. rewrite Eo, En. reflexivity. Qed.

(** C10.  For a message that both databases hold without signals, the
    iteration of the row-level view for its id returns exactly one row
    tuple: both rows are the message columns followed by an empty slot for
    each signal column, and when the two versions of the message are
    identical the tuple reports no difference.  That tuple is all the
    message contributes to the row-level view whenever the view returns,
    which it does on databases whose signals have a finite scale, offset,
    minimum and maximum. *)
Theorem zero_signal_message_row (old_db new_db : DBCDatabase.t) (id : Z)
  (old_msg new_msg : Message.t) :
  get_message id old_db = Some old_msg -> get_message id new_db = Some new_msg ->
  Message.signals old_msg = [] -> Message.signals new_msg = [] ->
  exists t,
    compare_message old_db new_db id = Ok [t] /\
    old_row t = msg_part old_msg ++ repeat VNone NUM_SIG_COLS /\
    new_row t = msg_part new_msg ++ repeat VNone NUM_SIG_COLS /\
    (old_msg = new_msg -> no_diff t) /\
    (forall rows, compare_dbc_files old_db new_db = Ok rows ->
                  rows_of_message old_db new_db id rows [t]) /\
    (db_finite old_db = true -> db_finite new_db = true ->
     exists rows, compare_dbc_files old_db new_db = Ok rows).
Proof.
  intros Eo En So Sn.
  destruct (check_row_diff_total (build_empty_msg_row old_msg) (build_empty_msg_row new_msg)
              (build_empty_msg_row_stable old_msg) (build_empty_msg_row_stable new_msg))
    as (d & Hd).
  { rewrite !build_empty_msg_row_length. reflexivity. }
  assert (Hchunk : compare_message old_db new_db id =
                   Ok [mk_row (build_empty_msg_row old_msg) (build_empty_msg_row new_msg)
                              (fst d) (snd d)]).
  { unfold compare_message. rewrite Eo, En, (zero_signal_names _ _ So Sn). cbv zeta.
    rewrite Hd. reflexivity. }
  eexists. split; [exact Hchunk|].
  split; [reflexivity|]. split; [reflexivity|]. split; [|split].
  - intros ->. rewrite (check_row_diff_self _ (build_empty_msg_row_stable new_msg)) in Hd.
    injection Hd as <-. split; reflexivity.
  - intros rows Hrows.
    destruct (rows_of_message_intro _ _ id _ Hrows) as (chunk & Hc).
    { apply all_msg_ids_In. left. eapply get_message_key. exact Eo. }
    destruct Hc as (l1 & l2 & pre & post & H1 & H2 & H3 & H4 & H5 & H6 & H7).
    rewrite Hchunk in H6. injection H6 as <-.
    exists l1, l2, pre, post. repeat split; assumption.
  - intros Ho Hn. apply (compare_dbc_files_finite _ _ Ho Hn).
Qed.

(* ================================================================== *)
(** ** The order of the message ids *)

Lemma od_get_Some_iff {V : Type} (k : Z) (v : V) (d : list (Z * V)) :
  NoDup (od_keys d) -> (od_get Z.eqb k d = Some v <-> In (k, v) d).
Proof.
  intros Hnd. split; [apply od_get_In|].
  induction d as [|[k' v'] d IH]; simpl; [tauto|].
  unfold od_keys in Hnd. simpl in Hnd. inversion Hnd as [|? ? Hk Hd]; subst.
  intros [E|Hin].
  - injection E as -> ->. rewrite Z.eqb_refl. reflexivity.
  - destruct (Z.eqb_spec k k') as [->|Hne].
    + exfalso. apply Hk. apply (in_map fst) in Hin. exact Hin.
    + apply IH; assumption.
Qed.

Lemma od_keys_perm {V : Type} (d d' : list (Z * V)) :
  Permutation d d' -> Permutation (od_keys d) (od_keys d').
Proof. intros H. unfold od_keys. apply Permutation_map. exact H. Qed.

Lemma od_get_perm {V : Type} (k : Z) (d d' : list (Z * V)) :
  NoDup (od_keys d) -> Permutation d d' -> od_get Z.eqb k d = od_get Z.eqb k d'.
Proof.
  intros Hnd Hp.
  assert (Hnd' : NoDup (od_keys d')).
  { eapply Permutation_NoDup; [apply od_keys_perm; exact Hp | exact Hnd]. }
  destruct (od_get Z.eqb k d) as [v|] eqn:E.
  - symmetry. apply od_get_Some_iff; [exact Hnd'|].
    eapply Permutation_in; [exact Hp|]. apply od_get_In. exact E.
  - destruct (od_get Z.eqb k d') as [v'|] eqn:E'; [|reflexivity].
    apply od_get_In in E'. apply Permutation_sym in Hp.
    apply (Permutation_in _ Hp) in E'.
    apply od_get_Some_iff in E'; [congruence | exact Hnd].
Qed.

(** The databases are read through [get_message] and [all_msg_ids] only. *)
Lemma compare_dbc_files_reads (old_db new_db old_db' new_db' : DBCDatabase.t) :
  (forall id, get_message id old_db' = get_message id old_db) ->
  (forall id, get_message id new_db' = get_message id new_db) ->
  all_msg_ids old_db' new_db' = all_msg_ids old_db new_db ->
  compare_dbc_files old_db' new_db' = compare_dbc_files old_db new_db.
Proof.
  intros Ho Hn Hids. unfold compare_dbc_files. rewrite Hids.
  apply concat_mapM_ext. intros id _. unfold compare_message. rewrite Ho, Hn.
  reflexivity.
Qed.

Lemma categorize_changes_reads (old_db new_db old_db' new_db' : DBCDatabase.t) :
  (forall id, get_message id old_db' = get_message id old_db) ->
  (forall id, get_message id new_db' = get_message id new_db) ->
  all_msg_ids old_db' new_db' = all_msg_ids old_db new_db ->
  categorize_changes old_db' new_db' = categorize_changes old_db new_db.
Proof.
  intros Ho Hn Hids. unfold categorize_changes. rewrite Hids.
  apply foldM_ext. intros id c _. unfold categorize_message. rewrite Ho, Hn.
  reflexivity.
Qed.

Lemma all_msg_ids_perm (old_db new_db old_db' new_db' : DBCDatabase.t) :
  Permutation (DBCDatabase.messages old_db) (DBCDatabase.messages old_db') ->
  Permutation (DBCDatabase.messages new_db) (DBCDatabase.messages new_db') ->
  all_msg_ids old_db' new_db' = all_msg_ids old_db new_db.
Proof.
  intros Po Pn. unfold all_msg_ids. apply sorted_set_same. intros x.
  rewrite !in_app_iff.
  pose proof (od_keys_perm _ _ Po) as Ko. pose proof (od_keys_perm _ _ Pn) as Kn.
  split; intros [H|H].
  - left. eapply Permutation_in; [apply Permutation_sym; exact Ko | exact H].
  - right. eapply Permutation_in; [apply Permutation_sym; exact Kn | exact H].
  - left. eapply Permutation_in; [exact Ko | exact H].
  - right. eapply Permutation_in; [exact Kn | exact H].
Qed.

(** C7. The message ids both views iterate over are the ids of the two
    databases in strictly ascending order.  Listing the messages of either
    database in another order changes neither that list nor the result of
    either view.  The rows are the rows of each id in that order, and the
    categorized changes are the changes of each id in that order. *)
Theorem message_ids_ascending (old_db new_db : DBCDatabase.t) :
  StronglySorted Z.lt (all_msg_ids old_db new_db) /\
  (forall id, In id (all_msg_ids old_db new_db) <->
              In id (od_keys (DBCDatabase.messages old_db)) \/
              In id (od_keys (DBCDatabase.messages new_db))) /\
  (forall old_db' new_db',
      NoDup (od_keys (DBCDatabase.messages old_db)) ->
      NoDup (od_keys (DBCDatabase.messages new_db)) ->
      Permutation (DBCDatabase.messages old_db) (DBCDatabase.messages old_db') ->
      Permutation (DBCDatabase.messages new_db) (DBCDatabase.messages new_db') ->
      all_msg_ids old_db' new_db' = all_msg_ids old_db new_db /\
      compare_dbc_files old_db' new_db' = compare_dbc_files old_db new_db /\
      categorize_changes old_db' new_db' = categorize_changes old_db new_db) /\
  (forall rows,
      compare_dbc_files old_db new_db = Ok rows ->
      exists chunks,
        Forall2 (fun id chunk => compare_message old_db new_db id = Ok chunk)
                (all_msg_ids old_db new_db) chunks /\
        rows = List.concat chunks) /\
  (forall r,
      categorize_changes old_db new_db = Ok r ->
      r = fold_left changes_app
            (map (msg_delta old_db new_db) (all_msg_ids old_db new_db)) no_changes).
Proof.
  split; [apply sorted_set_sorted|]. split; [apply all_msg_ids_In|]. split; [|split].
  - intros old_db' new_db' No Nn Po Pn.
    pose proof (all_msg_ids_perm _ _ _ _ Po Pn) as Hids.
    assert (Ho : forall id, get_message id old_db' = get_message id old_db).
    { intros id. unfold get_message. symmetry. apply od_get_perm; assumption. }
    assert (Hn : forall id, get_message id new_db' = get_message id new_db).
    { intros id. unfold get_message. symmetry. apply od_get_perm; assumption. }
    split; [exact Hids|]. split.
    + apply compare_dbc_files_reads; assumption.
    + apply categorize_changes_reads; assumption.
  - intros rows H. apply concat_mapM_Ok. exact H.
  - intros r H. apply categorize_changes_Ok_inv in H. tauto.
Qed.

(* ================================================================== *)
(** ** Floats as values *)


Lemma pow2_pos (k : Z) : 0 <= k -> 0 < 2 ^ k.
Proof. intros H. apply Z.pow_pos_nonneg; lia. Qed.

Lemma pow2_split (a b : Z) : 0 <= a -> 0 <= b -> 2 ^ (a + b) = 2 ^ a * 2 ^ b.
Proof. intros. apply Z.pow_add_r; assumption. Qed.

(** Scaled by a large enough power of two, [f == z] is an equation between
    integers. *)
Lemma float_eq_int_spec (s : bool) (m : positive) (e z K : Z) :
  0 <= K -> - e <= K ->
  (float_eq_int (S754_finite s m e) z = true <->
   signed_m s m * 2 ^ (e + K) = z * 2 ^ K).
Proof.
  intros HK HeK. unfold float_eq_int. fold (signed_m s m).
  pose proof (pow2_pos K HK) as PK.
  destruct (Z.leb_spec 0 e) as [He|He].
  - rewrite Z.eqb_eq, (pow2_split e K He HK), Z.mul_assoc. split.
    + intros <-. reflexivity.
    + intros H. apply Z.mul_reg_r in H; [exact H | lia].
  - rewrite Z.eqb_eq.
    assert (E : 2 ^ K = 2 ^ (- e) * 2 ^ (e + K)).
    { rewrite <- pow2_split by lia. f_equal. lia. }
    rewrite E, Z.mul_assoc.
    pose proof (pow2_pos (e + K) ltac:(lia)) as P. split.
    + intros ->. reflexivity.
    + intros H. apply Z.mul_reg_r in H; [exact H | lia].
Qed.

Lemma signed_m_sign (s s' : bool) (m m' : positive) (a b : Z) :
  0 < a -> 0 < b -> signed_m s m * a = signed_m s' m' * b ->
  s = s' /\ Zpos m * a = Zpos m' * b.
Proof.
  intros Ha Hb. unfold signed_m. destruct s, s'; intros H.
  - split; [reflexivity|]. lia.
  - exfalso. nia.
  - exfalso. nia.
  - split; [reflexivity | exact H].
Qed.

Lemma float_eqb_spec (s s' : bool) (m m' : positive) (e e' K : Z) :
  - e <= K -> - e' <= K ->
  (float_eqb (S754_finite s m e) (S754_finite s' m' e') = true <->
   signed_m s m * 2 ^ (e + K) = signed_m s' m' * 2 ^ (e' + K)).
Proof.
  intros HeK HeK'. unfold float_eqb.
  set (d := Z.min e e').
  assert (Hd : 0 <= d + K) by (unfold d; lia).
  assert (E1 : 2 ^ (e + K) = 2 ^ (e - d) * 2 ^ (d + K)).
  { rewrite <- pow2_split by (unfold d; lia). f_equal. lia. }
  assert (E2 : 2 ^ (e' + K) = 2 ^ (e' - d) * 2 ^ (d + K)).
  { rewrite <- pow2_split by (unfold d; lia). f_equal. lia. }
  pose proof (pow2_pos (d + K) Hd) as P.
  pose proof (pow2_pos (e + K) ltac:(lia)) as P1.
  pose proof (pow2_pos (e' + K) ltac:(lia)) as P2.
  rewrite andb_true_iff, Z.eqb_eq, Bool.eqb_true_iff. split.
  - intros [-> H]. rewrite E1, E2. unfold signed_m.
    destruct s'; rewrite !Z.mul_assoc.
    + replace (Z.neg m * 2 ^ (e - d)) with (- (Z.pos m * 2 ^ (e - d))) by lia.
      replace (Z.neg m' * 2 ^ (e' - d)) with (- (Z.pos m' * 2 ^ (e' - d))) by lia.
      rewrite H. reflexivity.
    + rewrite H. reflexivity.
  - intros H. apply signed_m_sign in H; [|assumption|assumption].
    destruct H as [-> H]. split; [reflexivity|].
    rewrite E1, E2, !Z.mul_assoc in H.
    apply Z.mul_reg_r in H; [exact H | lia].
Qed.

Lemma float_eqb_sym (f g : spec_float) : float_eqb f g = float_eqb g f.
Proof.
  destruct f as [s|s| |s m e], g as [s'|s'| |s' m' e']; unfold float_eqb;
    try reflexivity.
  - destruct s, s'; reflexivity.
  - rewrite (Z.min_comm e' e).
    rewrite (Z.eqb_sym (Z.pos m' * 2 ^ (e' - Z.min e e'))).
    destruct s, s'; reflexivity.
Qed.

Lemma signed_m_nonzero (s : bool) (m : positive) : signed_m s m <> 0.
Proof. destruct s; discriminate. Qed.

(** An integer that equals [f] also equals [g] exactly when [f == g]. *)
Lemma float_eq_int_eqb (f g : spec_float) (z : Z) :
  float_finite f = true -> float_finite g = true ->
  float_eq_int f z = true -> float_eq_int g z = float_eqb f g.
Proof.
  destruct f as [s|s| |s m e], g as [s'|s'| |s' m' e']; simpl float_finite;
    try discriminate; intros _ _ Hf.
  - simpl in *. exact Hf.
  - simpl in Hf. apply Z.eqb_eq in Hf. subst z. simpl float_eqb.
    apply not_true_is_false. intros H.
    apply (float_eq_int_spec s' m' e' 0 (Z.max 0 (- e'))) in H; try lia.
    pose proof (pow2_pos (e' + Z.max 0 (- e')) ltac:(lia)).
    pose proof (signed_m_nonzero s' m'). nia.
  - simpl float_eqb. simpl float_eq_int.
    apply (float_eq_int_spec s m e z (Z.max 0 (- e))) in Hf; try lia.
    destruct (Z.eqb_spec z 0) as [->|Hz]; [|reflexivity].
    pose proof (pow2_pos (e + Z.max 0 (- e)) ltac:(lia)).
    pose proof (signed_m_nonzero s m). nia.
  - set (K := Z.max 0 (Z.max (- e) (- e'))).
    apply (float_eq_int_spec s m e z K) in Hf; try (unfold K; lia).
    apply eq_true_iff_eq.
    rewrite (float_eq_int_spec s' m' e' z K) by (unfold K; lia).
    rewrite (float_eqb_spec s s' m m' e e' K) by (unfold K; lia).
    rewrite Hf. split; intros H; congruence.
Qed.

Lemma float_eq_int_unique (g : spec_float) (z z' : Z) :
  float_finite g = true -> float_eq_int g z' = true -> float_eq_int g z = (z =? z').
Proof.
  destruct g as [s|s| |s m e]; simpl float_finite; try discriminate; intros _ H.
  - simpl in *. apply Z.eqb_eq in H. subst. reflexivity.
  - set (K := Z.max 0 (- e)).
    apply (float_eq_int_spec s m e z' K) in H; try (unfold K; lia).
    apply eq_true_iff_eq.
    rewrite (float_eq_int_spec s m e z K) by (unfold K; lia).
    rewrite Z.eqb_eq, H.
    pose proof (pow2_pos K ltac:(unfold K; lia)). split.
    + intros E. apply Z.mul_reg_r in E; [congruence | lia].
    + intros ->. reflexivity.
Qed.

(** What [format_number] returns on a finite float. *)
Lemma format_number_cases (f : spec_float) (v : pyval) :
  format_number f = Ok v ->
  float_finite f = true /\
  ((exists z, v = VInt z /\ float_eq_int f z = true) \/ v = VFloat f).
Proof.
  unfold format_number. intros H. inv_bind H. split.
  - destruct f; simpl in *; try discriminate; reflexivity.
  - destruct (float_eq_int f a) eqn:E; [left; eauto | right; congruence].
Qed.

(** After [format_number], two numbers compare equal exactly when the
    floats are equal. *)
Lemma format_number_eq (f g : spec_float) (v w : pyval) :
  format_number f = Ok v -> format_number g = Ok w -> py_eq v w = float_eqb f g.
Proof.
  intros Hv Hw.
  destruct (format_number_cases _ _ Hv) as [Ff [(z & -> & Hz)| ->]];
    destruct (format_number_cases _ _ Hw) as [Fg [(z' & -> & Hz')| ->]]; simpl.
  - rewrite <- (float_eq_int_eqb f g z Ff Fg Hz).
    symmetry. apply float_eq_int_unique; assumption.
  - apply float_eq_int_eqb; assumption.
  - rewrite float_eqb_sym. apply float_eq_int_eqb; assumption.
  - reflexivity.
Qed.

(* ================================================================== *)
(** ** The modified buckets *)

Lemma diff_indices_stable (r1 r2 : list pyval) (idx : list nat) :
  Forall stable r1 -> Forall stable r2 ->
  Forall (fun i => (i < List.length r1)%nat /\ (i < List.length r2)%nat) idx ->
  diff_indices r1 r2 idx =
  Ok (filter (fun i => py_ne (nth i r1 VNone) (nth i r2 VNone)) idx).
Proof.
  intros H1 H2. induction idx as [|i idx IH]; intros Hidx; [reflexivity|].
  inversion Hidx as [|? ? [Hi1 Hi2] Hrest]; subst.
  cbn [diff_indices filter]. unfold py_index.
  destruct (nth_error r1 i) as [a|] eqn:E1; [|apply nth_error_None in E1; lia].
  destruct (nth_error r2 i) as [b|] eqn:E2; [|apply nth_error_None in E2; lia].
  rewrite Forall_forall in H1, H2.
  destruct (H1 a (nth_error_In _ _ E1)) as [Na _].
  destruct (H2 b (nth_error_In _ _ E2)) as [Nb _].
  cbn [bind]. rewrite Na. cbn [bind]. rewrite Nb. cbn [bind].
  rewrite (IH Hrest). cbn [bind].
  rewrite (nth_error_nth _ _ VNone E1), (nth_error_nth _ _ VNone E2). reflexivity.
Qed.

Lemma filter_nil_iff {A : Type} (f : A -> bool) (l : list A) :
  filter f l = [] <-> forall x, In x l -> f x = false.
Proof.
  induction l as [|x l IH]; simpl; [tauto|].
  destruct (f x) eqn:E.
  - split; [discriminate|]. intros H. specialize (H x (or_introl eq_refl)). congruence.
  - rewrite IH. split.
    + intros H y [->|Hy]; auto.
    + intros H y Hy. apply H. right. exact Hy.
Qed.

Lemma rows_differ_false (r1 r2 : list pyval) :
  List.length r1 = List.length r2 ->
  (rows_differ r1 r2 = false <->
   forall i, In i (seq 0 (List.length r1)) ->
             py_ne (nth i r1 VNone) (nth i r2 VNone) = false).
Proof.
  intros L. unfold rows_differ. split.
  - intros H i Hi. apply in_seq in Hi.
    destruct (py_ne (nth i r1 VNone) (nth i r2 VNone)) eqn:E; [|reflexivity].
    rewrite <- H. symmetry. apply existsb_exists.
    exists (nth i (combine r1 r2) (VNone, VNone)). split.
    + apply nth_In. rewrite length_combine. lia.
    + rewrite combine_nth by exact L. exact E.
  - intros H. apply not_true_is_false. intros E. apply existsb_exists in E.
    destruct E as ([a b] & Hin & Hne).
    destruct (In_nth _ _ (VNone, VNone) Hin) as (i & Hi & Ei).
    rewrite length_combine in Hi. rewrite combine_nth in Ei by exact L.
    injection Ei as <- <-. simpl in Hne.
    rewrite H in Hne; [discriminate|]. apply in_seq. lia.
Qed.

(** On stable rows of one length the list of differing indices is empty
    exactly when no cell differs. *)
Lemma diff_indices_rows_differ (r1 r2 : list pyval) (d : list nat) :
  Forall stable r1 -> Forall stable r2 -> List.length r1 = List.length r2 ->
  diff_indices r1 r2 (seq 0 (List.length r1)) = Ok d ->
  (d <> [] <-> rows_differ r1 r2 = true).
Proof.
  intros H1 H2 L Hd.
  rewrite diff_indices_stable in Hd; try assumption.
  2:{ apply Forall_forall. intros i Hi. apply in_seq in Hi. lia. }
  injection Hd as <-.
  rewrite <- not_false_iff_true, (rows_differ_false _ _ L), filter_nil_iff. tauto.
Qed.

Lemma py_ne_VStr (a b : string) : py_ne (VStr a) (VStr b) = negb (String.eqb a b).
Proof. reflexivity. Qed.

Lemma py_ne_VInt (a b : Z) : py_ne (VInt a) (VInt b) = negb (a =? b).
Proof. reflexivity. Qed.

Lemma msg_diffs_of_differs (o n : Message.t) :
  msg_diffs_of o n <> [] <-> msg_summary_differs o n = true.
Proof.
  unfold msg_diffs_of. destruct (msg_diff_indices_total o n) as (d & Hd). rewrite Hd.
  rewrite (diff_indices_rows_differ _ _ d (build_msg_summary_row_stable o)
             (build_msg_summary_row_stable n) eq_refl Hd).
  unfold rows_differ, build_msg_summary_row, msg_summary_differs.
  cbn [combine existsb fst snd]. rewrite !py_ne_VStr, !py_ne_VInt, orb_false_r.
  reflexivity.
Qed.

Lemma unit_or_empty (u : string) : (if str_truthy u then u else "") = u.
Proof. destruct u; reflexivity. Qed.

Lemma sig_diffs_of_differs (o n : Message.t) (s t : Signal.t) :
  signal_finite s = true -> signal_finite t = true ->
  (sig_diffs_of o n s t <> [] <-> sig_summary_differs s t = true).
Proof.
  intros Fs Ft. unfold sig_diffs_of.
  destruct (build_sig_summary_row_finite o s Fs) as (r1 & E1 & S1 & L1).
  destruct (build_sig_summary_row_finite n t Ft) as (r2 & E2 & S2 & L2).
  rewrite E1, E2.
  destruct (sig_diff_indices_total _ _ _ _ _ _ E1 E2) as (d & Hd). rewrite Hd.
  rewrite (diff_indices_rows_differ _ _ d (Forall_skipn _ 3 _ S1) (Forall_skipn _ 3 _ S2)
             ltac:(rewrite (skipn3_length _ L1), (skipn3_length _ L2); reflexivity) Hd).
  unfold build_sig_summary_row in E1, E2.
  inv_bind E1. inv_bind E2. subst r1 r2.
  unfold rows_differ, sig_summary_differs.
  cbn [skipn combine existsb fst snd].
  rewrite !py_ne_VStr, !py_ne_VInt, orb_false_r, !unit_or_empty.
  unfold py_ne.
  rewrite (format_number_eq _ _ _ _ Ha Ha2), (format_number_eq _ _ _ _ Ha0 Ha3),
          (format_number_eq _ _ _ _ Ha1 Ha4).
  reflexivity.
Qed.

Lemma sig_delta_modified_messages o n k : modified_messages (sig_delta o n k) = [].
Proof.
  unfold sig_delta. destruct (get_signal k o), (get_signal k n); try reflexivity.
  destruct (sig_diffs_of o n t t0); reflexivity.
Qed.

Lemma msg_delta_modified_messages (old_db new_db : DBCDatabase.t) (id : Z) :
  modified_messages (msg_delta old_db new_db id) =
  match get_message id old_db, get_message id new_db with
  | Some o, Some n =>
      match msg_diffs_of o n with
      | [] => []
      | d => [(o, n, d)]
      end
  | _, _ => []
  end.
Proof.
  unfold msg_delta.
  destruct (get_message id old_db) as [o|], (get_message id new_db) as [n|];
    try reflexivity.
  rewrite fold_changes_modified_messages, flat_map_map.
  rewrite flat_map_vanish by (intros k _; apply sig_delta_modified_messages).
  rewrite app_nil_r. destruct (msg_diffs_of o n); reflexivity.
Qed.

Lemma sig_delta_modified_signals o n k :
  modified_signals (sig_delta o n k) =
  match get_signal k o, get_signal k n with
  | Some s, Some t =>
      match sig_diffs_of o n s t with
      | [] => []
      | d => [(o, n, s, t, d)]
      end
  | _, _ => []
  end.
Proof.
  unfold sig_delta. destruct (get_signal k o), (get_signal k n); try reflexivity.
  destruct (sig_diffs_of o n t t0); reflexivity.
Qed.

Lemma msg_delta_modified_signals (old_db new_db : DBCDatabase.t) (id : Z) :
  modified_signals (msg_delta old_db new_db id) =
  match get_message id old_db, get_message id new_db with
  | Some o, Some n =>
      flat_map (fun k => modified_signals (sig_delta o n k)) (all_sig_names o n)
  | _, _ => []
  end.
Proof.
  unfold msg_delta.
  destruct (get_message id old_db) as [o|], (get_message id new_db) as [n|];
    try reflexivity.
  rewrite fold_changes_modified_signals, flat_map_map.
  destruct (msg_diffs_of o n); reflexivity.
Qed.

Lemma modified_message_iff (old_db new_db : DBCDatabase.t) (id : Z) (o n : Message.t) :
  get_message id old_db = Some o -> get_message id new_db = Some n ->
  ((exists d, In (o, n, d)
                 (flat_map (fun i => modified_messages (msg_delta old_db new_db i))
                           (all_msg_ids old_db new_db))) <->
   msg_summary_differs o n = true).
Proof.
  intros Eo En. rewrite <- msg_diffs_of_differs. split.
  - intros (d & Hin). apply in_flat_map in Hin. destruct Hin as (i & _ & Hin).
    rewrite msg_delta_modified_messages in Hin.
    destruct (get_message i old_db) as [o'|]; [|contradiction].
    destruct (get_message i new_db) as [n'|]; [|contradiction].
    destruct (msg_diffs_of o' n') as [|x l] eqn:E; [contradiction|].
    destruct Hin as [Hin|[]]. injection Hin as -> -> _. rewrite E. discriminate.
  - intros Hne. exists (msg_diffs_of o n). apply in_flat_map. exists id. split.
    + apply all_msg_ids_In. left. eapply get_message_key. exact Eo.
    + rewrite msg_delta_modified_messages, Eo, En.
      destruct (msg_diffs_of o n); [congruence | left; reflexivity].
Qed.

Lemma modified_signal_iff (old_db new_db : DBCDatabase.t) (id : Z) (o n : Message.t)
  (name : string) (s t : Signal.t) :
  get_message id old_db = Some o -> get_message id new_db = Some n ->
  get_signal name o = Some s -> get_signal name n = Some t ->
  signal_finite s = true -> signal_finite t = true ->
  ((exists d, In (o, n, s, t, d)
                 (flat_map (fun i => modified_signals (msg_delta old_db new_db i))
                           (all_msg_ids old_db new_db))) <->
   sig_summary_differs s t = true).
Proof.
  intros Eo En Es Et Fs Ft. rewrite <- (sig_diffs_of_differs o n s t Fs Ft). split.
  - intros (d & Hin). apply in_flat_map in Hin. destruct Hin as (i & _ & Hin).
    rewrite msg_delta_modified_signals in Hin.
    destruct (get_message i old_db) as [o'|]; [|contradiction].
    destruct (get_message i new_db) as [n'|]; [|contradiction].
    apply in_flat_map in Hin. destruct Hin as (k & _ & Hin).
    rewrite sig_delta_modified_signals in Hin.
    destruct (get_signal k o') as [s'|]; [|contradiction].
    destruct (get_signal k n') as [t'|]; [|contradiction].
    destruct (sig_diffs_of o' n' s' t') as [|x l] eqn:E; [contradiction|].
    destruct Hin as [Hin|[]]. injection Hin as -> -> -> -> _. rewrite E. discriminate.
  - intros Hne. exists (sig_diffs_of o n s t). apply in_flat_map. exists id. split.
    + apply all_msg_ids_In. left. eapply get_message_key. exact Eo.
    + rewrite msg_delta_modified_signals, Eo, En. apply in_flat_map. exists name. split.
      * apply all_sig_names_In. left. apply od_get_str_In in Es.
        apply (in_map fst) in Es. exact Es.
      * rewrite sig_delta_modified_signals, Es, Et.
        destruct (sig_diffs_of o n s t); [congruence | left; reflexivity].
Qed.

(** C2 (as amended). On two databases whose signals have a finite scale,
    offset, minimum and maximum [categorize_changes] returns, and for a
    message id of both databases the message pair is in the modified
    messages exactly when one of the eight summary columns differs, and a
    signal name of both messages is in the modified signals exactly when
    one of the nine summary fields differs.  Fields outside the summaries
    take no part. *)
Theorem modified_iff_summary_differs (old_db new_db : DBCDatabase.t) :
  db_finite old_db = true -> db_finite new_db = true ->
  exists r,
    categorize_changes old_db new_db = Ok r /\
    forall id o n,
      get_message id old_db = Some o -> get_message id new_db = Some n ->
      ((exists d, In (o, n, d) (modified_messages r)) <->
       msg_summary_differs o n = true) /\
      forall name s t,
        get_signal name o = Some s -> get_signal name n = Some t ->
        ((exists d, In (o, n, s, t, d) (modified_signals r)) <->
         sig_summary_differs s t = true).
Proof.
  intros Ho Hn. eexists. split; [apply categorize_changes_finite; assumption|].
  intros id o n Eo En.
  rewrite fold_changes_modified_messages, fold_changes_modified_signals, !flat_map_map.
  cbn [modified_messages modified_signals no_changes app]. split.
  - apply (modified_message_iff _ _ _ _ _ Eo En).
  - intros name s t Es Et.
    apply (modified_signal_iff _ _ _ _ _ _ _ _ Eo En Es Et).
    + apply (get_signal_finite o name s); [|exact Es].
      apply (get_message_finite _ _ _ Ho Eo).
    + apply (get_signal_finite n name t); [|exact Et].
      apply (get_message_finite _ _ _ Hn En).
Qed.

(* ================================================================== *)
(** ** The sweeps keep the declared skeleton *)

Lemma od_mem_keys_Z {V : Type} (k : Z) (d : list (Z * V)) :
  od_mem Z.eqb k d = existsb (Z.eqb k) (od_keys d).
Proof.
  unfold od_mem. induction d as [|[k' v] d IH]; simpl; [reflexivity|].
  destruct (Z.eqb k k'); [reflexivity | exact IH].
Qed.

Lemma od_mem_keys_str {V : Type} (k : string) (d : list (string * V)) :
  od_mem String.eqb k d = existsb (String.eqb k) (od_keys d).
Proof.
  unfold od_mem. induction d as [|[k' v] d IH]; simpl; [reflexivity|].
  destruct (String.eqb k k'); [reflexivity | exact IH].
Qed.

Lemma shape_keys (messages : list (Z * Message.t)) :
  od_keys messages = map fst (shape messages).
Proof. unfold od_keys, shape. rewrite map_map. reflexivity. Qed.

Lemma od_mem_shape (id : Z) (a b : list (Z * Message.t)) :
  shape a = shape b -> od_mem Z.eqb id a = od_mem Z.eqb id b.
Proof. intros H. rewrite !od_mem_keys_Z, !shape_keys, H. reflexivity. Qed.

Lemma has_signal_shape (id : Z) (name : string) (a b : list (Z * Message.t)) :
  shape a = shape b -> has_signal id name a = has_signal id name b.
Proof.
  unfold has_signal. revert b. induction a as [|[k m] a IH]; intros [|[k' m'] b] H;
    try discriminate; [reflexivity|].
  simpl in H. injection H as -> Hs Hr. simpl.
  destruct (Z.eqb id k').
  - rewrite !od_mem_keys_str, Hs. reflexivity.
  - apply IH. exact Hr.
Qed.

Lemma dangling_shape (k : kind) (m : rematch) (a b : list (Z * Message.t)) :
  shape a = shape b -> dangling k m a = dangling k m b.
Proof.
  intros H. unfold dangling.
  rewrite (has_signal_shape _ _ a b H), (od_mem_shape _ a b H). reflexivity.
Qed.

Lemma od_update_keys {K V : Type} (eqb : K -> K -> bool) (k : K) (f : V -> V)
  (d : list (K * V)) :
  od_keys (od_update eqb k f d) = od_keys d.
Proof.
  induction d as [|[k' v] d IH]; [reflexivity|]. simpl.
  destruct (eqb k k'); simpl; [reflexivity|]. unfold od_keys in *. simpl.
  rewrite IH. reflexivity.
Qed.

Lemma shape_od_update (id : Z) (g : Message.t -> Message.t)
  (messages : list (Z * Message.t)) :
  (forall m, od_keys (Message.signals (g m)) = od_keys (Message.signals m)) ->
  shape (od_update Z.eqb id g messages) = shape messages.
Proof.
  intros Hg. induction messages as [|[k m] messages IH]; [reflexivity|]. simpl.
  destruct (Z.eqb id k); simpl; [rewrite Hg; reflexivity|].
  rewrite IH. reflexivity.
Qed.

Lemma shape_update_message (id : Z) (g : Message.t -> Message.t)
  (messages : list (Z * Message.t)) :
  (forall m, Message.signals (g m) = Message.signals m) ->
  shape (update_message id g messages) = shape messages.
Proof.
  intros Hg. unfold update_message. destruct (od_mem Z.eqb id messages); [|reflexivity].
  apply shape_od_update. intros m. rewrite Hg. reflexivity.
Qed.

Lemma signals_set_signals (v : list (string * Signal.t)) (m : Message.t) :
  Message.signals (Message.set_signals v m) = v.
Proof. destruct m. reflexivity. Qed.

Lemma shape_update_signal (id : Z) (name : string) (g : Signal.t -> Signal.t)
  (messages : list (Z * Message.t)) :
  shape (update_signal id name g messages) = shape messages.
Proof.
  unfold update_signal. destruct (has_signal id name messages); [|reflexivity].
  apply shape_od_update. intros m. rewrite signals_set_signals. apply od_update_keys.
Qed.

Lemma signals_set_int f v m : Message.signals (Message.set_int f v m) = Message.signals m.
Proof. destruct m, f; reflexivity. Qed.

Lemma signals_set_long_symbol v m :
  Message.signals (Message.set_long_symbol v m) = Message.signals m.
Proof. destruct m; reflexivity. Qed.

Lemma signals_set_comment v m :
  Message.signals (Message.set_comment v m) = Message.signals m.
Proof. destruct m; reflexivity. Qed.

Lemma shape_fold {A : Type} (step : list (Z * Message.t) -> A -> list (Z * Message.t))
  (l : list A) (messages : list (Z * Message.t)) :
  (forall msgs x, shape (step msgs x) = shape msgs) ->
  shape (fold_left step l messages) = shape messages.
Proof.
  intros H. revert messages. induction l as [|x l IH]; intros messages; simpl;
    [reflexivity|].
  rewrite IH. apply H.
Qed.

Lemma shape_sweep_matches (k : kind) (ms : list rematch) (messages : list (Z * Message.t)) :
  shape (sweep_matches k ms messages) = shape messages.
Proof.
  destruct k; simpl; unfold apply_msg_int_attr, apply_sig_attr; apply shape_fold;
    intros msgs x;
    first [ apply shape_update_signal
          | apply shape_update_message; intros m;
            first [apply signals_set_int | apply signals_set_long_symbol
                  | apply signals_set_comment] ].
Qed.

Lemma shape_overlay (scans : list (kind * list rematch)) (messages : list (Z * Message.t)) :
  shape (overlay scans messages) = shape messages.
Proof. apply shape_fold. intros msgs km. apply shape_sweep_matches. Qed.

Lemma sweep_all_overlay (content : string) (messages : list (Z * Message.t)) :
  swept content messages = overlay (scan_all content) messages.
Proof. reflexivity. Qed.

Lemma shape_nil (messages : list (Z * Message.t)) : shape messages = [] -> messages = [].
Proof. destruct messages; [reflexivity | discriminate]. Qed.

Lemma sweep_all_nil (content : string) : swept content [] = [].
Proof. apply shape_nil. rewrite sweep_all_overlay. apply shape_overlay. Qed.

(** *** The sweeps read the groups of a match only *)

Lemma fold_groups {X : Type} (step : X -> rematch -> X) (ms ms' : list rematch) (x : X) :
  (forall y m m', m_groups m = m_groups m' -> step y m = step y m') ->
  map m_groups ms = map m_groups ms' ->
  fold_left step ms x = fold_left step ms' x.
Proof.
  intros Hstep. revert ms' x. induction ms as [|m ms IH]; intros [|m' ms'] x H;
    try discriminate; [reflexivity|].
  cbn [map] in H. injection H as Hm Hms. cbn [fold_left].
  rewrite (Hstep x m m' Hm). apply IH. exact Hms.
Qed.

Lemma group_groups (m m' : rematch) (i : nat) :
  m_groups m = m_groups m' -> group m i = group m' i.
Proof. unfold group. intros ->. reflexivity. Qed.

Lemma sweep_matches_groups (k : kind) (ms ms' : list rematch)
  (msgs : list (Z * Message.t)) :
  map m_groups ms = map m_groups ms' ->
  sweep_matches k ms msgs = sweep_matches k ms' msgs.
Proof.
  intros H.
  assert (G : forall m m' i, m_groups m = m_groups m' -> group m i = group m' i)
    by (intros; apply group_groups; assumption).
  destruct k; cbn [sweep_matches].
  - f_equal. unfold msg_int_attr_dict. apply fold_groups; [|exact H].
    intros y m m' E. rewrite (G m m' 1%nat E), (G m m' 2%nat E). reflexivity.
  - apply fold_groups; [|exact H]. intros y m m' E. unfold long_symbol_step.
    rewrite (G m m' 1%nat E), (G m m' 2%nat E). reflexivity.
  - f_equal. unfold sig_attr_dict. apply fold_groups; [|exact H].
    intros y m m' E. rewrite (G m m' 1%nat E), (G m m' 2%nat E), (G m m' 3%nat E).
    reflexivity.
  - f_equal. unfold sig_attr_dict. apply fold_groups; [|exact H].
    intros y m m' E. rewrite (G m m' 1%nat E), (G m m' 2%nat E), (G m m' 3%nat E).
    reflexivity.
  - apply fold_groups; [|exact H]. intros y m m' E. unfold val_step. cbv zeta.
    rewrite (G m m' 1%nat E), (G m m' 2%nat E), (G m m' 3%nat E). reflexivity.
  - apply fold_groups; [|exact H]. intros y m m' E. unfold cm_sig_step.
    rewrite (G m m' 1%nat E), (G m m' 2%nat E), (G m m' 3%nat E). reflexivity.
  - apply fold_groups; [|exact H]. intros y m m' E. unfold cm_msg_step.
    rewrite (G m m' 1%nat E), (G m m' 2%nat E). reflexivity.
Qed.

Lemma overlay_groups (scans scans' : list (kind * list rematch))
  (msgs : list (Z * Message.t)) :
  groups_of scans = groups_of scans' -> overlay scans msgs = overlay scans' msgs.
Proof.
  revert scans' msgs. induction scans as [|[k ms] scans IH]; intros [|[k' ms'] scans'] msgs H;
    try discriminate; [reflexivity|].
  unfold groups_of in H. cbn [map fst snd] in H. injection H as Hk Hms Hrest. subst k'.
  unfold overlay in *. cbn [fold_left fst snd].
  rewrite (sweep_matches_groups k ms ms' msgs Hms). apply IH. exact Hrest.
Qed.

(* ================================================================== *)
(** ** [int] and the sweeps *)

Lemma py_int_checked (s : string) :
  py_int s = if int_ok s then Ok (int_value s) else Raise ValueError.
Proof.
  unfold py_int, int_ok. rewrite Nat.ltb_antisym.
  destruct (Nat.leb (digit_count s) int_max_str_digits); reflexivity.
Qed.

Lemma py_int_Ok (s : string) (z : Z) :
  py_int s = Ok z -> int_ok s = true /\ z = int_value s.
Proof.
  rewrite py_int_checked. destruct (int_ok s); [|discriminate].
  intros H. injection H as <-. split; reflexivity.
Qed.

Lemma py_int_raise (s : string) (e : exn) : py_int s = Raise e -> e = ValueError.
Proof. rewrite py_int_checked. destruct (int_ok s); congruence. Qed.

(** One turn of the loop over the declarations, when it returns. *)
Lemma parse_messages_cons (content : string) (mm : rematch) (rest : list rematch)
  (acc msgs : list (Z * Message.t)) :
  parse_messages content (mm :: rest) acc = Ok msgs ->
  exists sigs,
    parse_signals (slice content (m_end mm)
                     match rest with
                     | next :: _ => m_start next
                     | [] => String.length content
                     end) = Ok sigs /\
    parse_messages content rest
      (od_set Z.eqb (int_value (group mm 1)) (new_message mm sigs) acc) = Ok msgs.
Proof.
  cbn [parse_messages]. cbn zeta. intros H.
  apply bind_Ok in H. destruct H as (msg_id & Hid & H).
  apply bind_Ok in H. destruct H as (dlc & Hdlc & H).
  apply bind_Ok in H. destruct H as (sigs & Hs & H).
  apply py_int_Ok in Hid. destruct Hid as [_ ->].
  apply py_int_Ok in Hdlc. destruct Hdlc as [_ ->].
  exists sigs. split; [exact Hs | exact H].
Qed.

(** A loop whose body raises [ValueError] on the elements that fail a
    check, and takes a step on the others. *)
Lemma foldM_checked {A S : Type} (ok : A -> bool) (step : S -> A -> S)
  (body : S -> A -> result S) (l : list A) (s : S) :
  (forall c x, body c x = if ok x then Ok (step c x) else Raise ValueError) ->
  foldM body l s =
  if forallb ok l then Ok (fold_left step l s) else Raise ValueError.
Proof.
  intros Hbody. revert s. induction l as [|x l IH]; intros s; [reflexivity|].
  cbn [foldM forallb fold_left]. rewrite Hbody.
  destruct (ok x); cbn [bind andb]; [apply IH | reflexivity].
Qed.

Lemma forallb_andb {A : Type} (p q : A -> bool) (l : list A) :
  forallb (fun x => p x && q x) l = forallb p l && forallb q l.
Proof.
  induction l as [|x l IH]; [reflexivity|]. cbn [forallb]. rewrite IH.
  destruct (p x), (q x), (forallb p l), (forallb q l); reflexivity.
Qed.

Lemma forallb_pointwise {A : Type} (p q : A -> bool) (l : list A) :
  (forall x, p x = q x) -> forallb p l = forallb q l.
Proof.
  intros H. induction l as [|x l IH]; [reflexivity|].
  cbn [forallb]. rewrite H, IH. reflexivity.
Qed.

Section Sweeps.
Variable content : string.
Variable msgs : list (Z * Message.t).

Lemma sweep_msg_int_checked (f : Message.int_field) :
  sweep_msg_int f content msgs = checked_sweep (K_msg_int f) content msgs.
Proof.
  unfold checked_sweep, sweep_msg_int, parse_msg_int_attr. cbn [kind_pattern sweep_matches].
  rewrite (foldM_checked (rec_ints_ok (K_msg_int f))
             (fun results m =>
                od_set Z.eqb (int_value (group m 1)) (int_value (group m 2)) results)).
  - destruct (forallb _ _); reflexivity.
  - intros c x. cbn [rec_ints_ok]. rewrite !py_int_checked.
    destruct (int_ok (group x 2)), (int_ok (group x 1)); reflexivity.
Qed.

Lemma sweep_long_symbol_checked :
  sweep_long_symbol content msgs = checked_sweep K_long_symbol content msgs.
Proof.
  unfold checked_sweep, sweep_long_symbol. cbn [kind_pattern sweep_matches].
  apply foldM_checked. intros c x. cbn [rec_ints_ok]. rewrite py_int_checked.
  destruct (int_ok (group x 1)); reflexivity.
Qed.

Lemma sweep_sig_int_checked (f : Signal.int_field) :
  sweep_sig_int f content msgs = checked_sweep (K_sig_int f) content msgs.
Proof.
  unfold checked_sweep, sweep_sig_int, parse_sig_int_attr. cbn [kind_pattern sweep_matches].
  rewrite (foldM_checked (rec_ints_ok (K_sig_int f))
             (fun results m =>
                od_set sig_key_eqb (int_value (group m 1), group m 2)
                       (int_value (group m 3)) results)).
  - destruct (forallb _ _); reflexivity.
  - intros c x. cbn [rec_ints_ok]. rewrite !py_int_checked.
    destruct (int_ok (group x 3)), (int_ok (group x 1)); reflexivity.
Qed.

Lemma sweep_sig_str_checked (f : Signal.str_field) :
  sweep_sig_str f content msgs = checked_sweep (K_sig_str f) content msgs.
Proof.
  unfold checked_sweep, sweep_sig_str, parse_sig_str_attr. cbn [kind_pattern sweep_matches].
  rewrite (foldM_checked (rec_ints_ok (K_sig_str f))
             (fun results m =>
                od_set sig_key_eqb (int_value (group m 1), group m 2)
                       (group m 3) results)).
  - destruct (forallb _ _); reflexivity.
  - intros c x. cbn [rec_ints_ok]. rewrite py_int_checked.
    destruct (int_ok (group x 1)); reflexivity.
Qed.

Lemma sweep_val_checked : sweep_val content msgs = checked_sweep K_val content msgs.
Proof.
  unfold checked_sweep, sweep_val. cbn [kind_pattern sweep_matches].
  apply foldM_checked. intros c x. cbn [rec_ints_ok]. rewrite py_int_checked.
  destruct (int_ok (group x 1)); reflexivity.
Qed.

Lemma sweep_cm_sig_checked : sweep_cm_sig content msgs = checked_sweep K_cm_sig content msgs.
Proof.
  unfold checked_sweep, sweep_cm_sig. cbn [kind_pattern sweep_matches].
  apply foldM_checked. intros c x. cbn [rec_ints_ok]. rewrite py_int_checked.
  destruct (int_ok (group x 1)); reflexivity.
Qed.

Lemma sweep_cm_msg_checked : sweep_cm_msg content msgs = checked_sweep K_cm_msg content msgs.
Proof.
  unfold checked_sweep, sweep_cm_msg. cbn [kind_pattern sweep_matches].
  apply foldM_checked. intros c x. cbn [rec_ints_ok]. rewrite py_int_checked.
  destruct (int_ok (group x 1)); reflexivity.
Qed.
End Sweeps.

Ltac sweep_step L :=
  rewrite L; unfold checked_sweep at 1;
  match goal with
  | |- context [bind (if ?c then _ else _) _] =>
      destruct c; cbn [bind andb]; [|reflexivity]
  | |- (if ?c then _ else _) = _ =>
      destruct c; cbn [bind andb]; reflexivity
  end.

(** The sweeps of [parse_dbc] raise [ValueError] when a record of some
    kind holds an integer that [int] refuses, and otherwise leave the
    messages that the sweeps over the matches of each kind give. *)
Lemma sweep_all_checked (content : string) (msgs : list (Z * Message.t)) :
  sweep_all content msgs =
  if records_ints_ok content then Ok (swept content msgs) else Raise ValueError.
Proof.
  unfold sweep_all, sweep_msg_int_attrs, sweep_sig_attrs, records_ints_ok,
    scans_ints_ok, swept, overlay, scan_all, kinds.
  cbn [msg_int_fields map app forallb fold_left fst snd foldM bind].
  do 15 sweep_step sweep_msg_int_checked.
  sweep_step sweep_long_symbol_checked.
  do 4 sweep_step sweep_sig_int_checked.
  do 2 sweep_step sweep_sig_str_checked.
  sweep_step sweep_val_checked.
  sweep_step sweep_cm_sig_checked.
  sweep_step sweep_cm_msg_checked.
Qed.

(** The database [parse_dbc] returns, taken apart. *)
Lemma parse_dbc_Ok (content : string) (db : DBCDatabase.t) :
  parse_dbc content = Ok db <->
  exists msgs,
    parse_messages content (finditer msg_pattern content) [] = Ok msgs /\
    records_ints_ok content = true /\
    db = DBCDatabase.mk
           (swept content msgs) (parse_nodes content)
           (parse_global content "BusType" (DBCDatabase.bus_type DBCDatabase.init))
           (parse_global content "DBName" (DBCDatabase.db_name DBCDatabase.init))
           (DBCDatabase.baudrate DBCDatabase.init)
           (DBCDatabase.baudrate_canfd DBCDatabase.init).
Proof.
  unfold parse_dbc. cbn zeta. split.
  - destruct (parse_messages _ _ _) as [msgs|e]; [|discriminate]. cbn [bind].
    rewrite sweep_all_checked. destruct (records_ints_ok content); [|discriminate].
    cbn [bind]. intros H. injection H as <-. exists msgs. repeat split.
  - intros (msgs & -> & Hr & ->). cbn [bind]. rewrite sweep_all_checked, Hr. reflexivity.
Qed.

Lemma parse_dbc_messages (content : string) (db : DBCDatabase.t) :
  parse_dbc content = Ok db ->
  exists msgs,
    parse_messages content (finditer msg_pattern content) [] = Ok msgs /\
    records_ints_ok content = true /\
    DBCDatabase.messages db = swept content msgs.
Proof.
  intros H. apply parse_dbc_Ok in H. destruct H as (msgs & Hp & Hr & ->).
  exists msgs. repeat split; assumption.
Qed.

(** The checks of the records read the groups of a match only. *)
Lemma scans_ints_ok_groups (scans scans' : list (kind * list rematch)) :
  groups_of scans = groups_of scans' -> scans_ints_ok scans = scans_ints_ok scans'.
Proof.
  revert scans'. induction scans as [|[k ms] scans IH]; intros [|[k' ms'] scans'] H;
    try discriminate; [reflexivity|].
  unfold groups_of in H. cbn [map fst snd] in H. injection H as Hk Hms Hrest. subst k'.
  unfold scans_ints_ok in *. cbn [forallb fst snd]. rewrite (IH scans' Hrest). f_equal.
  clear -Hms. revert ms' Hms. induction ms as [|m ms IHm]; intros [|m' ms'] Hms;
    try discriminate; [reflexivity|].
  cbn [map] in Hms. injection Hms as Hm Hms. cbn [forallb]. rewrite (IHm ms' Hms). f_equal.
  destruct k; cbn [rec_ints_ok];
    rewrite ?(group_groups m m' 1%nat Hm), ?(group_groups m m' 2%nat Hm),
      ?(group_groups m m' 3%nat Hm); reflexivity.
Qed.

(* ================================================================== *)
(** ** When [parse_dbc] returns *)

Lemma py_float_raise (s : string) (e : exn) : py_float s = Raise e -> e = ValueError.
Proof.
  unfold py_float.
  destruct (remove_underscores _ _) as [l|]; [|congruence].
  destruct (parse_float_literal l); congruence.
Qed.

Lemma parse_signal_ok (sm : rematch) :
  signal_ok sm = true -> exists sig, parse_signal sm = Ok sig.
Proof.
  unfold signal_ok, signal_ints_ok, signal_floats_ok, parse_signal.
  rewrite !andb_true_iff, !py_int_checked.
  intros [[[H2 H3] H4] [[[H6 H7] H8] H9]]. rewrite H2, H3, H4. cbn [bind].
  destruct (py_float (group sm 6)); [|discriminate].
  destruct (py_float (group sm 7)); [|discriminate].
  destruct (py_float (group sm 8)); [|discriminate].
  destruct (py_float (group sm 9)); [|discriminate].
  cbn [bind]. eauto.
Qed.

Lemma parse_signal_raise (sm : rematch) :
  signal_ok sm = false -> parse_signal sm = Raise ValueError.
Proof.
  unfold signal_ok, signal_ints_ok, signal_floats_ok, parse_signal.
  rewrite !py_int_checked. intros H.
  destruct (int_ok (group sm 2)); [|reflexivity].
  destruct (int_ok (group sm 3)); [|reflexivity].
  destruct (int_ok (group sm 4)); [|reflexivity]. cbn [bind].
  destruct (py_float (group sm 6)) eqn:E6;
    [|rewrite (py_float_raise _ _ E6); reflexivity].
  destruct (py_float (group sm 7)) eqn:E7;
    [|rewrite (py_float_raise _ _ E7); reflexivity].
  destruct (py_float (group sm 8)) eqn:E8;
    [|rewrite (py_float_raise _ _ E8); reflexivity].
  destruct (py_float (group sm 9)) eqn:E9;
    [|rewrite (py_float_raise _ _ E9); reflexivity].
  discriminate.
Qed.

Lemma parse_signals_from (sms : list rematch) (acc : list (string * Signal.t)) :
  (forallb signal_ok sms = true ->
   exists sigs,
     foldM (fun signals sm =>
              sig <- parse_signal sm ;;
              Ok (od_set String.eqb (Signal.name sig) sig signals)) sms acc = Ok sigs) /\
  (forallb signal_ok sms = false ->
   foldM (fun signals sm =>
            sig <- parse_signal sm ;;
            Ok (od_set String.eqb (Signal.name sig) sig signals)) sms acc =
   Raise ValueError).
Proof.
  revert acc. induction sms as [|sm sms IH]; intros acc; simpl.
  - split; [eauto | discriminate].
  - destruct (signal_ok sm) eqn:E; simpl.
    + destruct (parse_signal_ok sm E) as (sig & ->). cbn [bind]. apply IH.
    + rewrite (parse_signal_raise sm E). split; [discriminate | reflexivity].
Qed.

Lemma parse_messages_from (content : string) (ms : list rematch)
  (acc : list (Z * Message.t)) :
  let ok := forallb msg_ints_ok ms &&
            forallb (fun block => forallb signal_ok (finditer sig_pattern block))
                    (msg_blocks content ms) in
  (ok = true -> exists messages, parse_messages content ms acc = Ok messages) /\
  (ok = false -> parse_messages content ms acc = Raise ValueError).
Proof.
  revert acc. induction ms as [|mm rest IH]; intros acc; cbn zeta.
  - split; [simpl; eauto | discriminate].
  - cbn [msg_blocks forallb parse_messages]. unfold msg_ints_ok at 1 3.
    rewrite !py_int_checked.
    destruct (int_ok (group mm 1)); [|split; [discriminate | reflexivity]].
    destruct (int_ok (group mm 3)); [|split; [discriminate | reflexivity]].
    cbn [bind andb].
    set (block := slice content (m_end mm) _).
    destruct (parse_signals_from (finditer sig_pattern block) []) as [Hok Hbad].
    unfold parse_signals.
    destruct (forallb signal_ok (finditer sig_pattern block)) eqn:E; cbn [andb].
    + destruct (Hok eq_refl) as (sigs & ->). cbn [bind]. apply IH.
    + rewrite (Hbad eq_refl), andb_false_r. split; [discriminate | reflexivity].
Qed.

(** The two checks of a text, regrouped by declaration. *)
Lemma checks_by_declaration (content : string) :
  ints_ok content && floats_ok content =
  (forallb msg_ints_ok (finditer msg_pattern content) &&
   forallb (fun block => forallb signal_ok (finditer sig_pattern block))
           (msg_blocks content (finditer msg_pattern content))) &&
  records_ints_ok content.
Proof.
  unfold floats_ok, ints_ok.
  assert (E : forallb (fun block => forallb signal_ok (finditer sig_pattern block))
                (msg_blocks content (finditer msg_pattern content)) =
              forallb (fun block => forallb signal_ints_ok (finditer sig_pattern block))
                (msg_blocks content (finditer msg_pattern content)) &&
              forallb (fun block => forallb signal_floats_ok (finditer sig_pattern block))
                (msg_blocks content (finditer msg_pattern content))).
  { rewrite <- forallb_andb. apply forallb_pointwise. intros block.
    unfold signal_ok. apply forallb_andb. }
  rewrite E.
  destruct (forallb msg_ints_ok _), (forallb (fun block => forallb signal_ints_ok _) _),
    (forallb (fun block => forallb signal_floats_ok _) _), (records_ints_ok content);
    reflexivity.
Qed.

(** [parse_dbc] returns exactly when both checks pass. *)
Lemma parse_dbc_returns (content : string) :
  ints_ok content && floats_ok content = true -> exists db, parse_dbc content = Ok db.
Proof.
  rewrite checks_by_declaration. unfold parse_dbc. cbn zeta.
  destruct (parse_messages_from content (finditer msg_pattern content) []) as [Hok _].
  cbn zeta in Hok.
  intros H. apply andb_true_iff in H. destruct H as [H Hr].
  destruct (Hok H) as (messages & ->). cbn [bind].
  rewrite sweep_all_checked, Hr. cbn [bind]. eauto.
Qed.

Lemma parse_dbc_raises (content : string) :
  ints_ok content && floats_ok content = false -> parse_dbc content = Raise ValueError.
Proof.
  rewrite checks_by_declaration. unfold parse_dbc. cbn zeta.
  destruct (parse_messages_from content (finditer msg_pattern content) []) as [Hok Hbad].
  cbn zeta in Hok, Hbad.
  intros H. apply andb_false_iff in H. destruct H as [H|Hr].
  - rewrite (Hbad H). reflexivity.
  - destruct (parse_messages _ _ _) as [messages|e] eqn:E.
    + cbn [bind]. rewrite sweep_all_checked, Hr. reflexivity.
    + destruct (forallb msg_ints_ok (finditer msg_pattern content) &&
                forallb (fun block => forallb signal_ok (finditer sig_pattern block))
                  (msg_blocks content (finditer msg_pattern content))) eqn:Eok.
      * destruct (Hok eq_refl) as (messages & Hm). discriminate Hm.
      * cbn [bind]. pose proof (Hbad eq_refl) as Hb. congruence.
Qed.

(** C1 (as amended). [parse_dbc] returns a database exactly when every
    signal line inside a message block has a factor, offset, minimum and
    maximum that [float] accepts and every integer that [int] converts, in
    a declaration or in a record of any kind, has at most 4300 digits; in
    every other case the call raises [ValueError] and no database is
    returned.  A text in which no message declaration, node list or global
    attribute is recognised, and whose records hold no integer of more
    than 4300 digits, parses to the empty database. *)
Theorem parse_dbc_returns_iff (content : string) :
  (ints_ok content && floats_ok content = true ->
   exists db, parse_dbc content = Ok db) /\
  (ints_ok content && floats_ok content = false ->
   parse_dbc content = Raise ValueError) /\
  (finditer msg_pattern content = [] -> finditer bu_pattern content = [] ->
   finditer (global_attr_pattern "BusType") content = [] ->
   finditer (global_attr_pattern "DBName") content = [] ->
   records_ints_ok content = true ->
   parse_dbc content = Ok DBCDatabase.init).
Proof.
  split; [apply parse_dbc_returns | split; [apply parse_dbc_raises|]].
  intros Hm Hbu Hbus Hname Hr. unfold parse_dbc. cbn zeta.
  rewrite Hm. cbn [parse_messages bind].
  rewrite sweep_all_checked, Hr. cbn [bind].
  unfold parse_nodes, parse_global, search. rewrite Hbu, Hbus, Hname, sweep_all_nil.
  reflexivity.
Qed.

(* ================================================================== *)
(** ** A dangling record has no effect on its sweep *)

Section DictSweep.
Context {K T : Type} (eqb : K -> K -> bool).
Hypothesis eqb_eq : forall a b, eqb a b = true <-> a = b.
Context (upd : K -> T -> list (Z * Message.t) -> list (Z * Message.t)).
Context (present : K -> list (Z * Message.t) -> bool).
Hypothesis upd_absent : forall k v msgs, present k msgs = false -> upd k v msgs = msgs.
Hypothesis present_upd :
  forall k k' v msgs, present k (upd k' v msgs) = present k msgs.

Let other (k : K) (kv : K * T) : bool := negb (eqb k (fst kv)).

Lemma eqb_refl_K (a : K) : eqb a a = true.
Proof. apply eqb_eq. reflexivity. Qed.

Lemma eqb_trans_K (a b c : K) : eqb a b = true -> eqb b c = eqb a c.
Proof. intros H. apply eqb_eq in H. subst. reflexivity. Qed.

Lemma filter_od_set (id k : K) (v : T) (d : list (K * T)) :
  filter (other id) (od_set eqb k v d) =
  if eqb id k then filter (other id) d else od_set eqb k v (filter (other id) d).
Proof.
  unfold other. induction d as [|[k' v'] d IH]; simpl.
  - destruct (eqb id k); reflexivity.
  - destruct (eqb k k') eqn:Ekk'; simpl.
    + apply eqb_eq in Ekk'. subst k'.
      destruct (eqb id k) eqn:Eik; simpl; [reflexivity|].
      rewrite eqb_refl_K. reflexivity.
    + rewrite IH.
      destruct (eqb id k') eqn:Eik'; simpl.
      * destruct (eqb id k); reflexivity.
      * destruct (eqb id k); [reflexivity|]. rewrite Ekk'. reflexivity.
Qed.

Lemma filter_build (value : rematch -> T) (key : rematch -> K) (id : K)
  (ms : list rematch) (acc : list (K * T)) :
  filter (other id) (dict_of eqb value key ms acc) =
  dict_of eqb value key (filter (fun m => negb (eqb id (key m))) ms) (filter (other id) acc).
Proof.
  revert acc. induction ms as [|m ms IH]; intros acc; simpl; [reflexivity|].
  unfold dict_of in *. simpl. rewrite IH. rewrite filter_od_set.
  destruct (eqb id (key m)); reflexivity.
Qed.

Lemma present_apply (k : K) (d : list (K * T)) (msgs : list (Z * Message.t)) :
  present k (apply_dict upd d msgs) = present k msgs.
Proof.
  revert msgs. induction d as [|kv d IH]; intros msgs; simpl; [reflexivity|].
  unfold apply_dict in *. rewrite IH. apply present_upd.
Qed.

Lemma apply_filter (id : K) (d : list (K * T)) (msgs : list (Z * Message.t)) :
  present id msgs = false -> apply_dict upd d msgs = apply_dict upd (filter (other id) d) msgs.
Proof.
  revert msgs. induction d as [|[k v] d IH]; intros msgs H; simpl; [reflexivity|].
  unfold other. simpl. fold (other id). destruct (eqb id k) eqn:E; simpl.
  - apply eqb_eq in E. subst k. rewrite (upd_absent _ _ _ H). apply IH. exact H.
  - apply IH. rewrite present_upd. exact H.
Qed.

(** Leaving out a match whose key is not present changes nothing. *)
Lemma apply_build_dangling (value : rematch -> T) (key : rematch -> K)
  (ms1 ms2 : list rematch) (m : rematch) (msgs : list (Z * Message.t)) :
  present (key m) msgs = false ->
  apply_dict upd (dict_of eqb value key (ms1 ++ m :: ms2) []) msgs =
  apply_dict upd (dict_of eqb value key (ms1 ++ ms2) []) msgs.
Proof.
  intros H.
  rewrite (apply_filter (key m) (dict_of eqb value key (ms1 ++ m :: ms2) []) msgs H).
  rewrite (apply_filter (key m) (dict_of eqb value key (ms1 ++ ms2) []) msgs H).
  rewrite !filter_build. f_equal. f_equal.
  rewrite !filter_app. simpl. rewrite eqb_refl_K. reflexivity.
Qed.
End DictSweep.

Lemma sig_key_eqb_eq (a b : Z * string) : sig_key_eqb a b = true <-> a = b.
Proof.
  destruct a as [i s], b as [j t]. unfold sig_key_eqb. simpl.
  rewrite andb_true_iff, Z.eqb_eq, String.eqb_eq. split.
  - intros [-> ->]. reflexivity.
  - intros H. injection H as -> ->. auto.
Qed.

Lemma update_message_absent (id : Z) (g : Message.t -> Message.t)
  (msgs : list (Z * Message.t)) :
  od_mem Z.eqb id msgs = false -> update_message id g msgs = msgs.
Proof. intros H. unfold update_message. rewrite H. reflexivity. Qed.

Lemma update_signal_absent (id : Z) (name : string) (g : Signal.t -> Signal.t)
  (msgs : list (Z * Message.t)) :
  has_signal id name msgs = false -> update_signal id name g msgs = msgs.
Proof. intros H. unfold update_signal. rewrite H. reflexivity. Qed.

Lemma fold_step_dangling {A : Type}
  (step : list (Z * Message.t) -> A -> list (Z * Message.t))
  (l1 l2 : list A) (x : A) (msgs : list (Z * Message.t)) :
  (forall ms y, shape (step ms y) = shape ms) ->
  (forall ms, shape ms = shape msgs -> step ms x = ms) ->
  fold_left step (l1 ++ x :: l2) msgs = fold_left step (l1 ++ l2) msgs.
Proof.
  intros Hshape Hx. rewrite !fold_left_app. simpl. rewrite Hx; [reflexivity|].
  apply shape_fold. exact Hshape.
Qed.

Lemma msg_int_sweep_dangling (f : Message.int_field) (ms1 ms2 : list rematch)
  (m : rematch) (msgs : list (Z * Message.t)) :
  od_mem Z.eqb (rec_msg_id m) msgs = false ->
  apply_msg_int_attr f (msg_int_attr_dict (ms1 ++ m :: ms2)) msgs =
  apply_msg_int_attr f (msg_int_attr_dict (ms1 ++ ms2)) msgs.
Proof.
  intros H.
  apply (apply_build_dangling Z.eqb Z.eqb_eq
           (fun k v => update_message k (Message.set_int f v))
           (fun k => od_mem Z.eqb k)
           (fun k v ms => update_message_absent k _ ms)
           (fun k k' v ms =>
              od_mem_shape k _ _
                (shape_update_message k' _ ms (signals_set_int f v)))
           (fun m => int_value (group m 2)) rec_msg_id ms1 ms2 m msgs H).
Qed.

Lemma sig_attr_sweep_dangling {T : Type} (value : string -> T)
  (set : T -> Signal.t -> Signal.t) (ms1 ms2 : list rematch)
  (m : rematch) (msgs : list (Z * Message.t)) :
  has_signal (rec_msg_id m) (rec_sig_name m) msgs = false ->
  apply_sig_attr (sig_attr_dict value (ms1 ++ m :: ms2)) set msgs =
  apply_sig_attr (sig_attr_dict value (ms1 ++ ms2)) set msgs.
Proof.
  intros H.
  apply (apply_build_dangling sig_key_eqb sig_key_eqb_eq
           (fun k v => update_signal (fst k) (snd k) (set v))
           (fun k => has_signal (fst k) (snd k))
           (fun k v ms => update_signal_absent (fst k) (snd k) _ ms)
           (fun k k' v ms =>
              has_signal_shape (fst k) (snd k) _ _
                (shape_update_signal (fst k') (snd k') _ ms))
           (fun m => value (group m 3))
           (fun m => (rec_msg_id m, rec_sig_name m)) ms1 ms2 m msgs H).
Qed.

(** A record that names no declared message, or no declared signal of
    its message, can be left out of the matches of its sweep. *)
Lemma sweep_matches_dangling (k : kind) (ms1 ms2 : list rematch) (m : rematch)
  (msgs : list (Z * Message.t)) :
  dangling k m msgs = true ->
  sweep_matches k (ms1 ++ m :: ms2) msgs = sweep_matches k (ms1 ++ ms2) msgs.
Proof.
  unfold dangling. intros H.
  destruct k; cbn [signal_scoped] in H; apply negb_true_iff in H; cbn [sweep_matches].
  - apply msg_int_sweep_dangling. exact H.
  - apply fold_step_dangling.
    + intros ms y. apply shape_update_message. apply signals_set_long_symbol.
    + intros ms Hs. apply update_message_absent.
      rewrite (od_mem_shape _ _ _ Hs). exact H.
  - apply sig_attr_sweep_dangling. exact H.
  - apply sig_attr_sweep_dangling. exact H.
  - apply fold_step_dangling.
    + intros ms y. apply shape_update_signal.
    + intros ms Hs. apply update_signal_absent.
      rewrite (has_signal_shape _ _ _ _ Hs). exact H.
  - apply fold_step_dangling.
    + intros ms y. apply shape_update_signal.
    + intros ms Hs. apply update_signal_absent.
      rewrite (has_signal_shape _ _ _ _ Hs). exact H.
  - apply fold_step_dangling.
    + intros ms y. apply shape_update_message. apply signals_set_comment.
    + intros ms Hs. apply update_message_absent.
      rewrite (od_mem_shape _ _ _ Hs). exact H.
Qed.

Lemma kind_eqb_eq (a b : kind) : kind_eqb a b = true -> a = b.
Proof.
  destruct a as [f| |f|f| | | ], b as [g| |g|g| | | ]; simpl; try discriminate;
    try reflexivity; destruct f, g; simpl; try discriminate; reflexivity.
Qed.

Lemma kinds_all (k : kind) : In k kinds.
Proof.
  unfold kinds. cbn [msg_int_fields map app].
  destruct k as [f| |f|f| | | ]; try destruct f; simpl; tauto.
Qed.

Lemma overlay_dangling (k : kind) (ms1 ms2 : list rematch) (m : rematch)
  (scans : list (kind * list rematch)) (msgs : list (Z * Message.t)) :
  dangling k m msgs = true ->
  (forall km, In km scans -> fst km = k -> snd km = ms1 ++ m :: ms2) ->
  overlay (map (fun km => if kind_eqb (fst km) k then (fst km, ms1 ++ ms2) else km) scans)
          msgs =
  overlay scans msgs.
Proof.
  intros Hd. revert msgs Hd. induction scans as [|[k' ms] scans IH]; intros msgs Hd Hk;
    [reflexivity|].
  unfold overlay in *. cbn [map fold_left fst snd].
  assert (E : sweep_matches (fst (if kind_eqb k' k then (k', ms1 ++ ms2) else (k', ms)))
                (snd (if kind_eqb k' k then (k', ms1 ++ ms2) else (k', ms))) msgs =
              sweep_matches k' ms msgs).
  { destruct (kind_eqb k' k) eqn:E; [|reflexivity].
    apply kind_eqb_eq in E. subst k'. cbn [fst snd].
    pose proof (Hk (k, ms) (or_introl eq_refl) eq_refl) as Hms.
    cbn [snd] in Hms. subst ms.
    symmetry. apply sweep_matches_dangling. exact Hd. }
  rewrite E. apply IH.
  - rewrite <- Hd. apply dangling_shape. apply shape_sweep_matches.
  - intros km Hin. apply Hk. right. exact Hin.
Qed.

(** Leaving a record out of its sweep leaves records that [int] accepts. *)
Lemma records_ints_ok_same_but (content content' : string) (k : kind)
  (ms1 ms2 : list rematch) (m : rematch) :
  finditer (kind_pattern k) content = ms1 ++ m :: ms2 ->
  records_ints_ok content = true ->
  groups_of (scan_all content') =
    groups_of (map (fun km => if kind_eqb (fst km) k then (fst km, ms1 ++ ms2) else km)
                   (scan_all content)) ->
  records_ints_ok content' = true.
Proof.
  intros Hm Hr Hscan. unfold records_ints_ok.
  rewrite (scans_ints_ok_groups _ _ Hscan).
  unfold records_ints_ok, scans_ints_ok in *. rewrite forallb_forall in *.
  intros km Hkm. apply in_map_iff in Hkm. destruct Hkm as ([k' ms] & <- & Hk').
  specialize (Hr _ Hk'). cbn [fst snd] in *.
  destruct (kind_eqb k' k) eqn:Ek; [|exact Hr]. cbn [fst snd].
  apply kind_eqb_eq in Ek. subst k'.
  unfold scan_all in Hk'. apply in_map_iff in Hk'.
  destruct Hk' as (k' & Hk' & _). injection Hk' as -> <-.
  rewrite Hm in Hr. rewrite forallb_forall in *. intros x Hx. apply Hr.
  apply in_app_or in Hx. apply in_or_app.
  destruct Hx as [Hx|Hx]; [left; exact Hx | right; right; exact Hx].
Qed.

(** C8 (as amended). Take a record of an attribute, comment or value-table
    sweep.  Its message id, and its value when the attribute is an integer,
    are converted by [int] before any lookup, so a record that holds an
    integer of more than 4300 digits makes [parse_dbc] raise [ValueError],
    whether the entity it names is declared or not.  When [parse_dbc]
    returns a database and the record names a message id, or a signal name
    within its message, that the database does not declare, the record
    changes no entity: the database is also the result of parsing any text
    that has the same declarations, node list and global attributes and
    whose records carry, in every sweep and in the same order, the groups
    of the records of the first text except for that one record. *)
Theorem dangling_record_dropped (content content' : string) (k : kind)
  (ms1 ms2 : list rematch) (m : rematch) :
  finditer (kind_pattern k) content = ms1 ++ m :: ms2 ->
  (rec_ints_ok k m = false -> parse_dbc content = Raise ValueError) /\
  (forall db : DBCDatabase.t,
      parse_dbc content = Ok db ->
      dangling k m (DBCDatabase.messages db) = true ->
      same_but k (ms1 ++ ms2) content content' ->
      parse_dbc content' = Ok db).
Proof.
  intros Hm.
  assert (Hin : In (k, ms1 ++ m :: ms2) (scan_all content)).
  { unfold scan_all. apply in_map_iff. exists k. rewrite Hm. split; [reflexivity|].
    apply kinds_all. }
  split.
  - intros Hbad. apply parse_dbc_raises. apply andb_false_iff. left.
    unfold ints_ok. apply andb_false_iff. right.
    unfold records_ints_ok, scans_ints_ok.
    destruct (forallb _ (scan_all content)) eqn:E; [|reflexivity].
    rewrite forallb_forall in E. specialize (E _ Hin). cbn [fst snd] in E.
    rewrite forallb_forall in E. rewrite (E m) in Hbad; [discriminate|].
    apply in_or_app. right. left. reflexivity.
  - intros db Hp Hd (Hdecl & Hnodes & Hbus & Hname & Hscan).
    apply parse_dbc_Ok in Hp. destruct Hp as (msgs & Hmsgs & Hr & ->).
    apply parse_dbc_Ok. exists msgs. split; [rewrite Hdecl; exact Hmsgs|].
    cbn [DBCDatabase.messages] in Hd.
    split.
    + apply (records_ints_ok_same_but content content' k ms1 ms2 m Hm Hr Hscan).
    + rewrite Hnodes, Hbus, Hname. f_equal. symmetry.
      unfold swept. rewrite (overlay_groups _ _ _ Hscan).
      apply (overlay_dangling k ms1 ms2 m).
      * rewrite <- Hd. apply dangling_shape. unfold swept.
        symmetry. apply shape_overlay.
      * intros km Hkm Hk. unfold scan_all in Hkm. apply in_map_iff in Hkm.
        destruct Hkm as (k' & <- & _). cbn [fst snd] in *. subst k'. exact Hm.
Qed.

(* ================================================================== *)
(** ** The last record wins *)

Lemma find_app {A : Type} (p : A -> bool) (l1 l2 : list A) :
  find p (l1 ++ l2) = match find p l1 with Some x => Some x | None => find p l2 end.
Proof.
  induction l1 as [|x l1 IH]; simpl; [reflexivity|].
  destruct (p x); [reflexivity | exact IH].
Qed.

Lemma last_with_snoc {A : Type} (p : A -> bool) (l : list A) (x : A) :
  last_with p (l ++ [x]) = if p x then Some x else last_with p l.
Proof. unfold last_with. rewrite rev_app_distr. reflexivity. Qed.

Lemma last_with_cons {A : Type} (p : A -> bool) (l : list A) (x : A) :
  last_with p (x :: l) =
  match last_with p l with
  | Some y => Some y
  | None => if p x then Some x else None
  end.
Proof. unfold last_with. simpl. rewrite find_app. reflexivity. Qed.

(** A loop that overwrites a value at every record that passes a test
    leaves the value of the last such record. *)
Lemma fold_last {A X : Type} (p : A -> bool) (set : A -> X -> X) (l : list A) (x : X) :
  (forall a b y, set b (set a y) = set b y) ->
  fold_left (fun y a => if p a then set a y else y) l x =
  match last_with p l with
  | Some a => set a x
  | None => x
  end.
Proof.
  intros Hset. induction l as [|a l IH] using rev_ind; [reflexivity|].
  rewrite fold_left_app, last_with_snoc. simpl. rewrite IH.
  destruct (p a); [|reflexivity].
  destruct (last_with p l); [apply Hset | reflexivity].
Qed.

Lemma fold_obs {A X : Type} (obs : list (Z * Message.t) -> option X)
  (step : list (Z * Message.t) -> A -> list (Z * Message.t)) (loc : A -> X -> X)
  (l : list A) (msgs : list (Z * Message.t)) :
  (forall ms a, obs (step ms a) = option_map (loc a) (obs ms)) ->
  obs (fold_left step l msgs) =
  option_map (fun x => fold_left (fun y a => loc a y) l x) (obs msgs).
Proof.
  intros H. revert msgs. induction l as [|a l IH]; intros msgs; simpl.
  - destruct (obs msgs); reflexivity.
  - rewrite IH, H. destruct (obs msgs); reflexivity.
Qed.

(** *** Reading through an update *)

Lemma od_get_od_update_Z {V : Type} (id id' : Z) (g : V -> V) (d : list (Z * V)) :
  od_get Z.eqb id (od_update Z.eqb id' g d) =
  if id =? id' then option_map g (od_get Z.eqb id d) else od_get Z.eqb id d.
Proof.
  induction d as [|[k v] d IH]; simpl.
  - destruct (id =? id'); reflexivity.
  - destruct (Z.eqb_spec id' k) as [->|Hne]; simpl.
    + destruct (Z.eqb_spec id k) as [->|Hne']; reflexivity.
    + rewrite IH. destruct (Z.eqb_spec id k) as [->|Hne']; [|reflexivity].
      destruct (Z.eqb_spec k id'); [congruence | reflexivity].
Qed.

Lemma od_get_od_update_str {V : Type} (n n' : string) (g : V -> V)
  (d : list (string * V)) :
  od_get String.eqb n (od_update String.eqb n' g d) =
  if String.eqb n n' then option_map g (od_get String.eqb n d)
  else od_get String.eqb n d.
Proof.
  induction d as [|[k v] d IH]; simpl.
  - destruct (String.eqb n n'); reflexivity.
  - destruct (String.eqb_spec n' k) as [->|Hne]; simpl.
    + destruct (String.eqb_spec n k) as [->|Hne']; reflexivity.
    + rewrite IH. destruct (String.eqb_spec n k) as [->|Hne']; [|reflexivity].
      destruct (String.eqb_spec k n'); [congruence | reflexivity].
Qed.

Lemma od_get_update_message (id id' : Z) (g : Message.t -> Message.t)
  (msgs : list (Z * Message.t)) :
  od_get Z.eqb id (update_message id' g msgs) =
  option_map (fun m => if id =? id' then g m else m) (od_get Z.eqb id msgs).
Proof.
  unfold update_message. destruct (od_mem Z.eqb id' msgs) eqn:E.
  - rewrite od_get_od_update_Z. destruct (id =? id'), (od_get Z.eqb id msgs); reflexivity.
  - unfold od_mem in E. destruct (Z.eqb_spec id id') as [->|Hne].
    + destruct (od_get Z.eqb id' msgs); [discriminate | reflexivity].
    + destruct (od_get Z.eqb id msgs); reflexivity.
Qed.

Lemma set_signals_same (m : Message.t) : Message.set_signals (Message.signals m) m = m.
Proof. destruct m. reflexivity. Qed.

Lemma od_update_absent {V : Type} (n : string) (g : V -> V) (d : list (string * V)) :
  od_mem String.eqb n d = false -> od_update String.eqb n g d = d.
Proof.
  unfold od_mem. induction d as [|[k v] d IH]; simpl; [reflexivity|].
  destruct (String.eqb n k); [discriminate|]. intros H. rewrite IH by exact H.
  reflexivity.
Qed.

Lemma od_get_update_signal (id id' : Z) (n' : string) (g : Signal.t -> Signal.t)
  (msgs : list (Z * Message.t)) :
  od_get Z.eqb id (update_signal id' n' g msgs) =
  option_map (fun m => if id =? id'
                       then Message.set_signals
                              (od_update String.eqb n' g (Message.signals m)) m
                       else m)
             (od_get Z.eqb id msgs).
Proof.
  unfold update_signal. destruct (has_signal id' n' msgs) eqn:E.
  - rewrite od_get_od_update_Z. destruct (id =? id'), (od_get Z.eqb id msgs); reflexivity.
  - unfold has_signal in E. destruct (Z.eqb_spec id id') as [->|Hne].
    + destruct (od_get Z.eqb id' msgs) as [m|]; [|reflexivity]. simpl.
      rewrite (od_update_absent _ _ _ E), set_signals_same. reflexivity.
    + destruct (od_get Z.eqb id msgs); reflexivity.
Qed.

Lemma get_sig_update_signal (id id' : Z) (n n' : string) (g : Signal.t -> Signal.t)
  (msgs : list (Z * Message.t)) :
  get_sig id n (update_signal id' n' g msgs) =
  option_map (fun s => if sig_key_eqb (id, n) (id', n') then g s else s)
             (get_sig id n msgs).
Proof.
  unfold get_sig, sig_key_eqb. cbn [fst snd]. rewrite od_get_update_signal.
  destruct (od_get Z.eqb id msgs) as [m|]; [|reflexivity]. simpl.
  destruct (id =? id'); simpl.
  - rewrite signals_set_signals, od_get_od_update_str.
    destruct (String.eqb n n'), (od_get String.eqb n (Message.signals m)); reflexivity.
  - destruct (od_get String.eqb n (Message.signals m)); reflexivity.
Qed.

Lemma get_sig_update_message (id id' : Z) (n : string) (g : Message.t -> Message.t)
  (msgs : list (Z * Message.t)) :
  (forall m, Message.signals (g m) = Message.signals m) ->
  get_sig id n (update_message id' g msgs) = get_sig id n msgs.
Proof.
  intros Hg. unfold get_sig. rewrite od_get_update_message.
  destruct (od_get Z.eqb id msgs) as [m|]; [|reflexivity]. simpl.
  destruct (id =? id'); [rewrite Hg|]; reflexivity.
Qed.

(** *** The dictionary of a sweep holds the last value of each key *)

Section DictLast.
Context {K T : Type} (eqb : K -> K -> bool).
Hypothesis eqb_eq : forall a b, eqb a b = true <-> a = b.

Let at_key (key : K) (kv : K * T) : bool := eqb key (fst kv).

Lemma last_with_at_key (key : K) (d : list (K * T)) (y : K * T) :
  last_with (at_key key) d = Some y -> In key (map fst d).
Proof.
  unfold last_with. intros H. apply find_some in H. destruct H as [Hin Hp].
  apply eqb_eq in Hp. subst key. apply in_map. apply in_rev. exact Hin.
Qed.

Lemma od_set_keys_In (k k' : K) (v : T) (d : list (K * T)) :
  In k' (map fst (od_set eqb k v d)) <-> k' = k \/ In k' (map fst d).
Proof.
  induction d as [|[k0 v0] d IH]; simpl.
  - intuition.
  - destruct (eqb k k0) eqn:E; simpl.
    + apply eqb_eq in E. subst k0. intuition.
    + rewrite IH. intuition.
Qed.

Lemma od_set_NoDup (k : K) (v : T) (d : list (K * T)) :
  NoDup (map fst d) -> NoDup (map fst (od_set eqb k v d)).
Proof.
  induction d as [|[k0 v0] d IH]; simpl; intros H.
  - constructor; [intros [] | constructor].
  - inversion H as [|? ? Hk Hd]; subst.
    destruct (eqb k k0) eqn:E; simpl.
    + constructor; assumption.
    + constructor; [|apply IH; exact Hd].
      rewrite od_set_keys_In. intros [->|Hin]; [|contradiction].
      assert (eqb k k = true) by (apply eqb_eq; reflexivity). congruence.
Qed.

Lemma last_with_od_set (key k : K) (v : T) (d : list (K * T)) :
  NoDup (map fst d) ->
  option_map snd (last_with (at_key key) (od_set eqb k v d)) =
  if eqb key k then Some v else option_map snd (last_with (at_key key) d).
Proof.
  induction d as [|[k0 v0] d IH]; intros Hnd.
  - cbn [od_set]. rewrite last_with_cons. unfold at_key, last_with. simpl.
    destruct (eqb key k); reflexivity.
  - simpl in Hnd. inversion Hnd as [|? ? Hk0 Hd]; subst.
    cbn [od_set]. destruct (eqb k k0) eqn:E.
    + apply eqb_eq in E. subst k0. rewrite !last_with_cons.
      destruct (last_with (at_key key) d) as [y|] eqn:Ey.
      * pose proof (last_with_at_key _ _ _ Ey) as Hin.
        destruct (eqb key k) eqn:Ek; [|reflexivity].
        apply eqb_eq in Ek. subst key. contradiction.
      * unfold at_key. simpl. destruct (eqb key k); reflexivity.
    + rewrite !last_with_cons. specialize (IH Hd).
      destruct (last_with (at_key key) (od_set eqb k v d)) as [y|] eqn:Ey;
        destruct (last_with (at_key key) d) as [y'|] eqn:Ey'; simpl in *.
      * exact IH.
      * destruct (eqb key k) eqn:Ek; [|discriminate].
        exact IH.
      * destruct (eqb key k); discriminate.
      * destruct (eqb key k) eqn:Ek; [discriminate|].
        unfold at_key. simpl. reflexivity.
Qed.

Lemma build_NoDup (value : rematch -> T) (keyof : rematch -> K) (ms : list rematch)
  (acc : list (K * T)) :
  NoDup (map fst acc) -> NoDup (map fst (dict_of eqb value keyof ms acc)).
Proof.
  revert acc. induction ms as [|m ms IH]; intros acc H; simpl; [exact H|].
  apply IH. apply od_set_NoDup. exact H.
Qed.

Lemma build_snoc (value : rematch -> T) (keyof : rematch -> K) (ms : list rematch)
  (m : rematch) :
  dict_of eqb value keyof (ms ++ [m]) [] =
  od_set eqb (keyof m) (value m) (dict_of eqb value keyof ms []).
Proof. unfold dict_of. rewrite fold_left_app. reflexivity. Qed.

Lemma last_with_build (value : rematch -> T) (keyof : rematch -> K) (key : K)
  (ms : list rematch) :
  option_map snd (last_with (at_key key) (dict_of eqb value keyof ms [])) =
  option_map value (last_with (fun r => eqb key (keyof r)) ms).
Proof.
  induction ms as [|m ms IH] using rev_ind; [reflexivity|].
  rewrite build_snoc, last_with_snoc, last_with_od_set.
  - destruct (eqb key (keyof m)); [reflexivity | exact IH].
  - apply build_NoDup. constructor.
Qed.

(** The loop over the items of the dictionary leaves, at a key, the
    value of the last record of that key. *)
Lemma fold_dict_last {X : Type} (set : T -> X -> X) (value : rematch -> T)
  (keyof : rematch -> K) (key : K) (ms : list rematch) (x : X) :
  (forall a b y, set b (set a y) = set b y) ->
  fold_left (fun y kv => if eqb key (fst kv) then set (snd kv) y else y)
            (dict_of eqb value keyof ms []) x =
  match last_with (fun r => eqb key (keyof r)) ms with
  | Some r => set (value r) x
  | None => x
  end.
Proof.
  intros Hset.
  rewrite (fold_last (at_key key) (fun kv => set (snd kv))) by (intros; apply Hset).
  pose proof (last_with_build value keyof key ms) as H.
  destruct (last_with (at_key key) (dict_of eqb value keyof ms [])) as [kv|];
    destruct (last_with (fun r => eqb key (keyof r)) ms) as [r|]; simpl in H;
    try discriminate; [|reflexivity].
  injection H as ->. reflexivity.
Qed.
End DictLast.

(** *** The effect of a sweep on one message and on one signal *)

Lemma set_int_set_int f a b m : Message.set_int f b (Message.set_int f a m) = Message.set_int f b m.
Proof. destruct m, f; reflexivity. Qed.

Lemma sig_set_int_set_int f a b s : Signal.set_int f b (Signal.set_int f a s) = Signal.set_int f b s.
Proof. destruct s, f; reflexivity. Qed.

Lemma sig_set_str_set_str f a b s : Signal.set_str f b (Signal.set_str f a s) = Signal.set_str f b s.
Proof. destruct s, f; reflexivity. Qed.

Lemma msg_set_msg_set (k : kind) (a b : rematch) (m : Message.t) :
  msg_set k b (msg_set k a m) = msg_set k b m.
Proof.
  destruct k; simpl; try reflexivity; [apply set_int_set_int | |]; destruct m; reflexivity.
Qed.

Lemma sig_set_sig_set (k : kind) (a b : rematch) (s : Signal.t) :
  sig_set k b (sig_set k a s) = sig_set k b s.
Proof.
  destruct k; simpl; try reflexivity;
    [apply sig_set_int_set_int | apply sig_set_str_set_str | |]; destruct s; reflexivity.
Qed.

Lemma msg_int_attr_dict_build (ms : list rematch) :
  msg_int_attr_dict ms = dict_of Z.eqb (fun m => int_value (group m 2)) rec_msg_id ms [].
Proof. reflexivity. Qed.

Lemma sig_attr_dict_build {T : Type} (value : string -> T) (ms : list rematch) :
  sig_attr_dict value ms =
  dict_of sig_key_eqb (fun m => value (group m 3))
        (fun m => (rec_msg_id m, rec_sig_name m)) ms [].
Proof. reflexivity. Qed.

(** A sweep scoped to messages leaves in a message the assignment of the
    last record of its id. *)
Lemma sweep_msg_scoped (k : kind) (id : Z) (ms : list rematch)
  (msgs : list (Z * Message.t)) :
  signal_scoped k = false ->
  od_get Z.eqb id (sweep_matches k ms msgs) =
  option_map (fun m => match last_with (fun r => id =? rec_msg_id r) ms with
                       | Some r => msg_set k r m
                       | None => m
                       end)
             (od_get Z.eqb id msgs).
Proof.
  destruct k; try discriminate; intros _; cbn [sweep_matches].
  - unfold apply_msg_int_attr.
    rewrite (fold_obs (od_get Z.eqb id) _
               (fun kv m => if id =? fst kv then Message.set_int f (snd kv) m else m))
      by (intros; apply od_get_update_message).
    destruct (od_get Z.eqb id msgs) as [m|]; [|reflexivity]. cbn [option_map]. f_equal.
    rewrite msg_int_attr_dict_build.
    apply (fold_dict_last Z.eqb Z.eqb_eq (Message.set_int f)).
    intros. apply set_int_set_int.
  - rewrite (fold_obs (od_get Z.eqb id) _
               (fun r m => if id =? rec_msg_id r then msg_set K_long_symbol r m else m))
      by (intros; apply od_get_update_message).
    destruct (od_get Z.eqb id msgs) as [m|]; [|reflexivity]. cbn [option_map]. f_equal.
    apply fold_last. intros. apply msg_set_msg_set.
  - rewrite (fold_obs (od_get Z.eqb id) _
               (fun r m => if id =? rec_msg_id r then msg_set K_cm_msg r m else m))
      by (intros; apply od_get_update_message).
    destruct (od_get Z.eqb id msgs) as [m|]; [|reflexivity]. cbn [option_map]. f_equal.
    apply fold_last. intros. apply msg_set_msg_set.
Qed.

(** A sweep scoped to signals leaves in a signal the assignment of the
    last record of its message id and name. *)
Lemma sweep_sig_scoped (k : kind) (id : Z) (name : string) (ms : list rematch)
  (msgs : list (Z * Message.t)) :
  signal_scoped k = true ->
  get_sig id name (sweep_matches k ms msgs) =
  option_map (fun s => match last_with
                               (fun r => sig_key_eqb (id, name)
                                                     (rec_msg_id r, rec_sig_name r)) ms with
                       | Some r => sig_set k r s
                       | None => s
                       end)
             (get_sig id name msgs).
Proof.
  destruct k; try discriminate; intros _; cbn [sweep_matches].
  - unfold apply_sig_attr.
    rewrite (fold_obs (get_sig id name) _
               (fun kv s => if sig_key_eqb (id, name) (fst kv)
                            then Signal.set_int f (snd kv) s else s)).
    2:{ intros ms0 [[i n] v]. apply get_sig_update_signal. }
    destruct (get_sig id name msgs) as [s|]; [|reflexivity]. cbn [option_map]. f_equal.
    rewrite sig_attr_dict_build.
    apply (fold_dict_last sig_key_eqb sig_key_eqb_eq (Signal.set_int f)
             (fun m => int_value (group m 3))).
    intros. apply sig_set_int_set_int.
  - unfold apply_sig_attr.
    rewrite (fold_obs (get_sig id name) _
               (fun kv s => if sig_key_eqb (id, name) (fst kv)
                            then Signal.set_str f (snd kv) s else s)).
    2:{ intros ms0 [[i n] v]. apply get_sig_update_signal. }
    destruct (get_sig id name msgs) as [s|]; [|reflexivity]. cbn [option_map]. f_equal.
    rewrite sig_attr_dict_build.
    apply (fold_dict_last sig_key_eqb sig_key_eqb_eq (Signal.set_str f)
             (fun m => group m 3)).
    intros. apply sig_set_str_set_str.
  - rewrite (fold_obs (get_sig id name) _
               (fun r s => if sig_key_eqb (id, name) (rec_msg_id r, rec_sig_name r)
                           then sig_set K_val r s else s))
      by (intros; apply get_sig_update_signal).
    destruct (get_sig id name msgs) as [s|]; [|reflexivity]. cbn [option_map]. f_equal.
    apply fold_last. intros. apply sig_set_sig_set.
  - rewrite (fold_obs (get_sig id name) _
               (fun r s => if sig_key_eqb (id, name) (rec_msg_id r, rec_sig_name r)
                           then sig_set K_cm_sig r s else s))
      by (intros; apply get_sig_update_signal).
    destruct (get_sig id name msgs) as [s|]; [|reflexivity]. cbn [option_map]. f_equal.
    apply fold_last. intros. apply sig_set_sig_set.
Qed.

Lemma fold_preserved {A X : Type} (obs : list (Z * Message.t) -> X)
  (step : list (Z * Message.t) -> A -> list (Z * Message.t))
  (l : list A) (msgs : list (Z * Message.t)) :
  (forall ms a, obs (step ms a) = obs ms) -> obs (fold_left step l msgs) = obs msgs.
Proof.
  intros H. revert msgs. induction l as [|a l IH]; intros msgs; simpl; [reflexivity|].
  rewrite IH. apply H.
Qed.

(** A sweep scoped to signals changes a message in its signals only. *)
Lemma sweep_sig_scoped_msg {X : Type} (P : Message.t -> X) (k : kind) (id : Z)
  (ms : list rematch) (msgs : list (Z * Message.t)) :
  (forall s m, P (Message.set_signals s m) = P m) ->
  signal_scoped k = true ->
  option_map P (od_get Z.eqb id (sweep_matches k ms msgs)) =
  option_map P (od_get Z.eqb id msgs).
Proof.
  intros HP.
  assert (Hstep : forall i n (g : Signal.t -> Signal.t) ms0,
             option_map P (od_get Z.eqb id (update_signal i n g ms0)) =
             option_map P (od_get Z.eqb id ms0)).
  { intros i n g ms0. rewrite od_get_update_signal.
    destruct (od_get Z.eqb id ms0) as [m|]; [|reflexivity]. simpl.
    destruct (id =? i); [rewrite HP|]; reflexivity. }
  destruct k; try discriminate; intros _; cbn [sweep_matches];
    unfold apply_sig_attr, val_step, cm_sig_step;
    apply (fold_preserved (fun ms0 => option_map P (od_get Z.eqb id ms0)));
    intros; apply Hstep.
Qed.

(** A sweep scoped to messages leaves the signals as they are. *)
Lemma sweep_msg_scoped_sig (k : kind) (id : Z) (name : string) (ms : list rematch)
  (msgs : list (Z * Message.t)) :
  signal_scoped k = false ->
  get_sig id name (sweep_matches k ms msgs) = get_sig id name msgs.
Proof.
  destruct k; try discriminate; intros _; cbn [sweep_matches];
    unfold apply_msg_int_attr, long_symbol_step, cm_msg_step;
    apply (fold_preserved (get_sig id name)); intros; apply get_sig_update_message;
    intros m;
    first [apply signals_set_int | apply signals_set_long_symbol
          | apply signals_set_comment].
Qed.

(** *** The stored value of a kind through the sweeps *)

Lemma targets_msg (k : kind) (id : Z) (name : string) :
  signal_scoped k = false -> targets k id name = fun r => id =? rec_msg_id r.
Proof. intros H. unfold targets. rewrite H. reflexivity. Qed.

Lemma targets_sig (k : kind) (id : Z) (name : string) :
  signal_scoped k = true ->
  targets k id name = fun r => sig_key_eqb (id, name) (rec_msg_id r, rec_sig_name r).
Proof. intros H. unfold targets. rewrite H. reflexivity. Qed.

Lemma msg_field_msg_set (k : kind) (r : rematch) (m : Message.t) :
  signal_scoped k = false -> msg_field k (msg_set k r m) = rec_value k r.
Proof.
  destruct k; try discriminate; intros _; simpl; destruct m; try reflexivity.
  destruct f; reflexivity.
Qed.

Lemma sig_field_sig_set (k : kind) (r : rematch) (s : Signal.t) :
  signal_scoped k = true -> sig_field k (sig_set k r s) = rec_value k r.
Proof.
  destruct k; try discriminate; intros _; simpl; destruct s; try reflexivity;
    destruct f; reflexivity.
Qed.

Lemma msg_field_other (k k' : kind) (r : rematch) (m : Message.t) :
  kind_eqb k' k = false -> msg_field k (msg_set k' r m) = msg_field k m.
Proof.
  destruct k as [f| |f|f| | | ], k' as [g| |g|g| | | ]; simpl; intros H;
    try reflexivity; try discriminate; destruct m; try reflexivity;
    try (destruct f; reflexivity); try (destruct g; reflexivity);
    destruct f, g; simpl in *; try reflexivity; discriminate.
Qed.

Lemma sig_field_other (k k' : kind) (r : rematch) (s : Signal.t) :
  kind_eqb k' k = false -> sig_field k (sig_set k' r s) = sig_field k s.
Proof.
  destruct k as [f| |f|f| | | ], k' as [g| |g|g| | | ]; simpl; intros H;
    try reflexivity; try discriminate; destruct s; try reflexivity;
    try (destruct f; reflexivity); try (destruct g; reflexivity);
    destruct f, g; simpl in *; try reflexivity; discriminate.
Qed.

Lemma msg_field_set_signals (k : kind) (s : list (string * Signal.t)) (m : Message.t) :
  msg_field k (Message.set_signals s m) = msg_field k m.
Proof. destruct k; simpl; destruct m; reflexivity. Qed.

Lemma expected_idem k id name ms x :
  expected k id name ms (expected k id name ms x) = expected k id name ms x.
Proof. unfold expected. destruct (last_with _ ms); reflexivity. Qed.

Lemma stored_own (k : kind) (id : Z) (name : string) (ms : list rematch)
  (msgs : list (Z * Message.t)) :
  stored k id name (sweep_matches k ms msgs) =
  option_map (expected k id name ms) (stored k id name msgs).
Proof.
  unfold stored, expected. destruct (signal_scoped k) eqn:E.
  - rewrite (sweep_sig_scoped k id name ms msgs E), (targets_sig k id name E).
    destruct (get_sig id name msgs) as [s|]; [|reflexivity]. cbn [option_map]. f_equal.
    destruct (last_with _ ms); [apply sig_field_sig_set; exact E | reflexivity].
  - rewrite (sweep_msg_scoped k id ms msgs E), (targets_msg k id name E).
    destruct (od_get Z.eqb id msgs) as [m|]; [|reflexivity]. cbn [option_map]. f_equal.
    destruct (last_with _ ms); [apply msg_field_msg_set; exact E | reflexivity].
Qed.

Lemma stored_other (k k' : kind) (id : Z) (name : string) (ms : list rematch)
  (msgs : list (Z * Message.t)) :
  kind_eqb k' k = false ->
  stored k id name (sweep_matches k' ms msgs) = stored k id name msgs.
Proof.
  intros Hk. unfold stored.
  destruct (signal_scoped k) eqn:E; destruct (signal_scoped k') eqn:E'.
  - rewrite (sweep_sig_scoped k' id name ms msgs E').
    destruct (get_sig id name msgs) as [s|]; [|reflexivity]. cbn [option_map]. f_equal.
    destruct (last_with _ ms); [apply sig_field_other; exact Hk | reflexivity].
  - rewrite (sweep_msg_scoped_sig k' id name ms msgs E'). reflexivity.
  - apply sweep_sig_scoped_msg; [apply msg_field_set_signals | exact E'].
  - rewrite (sweep_msg_scoped k' id ms msgs E').
    destruct (od_get Z.eqb id msgs) as [m|]; [|reflexivity]. cbn [option_map]. f_equal.
    destruct (last_with _ ms); [apply msg_field_other; exact Hk | reflexivity].
Qed.

Lemma kind_eqb_refl (k : kind) : kind_eqb k k = true.
Proof. destruct k; try reflexivity; destruct f; reflexivity. Qed.

Lemma stored_overlay (k : kind) (id : Z) (name : string) (ms : list rematch)
  (scans : list (kind * list rematch)) (msgs : list (Z * Message.t)) :
  (forall km, In km scans -> fst km = k -> snd km = ms) ->
  stored k id name (overlay scans msgs) =
  option_map (fun x => if existsb (fun km => kind_eqb (fst km) k) scans
                       then expected k id name ms x else x)
             (stored k id name msgs).
Proof.
  revert msgs. induction scans as [|[k' ms'] scans IH]; intros msgs Hk.
  - simpl. destruct (stored k id name msgs); reflexivity.
  - unfold overlay in *. cbn [fold_left fst snd existsb].
    rewrite IH by (intros km Hin; apply Hk; right; exact Hin).
    destruct (kind_eqb k' k) eqn:E.
    + apply kind_eqb_eq in E. subst k'.
      pose proof (Hk (k, ms') (or_introl eq_refl) eq_refl) as Hms.
      cbn [snd] in Hms. subst ms'.
      rewrite stored_own. destruct (stored k id name msgs); [|reflexivity].
      cbn [option_map orb]. f_equal.
      destruct (existsb _ scans); [apply expected_idem | reflexivity].
    + rewrite (stored_other k k' id name ms' msgs E).
      destruct (stored k id name msgs); reflexivity.
Qed.

Lemma existsb_map_fst {A B : Type} (p : A -> bool) (f : B -> A) (l : list B) :
  existsb p (map f l) = existsb (fun x => p (f x)) l.
Proof. induction l as [|x l IH]; simpl; [|rewrite IH]; reflexivity. Qed.

Lemma kinds_complete (k : kind) : existsb (fun k' => kind_eqb k' k) kinds = true.
Proof. destruct k; try reflexivity; destruct f; reflexivity. Qed.

Lemma stored_sweep_all (k : kind) (id : Z) (name : string) (content : string)
  (msgs : list (Z * Message.t)) :
  stored k id name (swept content msgs) =
  option_map (expected k id name (finditer (kind_pattern k) content))
             (stored k id name msgs).
Proof.
  rewrite sweep_all_overlay.
  rewrite (stored_overlay k id name (finditer (kind_pattern k) content)).
  - unfold scan_all. rewrite existsb_map_fst. cbn [fst].
    rewrite (kinds_complete k). reflexivity.
  - intros km Hin Hk. unfold scan_all in Hin. apply in_map_iff in Hin.
    destruct Hin as (k' & <- & _). cbn [fst snd] in *. subst k'. reflexivity.
Qed.

(** *** The declarations: the last one of a key is the one stored *)

Section DictSet.
Context {K V : Type} (eqb : K -> K -> bool).
Hypothesis eqb_eq : forall a b, eqb a b = true <-> a = b.

Lemma od_get_od_set (k k' : K) (v : V) (d : list (K * V)) :
  od_get eqb k (od_set eqb k' v d) = if eqb k k' then Some v else od_get eqb k d.
Proof.
  induction d as [|[k0 v0] d IH]; simpl.
  - destruct (eqb k k'); reflexivity.
  - destruct (eqb k' k0) eqn:E; simpl.
    + apply eqb_eq in E. subst k0. destruct (eqb k k'); reflexivity.
    + rewrite IH. destruct (eqb k k') eqn:E'; [|reflexivity].
      apply eqb_eq in E'. subst k'. rewrite E. reflexivity.
Qed.
End DictSet.

Lemma parse_signal_name (sm : rematch) (s : Signal.t) :
  parse_signal sm = Ok s -> Signal.name s = group sm 1.
Proof.
  unfold parse_signal. intros H.
  repeat (apply bind_Ok in H; destruct H as (? & _ & H)).
  injection H as <-. reflexivity.
Qed.

Lemma parse_signal_fresh (k : kind) (sm : rematch) (s : Signal.t) :
  parse_signal sm = Ok s -> sig_field k s = sig_field k Signal.init.
Proof.
  unfold parse_signal. intros H.
  repeat (apply bind_Ok in H; destruct H as (? & _ & H)).
  injection H as <-. destruct k; try reflexivity; destruct f; reflexivity.
Qed.

Lemma new_message_fresh (k : kind) (mm : rematch) (sigs : list (string * Signal.t)) :
  msg_field k (new_message mm sigs) = msg_field k Message.init.
Proof. destruct k; reflexivity. Qed.

(** After the loop over the signal lines, a name holds the signal of its
    last line. *)
Lemma parse_signals_get (name : string) (sms : list rematch)
  (acc sigs : list (string * Signal.t)) :
  foldM (fun signals sm =>
           sig <- parse_signal sm ;;
           Ok (od_set String.eqb (Signal.name sig) sig signals)) sms acc = Ok sigs ->
  match last_with (fun sm => String.eqb name (group sm 1)) sms with
  | Some sm => exists s, parse_signal sm = Ok s /\ od_get String.eqb name sigs = Some s
  | None => od_get String.eqb name sigs = od_get String.eqb name acc
  end.
Proof.
  revert acc. induction sms as [|sm sms IH]; intros acc H.
  - simpl in H. injection H as <-. reflexivity.
  - cbn [foldM] in H. apply bind_Ok in H. destruct H as (acc' & Hb & H).
    apply bind_Ok in Hb. destruct Hb as (s & Hs & Hb). injection Hb as <-.
    specialize (IH _ H). rewrite last_with_cons.
    destruct (last_with _ sms) as [sm'|]; [exact IH|].
    rewrite IH, (od_get_od_set String.eqb String.eqb_eq), (parse_signal_name sm s Hs).
    destruct (String.eqb name (group sm 1)); [|reflexivity].
    exists s. split; [exact Hs | reflexivity].
Qed.

Lemma msg_blocks_length (content : string) (ms : list rematch) :
  List.length (msg_blocks content ms) = List.length ms.
Proof. induction ms as [|mm rest IH]; simpl; [|rewrite IH]; reflexivity. Qed.

(** After the loop over the declarations, an id holds the message of its
    last declaration, with the signals of that declaration's block. *)
Lemma parse_messages_get (id : Z) (content : string) (ms : list rematch)
  (acc msgs : list (Z * Message.t)) :
  parse_messages content ms acc = Ok msgs ->
  match last_with (fun d => id =? int_value (group (fst d) 1))
                  (combine ms (msg_blocks content ms)) with
  | Some (mm, block) =>
      exists sigs, parse_signals block = Ok sigs /\
                   od_get Z.eqb id msgs = Some (new_message mm sigs)
  | None => od_get Z.eqb id msgs = od_get Z.eqb id acc
  end.
Proof.
  revert acc. induction ms as [|mm rest IH]; intros acc H.
  - simpl in H. injection H as <-. reflexivity.
  - apply parse_messages_cons in H. destruct H as (sigs & Hs & H).
    specialize (IH _ H). cbn [msg_blocks combine]. rewrite last_with_cons.
    destruct (last_with _ (combine rest (msg_blocks content rest))) as [[mm' b']|];
      [exact IH|].
    cbn [fst]. rewrite IH, (od_get_od_set Z.eqb Z.eqb_eq).
    destruct (id =? int_value (group mm 1)); [|reflexivity].
    exists sigs. split; [exact Hs | reflexivity].
Qed.

(** A declared message or signal holds the defaults in the fields that the
    records set. *)
Lemma stored_fresh (k : kind) (id : Z) (name : string) (content : string)
  (ms : list rematch) (msgs : list (Z * Message.t)) (v : pyval) :
  parse_messages content ms [] = Ok msgs ->
  stored k id name msgs = Some v -> v = default_value k.
Proof.
  intros Hp Hv. pose proof (parse_messages_get id content ms [] msgs Hp) as Hg.
  unfold stored, default_value, get_sig in *.
  destruct (last_with _ (combine ms (msg_blocks content ms))) as [[mm block]|].
  - destruct Hg as (sigs & Hs & Hg). rewrite Hg in Hv.
    destruct (signal_scoped k).
    + change (Message.signals (new_message mm sigs)) with sigs in Hv.
      pose proof (parse_signals_get name _ _ _ Hs) as Hn.
      destruct (last_with _ (finditer sig_pattern block)) as [sm|].
      * destruct Hn as (s & Hsm & Hn). rewrite Hn in Hv. simpl in Hv.
        injection Hv as <-. apply (parse_signal_fresh k sm s Hsm).
      * rewrite Hn in Hv. discriminate.
    + simpl in Hv. injection Hv as <-. apply new_message_fresh.
  - rewrite Hg in Hv. simpl in Hv. destruct (signal_scoped k); discriminate.
Qed.

(** *** The sweeps leave the declared fields alone *)

Lemma msg_decl_msg_set (k : kind) (r : rematch) (m : Message.t) :
  msg_decl (msg_set k r m) = msg_decl m.
Proof. destruct k; simpl; destruct m; try reflexivity. destruct f; reflexivity. Qed.

Lemma sig_decl_sig_set (k : kind) (r : rematch) (s : Signal.t) :
  sig_decl (sig_set k r s) = sig_decl s.
Proof. destruct k; simpl; destruct s; try reflexivity; destruct f; reflexivity. Qed.

Lemma msg_decl_sweep_matches (k : kind) (id : Z) (ms : list rematch)
  (msgs : list (Z * Message.t)) :
  option_map msg_decl (od_get Z.eqb id (sweep_matches k ms msgs)) =
  option_map msg_decl (od_get Z.eqb id msgs).
Proof.
  destruct (signal_scoped k) eqn:E.
  - apply sweep_sig_scoped_msg; [|exact E]. intros s m. destruct m; reflexivity.
  - rewrite (sweep_msg_scoped k id ms msgs E).
    destruct (od_get Z.eqb id msgs) as [m|]; [|reflexivity]. simpl. f_equal.
    destruct (last_with _ ms); [apply msg_decl_msg_set | reflexivity].
Qed.

Lemma sig_decl_sweep_matches (k : kind) (id : Z) (name : string) (ms : list rematch)
  (msgs : list (Z * Message.t)) :
  option_map sig_decl (get_sig id name (sweep_matches k ms msgs)) =
  option_map sig_decl (get_sig id name msgs).
Proof.
  destruct (signal_scoped k) eqn:E.
  - rewrite (sweep_sig_scoped k id name ms msgs E).
    destruct (get_sig id name msgs) as [s|]; [|reflexivity]. simpl. f_equal.
    destruct (last_with _ ms); [apply sig_decl_sig_set | reflexivity].
  - rewrite (sweep_msg_scoped_sig k id name ms msgs E). reflexivity.
Qed.

Lemma msg_decl_sweep_all (id : Z) (content : string) (msgs : list (Z * Message.t)) :
  option_map msg_decl (od_get Z.eqb id (swept content msgs)) =
  option_map msg_decl (od_get Z.eqb id msgs).
Proof.
  rewrite sweep_all_overlay. unfold overlay.
  apply (fold_preserved (fun ms0 => option_map msg_decl (od_get Z.eqb id ms0))).
  intros ms0 [k ms]. apply msg_decl_sweep_matches.
Qed.

Lemma sig_decl_sweep_all (id : Z) (name : string) (content : string)
  (msgs : list (Z * Message.t)) :
  option_map sig_decl (get_sig id name (swept content msgs)) =
  option_map sig_decl (get_sig id name msgs).
Proof.
  rewrite sweep_all_overlay. unfold overlay.
  apply (fold_preserved (fun ms0 => option_map sig_decl (get_sig id name ms0))).
  intros ms0 [k ms]. apply sig_decl_sweep_matches.
Qed.

(** What the loop over the declarations stores under an id and a name. *)
Lemma declared_get_message (id : Z) (content : string) (msgs : list (Z * Message.t)) :
  parse_messages content (finditer msg_pattern content) [] = Ok msgs ->
  match last_declaration content id with
  | Some (mm, block) =>
      exists sigs, parse_signals block = Ok sigs /\
                   od_get Z.eqb id msgs = Some (new_message mm sigs)
  | None => od_get Z.eqb id msgs = None
  end.
Proof.
  intros Hp. apply (parse_messages_get id content _ [] msgs Hp).
Qed.

Lemma declared_get_sig (id : Z) (name : string) (content : string)
  (msgs : list (Z * Message.t)) :
  parse_messages content (finditer msg_pattern content) [] = Ok msgs ->
  match last_signal_line content id name with
  | Some sm => exists s, parse_signal sm = Ok s /\ get_sig id name msgs = Some s
  | None => get_sig id name msgs = None
  end.
Proof.
  intros Hp. pose proof (declared_get_message id content msgs Hp) as Hg.
  unfold last_signal_line, get_sig.
  destruct (last_declaration content id) as [[mm block]|].
  - destruct Hg as (sigs & Hs & ->).
    change (Message.signals (new_message mm sigs)) with sigs.
    apply (parse_signals_get name _ _ _ Hs).
  - rewrite Hg. reflexivity.
Qed.

Lemma declared_stored (k : kind) (id : Z) (name : string) (content : string)
  (msgs : list (Z * Message.t)) :
  parse_messages content (finditer msg_pattern content) [] = Ok msgs ->
  stored k id name msgs =
  if entity_declared k id name content then Some (default_value k) else None.
Proof.
  intros Hp. unfold stored, entity_declared, default_value.
  destruct (signal_scoped k).
  - pose proof (declared_get_sig id name content msgs Hp) as Hg.
    destruct (last_signal_line content id name) as [sm|].
    + destruct Hg as (s & Hs & ->). cbn [option_map]. f_equal.
      apply (parse_signal_fresh k sm s Hs).
    + rewrite Hg. reflexivity.
  - pose proof (declared_get_message id content msgs Hp) as Hg.
    destruct (last_declaration content id) as [[mm block]|].
    + destruct Hg as (sigs & _ & ->). cbn [option_map].
      rewrite new_message_fresh. reflexivity.
    + rewrite Hg. reflexivity.
Qed.

(** C9: last write wins.  In the database that [parse_dbc] returns:
    - a message id is stored exactly when the text declares it, and its
      message holds the id, name, length and sender of the last declaration
      of that id;
    - a signal name is stored in a message exactly when the block of that
      last declaration has a signal line of the name, and the signal holds
      the declared fields that the last such line parses to;
    - a field set by records (an attribute assignment, a long name, a value
      table, a comment) of a stored message or signal holds the value of
      the last record of the text with its key, and the default when there
      is none. *)
Theorem last_record_wins (content : string) (db : DBCDatabase.t) :
  parse_dbc content = Ok db ->
  (forall id,
      option_map msg_decl (get_message id db) =
      option_map (fun d => (int_value (group (fst d) 1), group (fst d) 2,
                            int_value (group (fst d) 3), group (fst d) 4))
                 (last_declaration content id)) /\
  (forall id name,
      match last_signal_line content id name with
      | Some sm =>
          exists sig sig0,
            get_sig id name (DBCDatabase.messages db) = Some sig /\
            parse_signal sm = Ok sig0 /\
            sig_decl sig = sig_decl sig0
      | None => get_sig id name (DBCDatabase.messages db) = None
      end) /\
  (forall k id name,
      stored k id name (DBCDatabase.messages db) =
      if entity_declared k id name content then
        Some (match last_with (targets k id name) (finditer (kind_pattern k) content) with
              | Some r => rec_value k r
              | None => default_value k
              end)
      else None).
Proof.
  intros H. apply parse_dbc_Ok in H. destruct H as (msgs & Hp & _ & ->).
  cbn [DBCDatabase.messages]. split; [|split].
  - intros id. unfold get_message. cbn [DBCDatabase.messages].
    rewrite msg_decl_sweep_all.
    pose proof (declared_get_message id content msgs Hp) as Hg.
    destruct (last_declaration content id) as [[mm block]|].
    + destruct Hg as (sigs & _ & ->). reflexivity.
    + rewrite Hg. reflexivity.
  - intros id name.
    pose proof (sig_decl_sweep_all id name content msgs) as Hsd.
    pose proof (declared_get_sig id name content msgs Hp) as Hg.
    destruct (last_signal_line content id name) as [sm|].
    + destruct Hg as (s & Hs & Hg). rewrite Hg in Hsd.
      destruct (get_sig id name (swept content msgs)) as [sig|]; [|discriminate].
      cbn [option_map] in Hsd.
      assert (Hsd' : sig_decl sig = sig_decl s) by congruence.
      exists sig, s. split; [reflexivity|]. split; [exact Hs | exact Hsd'].
    + rewrite Hg in Hsd.
      destruct (get_sig id name (swept content msgs)); [discriminate | reflexivity].
  - intros k id name. rewrite stored_sweep_all, (declared_stored k id name content msgs Hp).
    destruct (entity_declared k id name content); reflexivity.
Qed.

(* ================================================================== *)
(** ** A record that sets the default *)

(** *** A record that sets a field to the value it has *)

Lemma od_update_fixed {K V : Type} (eqb : K -> K -> bool) (k : K) (g : V -> V)
  (d : list (K * V)) :
  (forall v, od_get eqb k d = Some v -> g v = v) -> od_update eqb k g d = d.
Proof.
  induction d as [|[k' v'] d IH]; simpl; intros H; [reflexivity|].
  destruct (eqb k k'); [rewrite (H v' eq_refl); reflexivity|].
  rewrite (IH H). reflexivity.
Qed.

Lemma update_message_fixed (id : Z) (g : Message.t -> Message.t)
  (msgs : list (Z * Message.t)) :
  (forall m, od_get Z.eqb id msgs = Some m -> g m = m) -> update_message id g msgs = msgs.
Proof.
  intros H. unfold update_message. destruct (od_mem Z.eqb id msgs); [|reflexivity].
  apply od_update_fixed. exact H.
Qed.

Lemma update_signal_fixed (id : Z) (name : string) (g : Signal.t -> Signal.t)
  (msgs : list (Z * Message.t)) :
  (forall s, get_sig id name msgs = Some s -> g s = s) -> update_signal id name g msgs = msgs.
Proof.
  intros H. unfold update_signal. destruct (has_signal id name msgs); [|reflexivity].
  apply od_update_fixed. intros m Hm. unfold get_sig in H. rewrite Hm in H.
  rewrite (od_update_fixed String.eqb name g (Message.signals m) H).
  apply set_signals_same.
Qed.

Lemma msg_set_fixed (k : kind) (r : rematch) (m : Message.t) :
  signal_scoped k = false -> msg_field k m = rec_value k r -> msg_set k r m = m.
Proof.
  destruct k; try discriminate; intros _; simpl; intros H; injection H as H;
    destruct m; simpl in *; try (subst; reflexivity).
  destruct f; simpl in *; subst; reflexivity.
Qed.

Lemma sig_set_fixed (k : kind) (r : rematch) (s : Signal.t) :
  signal_scoped k = true -> sig_field k s = rec_value k r -> sig_set k r s = s.
Proof.
  destruct k; try discriminate; intros _; simpl; intros H; injection H as H;
    destruct s; simpl in *; try (subst; reflexivity);
    destruct f; simpl in *; subst; reflexivity.
Qed.

(** The assignment of one record, as the sweep of its kind makes it. *)
Lemma sweep_one (k : kind) (r : rematch) (msgs : list (Z * Message.t)) :
  sweep_matches k [r] msgs =
  if signal_scoped k
  then update_signal (rec_msg_id r) (rec_sig_name r) (sig_set k r) msgs
  else update_message (rec_msg_id r) (msg_set k r) msgs.
Proof. destruct k; reflexivity. Qed.

Lemma sweep_one_settled (k : kind) (r : rematch) (msgs : list (Z * Message.t)) :
  settled k r msgs -> sweep_matches k [r] msgs = msgs.
Proof.
  unfold settled, stored. intros H. rewrite sweep_one.
  destruct (signal_scoped k) eqn:E.
  - apply update_signal_fixed. intros s Hs. apply sig_set_fixed; [exact E|].
    apply H. rewrite Hs. reflexivity.
  - apply update_message_fixed. intros m Hm. apply msg_set_fixed; [exact E|].
    apply H. rewrite Hm. reflexivity.
Qed.

Lemma last_with_none {A : Type} (p : A -> bool) (l : list A) :
  (forall a, In a l -> p a = false) -> last_with p l = None.
Proof.
  intros H. unfold last_with. destruct (find p (rev l)) as [a|] eqn:E; [|reflexivity].
  apply find_some in E. destruct E as [Hin Hp]. apply in_rev in Hin.
  rewrite (H a Hin) in Hp. discriminate.
Qed.

Lemma stored_sweep_untargeted (k : kind) (id : Z) (name : string) (ms : list rematch)
  (msgs : list (Z * Message.t)) :
  (forall a, In a ms -> targets k id name a = false) ->
  stored k id name (sweep_matches k ms msgs) = stored k id name msgs.
Proof.
  intros H. rewrite stored_own. unfold expected. rewrite (last_with_none _ _ H).
  destruct (stored k id name msgs); reflexivity.
Qed.

Lemma targets_self (k : kind) (r : rematch) :
  targets k (rec_msg_id r) (rec_sig_name r) r = true.
Proof.
  unfold targets. destruct (signal_scoped k); [|apply Z.eqb_refl].
  apply sig_key_eqb_eq. reflexivity.
Qed.


Section Inert.
Context {K T : Type} (eqb : K -> K -> bool).
Hypothesis eqb_eq : forall a b, eqb a b = true <-> a = b.
Context (upd : K -> T -> list (Z * Message.t) -> list (Z * Message.t)).
Context (id : K) (v0 : T) (P : list (Z * Message.t) -> Prop).
Hypothesis P_upd : forall k v msgs, eqb id k = false -> P msgs -> P (upd k v msgs).
Hypothesis upd_inert : forall msgs, P msgs -> upd id v0 msgs = msgs.

Lemma apply_filter_inert (d : list (K * T)) (msgs : list (Z * Message.t)) :
  P msgs -> (forall v, In (id, v) d -> v = v0) ->
  apply_dict upd d msgs = apply_dict upd (filter (fun kv => negb (eqb id (fst kv))) d) msgs.
Proof.
  revert msgs. induction d as [|[k v] d IH]; intros msgs HP Hv; [reflexivity|].
  unfold apply_dict in *. cbn [filter fold_left fst snd].
  destruct (eqb id k) eqn:E; cbn [negb fold_left fst snd].
  - apply eqb_eq in E. subst k. rewrite (Hv v (or_introl eq_refl)).
    rewrite (upd_inert msgs HP). apply IH; [exact HP|].
    intros v' Hin. apply Hv. right. exact Hin.
  - apply IH; [apply P_upd; assumption|].
    intros v' Hin. apply Hv. right. exact Hin.
Qed.

Lemma In_build (value : rematch -> T) (key : rematch -> K) (ms : list rematch)
  (acc : list (K * T)) (k : K) (v : T) :
  In (k, v) (dict_of eqb value key ms acc) ->
  In (k, v) acc \/ exists m, In m ms /\ key m = k /\ value m = v.
Proof.
  revert acc. induction ms as [|m ms IH]; intros acc H; [left; exact H|].
  unfold dict_of in *. cbn [fold_left] in H. apply IH in H.
  destruct H as [H|(m' & Hin & Hk & Hv)].
  - assert (Hs : forall d, In (k, v) (od_set eqb (key m) (value m) d) ->
                           In (k, v) d \/ (key m = k /\ value m = v)).
    { induction d as [|[k' v'] d IHd]; simpl.
      - intros [E|[]]. injection E as <- <-. right. split; reflexivity.
      - destruct (eqb (key m) k') eqn:E; simpl.
        + apply eqb_eq in E. subst k'. intros [E'|Hin].
          * injection E' as <- <-. right. split; reflexivity.
          * left. right. exact Hin.
        + intros [E'|Hin]; [left; left; exact E'|].
          destruct (IHd Hin) as [Hd|Hd]; [left; right; exact Hd | right; exact Hd]. }
    destruct (Hs acc H) as [Ha|[Hk Hv]]; [left; exact Ha|].
    right. exists m. split; [left; reflexivity | split; assumption].
  - right. exists m'. split; [right; exact Hin | split; assumption].
Qed.

Lemma filter_all {A : Type} (p : A -> bool) (l : list A) :
  (forall a, In a l -> p a = true) -> filter p l = l.
Proof.
  induction l as [|a l IH]; simpl; intros H; [reflexivity|].
  rewrite (H a (or_introl eq_refl)), IH; [reflexivity|].
  intros b Hb. apply H. right. exact Hb.
Qed.

(** Leaving out a match that sets what is already there changes nothing,
    when no other match has its key. *)
Lemma apply_build_inert (value : rematch -> T) (key : rematch -> K)
  (ms1 ms2 : list rematch) (r : rematch) (msgs : list (Z * Message.t)) :
  P msgs -> key r = id -> value r = v0 ->
  (forall m, In m (ms1 ++ ms2) -> eqb id (key m) = false) ->
  apply_dict upd (dict_of eqb value key (ms1 ++ r :: ms2) []) msgs =
  apply_dict upd (dict_of eqb value key (ms1 ++ ms2) []) msgs.
Proof.
  intros HP Hk Hv Hno.
  rewrite (apply_filter_inert (dict_of eqb value key (ms1 ++ r :: ms2) []) msgs HP).
  - rewrite (filter_build eqb eqb_eq). cbn [filter]. f_equal. f_equal.
    rewrite filter_app. cbn [filter]. rewrite Hk.
    assert (Hid : eqb id id = true) by (apply eqb_eq; reflexivity).
    rewrite Hid. cbn [negb]. rewrite <- filter_app. apply filter_all.
    intros m Hm. rewrite (Hno m Hm). reflexivity.
  - intros v Hin. apply In_build in Hin. destruct Hin as [[]|(m & Hm & Hkm & Hvm)].
    apply in_app_or in Hm. destruct Hm as [Hm|[<-|Hm]].
    + pose proof (Hno m (in_or_app _ _ _ (or_introl Hm))) as Hf.
      rewrite Hkm in Hf. assert (eqb id id = true) by (apply eqb_eq; reflexivity).
      congruence.
    + congruence.
    + pose proof (Hno m (in_or_app _ _ _ (or_intror Hm))) as Hf.
      rewrite Hkm in Hf. assert (eqb id id = true) by (apply eqb_eq; reflexivity).
      congruence.
Qed.
End Inert.

Lemma option_map_same {A : Type} (x : option A) : option_map (fun a => a) x = x.
Proof. destruct x; reflexivity. Qed.

Lemma settled_sweep_untargeted (k : kind) (r : rematch) (ms : list rematch)
  (msgs : list (Z * Message.t)) :
  (forall a, In a ms -> targets k (rec_msg_id r) (rec_sig_name r) a = false) ->
  settled k r msgs -> settled k r (sweep_matches k ms msgs).
Proof.
  unfold settled. intros H Hs v Hv. rewrite (stored_sweep_untargeted _ _ _ _ _ H) in Hv.
  apply Hs. exact Hv.
Qed.

Lemma fold_inert {A : Type} (step : list (Z * Message.t) -> A -> list (Z * Message.t))
  (ms1 ms2 : list A) (r : A) (msgs : list (Z * Message.t)) :
  step (fold_left step ms1 msgs) r = fold_left step ms1 msgs ->
  fold_left step (ms1 ++ r :: ms2) msgs = fold_left step (ms1 ++ ms2) msgs.
Proof. intros H. rewrite !fold_left_app. cbn [fold_left]. rewrite H. reflexivity. Qed.

Lemma msg_int_sweep_inert (f : Message.int_field) (ms1 ms2 : list rematch) (r : rematch)
  (msgs : list (Z * Message.t)) :
  settled (K_msg_int f) r msgs ->
  (forall a, In a (ms1 ++ ms2) -> (rec_msg_id r =? rec_msg_id a) = false) ->
  apply_msg_int_attr f (msg_int_attr_dict (ms1 ++ r :: ms2)) msgs =
  apply_msg_int_attr f (msg_int_attr_dict (ms1 ++ ms2)) msgs.
Proof.
  intros Hs Hno.
  apply (apply_build_inert Z.eqb Z.eqb_eq
           (fun key v => update_message key (Message.set_int f v))
           (rec_msg_id r) (int_value (group r 2)) (settled (K_msg_int f) r)).
  - intros k v ms0 E H x Hx. apply H. unfold stored in *. cbn [signal_scoped] in *.
    rewrite od_get_update_message, E, option_map_same in Hx. exact Hx.
  - intros ms0 H. apply (sweep_one_settled (K_msg_int f) r ms0 H).
  - exact Hs.
  - reflexivity.
  - reflexivity.
  - exact Hno.
Qed.

Lemma sig_attr_sweep_inert {T : Type} (k : kind) (value : string -> T)
  (set : T -> Signal.t -> Signal.t) (ms1 ms2 : list rematch) (r : rematch)
  (msgs : list (Z * Message.t)) :
  signal_scoped k = true ->
  (forall s, sig_set k r s = set (value (group r 3)) s) ->
  settled k r msgs ->
  (forall a, In a (ms1 ++ ms2) ->
             sig_key_eqb (rec_msg_id r, rec_sig_name r) (rec_msg_id a, rec_sig_name a) =
             false) ->
  apply_sig_attr (sig_attr_dict value (ms1 ++ r :: ms2)) set msgs =
  apply_sig_attr (sig_attr_dict value (ms1 ++ ms2)) set msgs.
Proof.
  intros Hk Hset Hs Hno.
  apply (apply_build_inert sig_key_eqb sig_key_eqb_eq
           (fun key v => update_signal (fst key) (snd key) (set v))
           (rec_msg_id r, rec_sig_name r) (value (group r 3)) (settled k r)).
  - intros [i n] v ms0 E H x Hx. apply H. unfold stored in *. rewrite Hk in *.
    cbn [fst snd] in Hx.
    rewrite get_sig_update_signal, E, option_map_same in Hx. exact Hx.
  - intros ms0 H. cbn [fst snd]. apply update_signal_fixed. intros s Hg.
    rewrite <- Hset. apply sig_set_fixed; [exact Hk|].
    apply H. unfold stored. rewrite Hk, Hg. reflexivity.
  - exact Hs.
  - reflexivity.
  - reflexivity.
  - exact Hno.
Qed.

(** A record whose value its field already holds can be left out of the
    matches of its sweep, when no other record of the sweep has its key. *)
Lemma sweep_matches_inert (k : kind) (ms1 ms2 : list rematch) (r : rematch)
  (msgs : list (Z * Message.t)) :
  settled k r msgs ->
  (forall a, In a (ms1 ++ ms2) -> targets k (rec_msg_id r) (rec_sig_name r) a = false) ->
  sweep_matches k (ms1 ++ r :: ms2) msgs = sweep_matches k (ms1 ++ ms2) msgs.
Proof.
  intros Hs Hno.
  assert (H1 : settled k r (sweep_matches k ms1 msgs)).
  { apply settled_sweep_untargeted; [|exact Hs].
    intros a Ha. apply Hno. apply in_or_app. left. exact Ha. }
  apply sweep_one_settled in H1.
  destruct k; cbn [sweep_matches] in *.
  - apply msg_int_sweep_inert; assumption.
  - apply fold_inert. exact H1.
  - apply (sig_attr_sweep_inert (K_sig_int f)); try assumption; reflexivity.
  - apply (sig_attr_sweep_inert (K_sig_str f)); try assumption; reflexivity.
  - apply fold_inert. exact H1.
  - apply fold_inert. exact H1.
  - apply fold_inert. exact H1.
Qed.

Lemma settled_sweep_other (k k' : kind) (r : rematch) (ms : list rematch)
  (msgs : list (Z * Message.t)) :
  kind_eqb k' k = false -> settled k r msgs -> settled k r (sweep_matches k' ms msgs).
Proof.
  unfold settled. intros E Hs v Hv. rewrite (stored_other k k' _ _ ms msgs E) in Hv.
  apply Hs. exact Hv.
Qed.

Lemma settled_sweep_own (k : kind) (r : rematch) (ms1 ms2 : list rematch)
  (msgs : list (Z * Message.t)) :
  (forall a, In a (ms1 ++ ms2) -> targets k (rec_msg_id r) (rec_sig_name r) a = false) ->
  settled k r (sweep_matches k (ms1 ++ r :: ms2) msgs).
Proof.
  unfold settled. intros Hno v Hv. rewrite stored_own in Hv. unfold expected in Hv.
  destruct (last_with _ (ms1 ++ r :: ms2)) as [a|] eqn:E.
  - unfold last_with in E. apply find_some in E. destruct E as [Hin Ha].
    apply in_rev in Hin. apply in_app_or in Hin.
    assert (a = r) as ->.
    { destruct Hin as [Hin|[<-|Hin]]; [|reflexivity|].
      - rewrite (Hno a (in_or_app _ _ _ (or_introl Hin))) in Ha. discriminate.
      - rewrite (Hno a (in_or_app _ _ _ (or_intror Hin))) in Ha. discriminate. }
    destruct (stored k _ _ msgs); [|discriminate]. simpl in Hv. congruence.
  - unfold last_with in E.
    assert (Hin : In r (rev (ms1 ++ r :: ms2))).
    { apply -> in_rev. apply in_or_app. right. left. reflexivity. }
    pose proof (find_none _ _ E r Hin) as Hf. cbv beta in Hf.
    rewrite (targets_self k r) in Hf. discriminate.
Qed.

Lemma overlay_inert (k : kind) (ms1 ms2 : list rematch) (r : rematch)
  (scans : list (kind * list rematch)) (msgs : list (Z * Message.t)) :
  settled k r msgs ->
  (forall a, In a (ms1 ++ ms2) -> targets k (rec_msg_id r) (rec_sig_name r) a = false) ->
  (forall km, In km scans -> fst km = k -> snd km = ms1 ++ r :: ms2) ->
  overlay (map (fun km => if kind_eqb (fst km) k then (fst km, ms1 ++ ms2) else km) scans)
          msgs =
  overlay scans msgs.
Proof.
  intros Hs Hno. revert msgs Hs.
  induction scans as [|[k' ms] scans IH]; intros msgs Hs Hk; [reflexivity|].
  unfold overlay in *. cbn [map fold_left fst snd].
  destruct (kind_eqb k' k) eqn:E; cbn [fst snd].
  - apply kind_eqb_eq in E. subst k'.
    pose proof (Hk (k, ms) (or_introl eq_refl) eq_refl) as Hms.
    cbn [snd] in Hms. subst ms.
    rewrite <- (sweep_matches_inert k ms1 ms2 r msgs Hs Hno).
    apply IH; [apply settled_sweep_own; exact Hno|].
    intros km Hin. apply Hk. right. exact Hin.
  - apply IH; [apply settled_sweep_other; assumption|].
    intros km Hin. apply Hk. right. exact Hin.
Qed.

Lemma settled_fresh (k : kind) (r : rematch) (content : string) (ms : list rematch)
  (msgs : list (Z * Message.t)) :
  parse_messages content ms [] = Ok msgs ->
  rec_value k r = default_value k -> settled k r msgs.
Proof.
  intros Hp Hd v Hv. rewrite Hd. apply (stored_fresh k _ _ content ms msgs v Hp Hv).
Qed.

(** A record that sets a field to its default, with no other record of
    its kind for the same key, can be left out of the text. *)
Lemma default_record_inert (content content' : string) (k : kind)
  (ms1 ms2 : list rematch) (r : rematch) (db : DBCDatabase.t) :
  parse_dbc content = Ok db ->
  finditer (kind_pattern k) content = ms1 ++ r :: ms2 ->
  rec_value k r = default_value k ->
  (forall a, In a (ms1 ++ ms2) -> targets k (rec_msg_id r) (rec_sig_name r) a = false) ->
  same_but k (ms1 ++ ms2) content content' ->
  parse_dbc content' = Ok db.
Proof.
  intros Hp Hm Hd Hno (Hdecl & Hnodes & Hbus & Hname & Hscan).
  apply parse_dbc_Ok in Hp. destruct Hp as (messages & Hmsgs & Hr & ->).
  apply parse_dbc_Ok. exists messages. split; [rewrite Hdecl; exact Hmsgs|].
  split; [apply (records_ints_ok_same_but content content' k ms1 ms2 r Hm Hr Hscan)|].
  rewrite Hnodes, Hbus, Hname. f_equal. symmetry.
  unfold swept. rewrite (overlay_groups _ _ _ Hscan).
  apply (overlay_inert k ms1 ms2 r).
  - apply (settled_fresh k r content _ messages Hmsgs Hd).
  - exact Hno.
  - intros km Hin Hk. unfold scan_all in Hin. apply in_map_iff in Hin.
    destruct Hin as (k' & <- & _). cbn [fst snd] in *. subst k'. exact Hm.
Qed.

(* ================================================================== *)
(** ** The comparison of fields *)

(** *** Whole floats and their integers *)

(** A float that equals an integer truncates to it. *)
Lemma int_of_float_whole (f : spec_float) (z : Z) :
  float_eq_int f z = true -> int_of_float f = Ok z.
Proof.
  destruct f as [s|s| |s m e]; unfold float_eq_int, int_of_float; cbv zeta;
    try discriminate.
  - intros H. apply Z.eqb_eq in H. subst. reflexivity.
  - destruct (0 <=? e) eqn:E; intros H; apply Z.eqb_eq in H; f_equal.
    + destruct s; lia.
    + apply Z.leb_gt in E.
      assert (P : 0 < 2 ^ (- e)) by (apply pow2_pos; lia).
      destruct s.
      * assert (Hm : Z.pos m = (- z) * 2 ^ (- e)) by lia.
        rewrite Hm, Z.div_mul by lia. lia.
      * rewrite H, Z.div_mul by lia. reflexivity.
Qed.

Lemma normalize_val_whole (f : spec_float) (z : Z) :
  float_eq_int f z = true -> normalize_val (VFloat f) = Ok (VInt z).
Proof.
  intros H. unfold normalize_val. rewrite (int_of_float_whole f z H). cbn [bind].
  rewrite H. reflexivity.
Qed.

Lemma format_number_whole (f : spec_float) (z : Z) :
  float_eq_int f z = true -> format_number f = Ok (VInt z).
Proof.
  intros H. unfold format_number. rewrite (int_of_float_whole f z H). cbn [bind].
  rewrite H. reflexivity.
Qed.

(** A column is reported only when the normal forms of its two cells
    differ. *)
Lemma diff_indices_In (old new : list pyval) (idx cols : list nat) (i : nat) :
  diff_indices old new idx = Ok cols -> In i cols ->
  exists a b na nb,
    nth_error old i = Some a /\ nth_error new i = Some b /\
    normalize_val a = Ok na /\ normalize_val b = Ok nb /\ py_ne na nb = true.
Proof.
  revert cols. induction idx as [|j idx IH]; intros cols H Hin.
  - injection H as <-. destruct Hin.
  - cbn [diff_indices] in H.
    apply bind_Ok in H. destruct H as (a & Ha & H).
    apply bind_Ok in H. destruct H as (na & Hna & H).
    apply bind_Ok in H. destruct H as (b & Hb & H).
    apply bind_Ok in H. destruct H as (nb & Hnb & H).
    apply bind_Ok in H. destruct H as (rest & Hrest & H).
    injection H as <-.
    destruct (py_ne na nb) eqn:E.
    + destruct Hin as [<-|Hin]; [|apply (IH rest Hrest Hin)].
      unfold py_index in Ha, Hb.
      destruct (nth_error old j) as [a'|]; [|discriminate]. injection Ha as ->.
      destruct (nth_error new j) as [b'|]; [|discriminate]. injection Hb as ->.
      exists a, b, na, nb. repeat split; assumption.
    + apply (IH rest Hrest Hin).
Qed.

Lemma check_row_diff_In (old new : list pyval) (b : bool) (cols : list nat) (i : nat)
  (x y nx ny : pyval) :
  check_row_diff old new = Ok (b, cols) ->
  nth_error old i = Some x -> nth_error new i = Some y ->
  normalize_val x = Ok nx -> normalize_val y = Ok ny -> py_eq nx ny = true ->
  ~ In i cols.
Proof.
  unfold check_row_diff. intros H Hx Hy Hnx Hny He Hin.
  apply bind_Ok in H. destruct H as (d & Hd & H). injection H as _ <-.
  destruct (diff_indices_In _ _ _ _ i Hd Hin) as (a' & b' & na & nb & Ha & Hb & Hna & Hnb & Hne).
  rewrite Hx in Ha. injection Ha as <-. rewrite Hy in Hb. injection Hb as <-.
  rewrite Hnx in Hna. injection Hna as <-. rewrite Hny in Hnb. injection Hnb as <-.
  unfold py_ne in Hne. rewrite He in Hne. discriminate.
Qed.

(** C6: the comparison of fields.  A float that is a whole number has its
    integer as normal form, which is also what [format_number] puts in a
    row in its place, and direct comparison equates the two; so a column
    holding such a float on one side and its integer on the other is never
    among the reported columns, whichever side holds the float.  The texts
    5.0 and 5 denote one float, shown as the integer 5.  A field that no
    record sets holds its default: a text in which a record sets a field to
    the default, with no other record of its kind for the same message or
    signal, parses to the very database of the text without that record,
    so no comparison tells the two apart. *)
Theorem whole_floats_and_defaults_compare_equal :
  (forall f z,
      float_eq_int f z = true ->
      normalize_val (VFloat f) = Ok (VInt z) /\
      normalize_val (VInt z) = Ok (VInt z) /\
      format_number f = Ok (VInt z) /\
      py_ne (VFloat f) (VInt z) = false /\ py_ne (VInt z) (VFloat f) = false) /\
  (forall old new i f z b cols,
      float_eq_int f z = true ->
      (nth_error old i = Some (VFloat f) /\ nth_error new i = Some (VInt z)) \/
      (nth_error old i = Some (VInt z) /\ nth_error new i = Some (VFloat f)) ->
      check_row_diff old new = Ok (b, cols) ->
      ~ In i cols) /\
  (exists f, py_float "5.0" = Ok f /\ py_float "5" = Ok f /\
             format_number f = Ok (VInt 5)) /\
  (forall content content' k ms1 ms2 r db,
      parse_dbc content = Ok db ->
      finditer (kind_pattern k) content = ms1 ++ r :: ms2 ->
      rec_value k r = default_value k ->
      (forall a, In a (ms1 ++ ms2) ->
                 targets k (rec_msg_id r) (rec_sig_name r) a = false) ->
      same_but k (ms1 ++ ms2) content content' ->
      parse_dbc content' = Ok db).
Proof.
  split; [|split; [|split]].
  - intros f z H. repeat split.
    + apply normalize_val_whole. exact H.
    + apply format_number_whole. exact H.
    + unfold py_ne. simpl. rewrite H. reflexivity.
    + unfold py_ne. simpl. rewrite H. reflexivity.
  - intros old new i f z b cols H [[Ho Hn]|[Ho Hn]] Hc.
    + apply (check_row_diff_In old new b cols i _ _ (VInt z) (VInt z) Hc Ho Hn).
      * apply normalize_val_whole. exact H.
      * reflexivity.
      * simpl. apply Z.eqb_refl.
    + apply (check_row_diff_In old new b cols i _ _ (VInt z) (VInt z) Hc Ho Hn).
      * reflexivity.
      * apply normalize_val_whole. exact H.
      * simpl. apply Z.eqb_refl.
  - eexists. split; [vm_compute; reflexivity|]. split; vm_compute; reflexivity.
  - intros content content' k ms1 ms2 r db. apply default_record_inert.
Qed.

(* ================================================================== *)
(** * Further properties of the code *)

(* ================================================================== *)
(** ** The backtracking matcher *)

Lemma snoc_append (cur : string) (c : ascii) (w : string) :
  String.append (snoc cur c) w = String.append cur (String c w).
Proof. unfold snoc. induction cur as [|a cur IH]; simpl; [|rewrite IH]; reflexivity. Qed.

Lemma append_empty_r (s : string) : String.append s EmptyString = s.
Proof. induction s as [|a s IH]; simpl; [|rewrite IH]; reflexivity. Qed.

Lemma append_assoc_s (a b c : string) :
  String.append (String.append a b) c = String.append a (String.append b c).
Proof. induction a as [|x a IH]; simpl; [|rewrite IH]; reflexivity. Qed.

Lemma rmatch_One (k : cclass) (r : list item) (s cur : string) (caps : list string)
  (x : list string * string) :
  rmatch (One k :: r) s cur caps = Some x <->
  exists c s', s = String c s' /\ in_class k c = true /\
               rmatch r s' (snoc cur c) caps = Some x.
Proof.
  cbn [rmatch]. split.
  - destruct s as [|c s']; [discriminate|].
    destruct (in_class k c) eqn:E; [|discriminate].
    intros H. exists c, s'. auto.
  - intros (c & s' & -> & E & H). rewrite E. exact H.
Qed.

(** A greedy repetition that succeeded read a run of its class. *)
Lemma rmatch_Star_inv (k : cclass) (r : list item) (s cur : string) (caps : list string)
  (x : list string * string) :
  rmatch (Star k :: r) s cur caps = Some x ->
  exists w s', s = String.append w s' /\ all_in (in_class k) w = true /\
               rmatch r s' (String.append cur w) caps = Some x.
Proof.
  cbn [rmatch]. revert cur. induction s as [|c s IH]; intros cur H.
  - exists EmptyString, EmptyString. rewrite !append_empty_r. simpl in H. auto.
  - simpl in H. destruct (in_class k c) eqn:E.
    + match type of H with
      | match ?t with _ => _ end = _ => destruct t as [y|] eqn:Et
      end.
      * injection H as <-. destruct (IH _ Et) as (w & s' & -> & Hw & Hr).
        exists (String c w), s'. simpl. rewrite E, Hw.
        rewrite snoc_append in Hr. auto.
      * exists EmptyString, (String c s). rewrite !append_empty_r. simpl. auto.
    + exists EmptyString, (String c s). rewrite !append_empty_r. simpl. auto.
Qed.

(** A greedy repetition reads the whole run when the rest then matches. *)
Lemma rmatch_Star_run (k : cclass) (r : list item) (w s' cur : string)
  (caps : list string) (x : list string * string) :
  all_in (in_class k) w = true -> stops (in_class k) s' = true ->
  rmatch r s' (String.append cur w) caps = Some x ->
  rmatch (Star k :: r) (String.append w s') cur caps = Some x.
Proof.
  cbn [rmatch]. revert cur. induction w as [|c w IH]; intros cur Hw Hs Hr.
  - rewrite append_empty_r in Hr. simpl.
    destruct s' as [|c s']; [exact Hr|].
    simpl in Hs. apply negb_true_iff in Hs. rewrite Hs. exact Hr.
  - simpl in Hw. apply andb_true_iff in Hw. destruct Hw as [Hc Hw].
    simpl. rewrite Hc. rewrite (IH (snoc cur c) Hw Hs); [reflexivity|].
    rewrite snoc_append. exact Hr.
Qed.

(** A lazy repetition that succeeded read a run of its class, and the rest
    of the pattern failed at every earlier point of that run. *)
Lemma rmatch_LazyStar_inv (k : cclass) (r : list item) (s cur : string)
  (caps : list string) (x : list string * string) :
  rmatch (LazyStar k :: r) s cur caps = Some x ->
  exists w s', s = String.append w s' /\ all_in (in_class k) w = true /\
               rmatch r s' (String.append cur w) caps = Some x /\
               forall w1 c w2, w = String.append w1 (String c w2) ->
                 rmatch r (String.append (String c w2) s') (String.append cur w1) caps =
                 None.
Proof.
  cbn [rmatch]. revert cur. induction s as [|c s IH]; intros cur H.
  - destruct (rmatch r EmptyString cur caps) as [y|] eqn:Er; [|discriminate].
    injection H as <-. exists EmptyString, EmptyString.
    rewrite !append_empty_r. simpl. repeat split; auto.
    intros [|a w1] c w2 E; discriminate.
  - destruct (rmatch r (String c s) cur caps) as [y|] eqn:Er.
    + injection H as <-. exists EmptyString, (String c s).
      rewrite !append_empty_r. simpl. repeat split; auto.
      intros [|a w1] c0 w2 E; discriminate.
    + destruct (in_class k c) eqn:E; [|discriminate].
      destruct (IH _ H) as (w & s' & -> & Hw & Hr & Hmin).
      exists (String c w), s'. simpl. rewrite E, Hw.
      rewrite snoc_append in Hr. repeat split; auto.
      intros [|a w1] c0 w2 Ew.
      * simpl in Ew. injection Ew as <- <-. rewrite append_empty_r. exact Er.
      * simpl in Ew. injection Ew as <- Ew.
        specialize (Hmin w1 c0 w2 Ew). rewrite snoc_append in Hmin. exact Hmin.
Qed.

(** A lazy repetition stops at the first point where the rest matches. *)
Lemma rmatch_LazyStar_run (k : cclass) (r : list item) (w s' cur : string)
  (caps : list string) (x : list string * string) :
  all_in (in_class k) w = true ->
  (forall w1 c w2, w = String.append w1 (String c w2) ->
     rmatch r (String.append (String c w2) s') (String.append cur w1) caps = None) ->
  rmatch r s' (String.append cur w) caps = Some x ->
  rmatch (LazyStar k :: r) (String.append w s') cur caps = Some x.
Proof.
  cbn [rmatch]. revert cur. induction w as [|c w IH]; intros cur Hw Hmin Hr.
  - rewrite append_empty_r in Hr. simpl. destruct s'; rewrite Hr; reflexivity.
  - simpl in Hw. apply andb_true_iff in Hw. destruct Hw as [Hc Hw].
    simpl. pose proof (Hmin EmptyString c w eq_refl) as H0.
    rewrite append_empty_r in H0. simpl in H0. rewrite H0, Hc.
    apply IH; [exact Hw | | rewrite snoc_append; exact Hr].
    intros w1 c0 w2 E. rewrite snoc_append.
    apply (Hmin (String c w1) c0 w2). simpl. rewrite E. reflexivity.
Qed.

Lemma rmatch_GroupOpen (r : list item) (s cur : string) (caps : list string) :
  rmatch (GroupOpen :: r) s cur caps = rmatch r s EmptyString caps.
Proof. reflexivity. Qed.

Lemma rmatch_GroupClose (r : list item) (s cur : string) (caps : list string) :
  rmatch (GroupClose :: r) s cur caps = rmatch r s EmptyString (cur :: caps).
Proof. reflexivity. Qed.

Lemma rmatch_nil (s cur : string) (caps : list string) :
  rmatch [] s cur caps = Some (rev caps, s).
Proof. reflexivity. Qed.

(** One step of the reading of a successful match, by its first item. *)
Ltac rinv H :=
  lazymatch type of H with
  | rmatch (GroupOpen :: _) _ _ _ = Some _ => rewrite rmatch_GroupOpen in H
  | rmatch (GroupClose :: _) _ _ _ = Some _ => rewrite rmatch_GroupClose in H
  | rmatch (One _ :: _) _ _ _ = Some _ =>
      let c := fresh "c" in let s := fresh "s" in let Hc := fresh "Hc" in
      apply rmatch_One in H; destruct H as (c & s & -> & Hc & H)
  | rmatch (Star _ :: _) _ _ _ = Some _ =>
      let w := fresh "w" in let s := fresh "s" in let Hw := fresh "Hw" in
      apply rmatch_Star_inv in H; destruct H as (w & s & -> & Hw & H)
  | rmatch (LazyStar _ :: _) _ _ _ = Some _ =>
      let w := fresh "w" in let s := fresh "s" in let Hw := fresh "Hw" in
      let Hmin := fresh "Hmin" in
      apply rmatch_LazyStar_inv in H; destruct H as (w & s & -> & Hw & H & Hmin)
  | rmatch [] _ _ _ = Some _ => rewrite rmatch_nil in H
  end.

(** Every match of a scan is a match of the pattern at some point. *)
Lemma scan_In (p : pattern) (s : string) (bol : bool) (skip pos : nat) (m : rematch) :
  In m (scan p s bol skip pos) ->
  exists s0 rest, rmatch (items p) s0 EmptyString [] = Some (m_groups m, rest).
Proof.
  revert bol skip pos. induction s as [|c s IH]; intros bol skip pos H.
  - cbn [scan] in H.
    destruct (match skip with
              | O => if negb (anchored p) || bol
                     then rmatch (items p) EmptyString EmptyString [] else None
              | S _ => None
              end) as [[caps rest]|] eqn:E; [|destruct H].
    destruct H as [<-|[]]. exists EmptyString, rest.
    destruct skip; [|discriminate].
    destruct (negb (anchored p) || bol); [exact E | discriminate].
  - cbn [scan] in H.
    destruct (match skip with
              | O => if negb (anchored p) || bol
                     then rmatch (items p) (String c s) EmptyString [] else None
              | S _ => None
              end) as [[caps rest]|] eqn:E.
    + destruct H as [<-|H]; [|apply (IH _ _ _ H)].
      exists (String c s), rest.
      destruct skip; [|discriminate].
      destruct (negb (anchored p) || bol); [exact E | discriminate].
    + apply (IH _ _ _ H).
Qed.

Lemma finditer_In (p : pattern) (s : string) (m : rematch) :
  In m (finditer p s) ->
  exists s0 rest, rmatch (items p) s0 EmptyString [] = Some (m_groups m, rest).
Proof. apply scan_In. Qed.

(* ================================================================== *)
(** ** Bus matching *)

Lemma all_in_and (p q : ascii -> bool) (s : string) :
  all_in (fun x => p x && q x) s = all_in p s && all_in q s.
Proof.
  induction s as [|c s IH]; simpl; [reflexivity|]. rewrite IH.
  destruct (p c), (q c), (all_in p s), (all_in q s); reflexivity.
Qed.

Lemma bus_prefix_pattern_items :
  bus_prefix_pattern =
  [GroupOpen; One Digit; Star Digit; One (Lit "_"); One Word; LazyStar Word;
   GroupClose; One (Lit "_")].
Proof. reflexivity. Qed.

Lemma in_class_Lit (a c : ascii) : in_class (Lit a) c = true <-> c = a.
Proof. simpl. apply Ascii.eqb_eq. Qed.

Lemma all_in_split (q : ascii -> bool) (w : string) :
  (forall w1 c w2, w = String.append w1 (String c w2) -> q c = true) ->
  all_in q w = true.
Proof.
  induction w as [|a w IH]; intros H; [reflexivity|]. simpl.
  rewrite (H EmptyString a w eq_refl). apply IH.
  intros w1 c w2 E. apply (H (String a w1) c w2). simpl. rewrite E. reflexivity.
Qed.

Lemma all_in_at (q : ascii -> bool) (w w1 w2 : string) (c : ascii) :
  all_in q w = true -> w = String.append w1 (String c w2) -> q c = true.
Proof.
  revert w. induction w1 as [|a w1 IH]; intros w H E; subst w; simpl in H;
    apply andb_true_iff in H; destruct H as [H1 H2]; [exact H1|].
  apply (IH _ H2 eq_refl).
Qed.

Lemma append_nonempty (a b : string) : a <> EmptyString -> String.append a b <> EmptyString.
Proof. destruct a; [congruence | discriminate]. Qed.

(** Two readings of a text as digits, an underscore and a rest agree. *)
Lemma digits_then_underscore (d d' r r' : string) :
  all_in is_digit d = true -> all_in is_digit d' = true ->
  String.append d (String "_" r) = String.append d' (String "_" r') ->
  d = d' /\ r = r'.
Proof.
  revert d'. induction d as [|a d IH]; intros [|a' d'] H H' E; simpl in *.
  - injection E as ->. auto.
  - injection E as <- _. discriminate.
  - injection E as -> _. discriminate.
  - injection E as -> E. apply andb_true_iff in H, H'.
    destruct (IH d' (proj2 H) (proj2 H') E) as [-> ->]. auto.
Qed.

(** Two readings of a text as a run without underscore, an underscore and
    a rest agree. *)
Lemma run_then_underscore (w w' r r' : string) :
  all_in (fun x => negb (Ascii.eqb x "_")) w = true ->
  all_in (fun x => negb (Ascii.eqb x "_")) w' = true ->
  String.append w (String "_" r) = String.append w' (String "_" r') ->
  w = w' /\ r = r'.
Proof.
  revert w'. induction w as [|a w IH]; intros [|a' w'] H H' E; simpl in *.
  - injection E as ->. auto.
  - injection E as <- _. discriminate.
  - injection E as -> _. discriminate.
  - injection E as -> E. apply andb_true_iff in H, H'.
    destruct (IH w' (proj2 H) (proj2 H') E) as [-> ->]. auto.
Qed.

(** The shape [extract_bus_prefix] accepts: digits, an underscore, a word
    character, word characters other than the underscore, an underscore. *)
Lemma extract_bus_prefix_shape (filename p : string) :
  extract_bus_prefix filename = Some p ->
  exists d c w rest,
    filename = String.append d (String "_" (String c (String.append w (String "_" rest)))) /\
    d <> EmptyString /\ all_in is_digit d = true /\ is_word c = true /\
    all_in (fun x => is_word x && negb (Ascii.eqb x "_")) w = true /\
    p = String.append d (String "_" (String c w)).
Proof.
  unfold extract_bus_prefix, re_match. rewrite bus_prefix_pattern_items.
  destruct (rmatch _ filename EmptyString []) as [[caps rest]|] eqn:E; [|discriminate].
  intros H. injection H as <-.
  do 8 rinv E. rinv E. injection E as <- <-.
  apply in_class_Lit in Hc0, Hc2. subst c0 c2.
  exists (String c w), c1, w0, s0. cbn [String.append]. split; [reflexivity|].
  split; [discriminate|].
  split; [cbn [all_in]; apply andb_true_iff; split; [exact Hc | exact Hw]|].
  split; [exact Hc1|]. split.
  - rewrite all_in_and. apply andb_true_iff. split; [exact Hw0|]. apply all_in_split.
    intros w1 c3 w2 Ew. specialize (Hmin w1 c3 w2 Ew).
    destruct (Ascii.eqb c3 "_") eqn:E3; [|reflexivity].
    apply Ascii.eqb_eq in E3. subst c3. discriminate Hmin.
  - unfold group. cbn [Nat.pred nth m_groups]. unfold snoc. cbn [String.append].
    rewrite !append_assoc_s. reflexivity.
Qed.

Lemma extract_bus_prefix_accepts (d w rest : string) (c : ascii) :
  d <> EmptyString -> all_in is_digit d = true -> is_word c = true ->
  all_in (fun x => is_word x && negb (Ascii.eqb x "_")) w = true ->
  extract_bus_prefix
    (String.append d (String "_" (String c (String.append w (String "_" rest))))) =
  Some (String.append d (String "_" (String c w))).
Proof.
  intros Hd Hdig Hc Hw. rewrite all_in_and in Hw. apply andb_true_iff in Hw.
  destruct Hw as [Hw Hu].
  destruct d as [|a d]; [congruence|]. simpl in Hdig. apply andb_true_iff in Hdig.
  destruct Hdig as [Ha Hdig].
  assert (E : rmatch bus_prefix_pattern
                (String a (String.append d
                   (String "_" (String c (String.append w (String "_" rest))))))
                EmptyString [] =
              Some ([String.append (String a d) (String "_" (String c w))], rest)).
  { rewrite bus_prefix_pattern_items, rmatch_GroupOpen.
    apply rmatch_One. eexists. eexists. split; [reflexivity|]. split; [exact Ha|].
    apply rmatch_Star_run; [exact Hdig | reflexivity|].
    apply rmatch_One. eexists. eexists. split; [reflexivity|]. split; [reflexivity|].
    apply rmatch_One. eexists. eexists. split; [reflexivity|]. split; [exact Hc|].
    apply rmatch_LazyStar_run; [exact Hw | |].
    - intros w1 c3 w2 Ew. rewrite rmatch_GroupClose. cbn [String.append rmatch].
      pose proof (all_in_at _ _ _ _ _ Hu Ew) as H3. cbv beta in H3.
      apply negb_true_iff in H3. simpl. rewrite H3. reflexivity.
    - rewrite rmatch_GroupClose.
      apply rmatch_One. eexists. eexists. split; [reflexivity|]. split; [reflexivity|].
      rewrite rmatch_nil. cbn [rev app]. unfold snoc. cbn [String.append].
      rewrite !append_assoc_s. reflexivity. }
  unfold extract_bus_prefix, re_match. cbn [String.append]. rewrite E. reflexivity.
Qed.

(** X1. [extract_bus_prefix] returns a prefix exactly for a file name that
    reads: digits, an underscore, a word character, word characters other
    than the underscore, an underscore, anything; the prefix is the text
    before that last underscore.  So a name that does not start with a
    digit, a name without a second underscore and a name with a hyphen or
    a point in its bus name have no prefix. *)
Theorem extract_bus_prefix_iff (filename p : string) :
  extract_bus_prefix filename = Some p <->
  exists d c w rest,
    filename = String.append d (String "_" (String c (String.append w (String "_" rest)))) /\
    d <> EmptyString /\ all_in is_digit d = true /\ is_word c = true /\
    all_in (fun x => is_word x && negb (Ascii.eqb x "_")) w = true /\
    p = String.append d (String "_" (String c w)).
Proof.
  split; [apply extract_bus_prefix_shape|].
  intros (d & c & w & rest & -> & Hd & Hdig & Hc & Hw & ->).
  apply extract_bus_prefix_accepts; assumption.
Qed.

Lemma split_once_run (sep : ascii) (w r : string) (cur : list ascii) :
  all_in (fun x => negb (Ascii.eqb sep x)) w = true ->
  split_once sep (String.append w (String sep r)) cur =
  [string_of_list_ascii (rev cur ++ list_ascii_of_string w); r].
Proof.
  revert cur. induction w as [|a w IH]; intros cur H; simpl.
  - rewrite Ascii.eqb_refl, app_nil_r. reflexivity.
  - simpl in H. apply andb_true_iff in H. destruct H as [Ha H].
    apply negb_true_iff in Ha. rewrite Ha, (IH _ H). simpl.
    rewrite <- app_assoc. reflexivity.
Qed.

Lemma digit_not_underscore (d : string) :
  all_in is_digit d = true -> all_in (fun x => negb (Ascii.eqb "_" x)) d = true.
Proof.
  induction d as [|a d IH]; [reflexivity|]. cbn [all_in]. intros H.
  apply andb_true_iff in H. destruct H as [Ha H].
  apply andb_true_iff. split; [|apply IH; exact H].
  destruct (Ascii.eqb "_" a) eqn:E; [|reflexivity].
  apply Ascii.eqb_eq in E. subst a. discriminate.
Qed.

Lemma startswith_append (p s : string) : startswith p (String.append p s) = true.
Proof. induction p as [|a p IH]; simpl; [|rewrite Ascii.eqb_refl]; auto. Qed.

(** X2. The bus name of the prefix of a file name is what stands between
    the first underscore, after the leading digits, and the underscore that
    ends the prefix: the prefix is those digits, an underscore and the bus
    name, the bus name is not empty, and the file name starts with the
    prefix and an underscore. *)
Theorem bus_name_of_prefix (filename p : string) :
  extract_bus_prefix filename = Some p ->
  exists d,
    d <> EmptyString /\ all_in is_digit d = true /\
    p = String.append d (String "_" (extract_bus_name p)) /\
    extract_bus_name p <> EmptyString /\
    all_in is_word (extract_bus_name p) = true /\
    startswith (String.append p "_") filename = true.
Proof.
  intros H. apply extract_bus_prefix_shape in H.
  destruct H as (d & c & w & rest & -> & Hd & Hdig & Hc & Hw & ->).
  assert (E : extract_bus_name (String.append d (String "_" (String c w))) = String c w).
  { unfold extract_bus_name.
    rewrite (split_once_run "_" d (String c w) [] (digit_not_underscore d Hdig)).
    reflexivity. }
  exists d. rewrite E. split; [exact Hd|]. split; [exact Hdig|].
  split; [reflexivity|]. split; [discriminate|]. split.
  - simpl. rewrite Hc. rewrite all_in_and in Hw. apply andb_true_iff in Hw.
    destruct Hw as [Hw _]. exact Hw.
  - replace (String.append d (String "_" (String c (String.append w (String "_" rest)))))
      with (String.append (String.append (String.append d (String "_" (String c w))) "_") rest).
    + apply startswith_append.
    + rewrite !append_assoc_s. cbn [String.append]. rewrite ?append_assoc_s. reflexivity.
Qed.

Lemma extract_bus_prefix_truthy (fname p : string) :
  extract_bus_prefix fname = Some p -> str_truthy p = true.
Proof.
  intros H. apply extract_bus_prefix_shape in H.
  destruct H as (d & c & w & rest & _ & Hd & _ & _ & _ & ->).
  destruct d; [congruence | reflexivity].
Qed.

Lemma last_with_true {A : Type} (p : A -> bool) (l : list A) (x : A) :
  last_with p l = Some x -> In x l /\ p x = true.
Proof.
  unfold last_with. intros H. apply find_some in H. destruct H as [H1 H2].
  split; [apply in_rev; exact H1 | exact H2].
Qed.

(** The loop of [find_dbc_files], from any dictionary. *)
Lemma find_dbc_files_from (path_join : string -> string -> string) (folder : string)
  (listing : list string) (acc : list (string * string)) (prefix : string) :
  od_get String.eqb prefix
    (fold_left
       (fun dbc_files fname =>
          if is_dbc_file fname then
            match extract_bus_prefix fname with
            | Some prefix =>
                if str_truthy prefix
                then od_set String.eqb prefix (path_join folder fname) dbc_files
                else dbc_files
            | None => dbc_files
            end
          else dbc_files)
       listing acc) =
  match last_with (file_of_bus prefix) listing with
  | Some fname => Some (path_join folder fname)
  | None => od_get String.eqb prefix acc
  end.
Proof.
  revert acc. induction listing as [|f l IH]; intros acc; [reflexivity|].
  cbn [fold_left]. rewrite IH, last_with_cons.
  destruct (last_with (file_of_bus prefix) l) as [g|]; [reflexivity|].
  unfold file_of_bus at 1. destruct (is_dbc_file f); cbn [andb]; [|reflexivity].
  destruct (extract_bus_prefix f) as [p|] eqn:E; [|reflexivity].
  rewrite (extract_bus_prefix_truthy f p E).
  rewrite (od_get_od_set String.eqb String.eqb_eq).
  destruct (String.eqb prefix p); reflexivity.
Qed.

Lemma fold_od_set_NoDup {A : Type} (step : list (string * string) -> A -> list (string * string))
  (l : list A) (acc : list (string * string)) :
  (forall d a, NoDup (od_keys d) -> NoDup (od_keys (step d a))) ->
  NoDup (od_keys acc) -> NoDup (od_keys (fold_left step l acc)).
Proof.
  intros H. revert acc. induction l as [|a l IH]; intros acc Ha; [exact Ha|].
  simpl. apply IH. apply H. exact Ha.
Qed.

(** X3. In the dictionary of [find_dbc_files] a bus prefix maps to the path
    of the last name of the listing that ends in .dbc in any case, does not
    start with the lock-file mark, and has that prefix; a prefix that no
    such name has is not a key, and no key is listed twice.  So of two
    files with one prefix the one listed last replaces the other. *)
Theorem find_dbc_files_lookup (path_join : string -> string -> string)
  (folder : string) (listing : list string) :
  (forall prefix,
      od_get String.eqb prefix (find_dbc_files path_join folder listing) =
      option_map (path_join folder) (last_with (file_of_bus prefix) listing)) /\
  NoDup (od_keys (find_dbc_files path_join folder listing)).
Proof.
  split.
  - intros prefix. unfold find_dbc_files. rewrite find_dbc_files_from.
    destruct (last_with (file_of_bus prefix) listing); reflexivity.
  - unfold find_dbc_files. apply fold_od_set_NoDup; [|constructor].
    intros d f Hd. destruct (is_dbc_file f); [|exact Hd].
    destruct (extract_bus_prefix f) as [p|]; [|exact Hd].
    destruct (str_truthy p); [|exact Hd].
    apply (od_set_NoDup String.eqb String.eqb_eq). exact Hd.
Qed.

(* ================================================================== *)
(** ** The dictionaries of a parsed database *)

Section DictForall.
Context {K V : Type} (eqb : K -> K -> bool).
Hypothesis eqb_eq : forall a b, eqb a b = true <-> a = b.
Variable P : K * V -> Prop.

Lemma Forall_od_set (k : K) (v : V) (d : list (K * V)) :
  Forall P d -> P (k, v) -> Forall P (od_set eqb k v d).
Proof.
  intros Hd Hv. induction d as [|[k' v'] d IH]; simpl.
  - constructor; [exact Hv | constructor].
  - inversion Hd as [|? ? H1 H2]; subst. destruct (eqb k k') eqn:E.
    + apply eqb_eq in E. subst k'. constructor; assumption.
    + constructor; [exact H1 | apply IH; exact H2].
Qed.

Lemma Forall_od_update (k : K) (f : V -> V) (d : list (K * V)) :
  Forall P d -> (forall k' v, P (k', v) -> P (k', f v)) -> Forall P (od_update eqb k f d).
Proof.
  intros Hd Hf. induction d as [|[k' v'] d IH]; simpl; [constructor|].
  inversion Hd as [|? ? H1 H2]; subst. destruct (eqb k k').
  - constructor; [apply Hf; exact H1 | exact H2].
  - constructor; [exact H1 | apply IH; exact H2].
Qed.
End DictForall.

(** The signals of a block are keyed by their names, without repetition. *)
Lemma parse_signals_from_ok (sms : list rematch) (acc sigs : list (string * Signal.t)) :
  foldM (fun signals sm =>
           sig <- parse_signal sm ;;
           Ok (od_set String.eqb (Signal.name sig) sig signals)) sms acc = Ok sigs ->
  NoDup (od_keys acc) -> Forall (fun ns => Signal.name (snd ns) = fst ns) acc ->
  NoDup (od_keys sigs) /\ Forall (fun ns => Signal.name (snd ns) = fst ns) sigs.
Proof.
  revert acc. induction sms as [|sm sms IH]; intros acc H Hn Hf.
  - simpl in H. injection H as <-. auto.
  - cbn [foldM] in H. apply bind_Ok in H. destruct H as (acc' & Hb & H).
    apply bind_Ok in Hb. destruct Hb as (s & Hs & Hb). injection Hb as <-.
    apply (IH _ H).
    + apply (od_set_NoDup String.eqb String.eqb_eq). exact Hn.
    + apply (Forall_od_set String.eqb String.eqb_eq); [exact Hf | reflexivity].
Qed.

Lemma parse_messages_ok (content : string) (ms : list rematch)
  (acc msgs : list (Z * Message.t)) :
  parse_messages content ms acc = Ok msgs ->
  NoDup (od_keys acc) -> Forall entry_ok acc ->
  NoDup (od_keys msgs) /\ Forall entry_ok msgs.
Proof.
  revert acc. induction ms as [|mm rest IH]; intros acc H Hn Hf.
  - simpl in H. injection H as <-. auto.
  - apply parse_messages_cons in H. destruct H as (sigs & Hs & H).
    apply (IH _ H).
    + apply (od_set_NoDup Z.eqb Z.eqb_eq). exact Hn.
    + apply (Forall_od_set Z.eqb Z.eqb_eq); [exact Hf|].
      unfold parse_signals in Hs.
      destruct (parse_signals_from_ok _ [] sigs Hs) as [H1 H2];
        [constructor | constructor |].
      split; [reflexivity|]. split; exact H1 || exact H2.
Qed.

Lemma entry_ok_update_message (id : Z) (g : Message.t -> Message.t)
  (msgs : list (Z * Message.t)) :
  (forall m, Message.msg_id (g m) = Message.msg_id m) ->
  (forall m, Message.signals (g m) = Message.signals m) ->
  Forall entry_ok msgs -> Forall entry_ok (update_message id g msgs).
Proof.
  intros H1 H2 H. unfold update_message. destruct (od_mem Z.eqb id msgs); [|exact H].
  apply Forall_od_update; [exact H|].
  intros k m (Ha & Hb & Hc). unfold entry_ok. cbn [fst snd] in *.
  rewrite H1, H2. auto.
Qed.

Lemma entry_ok_update_signal (id : Z) (name : string) (g : Signal.t -> Signal.t)
  (msgs : list (Z * Message.t)) :
  (forall s, Signal.name (g s) = Signal.name s) ->
  Forall entry_ok msgs -> Forall entry_ok (update_signal id name g msgs).
Proof.
  intros Hg H. unfold update_signal. destruct (has_signal id name msgs); [|exact H].
  apply Forall_od_update; [exact H|].
  intros k m (Ha & Hb & Hc). unfold entry_ok. cbn [fst snd] in *.
  rewrite signals_set_signals, od_update_keys.
  split; [destruct m; exact Ha|]. split; [exact Hb|].
  apply Forall_od_update; [exact Hc|].
  intros n s Hs. cbn [fst snd] in *. rewrite Hg. exact Hs.
Qed.

Lemma fold_inv {A S : Type} (I : S -> Prop) (step : S -> A -> S) (l : list A) (s : S) :
  (forall x a, I x -> I (step x a)) -> I s -> I (fold_left step l s).
Proof.
  intros H. revert s. induction l as [|a l IH]; intros s Hs; [exact Hs|].
  simpl. apply IH. apply H. exact Hs.
Qed.

Lemma msg_id_set_int f v m : Message.msg_id (Message.set_int f v m) = Message.msg_id m.
Proof. destruct m, f; reflexivity. Qed.

Lemma name_set_int f v s : Signal.name (Signal.set_int f v s) = Signal.name s.
Proof. destruct s, f; reflexivity. Qed.

Lemma name_set_str f v s : Signal.name (Signal.set_str f v s) = Signal.name s.
Proof. destruct s, f; reflexivity. Qed.

Lemma entry_ok_sweep_matches (k : kind) (ms : list rematch) (msgs : list (Z * Message.t)) :
  Forall entry_ok msgs -> Forall entry_ok (sweep_matches k ms msgs).
Proof.
  destruct k; cbn [sweep_matches];
    unfold apply_msg_int_attr, apply_sig_attr, long_symbol_step, val_step, cm_sig_step,
           cm_msg_step;
    apply fold_inv; intros x a Hx.
  - apply entry_ok_update_message;
      [apply msg_id_set_int | apply signals_set_int | exact Hx].
  - apply entry_ok_update_message; [intros m; destruct m; reflexivity
                                   | apply signals_set_long_symbol | exact Hx].
  - apply entry_ok_update_signal; [apply name_set_int | exact Hx].
  - apply entry_ok_update_signal; [apply name_set_str | exact Hx].
  - apply entry_ok_update_signal; [intros s; destruct s; reflexivity | exact Hx].
  - apply entry_ok_update_signal; [intros s; destruct s; reflexivity | exact Hx].
  - apply entry_ok_update_message; [intros m; destruct m; reflexivity
                                   | apply signals_set_comment | exact Hx].
Qed.

Lemma entry_ok_sweep_all (content : string) (msgs : list (Z * Message.t)) :
  Forall entry_ok msgs -> Forall entry_ok (swept content msgs).
Proof.
  rewrite sweep_all_overlay. unfold overlay. apply fold_inv.
  intros x [k ms] Hx. apply entry_ok_sweep_matches. exact Hx.
Qed.

Lemma parse_dbc_entries (content : string) (db : DBCDatabase.t) :
  parse_dbc content = Ok db ->
  NoDup (od_keys (DBCDatabase.messages db)) /\ Forall entry_ok (DBCDatabase.messages db).
Proof.
  intros H. apply parse_dbc_Ok in H. destruct H as (msgs & Hp & _ & ->).
  cbn [DBCDatabase.messages].
  destruct (parse_messages_ok _ _ [] msgs Hp) as [H1 H2]; [constructor | constructor |].
  split.
  - rewrite shape_keys, sweep_all_overlay, shape_overlay, <- shape_keys. exact H1.
  - apply entry_ok_sweep_all. exact H2.
Qed.

(** A parsed database has no repeated key and stores every message under
    its own id. *)
Lemma parsed_keys_unique (content : string) (db : DBCDatabase.t) :
  parse_dbc content = Ok db -> keys_unique db.
Proof.
  intros H. destruct (parse_dbc_entries content db H) as [H1 H2].
  split; [exact H1|]. revert H2. apply Forall_impl. intros kv (_ & Hn & _). exact Hn.
Qed.

Lemma parsed_keyed_by_id (content : string) (db : DBCDatabase.t) :
  parse_dbc content = Ok db -> keyed_by_id db.
Proof.
  intros H. destruct (parse_dbc_entries content db H) as [_ H2].
  intros id msg Hm. unfold get_message in Hm. apply od_get_In in Hm.
  rewrite Forall_forall in H2. destruct (H2 _ Hm) as (Ha & _). exact Ha.
Qed.

(** X4. In a database that [parse_dbc] returns no message id is a key
    twice, every message is stored under its own id, no signal name is a
    key twice within a message, and every signal is stored under its own
    name. *)
Theorem parse_dbc_keys (content : string) (db : DBCDatabase.t) :
  parse_dbc content = Ok db ->
  NoDup (od_keys (DBCDatabase.messages db)) /\
  forall id msg,
    get_message id db = Some msg ->
    Message.msg_id msg = id /\
    NoDup (od_keys (Message.signals msg)) /\
    forall name sig, get_signal name msg = Some sig -> Signal.name sig = name.
Proof.
  intros H. destruct (parse_dbc_entries content db H) as [H1 H2].
  split; [exact H1|]. intros id msg Hm. unfold get_message in Hm.
  apply od_get_In in Hm. rewrite Forall_forall in H2.
  destruct (H2 _ Hm) as (Ha & Hb & Hc). cbn [fst snd] in *.
  split; [exact Ha|]. split; [exact Hb|].
  intros name sig Hs. unfold get_signal in Hs. apply od_get_str_In in Hs.
  rewrite Forall_forall in Hc. apply (Hc _ Hs).
Qed.

(* ================================================================== *)
(** ** The ranges of the declared fields *)

Lemma digit_val_nonneg (c : ascii) : is_digit c = true -> 0 <= digit_val c <= 9.
Proof.
  unfold is_digit, in_range, digit_val. intros H. apply andb_true_iff in H.
  destruct H as [H1 H2]. apply Nat.leb_le in H1, H2. lia.
Qed.

Lemma int_of_digits_nonneg (s : string) (acc : Z) :
  all_in is_digit s = true -> 0 <= acc -> 0 <= int_of_digits s acc.
Proof.
  revert acc. induction s as [|c s IH]; intros acc H Ha; cbn [int_of_digits]; [exact Ha|].
  cbn [all_in] in H. apply andb_true_iff in H. destruct H as [Hc Hs].
  apply IH; [exact Hs|]. pose proof (digit_val_nonneg c Hc). lia.
Qed.

(** [int] of a text of digits is not negative. *)
Lemma int_value_nonneg (s : string) : all_in is_digit s = true -> 0 <= int_value s.
Proof.
  intros H. unfold int_value. destruct s as [|c s]; [simpl; lia|].
  assert (Hc : is_digit c = true) by (simpl in H; apply andb_true_iff in H; tauto).
  assert (E : int_of_digits (String c s) 0 = int_value (String c s)).
  { unfold int_value.
    destruct c as [[] [] [] [] [] [] [] []]; try reflexivity; discriminate Hc. }
  unfold int_value in E. rewrite <- E. apply int_of_digits_nonneg; [exact H | lia].
Qed.

Lemma run_text (p : ascii -> bool) (c : ascii) (w : string) :
  p c = true -> all_in p w = true ->
  str_truthy (String.append (snoc EmptyString c) w) &&
  all_in p (String.append (snoc EmptyString c) w) = true.
Proof. intros Hc Hw. simpl. rewrite Hc, Hw. reflexivity. Qed.

(** The groups of a message declaration: digits, a word, digits, a word. *)
Lemma msg_pattern_groups (mm : rematch) (s0 rest : string) :
  rmatch (items msg_pattern) s0 EmptyString [] = Some (m_groups mm, rest) ->
  digit_text (group mm 1) = true /\ word_text (group mm 2) = true /\
  digit_text (group mm 3) = true /\ word_text (group mm 4) = true.
Proof.
  intros E. unfold msg_pattern in E. cbn [items] in E.
  cbv [lit blanks blanks0 grp digits word plus list_ascii_of_string map app] in E.
  repeat rinv E. injection E as E _. unfold group, digit_text, word_text.
  rewrite <- E. cbn [rev app nth Nat.pred].
  repeat split; apply run_text; assumption.
Qed.

Lemma one_of_two (a b c : ascii) :
  mem_char c (String a (String b EmptyString)) = true -> c = a \/ c = b.
Proof.
  simpl. intros H. apply orb_true_iff in H. destruct H as [H|H].
  - left. apply Ascii.eqb_eq. exact H.
  - right. rewrite orb_false_r in H. apply Ascii.eqb_eq. exact H.
Qed.

(** The groups of a signal line that the parser reads as a name, as
    integers and as a sign, and its unit. *)
Lemma sig_pattern_groups (sm : rematch) (s0 rest : string) :
  rmatch (items sig_pattern) s0 EmptyString [] = Some (m_groups sm, rest) ->
  word_text (group sm 1) = true /\ digit_text (group sm 2) = true /\
  digit_text (group sm 3) = true /\
  (group sm 4 = "0" \/ group sm 4 = "1") /\ (group sm 5 = "+" \/ group sm 5 = "-") /\
  all_in (fun c => negb (Ascii.eqb c dquote)) (group sm 10) = true.
Proof.
  intros E. unfold sig_pattern in E. cbn [items] in E.
  cbv [lit blanks blanks0 grp quoted unquoted digits word plus list_ascii_of_string
       map app] in E.
  repeat rinv E. injection E as E _. unfold group, digit_text, word_text.
  rewrite <- E. cbn [rev app nth Nat.pred].
  repeat match goal with |- _ /\ _ => split end;
    try (apply run_text; assumption).
  - match goal with
    | H : in_class (OneOf "01") ?c = true |- _ =>
        destruct (one_of_two _ _ _ H) as [-> | ->]; [left | right]; reflexivity
    end.
  - match goal with
    | H : in_class (OneOf "+-") ?c = true |- _ =>
        destruct (one_of_two _ _ _ H) as [-> | ->]; [left | right]; reflexivity
    end.
  - cbn [String.append].
    match goal with
    | H : all_in (in_class (NoneOf (String dquote EmptyString))) ?w = true |- _ =>
        revert H; generalize w
    end.
    intros u. induction u as [|a u IH]; simpl; [reflexivity|].
    rewrite orb_false_r. intros H. apply andb_true_iff in H. destruct H as [H1 H2].
    rewrite H1. apply IH. exact H2.
Qed.

Lemma digit_text_nonneg (s : string) : digit_text s = true -> 0 <= int_value s.
Proof.
  unfold digit_text. intros H. apply andb_true_iff in H. apply int_value_nonneg. tauto.
Qed.

(** What a signal line fixes, by its groups. *)
Lemma parse_signal_declared (sm : rematch) (s : Signal.t) (s0 rest : string) :
  rmatch (items sig_pattern) s0 EmptyString [] = Some (m_groups sm, rest) ->
  parse_signal sm = Ok s -> sig_declared s.
Proof.
  intros E H. destruct (sig_pattern_groups sm s0 rest E) as (G1 & G2 & G3 & G4 & G5 & G10).
  unfold parse_signal in H.
  apply bind_Ok in H. destruct H as (start_bit & H2 & H).
  apply bind_Ok in H. destruct H as (length & H3 & H).
  apply bind_Ok in H. destruct H as (byte_order & H4 & H).
  apply py_int_Ok in H2. destruct H2 as [_ ->].
  apply py_int_Ok in H3. destruct H3 as [_ ->].
  apply py_int_Ok in H4. destruct H4 as [_ ->].
  destruct (py_float (group sm 6)); [|discriminate].
  destruct (py_float (group sm 7)); [|discriminate].
  destruct (py_float (group sm 8)); [|discriminate].
  destruct (py_float (group sm 9)); [|discriminate].
  cbn [bind] in H. injection H as <-. unfold sig_declared.
  cbn [Signal.name Signal.start_bit Signal.length Signal.byte_order Signal.value_type
       Signal.unit Signal.receivers].
  split; [exact G1|]. split; [apply digit_text_nonneg; exact G2|].
  split; [apply digit_text_nonneg; exact G3|].
  split; [destruct G4 as [-> | ->]; [left | right]; reflexivity|].
  split; [exact G5|]. split; [exact G10|].
  apply Forall_forall. intros r Hr. apply in_map_iff in Hr.
  destruct Hr as (x & <- & Hx). apply filter_In in Hx. destruct Hx as [_ Hx].
  unfold str_truthy in Hx. apply negb_true_iff in Hx. apply String.eqb_neq in Hx.
  exact Hx.
Qed.

Lemma msg_declared_decl (m m' : Message.t) :
  msg_decl m = msg_decl m' -> msg_declared m -> msg_declared m'.
Proof.
  unfold msg_decl, msg_declared. intros E. injection E as -> -> -> ->. auto.
Qed.

Lemma sig_declared_decl (s s' : Signal.t) :
  sig_decl s = sig_decl s' -> sig_declared s -> sig_declared s'.
Proof.
  unfold sig_decl, sig_declared. intros E.
  injection E as E1 E2 E3 E4 E5 _ _ _ _ E10 E11.
  rewrite E1, E2, E3, E4, E5, E10, E11. auto.
Qed.

(** X5. In a database that [parse_dbc] returns, the id and the length of
    every message are not negative and its name and sender are non-empty
    words; of every signal the name is a non-empty word, the start bit and
    the length are not negative, the byte order is 0 or 1, the sign is a
    plus or a minus, the unit has no double quote and no receiver is the
    empty text. *)
Theorem parse_dbc_declared_fields (content : string) (db : DBCDatabase.t) :
  parse_dbc content = Ok db ->
  forall id msg,
    get_message id db = Some msg ->
    msg_declared msg /\
    forall name sig, get_signal name msg = Some sig -> sig_declared sig.
Proof.
  intros H. apply parse_dbc_Ok in H. destruct H as (msgs & Hp & _ & ->).
  intros id msg Hm. unfold get_message in Hm.
  cbn [DBCDatabase.messages] in Hm.
  pose proof (msg_decl_sweep_all id content msgs) as Hd. rewrite Hm in Hd.
  pose proof (parse_messages_get id content _ [] msgs Hp) as Hg.
  destruct (last_with _ (combine _ _)) as [[mm block]|] eqn:El;
    [|rewrite Hg in Hd; discriminate Hd].
  destruct Hg as (sigs & Hs & Hg). rewrite Hg in Hd. cbn [option_map] in Hd.
  assert (Hd' : msg_decl (new_message mm sigs) = msg_decl msg) by congruence.
  apply last_with_true in El. destruct El as [Hin _].
  apply in_combine_l in Hin. apply finditer_In in Hin. destruct Hin as (s0 & rest & Er).
  destruct (msg_pattern_groups mm s0 rest Er) as (G1 & G2 & G3 & G4).
  split.
  - apply (msg_declared_decl _ _ Hd'). unfold msg_declared, new_message.
    cbn [Message.set_signals Message.msg_id Message.dlc Message.name Message.transmitter].
    split; [apply digit_text_nonneg; exact G1|].
    split; [apply digit_text_nonneg; exact G3|]. split; assumption.
  - intros name sig Hsig.
    pose proof (sig_decl_sweep_all id name content msgs) as Hsd.
    unfold get_sig in Hsd. rewrite Hm, Hg in Hsd. unfold get_signal in Hsig.
    rewrite Hsig in Hsd. change (Message.signals (new_message mm sigs)) with sigs in Hsd.
    unfold parse_signals in Hs.
    pose proof (parse_signals_get name _ [] sigs Hs) as Hn.
    destruct (last_with _ (finditer sig_pattern block)) as [sm|] eqn:Es;
      [|rewrite Hn in Hsd; discriminate Hsd].
    destruct Hn as (s & Hps & Hn). rewrite Hn in Hsd. cbn [option_map] in Hsd.
    assert (Hsd' : sig_decl s = sig_decl sig) by congruence.
    apply last_with_true in Es. destruct Es as [Hin _].
    apply finditer_In in Hin. destruct Hin as (s1 & rest1 & Er1).
    apply (sig_declared_decl _ _ Hsd'). apply (parse_signal_declared sm s s1 rest1 Er1 Hps).
Qed.

(* ================================================================== *)
(** ** How the two views fail *)

Lemma bind_Raise {A B : Type} (c : result A) (k : A -> result B) (e : exn) :
  bind c k = Raise e -> c = Raise e \/ exists a, c = Ok a /\ k a = Raise e.
Proof. destruct c as [a|e']; simpl; intros H; [right; eauto | left; congruence]. Qed.

Lemma concat_mapM_Raise {A B : Type} (f : A -> result (list B)) (l : list A) (e : exn) :
  concat_mapM f l = Raise e -> exists x, In x l /\ f x = Raise e.
Proof.
  induction l as [|x l IH]; simpl; [discriminate|]. intros H.
  apply bind_Raise in H. destruct H as [H|(ys & _ & H)].
  - exists x. auto.
  - apply bind_Raise in H. destruct H as [H|(zs & _ & H)]; [|discriminate].
    destruct (IH H) as (y & Hy & E). exists y. auto.
Qed.

Lemma foldM_Raise {A S : Type} (body : S -> A -> result S) (l : list A) (s : S) (e : exn) :
  foldM body l s = Raise e -> exists s' x, In x l /\ body s' x = Raise e.
Proof.
  revert s. induction l as [|x l IH]; intros s; simpl; [discriminate|]. intros H.
  apply bind_Raise in H. destruct H as [H|(s1 & _ & H)].
  - exists s, x. auto.
  - destruct (IH _ H) as (s' & y & Hy & E). exists s', y. auto.
Qed.

Lemma format_number_Raise (f : spec_float) (e : exn) :
  format_number f = Raise e -> refused e f.
Proof.
  unfold format_number, refused. destruct f as [s|s| |s m x]; simpl; try discriminate.
  - intros H. injection H as <-. left. eauto.
  - intros H. injection H as <-. right. auto.
Qed.

Lemma build_signal_row_Raise (m : Message.t) (s : Signal.t) (e : exn) :
  build_signal_row m s = Raise e -> exists f, In f (row_floats s) /\ refused e f.
Proof.
  unfold build_signal_row, row_floats. cbv zeta. intros H.
  apply bind_Raise in H. destruct H as [H|(v1 & _ & H)];
    [exists (Signal.factor s); split; [simpl; tauto | apply format_number_Raise; exact H]|].
  apply bind_Raise in H. destruct H as [H|(v2 & _ & H)];
    [exists (Signal.offset s); split; [simpl; tauto | apply format_number_Raise; exact H]|].
  apply bind_Raise in H. destruct H as [H|(v3 & _ & H)];
    [exists (Signal.minimum s); split; [simpl; tauto | apply format_number_Raise; exact H]|].
  apply bind_Raise in H. destruct H as [H|(v4 & _ & H)];
    [exists (Signal.maximum s); split; [simpl; tauto | apply format_number_Raise; exact H]|].
  discriminate H.
Qed.

Lemma build_sig_summary_row_Raise (m : Message.t) (s : Signal.t) (e : exn) :
  build_sig_summary_row m s = Raise e -> exists f, In f (summary_floats s) /\ refused e f.
Proof.
  unfold build_sig_summary_row, summary_floats. intros H.
  apply bind_Raise in H. destruct H as [H|(v1 & _ & H)];
    [exists (Signal.minimum s); split; [simpl; tauto | apply format_number_Raise; exact H]|].
  apply bind_Raise in H. destruct H as [H|(v2 & _ & H)];
    [exists (Signal.maximum s); split; [simpl; tauto | apply format_number_Raise; exact H]|].
  apply bind_Raise in H. destruct H as [H|(v3 & _ & H)];
    [exists (Signal.factor s); split; [simpl; tauto | apply format_number_Raise; exact H]|].
  discriminate H.
Qed.

(** A signal row that was built has stable cells. *)
Lemma build_signal_row_stable (m : Message.t) (s : Signal.t) (row : list pyval) :
  build_signal_row m s = Ok row -> Forall stable row.
Proof.
  intros H. pose proof (build_signal_row_Ok m s row H) as F.
  destruct (build_signal_row_finite m s F) as (row' & E & S). congruence.
Qed.

(** The comparison of two built rows does not raise. *)
Lemma check_row_diff_built (r1 r2 : list pyval) (e : exn) :
  Forall stable r1 -> Forall stable r2 ->
  List.length r1 = NUM_COLS_PER_SIDE -> List.length r2 = NUM_COLS_PER_SIDE ->
  check_row_diff r1 r2 <> Raise e.
Proof.
  intros S1 S2 L1 L2 H.
  destruct (check_row_diff_total r1 r2 S1 S2) as (d & Hd); congruence.
Qed.

Lemma get_signal_In (name : string) (m : Message.t) (s : Signal.t) :
  get_signal name m = Some s -> In s (od_values (Message.signals m)).
Proof. intros H. eapply In_od_values. apply od_get_str_In. exact H. Qed.

Lemma get_message_In (id : Z) (db : DBCDatabase.t) (m : Message.t) :
  get_message id db = Some m -> In m (od_values (DBCDatabase.messages db)).
Proof. intros H. eapply In_od_values. apply od_get_In. exact H. Qed.

Lemma compare_signal_Raise (o n : Message.t) (name : string) (e : exn) :
  compare_signal o n name = Raise e ->
  exists sig f,
    (In sig (od_values (Message.signals o)) \/ In sig (od_values (Message.signals n))) /\
    In f (row_floats sig) /\ refused e f.
Proof.
  unfold compare_signal.
  destruct (get_signal name o) as [s|] eqn:Es; destruct (get_signal name n) as [t|] eqn:Et;
    intros H; try discriminate.
  - apply bind_Raise in H. destruct H as [H|(r1 & E1 & H)].
    { destruct (build_signal_row_Raise _ _ _ H) as (f & Hf & Hr).
      exists s, f. split; [left; eapply get_signal_In; eauto | auto]. }
    apply bind_Raise in H. destruct H as [H|(r2 & E2 & H)].
    { destruct (build_signal_row_Raise _ _ _ H) as (f & Hf & Hr).
      exists t, f. split; [right; eapply get_signal_In; eauto | auto]. }
    apply bind_Raise in H. destruct H as [H|(d & _ & H)]; [|discriminate].
    exfalso. revert H. apply check_row_diff_built;
      eauto using build_signal_row_stable, build_signal_row_length.
  - apply bind_Raise in H. destruct H as [H|(r1 & E1 & H)].
    { destruct (build_signal_row_Raise _ _ _ H) as (f & Hf & Hr).
      exists s, f. split; [left; eapply get_signal_In; eauto | auto]. }
    apply bind_Raise in H. destruct H as [H|(d & _ & H)]; [|discriminate].
    exfalso. revert H. apply check_row_diff_built;
      eauto using build_signal_row_stable, build_signal_row_length,
                  build_empty_msg_row_stable, build_empty_msg_row_length.
  - apply bind_Raise in H. destruct H as [H|(r2 & E2 & H)].
    { destruct (build_signal_row_Raise _ _ _ H) as (f & Hf & Hr).
      exists t, f. split; [right; eapply get_signal_In; eauto | auto]. }
    apply bind_Raise in H. destruct H as [H|(d & _ & H)]; [|discriminate].
    exfalso. revert H. apply check_row_diff_built;
      eauto using build_signal_row_stable, build_signal_row_length,
                  build_empty_msg_row_stable, build_empty_msg_row_length.
Qed.

Lemma one_sided_Raise (m : Message.t) (mk : list pyval -> row_tuple)
  (sigs : list (string * Signal.t)) (e : exn) :
  concat_mapM (fun kv => row <- build_signal_row m (snd kv) ;; Ok [mk row]) sigs = Raise e ->
  exists sig f, In sig (od_values sigs) /\ In f (row_floats sig) /\ refused e f.
Proof.
  intros H. apply concat_mapM_Raise in H. destruct H as ([k s] & Hin & H).
  apply bind_Raise in H. destruct H as [H|(row & _ & H)]; [|discriminate].
  destruct (build_signal_row_Raise _ _ _ H) as (f & Hf & Hr).
  exists s, f. split; [|auto]. apply (in_map snd) in Hin. exact Hin.
Qed.

Lemma compare_message_Raise (old_db new_db : DBCDatabase.t) (id : Z) (e : exn) :
  compare_message old_db new_db id = Raise e ->
  exists sig f,
    (holds_signal old_db sig \/ holds_signal new_db sig) /\
    In f (row_floats sig) /\ refused e f.
Proof.
  unfold compare_message.
  destruct (get_message id old_db) as [o|] eqn:Eo;
    destruct (get_message id new_db) as [n|] eqn:En; intros H; try discriminate.
  - assert (Hs : exists name, compare_signal o n name = Raise e).
    { destruct (all_sig_names o n) as [|k names].
      - exfalso. apply bind_Raise in H. destruct H as [H|(d & _ & H)]; [|discriminate].
        revert H. apply check_row_diff_built;
          eauto using build_empty_msg_row_stable, build_empty_msg_row_length.
      - apply concat_mapM_Raise in H. destruct H as (name & _ & H). eauto. }
    destruct Hs as (name & Hs).
    destruct (compare_signal_Raise _ _ _ _ Hs) as (sig & f & [Hin|Hin] & Hf & Hr);
      exists sig, f; (split; [|auto]).
    + left. exists o. split; [eapply get_message_In; eauto | exact Hin].
    + right. exists n. split; [eapply get_message_In; eauto | exact Hin].
  - assert (Hs : exists sig f, In sig (od_values (Message.signals o)) /\
                               In f (row_floats sig) /\ refused e f).
    { destruct (Message.signals o) as [|kv sigs] eqn:E; [discriminate|].
      apply (one_sided_Raise o _ _ e H). }
    destruct Hs as (sig & f & Hin & Hf & Hr). exists sig, f. split; [|auto].
    left. exists o. split; [eapply get_message_In; eauto | exact Hin].
  - assert (Hs : exists sig f, In sig (od_values (Message.signals n)) /\
                               In f (row_floats sig) /\ refused e f).
    { destruct (Message.signals n) as [|kv sigs] eqn:E; [discriminate|].
      apply (one_sided_Raise n _ _ e H). }
    destruct Hs as (sig & f & Hin & Hf & Hr). exists sig, f. split; [|auto].
    right. exists n. split; [eapply get_message_In; eauto | exact Hin].
Qed.

Lemma msg_diff_indices_Ok (o n : Message.t) (e : exn) :
  diff_indices (build_msg_summary_row o) (build_msg_summary_row n)
               (seq 0 (List.length (build_msg_summary_row o))) <> Raise e.
Proof. destruct (msg_diff_indices_total o n) as (d & Hd). congruence. Qed.

Lemma categorize_signal_Raise (o n : Message.t) (c : changes) (name : string) (e : exn) :
  categorize_signal o n c name = Raise e ->
  exists sig f,
    (In sig (od_values (Message.signals o)) \/ In sig (od_values (Message.signals n))) /\
    In f (summary_floats sig) /\ refused e f.
Proof.
  unfold categorize_signal.
  destruct (get_signal name o) as [s|] eqn:Es; destruct (get_signal name n) as [t|] eqn:Et;
    intros H; try discriminate.
  apply bind_Raise in H. destruct H as [H|(r1 & E1 & H)].
  { destruct (build_sig_summary_row_Raise _ _ _ H) as (f & Hf & Hr).
    exists s, f. split; [left; eapply get_signal_In; eauto | auto]. }
  cbv zeta in H. apply bind_Raise in H. destruct H as [H|(r2 & E2 & H)].
  { destruct (build_sig_summary_row_Raise _ _ _ H) as (f & Hf & Hr).
    exists t, f. split; [right; eapply get_signal_In; eauto | auto]. }
  apply bind_Raise in H. destruct H as [H|(d & _ & H)]; [|discriminate].
  destruct (sig_diff_indices_total _ _ _ _ _ _ E1 E2) as (d & Hd). congruence.
Qed.

Lemma categorize_message_Raise (old_db new_db : DBCDatabase.t) (c : changes) (id : Z)
  (e : exn) :
  In id (all_msg_ids old_db new_db) ->
  categorize_message old_db new_db c id = Raise e ->
  exists sig f,
    (holds_signal old_db sig \/ holds_signal new_db sig) /\
    In f (summary_floats sig) /\ refused e f.
Proof.
  intros Hid. unfold categorize_message.
  destruct (get_message id old_db) as [o|] eqn:Eo;
    destruct (get_message id new_db) as [n|] eqn:En; intros H; try discriminate.
  - cbv zeta in H. apply bind_Raise in H. destruct H as [H|(d & _ & H)].
    { exfalso. revert H. apply msg_diff_indices_Ok. }
    apply foldM_Raise in H. destruct H as (c' & name & _ & H).
    destruct (categorize_signal_Raise _ _ _ _ _ H) as (sig & f & [Hin|Hin] & Hf & Hr);
      exists sig, f; (split; [|auto]).
    + left. exists o. split; [eapply get_message_In; eauto | exact Hin].
    + right. exists n. split; [eapply get_message_In; eauto | exact Hin].
  - exfalso. destruct (all_msg_ids_present _ _ _ Hid) as [A|A]; congruence.
Qed.




(** X6. When the row-level view raises, some signal of one of the two
    databases has an infinite or undefined scale, offset, minimum or
    maximum, and the exception is the one [int] raises on it:
    [OverflowError] on an infinity, [ValueError] on a NaN.  The same holds
    for [categorize_changes] with the minimum, the maximum and the scale;
    neither view raises for another reason. *)
Theorem views_raise_on_unbounded_float (old_db new_db : DBCDatabase.t) (e : exn) :
  (compare_dbc_files old_db new_db = Raise e ->
   exists sig f,
     (holds_signal old_db sig \/ holds_signal new_db sig) /\
     In f (row_floats sig) /\ refused e f) /\
  (categorize_changes old_db new_db = Raise e ->
   exists sig f,
     (holds_signal old_db sig \/ holds_signal new_db sig) /\
     In f (summary_floats sig) /\ refused e f).
Proof.
  split; intros H.
  - unfold compare_dbc_files in H. apply concat_mapM_Raise in H.
    destruct H as (id & _ & H). apply (compare_message_Raise _ _ _ _ H).
  - unfold categorize_changes in H. apply foldM_Raise in H.
    destruct H as (c & id & Hid & H). apply (categorize_message_Raise _ _ _ _ _ Hid H).
Qed.

(* ================================================================== *)
(** ** When the row-level view returns *)

Lemma concat_mapM_Ok_In {A B : Type} (f : A -> result (list B)) (l : list A) (r : list B)
  (x : A) :
  concat_mapM f l = Ok r -> In x l -> exists ys, f x = Ok ys /\ incl ys r.
Proof.
  revert r. induction l as [|a l IH]; intros r H Hin; [destruct Hin|].
  cbn [concat_mapM] in H. apply bind_Ok in H. destruct H as (ys & Hy & H).
  apply bind_Ok in H. destruct H as (zs & Hz & H). injection H as <-.
  destruct Hin as [->|Hin].
  - exists ys. split; [exact Hy | apply incl_appl, incl_refl].
  - destruct (IH _ Hz Hin) as (ws & Hw & Hi). exists ws. split; [exact Hw|].
    apply incl_appr. exact Hi.
Qed.

Lemma od_get_str_Some {V : Type} (k : string) (v : V) (d : list (string * V)) :
  NoDup (od_keys d) -> In (k, v) d -> od_get String.eqb k d = Some v.
Proof.
  intros Hnd. induction d as [|[k' v'] d IH]; simpl; [tauto|].
  unfold od_keys in Hnd. simpl in Hnd. inversion Hnd as [|? ? Hk Hd]; subst.
  intros [E|Hin].
  - injection E as -> ->. rewrite String.eqb_refl. reflexivity.
  - destruct (String.eqb_spec k k') as [->|Hne].
    + exfalso. apply Hk. apply (in_map fst) in Hin. exact Hin.
    + apply IH; assumption.
Qed.

(** The rows of a signal that the view reached were built. *)
Lemma compare_message_reaches (old_db new_db : DBCDatabase.t) (id : Z)
  (rows : list row_tuple) (name : string) :
  compare_message old_db new_db id = Ok rows ->
  (forall o s, get_message id old_db = Some o -> get_signal name o = Some s ->
               signal_finite s = true) /\
  (forall n t, get_message id new_db = Some n -> get_signal name n = Some t ->
               signal_finite t = true).
Proof.
  unfold compare_message. intros H.
  assert (Both : forall o n s,
             get_message id old_db = Some o -> get_message id new_db = Some n ->
             get_signal name o = Some s \/ get_signal name n = Some s ->
             signal_finite s = true).
  { intros o n s Eo En Hs. rewrite Eo, En in H.
    assert (Hin : In name (all_sig_names o n)).
    { apply all_sig_names_In. destruct Hs as [Hs|Hs]; [left | right];
        apply od_get_str_In in Hs; apply (in_map fst) in Hs; exact Hs. }
    destruct (all_sig_names o n) as [|k names]; [destruct Hin|].
    destruct (concat_mapM_Ok_In _ _ _ name H Hin) as (ys & Hy & _).
    unfold compare_signal in Hy.
    destruct (get_signal name o) as [s1|]; destruct (get_signal name n) as [t1|];
      destruct Hs as [Hs|Hs]; try discriminate Hs; injection Hs as ->;
      inv_bind Hy; eauto using build_signal_row_Ok. }
  assert (One : forall (m : Message.t) (mk : list pyval -> row_tuple) s,
             concat_mapM (fun kv => row <- build_signal_row m (snd kv) ;; Ok [mk row])
                         (Message.signals m) = Ok rows ->
             get_signal name m = Some s -> signal_finite s = true).
  { intros m mk s Hc Hs. apply od_get_str_In in Hs.
    destruct (concat_mapM_Ok_In _ _ _ _ Hc Hs) as (ys & Hy & _).
    cbn [snd] in Hy. apply bind_Ok in Hy. destruct Hy as (row & Hrow & _).
    apply (build_signal_row_Ok _ _ _ Hrow). }
  split.
  - intros o s Eo Es. destruct (get_message id new_db) as [n|] eqn:En.
    + apply (Both o n s Eo eq_refl). left. exact Es.
    + rewrite Eo in H. destruct (Message.signals o) as [|kv sigs] eqn:E.
      * unfold get_signal in Es. rewrite E in Es. discriminate Es.
      * rewrite <- E in H. apply (One o _ s H Es).
  - intros n t En Et. destruct (get_message id old_db) as [o|] eqn:Eo.
    + apply (Both o n t eq_refl En). right. exact Et.
    + rewrite En in H. destruct (Message.signals n) as [|kv sigs] eqn:E.
      * unfold get_signal in Et. rewrite E in Et. discriminate Et.
      * rewrite <- E in H. apply (One n _ t H Et).
Qed.

Lemma db_finite_intro (db : DBCDatabase.t) :
  keys_unique db ->
  (forall id m name s, get_message id db = Some m -> get_signal name m = Some s ->
                       signal_finite s = true) ->
  db_finite db = true.
Proof.
  intros [Hnd Hsig] H. unfold db_finite. apply forallb_forall. intros m Hm.
  apply in_map_iff in Hm. destruct Hm as ([id m'] & <- & Hin). cbn [snd].
  pose proof (proj2 (od_get_Some_iff id m' _ Hnd) Hin) as Eg.
  rewrite Forall_forall in Hsig. pose proof (Hsig _ Hin) as Hn. cbn [snd] in Hn.
  unfold message_finite. apply forallb_forall. intros s Hs.
  apply in_map_iff in Hs. destruct Hs as ([name s'] & <- & Hin'). cbn [snd].
  apply (H id m' name s' Eg). apply od_get_str_Some; assumption.
Qed.

(** X7. On two databases without repeated keys the row-level view returns
    exactly when every signal of either database has a finite scale,
    offset, minimum and maximum: one signal with an infinite or undefined
    value anywhere makes the whole comparison raise. *)
Theorem compare_dbc_files_returns_iff (old_db new_db : DBCDatabase.t) :
  keys_unique old_db -> keys_unique new_db ->
  ((exists rows, compare_dbc_files old_db new_db = Ok rows) <->
   db_finite old_db = true /\ db_finite new_db = true).
Proof.
  intros Uo Un. split.
  - intros (rows & H). unfold compare_dbc_files in H.
    split; apply db_finite_intro; try assumption; intros id m name s Em Es.
    + assert (Hid : In id (all_msg_ids old_db new_db)).
      { apply all_msg_ids_In. left. eapply get_message_key. exact Em. }
      destruct (concat_mapM_Ok_In _ _ _ id H Hid) as (ys & Hy & _).
      apply (proj1 (compare_message_reaches _ _ _ _ name Hy) m s Em Es).
    + assert (Hid : In id (all_msg_ids old_db new_db)).
      { apply all_msg_ids_In. right. eapply get_message_key. exact Em. }
      destruct (concat_mapM_Ok_In _ _ _ id H Hid) as (ys & Hy & _).
      apply (proj2 (compare_message_reaches _ _ _ _ name Hy) m s Em Es).
  - intros [Ho Hn]. apply compare_dbc_files_finite; assumption.
Qed.


(* ================================================================== *)
(** ** The shape of the rows *)

Lemma concat_mapM_Forall {A B : Type} (P : B -> Prop) (f : A -> result (list B))
  (l : list A) (r : list B) :
  (forall x ys, In x l -> f x = Ok ys -> Forall P ys) ->
  concat_mapM f l = Ok r -> Forall P r.
Proof.
  revert r. induction l as [|a l IH]; intros r Hf H.
  - injection H as <-. constructor.
  - cbn [concat_mapM] in H. apply bind_Ok in H. destruct H as (ys & Hy & H).
    apply bind_Ok in H. destruct H as (zs & Hz & H). injection H as <-.
    apply Forall_app. split.
    + apply (Hf a ys (or_introl eq_refl) Hy).
    + apply IH; [|exact Hz]. intros x ws Hx. apply Hf. right. exact Hx.
Qed.

(** The comparison of two built rows: the differing columns, and whether
    there is one. *)
Lemma check_row_diff_cols (r1 r2 : list pyval) (d : bool * list nat) :
  Forall stable r1 -> Forall stable r2 ->
  List.length r1 = NUM_COLS_PER_SIDE -> List.length r2 = NUM_COLS_PER_SIDE ->
  check_row_diff r1 r2 = Ok d ->
  row_shape (mk_row r1 r2 (fst d) (snd d)) /\
  snd d = differing_cols (mk_row r1 r2 (fst d) (snd d)).
Proof.
  intros S1 S2 L1 L2 H. unfold check_row_diff in H.
  rewrite diff_indices_stable in H; try assumption.
  2:{ apply Forall_forall. intros i Hi. apply in_seq in Hi. lia. }
  cbn [bind] in H. injection H as <-. rewrite L1.
  unfold row_shape, differing_cols. cbn [old_row new_row has_diff diff_cols fst snd].
  fold all_cols. repeat split; auto.
  - intros H E. rewrite E in H. discriminate H.
  - intros H. destruct (filter _ all_cols); [congruence | reflexivity].
Qed.

Lemma one_sided_shape (r1 r2 : list pyval) :
  List.length r1 = NUM_COLS_PER_SIDE -> List.length r2 = NUM_COLS_PER_SIDE ->
  row_shape (mk_row r1 r2 true all_cols).
Proof.
  intros L1 L2. unfold row_shape. cbn [old_row new_row has_diff diff_cols].
  repeat split; auto. discriminate.
Qed.

Lemma build_empty_row_length : List.length build_empty_row = NUM_COLS_PER_SIDE.
Proof. reflexivity. Qed.

Lemma compare_signal_shape (o n : Message.t) (name : string) (rows : list row_tuple) :
  compare_signal o n name = Ok rows -> Forall row_shape rows.
Proof.
  unfold compare_signal.
  destruct (get_signal name o) as [s|]; destruct (get_signal name n) as [t|]; intros H.
  - inv_bind H. subst rows. constructor; [|constructor].
    apply check_row_diff_cols;
      eauto using build_signal_row_stable, build_signal_row_length.
  - inv_bind H. subst rows. constructor; [|constructor].
    apply check_row_diff_cols;
      eauto using build_signal_row_stable, build_signal_row_length,
                  build_empty_msg_row_stable, build_empty_msg_row_length.
  - inv_bind H. subst rows. constructor; [|constructor].
    apply check_row_diff_cols;
      eauto using build_signal_row_stable, build_signal_row_length,
                  build_empty_msg_row_stable, build_empty_msg_row_length.
  - injection H as <-. constructor.
Qed.

Lemma compare_message_shape (old_db new_db : DBCDatabase.t) (id : Z)
  (rows : list row_tuple) :
  compare_message old_db new_db id = Ok rows -> Forall row_shape rows.
Proof.
  unfold compare_message.
  destruct (get_message id old_db) as [o|]; destruct (get_message id new_db) as [n|];
    intros H.
  - destruct (all_sig_names o n) as [|k names].
    + inv_bind H. subst rows. constructor; [|constructor].
      apply check_row_diff_cols;
        eauto using build_empty_msg_row_stable, build_empty_msg_row_length.
    + revert H. apply concat_mapM_Forall. intros x ys _. apply compare_signal_shape.
  - destruct (Message.signals o) as [|kv sigs].
    + injection H as <-. constructor; [|constructor].
      apply one_sided_shape;
        [apply build_empty_msg_row_length | apply build_empty_row_length].
    + revert H. apply concat_mapM_Forall. intros x ys _ Hy. inv_bind Hy. subst ys.
      constructor; [|constructor].
      apply one_sided_shape;
        [eapply build_signal_row_length; eauto | apply build_empty_row_length].
  - destruct (Message.signals n) as [|kv sigs].
    + injection H as <-. constructor; [|constructor].
      apply one_sided_shape;
        [apply build_empty_row_length | apply build_empty_msg_row_length].
    + revert H. apply concat_mapM_Forall. intros x ys _ Hy. inv_bind Hy. subst ys.
      constructor; [|constructor].
      apply one_sided_shape;
        [apply build_empty_row_length | eapply build_signal_row_length; eauto].
  - injection H as <-. constructor.
Qed.

(** X8. Every tuple the row-level view returns has two rows of 37 cells;
    its changed columns are either all 37 or exactly the columns whose two
    cells differ, compared as they stand; and its flag is set exactly when
    some column is changed. *)
Theorem compare_dbc_files_row_shape (old_db new_db : DBCDatabase.t)
  (rows : list row_tuple) :
  compare_dbc_files old_db new_db = Ok rows -> Forall row_shape rows.
Proof.
  unfold compare_dbc_files. apply concat_mapM_Forall.
  intros id ys _. apply compare_message_shape.
Qed.

(* ================================================================== *)
(** ** The signal changes of the summary in the rows *)

Lemma py_ne_str_or_none (a b : string) :
  py_ne (str_or_none a) (str_or_none b) = negb (String.eqb a b).
Proof. destruct a, b; reflexivity. Qed.

Lemma py_ne_VStr_None (a : string) : py_ne (VStr a) VNone = true.
Proof. reflexivity. Qed.

Lemma py_ne_None_VStr (a : string) : py_ne VNone (VStr a) = true.
Proof. reflexivity. Qed.

Ltac some_cell :=
  repeat first [reflexivity | rewrite orb_true_r | rewrite orb_true_l].

(** Two signal rows differ in some cell when a summary field differs. *)
Lemma signal_rows_differ (o n : Message.t) (s t : Signal.t) (r1 r2 : list pyval) :
  build_signal_row o s = Ok r1 -> build_signal_row n t = Ok r2 ->
  sig_summary_differs s t = true -> rows_differ r1 r2 = true.
Proof.
  unfold build_signal_row. cbv zeta. intros H1 H2 H. inv_bind H1. inv_bind H2.
  subst r1 r2. unfold rows_differ. cbn [combine existsb fst snd].
  rewrite !py_ne_str_or_none, !py_ne_VInt, !py_ne_VStr. unfold py_ne.
  rewrite (format_number_eq _ _ _ _ Ha Ha3), (format_number_eq _ _ _ _ Ha1 Ha5),
          (format_number_eq _ _ _ _ Ha2 Ha6).
  unfold Signal.natural_start_bit.
  unfold sig_summary_differs in H.
  repeat (apply orb_true_iff in H; destruct H as [H|H]); rewrite H; some_cell.
Qed.

(** A signal row and the row of a message without that signal differ. *)
Lemma signal_row_differs_from_empty (o n : Message.t) (s : Signal.t) (r1 : list pyval) :
  build_signal_row o s = Ok r1 ->
  rows_differ r1 (build_empty_msg_row n) = true /\
  rows_differ (build_empty_msg_row n) r1 = true.
Proof.
  unfold build_signal_row. cbv zeta. intros H1. inv_bind H1. subst r1.
  unfold rows_differ, build_empty_msg_row, msg_part, NUM_SIG_COLS.
  cbn [app repeat combine existsb fst snd].
  rewrite (py_ne_VStr_None (Signal.display_name s)),
          (py_ne_None_VStr (Signal.display_name s)).
  split; some_cell.
Qed.

(** The flag of a comparison of two built rows that differ is set. *)
Lemma check_row_diff_flag (r1 r2 : list pyval) (d : bool * list nat) :
  Forall stable r1 -> Forall stable r2 ->
  List.length r1 = NUM_COLS_PER_SIDE -> List.length r2 = NUM_COLS_PER_SIDE ->
  check_row_diff r1 r2 = Ok d -> rows_differ r1 r2 = true -> fst d = true.
Proof.
  intros S1 S2 L1 L2 H Hd. unfold check_row_diff in H. apply bind_Ok in H.
  destruct H as (cols & Hc & H). injection H as <-. cbn [fst].
  assert (Hne : cols <> []).
  { apply (diff_indices_rows_differ r1 r2 cols S1 S2); [congruence | exact Hc | exact Hd]. }
  destruct cols; [congruence | reflexivity].
Qed.

(** The rows of a signal name of a message of both databases are among
    the rows of the view. *)
Lemma compare_signal_rows (old_db new_db : DBCDatabase.t) (rows : list row_tuple)
  (id : Z) (o n : Message.t) (name : string) :
  compare_dbc_files old_db new_db = Ok rows ->
  get_message id old_db = Some o -> get_message id new_db = Some n ->
  In name (all_sig_names o n) ->
  exists zs, compare_signal o n name = Ok zs /\ incl zs rows.
Proof.
  unfold compare_dbc_files. intros H Eo En Hin.
  assert (Hid : In id (all_msg_ids old_db new_db)).
  { apply all_msg_ids_In. left. eapply get_message_key. exact Eo. }
  destruct (concat_mapM_Ok_In _ _ _ id H Hid) as (ys & Hy & Hi).
  unfold compare_message in Hy. rewrite Eo, En in Hy.
  destruct (all_sig_names o n) as [|k names]; [destruct Hin|].
  destruct (concat_mapM_Ok_In _ _ _ name Hy Hin) as (zs & Hz & Hi').
  exists zs. split; [exact Hz|]. eapply incl_tran; eassumption.
Qed.

Lemma get_signal_name_In (name : string) (m : Message.t) (s : Signal.t) :
  get_signal name m = Some s -> In name (od_keys (Message.signals m)).
Proof. intros H. apply od_get_str_In in H. apply (in_map fst) in H. exact H. Qed.

Lemma modified_signal_row (old_db new_db : DBCDatabase.t) (rows : list row_tuple)
  (id : Z) (o n : Message.t) (name : string) (s t : Signal.t) :
  compare_dbc_files old_db new_db = Ok rows ->
  get_message id old_db = Some o -> get_message id new_db = Some n ->
  get_signal name o = Some s -> get_signal name n = Some t ->
  sig_diffs_of o n s t <> [] ->
  exists row, In row rows /\ build_signal_row o s = Ok (old_row row) /\
              build_signal_row n t = Ok (new_row row) /\ has_diff row = true.
Proof.
  intros H Eo En Es Et Hd.
  destruct (compare_signal_rows _ _ _ id o n name H Eo En) as (zs & Hz & Hi).
  { apply all_sig_names_In. left. eapply get_signal_name_In. exact Es. }
  unfold compare_signal in Hz. rewrite Es, Et in Hz. inv_bind Hz. subst zs.
  eexists. split; [apply Hi; left; reflexivity|]. cbn [old_row new_row has_diff].
  split; [exact Ha|]. split; [exact Ha0|].
  pose proof (build_signal_row_Ok _ _ _ Ha) as Fs.
  pose proof (build_signal_row_Ok _ _ _ Ha0) as Ft.
  apply (check_row_diff_flag a a0);
    eauto using build_signal_row_stable, build_signal_row_length.
  apply (signal_rows_differ o n s t); try assumption.
  apply (sig_diffs_of_differs o n s t Fs Ft). exact Hd.
Qed.

Lemma removed_signal_row (old_db new_db : DBCDatabase.t) (rows : list row_tuple)
  (id : Z) (m : Message.t) (s : Signal.t) :
  compare_dbc_files old_db new_db = Ok rows ->
  In (m, s) (removed_signals (msg_delta old_db new_db id)) ->
  exists row, In row rows /\ build_signal_row m s = Ok (old_row row) /\
              has_diff row = true.
Proof.
  intros H Hin. unfold msg_delta in Hin.
  destruct (get_message id old_db) as [o|] eqn:Eo;
    destruct (get_message id new_db) as [n|] eqn:En.
  - rewrite fold_changes_removed_signals, flat_map_map in Hin.
    assert (Hin' : In (m, s) (flat_map (fun k => removed_signals (sig_delta o n k))
                                       (all_sig_names o n)))
      by (destruct (msg_diffs_of o n); exact Hin).
    clear Hin. rename Hin' into Hin. apply in_flat_map in Hin.
    destruct Hin as (name & Hname & Hin). rewrite sig_delta_removed_signals in Hin.
    destruct (get_signal name o) as [s'|] eqn:Es; [|destruct Hin].
    destruct (get_signal name n) as [t'|] eqn:Et; [destruct Hin|].
    destruct Hin as [Hin|[]]. injection Hin as <- <-.
    destruct (compare_signal_rows _ _ _ id o n name H Eo En Hname) as (zs & Hz & Hi).
    unfold compare_signal in Hz. rewrite Es, Et in Hz. inv_bind Hz. subst zs.
    eexists. split; [apply Hi; left; reflexivity|]. cbn [old_row has_diff].
    split; [exact Ha|].
    apply (check_row_diff_flag a (build_empty_msg_row n));
      eauto using build_signal_row_stable, build_signal_row_length,
                  build_empty_msg_row_stable, build_empty_msg_row_length.
    apply (signal_row_differs_from_empty o n s' a Ha).
  - cbn [add_removed_signals add_removed_messages removed_signals no_changes app] in Hin.
    apply in_map_iff in Hin. destruct Hin as (s' & E & Hs). injection E as <- <-.
    apply in_map_iff in Hs. destruct Hs as ([k s0] & E & Hkv). cbn [snd] in E. subst s0.
    unfold compare_dbc_files in H.
    assert (Hid : In id (all_msg_ids old_db new_db)).
    { apply all_msg_ids_In. left. eapply get_message_key. exact Eo. }
    destruct (concat_mapM_Ok_In _ _ _ id H Hid) as (ys & Hy & Hi).
    unfold compare_message in Hy. rewrite Eo, En in Hy.
    destruct (Message.signals o) as [|kv sigs] eqn:E; [destruct Hkv|].
    destruct (concat_mapM_Ok_In _ _ _ (k, s') Hy Hkv) as (zs & Hz & Hi').
    cbn [snd] in Hz. inv_bind Hz. subst zs.
    eexists. split; [apply Hi, Hi'; left; reflexivity|]. cbn [old_row has_diff].
    split; [exact Ha | reflexivity].
  - destruct Hin.
  - destruct Hin.
Qed.

Lemma added_signal_row (old_db new_db : DBCDatabase.t) (rows : list row_tuple)
  (id : Z) (m : Message.t) (s : Signal.t) :
  compare_dbc_files old_db new_db = Ok rows ->
  In (m, s) (new_signals (msg_delta old_db new_db id)) ->
  exists row, In row rows /\ build_signal_row m s = Ok (new_row row) /\
              has_diff row = true.
Proof.
  intros H Hin. unfold msg_delta in Hin.
  destruct (get_message id old_db) as [o|] eqn:Eo;
    destruct (get_message id new_db) as [n|] eqn:En.
  - rewrite fold_changes_new_signals, flat_map_map in Hin.
    assert (Hin' : In (m, s) (flat_map (fun k => new_signals (sig_delta o n k))
                                       (all_sig_names o n)))
      by (destruct (msg_diffs_of o n); exact Hin).
    clear Hin. rename Hin' into Hin. apply in_flat_map in Hin.
    destruct Hin as (name & Hname & Hin). rewrite sig_delta_new_signals in Hin.
    destruct (get_signal name o) as [s'|] eqn:Es; [destruct Hin|].
    destruct (get_signal name n) as [t'|] eqn:Et; [|destruct Hin].
    destruct Hin as [Hin|[]]. injection Hin as <- <-.
    destruct (compare_signal_rows _ _ _ id o n name H Eo En Hname) as (zs & Hz & Hi).
    unfold compare_signal in Hz. rewrite Es, Et in Hz. inv_bind Hz. subst zs.
    eexists. split; [apply Hi; left; reflexivity|]. cbn [new_row has_diff].
    split; [exact Ha|].
    apply (check_row_diff_flag (build_empty_msg_row o) a);
      eauto using build_signal_row_stable, build_signal_row_length,
                  build_empty_msg_row_stable, build_empty_msg_row_length.
    apply (signal_row_differs_from_empty n o t' a Ha).
  - destruct Hin.
  - cbn [add_new_signals add_new_messages new_signals no_changes app] in Hin.
    apply in_map_iff in Hin. destruct Hin as (s' & E & Hs). injection E as <- <-.
    apply in_map_iff in Hs. destruct Hs as ([k s0] & E & Hkv). cbn [snd] in E. subst s0.
    unfold compare_dbc_files in H.
    assert (Hid : In id (all_msg_ids old_db new_db)).
    { apply all_msg_ids_In. right. eapply get_message_key. exact En. }
    destruct (concat_mapM_Ok_In _ _ _ id H Hid) as (ys & Hy & Hi).
    unfold compare_message in Hy. rewrite Eo, En in Hy.
    destruct (Message.signals n) as [|kv sigs] eqn:E; [destruct Hkv|].
    destruct (concat_mapM_Ok_In _ _ _ (k, s') Hy Hkv) as (zs & Hz & Hi').
    cbn [snd] in Hz. inv_bind Hz. subst zs.
    eexists. split; [apply Hi, Hi'; left; reflexivity|]. cbn [new_row has_diff].
    split; [exact Ha | reflexivity].
  - destruct Hin.
Qed.

(** X9. Every signal change of the summary shows in the row-level view:
    when both views return, a modified signal pair has a flagged tuple
    holding the rows of its two versions, a removed signal a flagged tuple
    with its row on the old side, and an added signal a flagged tuple with
    its row on the new side. *)
Theorem signal_changes_have_flagged_rows (old_db new_db : DBCDatabase.t)
  (r : changes) (rows : list row_tuple) :
  categorize_changes old_db new_db = Ok r ->
  compare_dbc_files old_db new_db = Ok rows ->
  (forall o n s t d,
      In (o, n, s, t, d) (modified_signals r) ->
      exists row, In row rows /\ build_signal_row o s = Ok (old_row row) /\
                  build_signal_row n t = Ok (new_row row) /\ has_diff row = true) /\
  (forall m s,
      In (m, s) (removed_signals r) ->
      exists row, In row rows /\ build_signal_row m s = Ok (old_row row) /\
                  has_diff row = true) /\
  (forall m s,
      In (m, s) (new_signals r) ->
      exists row, In row rows /\ build_signal_row m s = Ok (new_row row) /\
                  has_diff row = true).
Proof.
  intros Hr Hrows. apply categorize_changes_Ok_inv in Hr. destruct Hr as [_ ->].
  rewrite fold_changes_modified_signals, fold_changes_removed_signals,
          fold_changes_new_signals, !flat_map_map.
  cbn [modified_signals removed_signals new_signals no_changes app].
  split; [|split].
  - intros o n s t d Hin. apply in_flat_map in Hin. destruct Hin as (id & _ & Hin).
    rewrite msg_delta_modified_signals in Hin.
    destruct (get_message id old_db) as [o'|] eqn:Eo; [|destruct Hin].
    destruct (get_message id new_db) as [n'|] eqn:En; [|destruct Hin].
    apply in_flat_map in Hin. destruct Hin as (k & _ & Hin).
    rewrite sig_delta_modified_signals in Hin.
    destruct (get_signal k o') as [s'|] eqn:Es; [|destruct Hin].
    destruct (get_signal k n') as [t'|] eqn:Et; [|destruct Hin].
    destruct (sig_diffs_of o' n' s' t') as [|x l] eqn:E; [destruct Hin|].
    destruct Hin as [Hin|[]]. injection Hin as <- <- <- <- _.
    apply (modified_signal_row _ _ _ id o' n' k s' t' Hrows Eo En Es Et).
    rewrite E. discriminate.
  - intros m s Hin. apply in_flat_map in Hin. destruct Hin as (id & _ & Hin).
    apply (removed_signal_row _ _ _ id m s Hrows Hin).
  - intros m s Hin. apply in_flat_map in Hin. destruct Hin as (id & _ & Hin).
    apply (added_signal_row _ _ _ id m s Hrows Hin).
Qed.

(* ================================================================== *)
(** ** Exchanging the two files *)

Lemma py_eq_sym (a b : pyval) : py_eq a b = py_eq b a.
Proof.
  destruct a, b; simpl; try reflexivity;
    [apply Z.eqb_sym | apply float_eqb_sym | apply String.eqb_sym].
Qed.

Lemma py_ne_sym (a b : pyval) : py_ne a b = py_ne b a.
Proof. unfold py_ne. rewrite py_eq_sym. reflexivity. Qed.

(** The comparison of two built rows does not depend on their order. *)
Lemma check_row_diff_sym (r1 r2 : list pyval) :
  Forall stable r1 -> Forall stable r2 ->
  List.length r1 = NUM_COLS_PER_SIDE -> List.length r2 = NUM_COLS_PER_SIDE ->
  check_row_diff r2 r1 = check_row_diff r1 r2.
Proof.
  intros S1 S2 L1 L2. unfold check_row_diff.
  rewrite !diff_indices_stable; try assumption.
  - rewrite L1, L2. cbn [bind].
    rewrite (filter_ext (fun i => py_ne (nth i r2 VNone) (nth i r1 VNone))
                        (fun i => py_ne (nth i r1 VNone) (nth i r2 VNone)));
      [reflexivity | intros i; apply py_ne_sym].
  - apply Forall_forall. intros i Hi. apply in_seq in Hi. lia.
  - apply Forall_forall. intros i Hi. apply in_seq in Hi. lia.
Qed.

Lemma compare_signal_swap (o n : Message.t) (name : string) (zs : list row_tuple) :
  compare_signal o n name = Ok zs -> compare_signal n o name = Ok (map swap_sides zs).
Proof.
  unfold compare_signal.
  destruct (get_signal name o) as [s|]; destruct (get_signal name n) as [t|]; intros H.
  - inv_bind H. subst zs. rewrite Ha0, Ha. cbn [bind].
    rewrite (check_row_diff_sym a a0), Ha1;
      eauto using build_signal_row_stable, build_signal_row_length.
  - inv_bind H. subst zs. rewrite Ha. cbn [bind].
    rewrite (check_row_diff_sym a (build_empty_msg_row n)), Ha0;
      eauto using build_signal_row_stable, build_signal_row_length,
                  build_empty_msg_row_stable, build_empty_msg_row_length.
  - inv_bind H. subst zs. rewrite Ha. cbn [bind].
    rewrite (check_row_diff_sym (build_empty_msg_row o) a), Ha0;
      eauto using build_signal_row_stable, build_signal_row_length,
                  build_empty_msg_row_stable, build_empty_msg_row_length.
  - injection H as <-. reflexivity.
Qed.

Lemma concat_mapM_map {A B : Type} (h : B -> B) (f g : A -> result (list B))
  (l : list A) (r : list B) :
  (forall x ys, f x = Ok ys -> g x = Ok (map h ys)) ->
  concat_mapM f l = Ok r -> concat_mapM g l = Ok (map h r).
Proof.
  intros Hfg. revert r. induction l as [|a l IH]; intros r H.
  - injection H as <-. reflexivity.
  - cbn [concat_mapM] in *. apply bind_Ok in H. destruct H as (ys & Hy & H).
    apply bind_Ok in H. destruct H as (zs & Hz & H). injection H as <-.
    rewrite (Hfg _ _ Hy), (IH _ Hz). cbn [bind]. rewrite map_app. reflexivity.
Qed.

(** The rows of a permuted list are the rows permuted. *)
Lemma concat_mapM_perm {A B : Type} (f : A -> result (list B)) (l l' : list A)
  (r : list B) :
  Permutation l l' -> concat_mapM f l = Ok r ->
  exists r', concat_mapM f l' = Ok r' /\ Permutation r r'.
Proof.
  intros Hp. revert r. induction Hp as [|a l l' Hp IH|a b l|l l' l'' Hp1 IH1 Hp2 IH2];
    intros r H.
  - exists r. split; [exact H | apply Permutation_refl].
  - cbn [concat_mapM] in *. apply bind_Ok in H. destruct H as (ys & Hy & H).
    apply bind_Ok in H. destruct H as (zs & Hz & H). injection H as <-.
    destruct (IH _ Hz) as (zs' & Hz' & Hperm). rewrite Hy, Hz'. cbn [bind].
    eexists. split; [reflexivity|]. apply Permutation_app_head. exact Hperm.
  - cbn [concat_mapM] in *. apply bind_Ok in H. destruct H as (ys & Hy & H).
    apply bind_Ok in H. destruct H as (ws & Hw & H). injection H as <-.
    apply bind_Ok in Hw. destruct Hw as (zs & Hz & Hw).
    apply bind_Ok in Hw. destruct Hw as (rest & Hrest & Hw). injection Hw as <-.
    rewrite Hz, Hy, Hrest. cbn [bind]. eexists. split; [reflexivity|].
    rewrite !app_assoc. apply Permutation_app_tail. apply Permutation_app_comm.
  - destruct (IH1 _ H) as (r1 & H1 & P1). destruct (IH2 _ H1) as (r2 & H2 & P2).
    exists r2. split; [exact H2|]. eapply Permutation_trans; eassumption.
Qed.

Lemma concat_mapM_pointwise {A B : Type} (h : B -> B) (f g : A -> result (list B))
  (l : list A) (r : list B) :
  (forall x ys, f x = Ok ys -> exists ys', g x = Ok ys' /\ Permutation (map h ys) ys') ->
  concat_mapM f l = Ok r ->
  exists r', concat_mapM g l = Ok r' /\ Permutation (map h r) r'.
Proof.
  intros Hfg. revert r. induction l as [|a l IH]; intros r H.
  - injection H as <-. exists []. split; [reflexivity | constructor].
  - cbn [concat_mapM] in *. apply bind_Ok in H. destruct H as (ys & Hy & H).
    apply bind_Ok in H. destruct H as (zs & Hz & H). injection H as <-.
    destruct (Hfg _ _ Hy) as (ys' & Hy' & Py). destruct (IH _ Hz) as (zs' & Hz' & Pz).
    rewrite Hy', Hz'. cbn [bind]. eexists. split; [reflexivity|].
    rewrite map_app. apply Permutation_app; assumption.
Qed.

Lemma fromkeys_aux_NoDup (seen l : list string) :
  NoDup (fromkeys_aux String.eqb seen l) /\
  forall k, In k (fromkeys_aux String.eqb seen l) -> ~ In k seen.
Proof.
  revert seen. induction l as [|k l IH]; intros seen; simpl.
  - split; [constructor | intros k []].
  - destruct (existsb (String.eqb k) seen) eqn:E; [apply IH|].
    destruct (IH (k :: seen)) as [Hn Hd]. split.
    + constructor; [|exact Hn]. intros Hin. apply (Hd k Hin). left. reflexivity.
    + intros x [<-|Hx].
      * intros Hin. apply existsb_eqb_In in Hin. congruence.
      * intros Hin. apply (Hd x Hx). right. exact Hin.
Qed.

Lemma all_sig_names_NoDup (o n : Message.t) : NoDup (all_sig_names o n).
Proof. apply fromkeys_aux_NoDup. Qed.

Lemma all_sig_names_perm (o n : Message.t) :
  Permutation (all_sig_names o n) (all_sig_names n o).
Proof.
  apply NoDup_Permutation; try apply all_sig_names_NoDup.
  intros k. rewrite !all_sig_names_In. tauto.
Qed.

Lemma compare_message_swap (old_db new_db : DBCDatabase.t) (id : Z)
  (ys : list row_tuple) :
  compare_message old_db new_db id = Ok ys ->
  exists ys', compare_message new_db old_db id = Ok ys' /\
              Permutation (map swap_sides ys) ys'.
Proof.
  unfold compare_message.
  destruct (get_message id old_db) as [o|]; destruct (get_message id new_db) as [n|];
    intros H.
  - pose proof (all_sig_names_perm o n) as Hp.
    destruct (all_sig_names o n) as [|k names] eqn:E.
    + apply Permutation_nil in Hp. rewrite Hp. inv_bind H. subst ys.
      rewrite (check_row_diff_sym (build_empty_msg_row o) (build_empty_msg_row n)), Ha;
        eauto using build_empty_msg_row_stable, build_empty_msg_row_length.
      cbn [bind]. eexists. split; [reflexivity | apply Permutation_refl].
    + apply (concat_mapM_map swap_sides _ (compare_signal n o)) in H;
        [|intros x zs; apply compare_signal_swap].
      destruct (concat_mapM_perm _ _ _ _ Hp H) as (ys' & Hy & Py).
      exists ys'. split; [|exact Py].
      destruct (all_sig_names n o) as [|k' names'] eqn:E'; [|exact Hy].
      apply Permutation_sym, Permutation_nil in Hp. discriminate Hp.
  - destruct (Message.signals o) as [|kv sigs].
    + injection H as <-. eexists. split; [reflexivity | apply Permutation_refl].
    + eexists. split; [|apply Permutation_refl].
      revert H. apply concat_mapM_map. intros x zs Hz. inv_bind Hz. subst zs.
      rewrite Ha. reflexivity.
  - destruct (Message.signals n) as [|kv sigs].
    + injection H as <-. eexists. split; [reflexivity | apply Permutation_refl].
    + eexists. split; [|apply Permutation_refl].
      revert H. apply concat_mapM_map. intros x zs Hz. inv_bind Hz. subst zs.
      rewrite Ha. reflexivity.
  - injection H as <-. exists []. split; [reflexivity | constructor].
Qed.

(** X10. When the row-level view of two databases returns, so does the
    view of the two in the other order, and its tuples are the same tuples
    with their sides exchanged: the same flags and the same changed
    columns, up to the order of the rows. *)
Theorem compare_dbc_files_exchanged (old_db new_db : DBCDatabase.t)
  (rows : list row_tuple) :
  compare_dbc_files old_db new_db = Ok rows ->
  exists rows', compare_dbc_files new_db old_db = Ok rows' /\
                Permutation (map swap_sides rows) rows'.
Proof.
  unfold compare_dbc_files. rewrite (all_msg_ids_sym new_db old_db).
  apply concat_mapM_pointwise. intros id ys. apply compare_message_swap.
Qed.

(* ================================================================== *)
(** ** The bounds of [check_row_diff] *)

(** The differing indices are taken from the given ones, in their order,
    and every given index is within both rows. *)
Lemma diff_indices_sub (old new : list pyval) (idx cols : list nat) :
  diff_indices old new idx = Ok cols ->
  Forall (fun i => (i < List.length old)%nat /\ (i < List.length new)%nat) idx /\
  (forall P : nat -> Prop, Forall P idx -> Forall P cols) /\
  (forall R : nat -> nat -> Prop, StronglySorted R idx -> StronglySorted R cols).
Proof.
  revert cols. induction idx as [|j idx IH]; intros cols H.
  - injection H as <-. repeat split; auto.
  - cbn [diff_indices] in H.
    apply bind_Ok in H. destruct H as (a & Ha & H).
    apply bind_Ok in H. destruct H as (na & Hna & H).
    apply bind_Ok in H. destruct H as (b & Hb & H).
    apply bind_Ok in H. destruct H as (nb & Hnb & H).
    apply bind_Ok in H. destruct H as (rest & Hrest & H). injection H as <-.
    destruct (IH _ Hrest) as (Hf & HP & HR). split; [|split].
    + constructor; [|exact Hf]. unfold py_index in Ha, Hb.
      destruct (nth_error old j) eqn:E1; [|discriminate Ha].
      destruct (nth_error new j) eqn:E2; [|discriminate Hb].
      split; apply nth_error_Some; congruence.
    + intros P HPi. inversion HPi as [|? ? Pj Pidx]; subst.
      destruct (py_ne na nb); [constructor; auto | auto].
    + intros R HRi. inversion HRi as [|? ? Sidx Fj]; subst.
      destruct (py_ne na nb); [constructor; auto | auto].
Qed.

Lemma seq_sorted (a n : nat) : StronglySorted lt (seq a n).
Proof.
  revert a. induction n as [|n IH]; intros a; simpl; constructor; [apply IH|].
  apply Forall_forall. intros i Hi. apply in_seq in Hi. lia.
Qed.

Lemma diff_indices_short (old new : list pyval) (k : nat) :
  Forall stable old -> Forall stable new ->
  (List.length new < List.length old)%nat -> (k <= List.length new)%nat ->
  diff_indices old new (seq (List.length new - k) (List.length old - (List.length new - k))) =
  Raise IndexError.
Proof.
  intros So Sn Hlt. induction k as [|k IH]; intros Hk.
  - rewrite Nat.sub_0_r.
    destruct (List.length old - List.length new)%nat as [|d] eqn:E; [lia|].
    cbn [seq diff_indices]. unfold py_index.
    destruct (nth_error old (List.length new)) as [a|] eqn:E1;
      [|apply nth_error_None in E1; lia].
    rewrite Forall_forall in So. destruct (So a (nth_error_In _ _ E1)) as [Na _].
    cbn [bind]. rewrite Na. cbn [bind].
    destruct (nth_error new (List.length new)) as [b|] eqn:E2; [|reflexivity].
    assert (nth_error new (List.length new) <> None) by congruence.
    apply nth_error_Some in H. lia.
  - replace (List.length old - (List.length new - S k))%nat
      with (S (List.length old - (List.length new - k)))%nat by lia.
    cbn [seq diff_indices].
    replace (S (List.length new - S k))%nat with (List.length new - k)%nat by lia.
    rewrite IH by lia. unfold py_index.
    destruct (nth_error old (List.length new - S k)) as [a|] eqn:E1;
      [|apply nth_error_None in E1; lia].
    destruct (nth_error new (List.length new - S k)) as [b|] eqn:E2;
      [|apply nth_error_None in E2; lia].
    rewrite Forall_forall in So, Sn.
    destruct (So a (nth_error_In _ _ E1)) as [Na _].
    destruct (Sn b (nth_error_In _ _ E2)) as [Nb _].
    cbn [bind]. rewrite Na. cbn [bind]. rewrite Nb. reflexivity.
Qed.

(** X11. When [check_row_diff] returns, the new row is at least as long as
    the old one, the changed columns are columns of the old row in
    ascending order, and the flag is set exactly when there is one; cells
    of the new row beyond the old one are not looked at.  On a new row
    shorter than the old one, with cells that need no normalization, it
    raises [IndexError]. *)
Theorem check_row_diff_bounds (old new : list pyval) :
  (forall b cols,
      check_row_diff old new = Ok (b, cols) ->
      (List.length old <= List.length new)%nat /\
      Forall (fun i => (i < List.length old)%nat) cols /\
      StronglySorted lt cols /\
      (b = true <-> cols <> []) /\
      forall extra, check_row_diff old (new ++ extra) = Ok (b, cols)) /\
  (Forall stable old -> Forall stable new ->
   (List.length new < List.length old)%nat ->
   check_row_diff old new = Raise IndexError).
Proof.
  split.
  - intros b cols H. unfold check_row_diff in H. apply bind_Ok in H.
    destruct H as (d & Hd & H). injection H as <- <-.
    destruct (diff_indices_sub _ _ _ _ Hd) as (Hf & HP & HR).
    split; [|split; [|split; [|split]]].
    + destruct (List.length old) as [|k] eqn:E; [lia|].
      rewrite Forall_forall in Hf. destruct (Hf k) as [_ Hk]; [|lia].
      apply in_seq. lia.
    + apply HP. apply seq_bounded.
    + apply HR. apply seq_sorted.
    + destruct d; cbn [List.length Nat.ltb Nat.leb]; split; intros H;
        [discriminate H | exfalso; apply H; reflexivity | discriminate | reflexivity].
    + intros extra. unfold check_row_diff.
      assert (E : diff_indices old (new ++ extra) (seq 0 (List.length old)) = Ok d).
      { clear HP HR. revert d Hd Hf. generalize (seq 0 (List.length old)).
        intros idx. induction idx as [|j idx IH]; intros d Hd Hf; [exact Hd|].
        cbn [diff_indices] in *.
        inversion Hf as [|? ? [_ Hj] Hrest]; subst.
        apply bind_Ok in Hd. destruct Hd as (a & Ha & Hd).
        apply bind_Ok in Hd. destruct Hd as (na & Hna & Hd).
        apply bind_Ok in Hd. destruct Hd as (b & Hb & Hd).
        apply bind_Ok in Hd. destruct Hd as (nb & Hnb & Hd).
        apply bind_Ok in Hd. destruct Hd as (rest & Hr & Hd).
        rewrite Ha. cbn [bind]. rewrite Hna. cbn [bind].
        unfold py_index in *. rewrite nth_error_app1 by exact Hj.
        rewrite Hb. cbn [bind]. rewrite Hnb. cbn [bind].
        rewrite (IH _ Hr Hrest). exact Hd. }
      rewrite E. reflexivity.
  - intros So Sn Hlt. unfold check_row_diff.
    pose proof (diff_indices_short old new (List.length new) So Sn Hlt (le_n _)) as H.
    rewrite Nat.sub_diag, Nat.sub_0_r in H. rewrite H. reflexivity.
Qed.

(* ================================================================== *)
(** ** The order of the signal rows *)

Lemma fromkeys_aux_filter (seen l : list string) :
  NoDup l ->
  fromkeys_aux String.eqb seen l =
  filter (fun k => negb (existsb (String.eqb k) seen)) l.
Proof.
  revert seen. induction l as [|k l IH]; intros seen Hnd; [reflexivity|].
  inversion Hnd as [|? ? Hk Hl]; subst. cbn [fromkeys_aux filter].
  destruct (existsb (String.eqb k) seen) eqn:E; cbn [negb]; [apply IH; exact Hl|].
  f_equal. rewrite (IH _ Hl). apply filter_ext_in. intros x Hx. cbn [existsb].
  destruct (String.eqb_spec x k) as [->|Hne]; [contradiction | reflexivity].
Qed.

(** X12. The signal names of a message of both databases are visited in
    this order: the names of the old message in its order, then the names
    that only the new message has, in its order; no name is visited
    twice. *)
Theorem all_sig_names_order (old_msg new_msg : Message.t) :
  NoDup (od_keys (Message.signals old_msg)) ->
  NoDup (od_keys (Message.signals new_msg)) ->
  all_sig_names old_msg new_msg =
  od_keys (Message.signals old_msg) ++
  filter (fun k => negb (od_mem String.eqb k (Message.signals old_msg)))
         (od_keys (Message.signals new_msg)) /\
  NoDup (all_sig_names old_msg new_msg).
Proof.
  intros Ho Hn. split; [|apply all_sig_names_NoDup].
  unfold all_sig_names, fromkeys. rewrite fromkeys_aux_app, app_nil_r.
  rewrite (fromkeys_aux_filter [] _ Ho), (fromkeys_aux_filter _ _ Hn). f_equal.
  - clear Ho. induction (od_keys (Message.signals old_msg)) as [|k l IH];
      [reflexivity|]. cbn [filter existsb negb]. f_equal. exact IH.
  - apply filter_ext. intros k. f_equal. symmetry. apply od_mem_keys_str.
Qed.

(* ================================================================== *)
(** ** The receivers of a message *)

Lemma ascii_compare_refl (a : ascii) : Ascii.compare a a = Eq.
Proof. unfold Ascii.compare. apply N.compare_refl. Qed.

Lemma ascii_lt_trans (a b c : ascii) :
  Ascii.compare a b = Lt -> Ascii.compare b c = Lt -> Ascii.compare a c = Lt.
Proof.
  unfold Ascii.compare. rewrite !N.compare_lt_iff. apply N.lt_trans.
Qed.

Lemma str_compare_refl (a : string) : String.compare a a = Eq.
Proof.
  induction a as [|x a IH]; simpl; [reflexivity|].
  rewrite ascii_compare_refl. exact IH.
Qed.

Lemma str_lt_trans (a b c : string) : str_lt a b -> str_lt b c -> str_lt a c.
Proof.
  unfold str_lt. revert b c.
  induction a as [|x a IH]; intros [|y b] [|z c]; simpl; try discriminate; auto.
  destruct (Ascii.compare x y) eqn:Exy; try discriminate.
  - apply Ascii.compare_eq_iff in Exy. subst y.
    destruct (Ascii.compare x z) eqn:Exz; try discriminate; auto. apply IH.
  - intros _. destruct (Ascii.compare y z) eqn:Eyz; try discriminate.
    + apply Ascii.compare_eq_iff in Eyz. subst z. rewrite Exy. reflexivity.
    + rewrite (ascii_lt_trans _ _ _ Exy Eyz). reflexivity.
Qed.

Lemma str_lt_irrefl (a : string) : ~ str_lt a a.
Proof. unfold str_lt. rewrite str_compare_refl. discriminate. Qed.

Lemma str_gt_lt (a b : string) : String.compare a b = Gt -> str_lt b a.
Proof.
  unfold str_lt. rewrite (String.compare_antisym b a). intros ->. reflexivity.
Qed.

Lemma insert_uniq_str_In (x y : string) (l : list string) :
  In y (insert_uniq String.compare x l) <-> y = x \/ In y l.
Proof.
  induction l as [|z l IH]; simpl; [intuition|].
  destruct (String.compare x z) eqn:E; simpl.
  - apply String.compare_eq_iff in E. subst z. intuition.
  - intuition.
  - rewrite IH. intuition.
Qed.

Lemma sorted_set_str_In (y : string) (l : list string) :
  In y (sorted_set String.compare l) <-> In y l.
Proof.
  induction l as [|x l IH]; simpl; [reflexivity|].
  rewrite insert_uniq_str_In, IH. intuition.
Qed.

Lemma insert_uniq_str_sorted (x : string) (l : list string) :
  StronglySorted str_lt l -> StronglySorted str_lt (insert_uniq String.compare x l).
Proof.
  induction l as [|z l IH]; intros Hs; simpl.
  - constructor; constructor.
  - inversion Hs as [|? ? Hl Hz]; subst.
    destruct (String.compare x z) eqn:E.
    + exact Hs.
    + constructor; [exact Hs|]. constructor; [exact E|].
      rewrite Forall_forall in *. intros y Hy.
      apply (str_lt_trans _ z); [exact E | apply Hz; exact Hy].
    + constructor; [apply IH; exact Hl|].
      rewrite Forall_forall in *. intros y Hy.
      apply insert_uniq_str_In in Hy.
      destruct Hy as [->|Hy]; [apply str_gt_lt; exact E | apply Hz; exact Hy].
Qed.

Lemma sorted_set_str_sorted (l : list string) :
  StronglySorted str_lt (sorted_set String.compare l).
Proof.
  induction l as [|x l IH]; simpl; [constructor | apply insert_uniq_str_sorted; exact IH].
Qed.

(** Two strictly ascending lists of strings with the same elements are
    the same list. *)
Lemma sorted_str_unique (l1 l2 : list string) :
  StronglySorted str_lt l1 -> StronglySorted str_lt l2 ->
  (forall x, In x l1 <-> In x l2) -> l1 = l2.
Proof.
  revert l2. induction l1 as [|a l1 IH]; intros l2 H1 H2 Hin.
  - destruct l2 as [|b l2]; [reflexivity|].
    exfalso. apply (proj2 (Hin b)). left. reflexivity.
  - destruct l2 as [|b l2].
    + exfalso. apply (proj1 (Hin a)). left. reflexivity.
    + inversion H1 as [|? ? Hs1 Ha]; subst. inversion H2 as [|? ? Hs2 Hb]; subst.
      rewrite Forall_forall in Ha, Hb.
      assert (a = b).
      { destruct (proj1 (Hin a) (or_introl eq_refl)) as [E|Hab]; [congruence|].
        destruct (proj2 (Hin b) (or_introl eq_refl)) as [E|Hba]; [congruence|].
        exfalso. apply (str_lt_irrefl a).
        apply (str_lt_trans _ b); [apply Ha; exact Hba | apply Hb; exact Hab]. }
      subst b. f_equal. apply IH; [assumption | assumption |].
      intros x. split; intros Hx.
      * destruct (proj1 (Hin x) (or_intror Hx)) as [E|Hx']; [|exact Hx'].
        subst x. exfalso. apply (str_lt_irrefl a). apply Ha. exact Hx.
      * destruct (proj2 (Hin x) (or_intror Hx)) as [E|Hx']; [|exact Hx'].
        subst x. exfalso. apply (str_lt_irrefl a). apply Hb. exact Hx.
Qed.

(** X13. The receivers [get_msg_rx_ecus] joins are in strictly ascending
    order, hence without repetition, and they are the receivers of the
    signals of the message other than the empty text and the placeholder
    Vector__XXX.  Two messages with the same such receivers have the same
    text, whatever the order of their signals and of the receivers. *)
Theorem get_msg_rx_ecus_sorted (msg : Message.t) :
  (exists l, get_msg_rx_ecus msg = join ", " l /\
             StronglySorted str_lt l /\
             forall r, In r l <-> listed_receiver msg r) /\
  (forall msg', (forall r, listed_receiver msg r <-> listed_receiver msg' r) ->
                get_msg_rx_ecus msg = get_msg_rx_ecus msg').
Proof.
  assert (M : forall m r,
             In r (flat_map
                     (fun sig =>
                        filter (fun r => str_truthy r && negb (String.eqb r "Vector__XXX"))
                               (Signal.receivers sig))
                     (od_values (Message.signals m))) <-> listed_receiver m r).
  { intros m r. unfold listed_receiver. rewrite in_flat_map. split.
    - intros (sig & Hs & Hr). apply filter_In in Hr. destruct Hr as [Hr Hc].
      apply andb_true_iff in Hc. destruct Hc as [H1 H2].
      unfold str_truthy in H1. apply negb_true_iff in H1, H2.
      apply String.eqb_neq in H1, H2. eauto.
    - intros (H1 & H2 & sig & Hs & Hr). exists sig. split; [exact Hs|].
      apply filter_In. split; [exact Hr|]. apply andb_true_iff.
      unfold str_truthy. rewrite !negb_true_iff. split; apply String.eqb_neq; assumption. }
  split.
  - eexists. split; [reflexivity|]. split; [apply sorted_set_str_sorted|].
    intros r. rewrite sorted_set_str_In. apply M.
  - intros msg' H. unfold get_msg_rx_ecus. cbv zeta. f_equal.
    apply sorted_str_unique; try apply sorted_set_str_sorted.
    intros r. rewrite !sorted_set_str_In, !M. apply H.
Qed.

(* ================================================================== *)
(** ** Value tables *)

(** X14. The table text of a VAL_ record, its third group, stays on one
    line and holds no semicolon: the record ends at the first semicolon
    after the signal name, also when that semicolon is inside a quoted
    label. *)
Theorem val_record_ends_at_semicolon (content : string) (vm : rematch) :
  In vm (finditer val_pattern content) ->
  all_in (fun c => negb (is_newline c) && negb (Ascii.eqb c ";")) (group vm 3) = true.
Proof.
  intros H. apply finditer_In in H. destruct H as (s0 & rest & E).
  unfold val_pattern in E. cbn [items] in E.
  cbv [lit blanks blanks0 grp digits word plus list_ascii_of_string map app] in E.
  repeat rinv E. injection E as E _. unfold group.
  rewrite <- E. cbn [rev app nth Nat.pred String.append].
  rewrite all_in_and. apply andb_true_iff. split; [assumption|].
  apply all_in_split. intros u a v Ew.
  match goal with
  | Hmin : forall x y z, _ = String.append x (String y z) -> _ |- _ =>
      specialize (Hmin u a v Ew)
  end.
  destruct (Ascii.eqb a ";") eqn:Ec; [|reflexivity].
  apply Ascii.eqb_eq in Ec. subst a.
  match goal with Hmin : _ = None |- _ => discriminate Hmin end.
Qed.

(* ================================================================== *)
(** ** The node list *)

Lemma all_in_of_list (q : ascii -> bool) (l : list ascii) :
  all_in q (string_of_list_ascii l) = forallb q l.
Proof. induction l as [|c l IH]; simpl; [|rewrite IH]; reflexivity. Qed.

Lemma forallb_rev {A : Type} (q : A -> bool) (l : list A) :
  forallb q (rev l) = forallb q l.
Proof.
  induction l as [|c l IH]; simpl; [reflexivity|].
  rewrite forallb_app, IH. simpl. rewrite andb_true_r. apply andb_comm.
Qed.

(** No piece holds a separator. *)
Lemma pieces_free (p : ascii -> bool) (s : string) (cur : list ascii) :
  forallb (fun c => negb (p c)) cur = true ->
  Forall (fun x => all_in (fun c => negb (p c)) x = true) (pieces p s cur).
Proof.
  revert cur. induction s as [|c s IH]; intros cur H; simpl.
  - constructor; [|constructor]. rewrite all_in_of_list, forallb_rev. exact H.
  - destruct (p c) eqn:E.
    + constructor; [|apply IH; reflexivity].
      rewrite all_in_of_list, forallb_rev. exact H.
    + apply IH. simpl. rewrite E, H. reflexivity.
Qed.

Lemma split_free (s : string) :
  Forall (fun x => x <> EmptyString /\ all_in (fun c => negb (is_space c)) x = true)
         (split s).
Proof.
  unfold split. apply Forall_forall. intros x Hx. apply filter_In in Hx.
  destruct Hx as [Hx Ht]. split.
  - unfold str_truthy in Ht. apply negb_true_iff in Ht. apply String.eqb_neq. exact Ht.
  - pose proof (pieces_free is_space s [] eq_refl) as H.
    rewrite Forall_forall in H. apply (H x Hx).
Qed.

(** The node line, read at the head of the text. *)
Lemma bu_pattern_reads (ws1 ws2 line tail : string) :
  all_in is_space ws1 = true -> all_in is_space ws2 = true ->
  stops is_space (String.append line tail) = true ->
  all_in (fun c => negb (is_newline c)) line = true ->
  stops (fun c => negb (is_newline c)) tail = true ->
  rmatch (items bu_pattern)
         (String.append "BU_"
            (String.append ws1 (String ":" (String.append ws2 (String.append line tail)))))
         EmptyString [] = Some ([line], tail).
Proof.
  intros H1 H2 H3 H4 H5. unfold bu_pattern. cbn [items].
  cbv [lit blanks0 grp list_ascii_of_string map app]. cbn [String.append].
  apply rmatch_One. eexists. eexists. split; [reflexivity|]. split; [reflexivity|].
  apply rmatch_One. eexists. eexists. split; [reflexivity|]. split; [reflexivity|].
  apply rmatch_One. eexists. eexists. split; [reflexivity|]. split; [reflexivity|].
  apply rmatch_Star_run; [exact H1 | reflexivity|].
  apply rmatch_One. eexists. eexists. split; [reflexivity|]. split; [reflexivity|].
  apply rmatch_Star_run; [exact H2 | exact H3|].
  rewrite rmatch_GroupOpen.
  apply rmatch_Star_run; [exact H4 | exact H5|].
  rewrite rmatch_GroupClose, rmatch_nil. reflexivity.
Qed.

(** A match at the head of the text is the one [search] returns. *)
Lemma search_head (p : pattern) (c : ascii) (s : string) (caps : list string)
  (rest : string) :
  rmatch (items p) (String c s) EmptyString [] = Some (caps, rest) ->
  exists n, search p (String c s) = Some (mk_match 0 n caps).
Proof.
  intros H. unfold search, finditer. cbn [scan]. rewrite orb_true_r, H.
  eexists. reflexivity.
Qed.

(** X15. No node name of [parse_nodes] is empty or holds a blank.  On a
    text that starts with BU_, blanks, a colon and blanks, the node names
    are the words of the text that follows up to the end of its line; the
    blanks after the colon may include line ends, so a node line without
    names takes the words of the next line that is not blank. *)
Theorem parse_nodes_words (content : string) :
  Forall (fun x => x <> EmptyString /\ all_in (fun c => negb (is_space c)) x = true)
         (parse_nodes content) /\
  (forall ws1 ws2 line tail,
      all_in is_space ws1 = true -> all_in is_space ws2 = true ->
      stops is_space (String.append line tail) = true ->
      all_in (fun c => negb (is_newline c)) line = true ->
      stops (fun c => negb (is_newline c)) tail = true ->
      content =
      String.append "BU_"
        (String.append ws1 (String ":" (String.append ws2 (String.append line tail)))) ->
      parse_nodes content = split (strip line)).
Proof.
  split.
  - unfold parse_nodes. destruct (search bu_pattern content); [apply split_free|].
    constructor.
  - intros ws1 ws2 line tail H1 H2 H3 H4 H5 ->.
    pose proof (bu_pattern_reads ws1 ws2 line tail H1 H2 H3 H4 H5) as E.
    cbn [String.append] in *. apply search_head in E. destruct E as (n & E).
    unfold parse_nodes. rewrite E. reflexivity.
Qed.

(* ================================================================== *)
(** ** The description of a value table *)

(** The groups of the matches of a pattern without anchor depend on the
    text alone. *)
Lemma scan_groups_free (p : pattern) (s : string) (b b' : bool) (skip pos pos' : nat) :
  anchored p = false ->
  map m_groups (scan p s b skip pos) = map m_groups (scan p s b' skip pos').
Proof.
  intros Ha. revert b b' skip pos pos'.
  induction s as [|c s IH]; intros b b' skip pos pos'; cbn [scan]; rewrite Ha;
    cbn [negb orb].
  - destruct skip; [|reflexivity].
    destruct (rmatch (items p) EmptyString EmptyString []) as [[caps rest]|]; reflexivity.
  - destruct skip as [|k].
    + destruct (rmatch (items p) (String c s) EmptyString []) as [[caps rest]|];
        cbn [map m_groups]; [f_equal|]; apply IH.
    + apply IH.
Qed.

(** The scan steps over the characters of the last match. *)
Lemma scan_skip (p : pattern) (w s : string) (b : bool) (pos : nat) :
  anchored p = false ->
  map m_groups (scan p (String.append w s) b (String.length w) pos) =
  map m_groups (scan p s true 0 0).
Proof.
  intros Ha. revert b pos. induction w as [|c w IH]; intros b pos.
  - apply scan_groups_free. exact Ha.
  - cbn [String.append String.length scan Nat.pred]. apply IH.
Qed.

Lemma length_append (a b : string) :
  String.length (String.append a b) = (String.length a + String.length b)%nat.
Proof. induction a as [|c a IH]; simpl; [|rewrite IH]; reflexivity. Qed.

(** A match at the head of the text, then the matches of what is left. *)
Lemma scan_match (p : pattern) (s w rest : string) (caps : list string) :
  anchored p = false -> s = String.append w rest -> w <> EmptyString ->
  rmatch (items p) s EmptyString [] = Some (caps, rest) ->
  map m_groups (finditer p s) = caps :: map m_groups (finditer p rest).
Proof.
  intros Ha -> Hw H. destruct w as [|c w]; [congruence|].
  unfold finditer. cbn [String.append scan] in *. rewrite Ha. cbn [negb orb]. rewrite H.
  cbn [map m_groups]. f_equal.
  replace (Nat.pred (String.length (String c (String.append w rest)) - String.length rest))
    with (String.length w).
  - apply scan_skip. exact Ha.
  - cbn [String.length]. rewrite length_append. lia.
Qed.

Lemma scan_no_match (p : pattern) (c : ascii) (s : string) :
  anchored p = false ->
  rmatch (items p) (String c s) EmptyString [] = None ->
  map m_groups (finditer p (String c s)) = map m_groups (finditer p s).
Proof.
  intros Ha H. unfold finditer. cbn [scan]. rewrite Ha. cbn [negb orb]. rewrite H.
  apply scan_groups_free. exact Ha.
Qed.

(** A pair at the head of a text: its number and its label. *)
Lemma pair_pattern_reads (d l rest : string) :
  digit_text d = true -> all_in (fun c => negb (Ascii.eqb c dquote)) l = true ->
  rmatch (items pair_pattern)
         (String.append d (String " " (String.append (in_quotes l) rest)))
         EmptyString [] = Some ([d; l], rest).
Proof.
  unfold digit_text. intros Hd Hl. apply andb_true_iff in Hd. destruct Hd as [Hn Hd].
  destruct d as [|c d]; [discriminate Hn|]. cbn [all_in] in Hd.
  apply andb_true_iff in Hd. destruct Hd as [Hc Hd].
  unfold pair_pattern, in_quotes. cbn [items].
  cbv [lit blanks grp quoted unquoted digits plus list_ascii_of_string map app].
  cbn [String.append]. rewrite rmatch_GroupOpen.
  apply rmatch_One. eexists. eexists. split; [reflexivity|]. split; [exact Hc|].
  apply rmatch_Star_run; [exact Hd | reflexivity|].
  rewrite rmatch_GroupClose.
  apply rmatch_One. eexists. eexists. split; [reflexivity|]. split; [reflexivity|].
  apply (rmatch_Star_run Space _ EmptyString); [reflexivity | reflexivity|].
  apply rmatch_One. eexists. eexists. split; [reflexivity|]. split; [reflexivity|].
  rewrite rmatch_GroupOpen. rewrite append_assoc_s.
  apply rmatch_Star_run.
  - clear -Hl. induction l as [|a l IH]; [reflexivity|]. cbn [all_in] in *.
    apply andb_true_iff in Hl. destruct Hl as [H1 H2]. apply andb_true_iff. split.
    + simpl. rewrite orb_false_r. exact H1.
    + apply IH. exact H2.
  - reflexivity.
  - rewrite rmatch_GroupClose.
    apply rmatch_One. eexists. eexists. split; [reflexivity|]. split; [reflexivity|].
    rewrite rmatch_nil. reflexivity.
Qed.

Lemma table_text_one (p : string * string) :
  table_text [p] = String.append (fst p) (String " " (in_quotes (snd p))).
Proof. reflexivity. Qed.

Lemma table_text_cons (p q : string * string) (pairs : list (string * string)) :
  table_text (p :: q :: pairs) =
  String.append (String.append (fst p) (String " " (in_quotes (snd p))))
                (String " " (table_text (q :: pairs))).
Proof. reflexivity. Qed.

Lemma pair_groups (pairs : list (string * string)) :
  Forall (fun p => digit_text (fst p) = true /\
                   all_in (fun c => negb (Ascii.eqb c dquote)) (snd p) = true) pairs ->
  map m_groups (finditer pair_pattern (table_text pairs)) =
  map (fun p => [fst p; snd p]) pairs.
Proof.
  induction pairs as [|[d l] pairs IH]; intros H; [reflexivity|].
  inversion H as [|? ? [Hd Hl] Hrest]; subst. cbn [fst snd] in *.
  assert (Hw : String.append d (String " " (in_quotes l)) <> EmptyString).
  { destruct d; discriminate. }
  destruct pairs as [|q pairs].
  - rewrite table_text_one. cbn [fst snd map].
    pose proof (pair_pattern_reads d l EmptyString Hd Hl) as E.
    rewrite append_empty_r in E.
    rewrite (scan_match pair_pattern _ _ EmptyString [d; l] eq_refl
               (eq_sym (append_empty_r _)) Hw E).
    reflexivity.
  - specialize (IH Hrest). rewrite table_text_cons. cbn [fst snd].
    generalize dependent (table_text (q :: pairs)). intros tail IH.
    pose proof (pair_pattern_reads d l (String " " tail) Hd Hl) as E.
    assert (Eq : String.append d (String " " (String.append (in_quotes l) (String " " tail))) =
                 String.append (String.append d (String " " (in_quotes l)))
                               (String " " tail))
      by (rewrite append_assoc_s; reflexivity).
    rewrite Eq in E.
    rewrite (scan_match pair_pattern _ _ (String " " tail) [d; l] eq_refl eq_refl Hw E).
    cbn [map fst snd]. f_equal.
    rewrite scan_no_match; [exact IH | reflexivity | reflexivity].
Qed.

(** X16. The description of a value table written as numbers and quoted
    labels separated by blanks lists each pair as the number, a colon, a
    blank and the label, the pairs joined by a comma and a blank. *)
Theorem value_description_of_table (pairs : list (string * string)) :
  Forall (fun p => digit_text (fst p) = true /\
                   all_in (fun c => negb (Ascii.eqb c dquote)) (snd p) = true) pairs ->
  value_description (table_text pairs) =
  join ", " (map (fun p => String.append (fst p) (String.append ": " (snd p))) pairs).
Proof.
  intros H. unfold value_description. f_equal.
  rewrite <- (map_map m_groups
                (fun g => String.append (nth 0 g EmptyString)
                            (String.append ": " (nth 1 g EmptyString)))).
  rewrite (pair_groups pairs H), map_map. reflexivity.
Qed.

(* ================================================================== *)
(** ** The number and the alignment of the rows *)

Lemma concat_mapM_length {A B : Type} (f : A -> result (list B)) (g : A -> nat)
  (l : list A) (r : list B) :
  (forall x ys, In x l -> f x = Ok ys -> List.length ys = g x) ->
  concat_mapM f l = Ok r -> List.length r = list_sum (map g l).
Proof.
  revert r. induction l as [|a l IH]; intros r Hg H.
  - injection H as <-. reflexivity.
  - cbn [concat_mapM] in H. apply bind_Ok in H. destruct H as (ys & Hy & H).
    apply bind_Ok in H. destruct H as (zs & Hz & H). injection H as <-.
    rewrite length_app. cbn [map list_sum].
    rewrite (Hg a ys (or_introl eq_refl) Hy), (IH zs); [reflexivity | | exact Hz].
    intros x ws Hx. apply Hg. right. exact Hx.
Qed.

Lemma list_sum_ones {A : Type} (l : list A) :
  list_sum (map (fun _ => 1%nat) l) = List.length l.
Proof. induction l as [|a l IH]; simpl; [|rewrite IH]; reflexivity. Qed.

(** A visited name has a signal on one side, so it gives one row. *)
Lemma compare_signal_one (o n : Message.t) (name : string) (zs : list row_tuple) :
  In name (all_sig_names o n) -> compare_signal o n name = Ok zs ->
  List.length zs = 1%nat.
Proof.
  intros Hin. unfold compare_signal.
  destruct (get_signal name o) as [s|] eqn:Es; destruct (get_signal name n) as [t|] eqn:Et;
    intros H; try (inv_bind H; subst zs; reflexivity).
  exfalso. apply all_sig_names_In in Hin.
  destruct Hin as [Hin|Hin]; apply get_signal_key in Hin; congruence.
Qed.

Lemma compare_message_length (old_db new_db : DBCDatabase.t) (id : Z)
  (rows : list row_tuple) :
  compare_message old_db new_db id = Ok rows ->
  List.length rows = rows_for old_db new_db id.
Proof.
  unfold compare_message, rows_for.
  destruct (get_message id old_db) as [o|]; destruct (get_message id new_db) as [n|];
    intros H.
  - destruct (all_sig_names o n) as [|k names] eqn:E.
    + inv_bind H. subst rows. reflexivity.
    + rewrite <- E in *.
      rewrite (concat_mapM_length _ (fun _ => 1%nat) _ _
                 (fun x ys Hx Hy => compare_signal_one o n x ys Hx Hy) H).
      rewrite list_sum_ones, E. reflexivity.
  - destruct (Message.signals o) as [|kv sigs] eqn:E.
    + injection H as <-. reflexivity.
    + apply one_sided_rows_Ok in H. destruct H as [H _]. rewrite H. reflexivity.
  - destruct (Message.signals n) as [|kv sigs] eqn:E.
    + injection H as <-. reflexivity.
    + apply one_sided_rows_Ok in H. destruct H as [H _]. rewrite H. reflexivity.
  - injection H as <-. reflexivity.
Qed.

(** X17. The row-level view holds one tuple for every signal name of a
    message, counted once when both versions have it, and one tuple for a
    message without signals: the number of tuples is the sum, over the
    message ids, of the larger of 1 and the number of signal names. *)
Theorem compare_dbc_files_row_count (old_db new_db : DBCDatabase.t)
  (rows : list row_tuple) :
  compare_dbc_files old_db new_db = Ok rows ->
  List.length rows = list_sum (map (rows_for old_db new_db) (all_msg_ids old_db new_db)).
Proof.
  unfold compare_dbc_files. apply concat_mapM_length.
  intros id ys _. apply compare_message_length.
Qed.

Lemma build_signal_row_id (m : Message.t) (s : Signal.t) (row : list pyval) :
  build_signal_row m s = Ok row ->
  nth_error row 0 = Some (VStr (String.append "0x" (format_X (Message.msg_id m)))).
Proof. unfold build_signal_row. intros H. inv_bind H. subst row. reflexivity. Qed.

Lemma build_empty_msg_row_id (m : Message.t) :
  nth_error (build_empty_msg_row m) 0 =
  Some (VStr (String.append "0x" (format_X (Message.msg_id m)))).
Proof. reflexivity. Qed.

(** Two rows with the same id cell: the comparison leaves column 0 out. *)
Lemma check_row_diff_same_id (r1 r2 : list pyval) (d : bool * list nat) (x : string) :
  nth_error r1 0 = Some (VStr x) -> nth_error r2 0 = Some (VStr x) ->
  check_row_diff r1 r2 = Ok d ->
  nth 0 r1 VNone = nth 0 r2 VNone /\ ~ In 0%nat (snd d).
Proof.
  intros H1 H2 H. split.
  - rewrite (nth_error_nth _ _ VNone H1), (nth_error_nth _ _ VNone H2). reflexivity.
  - destruct d as [b cols].
    apply (check_row_diff_In r1 r2 b cols 0 (VStr x) (VStr x) (VStr x) (VStr x) H H1 H2);
      try reflexivity.
    simpl. apply String.eqb_refl.
Qed.

Lemma compare_message_aligned (old_db new_db : DBCDatabase.t) (id : Z)
  (rows : list row_tuple) :
  keyed_by_id old_db -> keyed_by_id new_db ->
  compare_message old_db new_db id = Ok rows ->
  Forall (fun r => old_row r = build_empty_row \/ new_row r = build_empty_row \/
                   (nth 0 (old_row r) VNone = nth 0 (new_row r) VNone /\
                    ~ In 0%nat (diff_cols r))) rows.
Proof.
  intros Ko Kn. unfold compare_message.
  destruct (get_message id old_db) as [o|] eqn:Eo;
    destruct (get_message id new_db) as [n|] eqn:En; intros H.
  - pose proof (Ko _ _ Eo) as Io. pose proof (Kn _ _ En) as In_.
    assert (Ho : nth_error (build_empty_msg_row o) 0 =
                 Some (VStr (String.append "0x" (format_X id))))
      by (rewrite build_empty_msg_row_id, Io; reflexivity).
    assert (Hn : nth_error (build_empty_msg_row n) 0 =
                 Some (VStr (String.append "0x" (format_X id))))
      by (rewrite build_empty_msg_row_id, In_; reflexivity).
    assert (Hso : forall s row, build_signal_row o s = Ok row ->
                    nth_error row 0 = Some (VStr (String.append "0x" (format_X id))))
      by (intros s row Hr; rewrite (build_signal_row_id _ _ _ Hr), Io; reflexivity).
    assert (Hsn : forall s row, build_signal_row n s = Ok row ->
                    nth_error row 0 = Some (VStr (String.append "0x" (format_X id))))
      by (intros s row Hr; rewrite (build_signal_row_id _ _ _ Hr), In_; reflexivity).
    destruct (all_sig_names o n) as [|k names].
    + inv_bind H. subst rows. constructor; [|constructor]. right. right.
      apply (check_row_diff_same_id _ _ _ _ Ho Hn Ha).
    + revert H. apply concat_mapM_Forall. intros name ys _ Hy.
      unfold compare_signal in Hy.
      destruct (get_signal name o) as [s|]; destruct (get_signal name n) as [t|];
        inv_bind Hy; subst ys; [| | |constructor];
        (constructor; [|constructor]); right; right;
        cbn [old_row new_row diff_cols];
        eapply check_row_diff_same_id; eauto.
  - destruct (Message.signals o) as [|kv sigs].
    + injection H as <-. constructor; [|constructor]. right. left. reflexivity.
    + revert H. apply concat_mapM_Forall. intros x ys _ Hy. inv_bind Hy. subst ys.
      constructor; [|constructor]. right. left. reflexivity.
  - destruct (Message.signals n) as [|kv sigs].
    + injection H as <-. constructor; [|constructor]. left. reflexivity.
    + revert H. apply concat_mapM_Forall. intros x ys _ Hy. inv_bind Hy. subst ys.
      constructor; [|constructor]. left. reflexivity.
  - injection H as <-. constructor.
Qed.

(** X18. The tuples are aligned by message id: on databases that store
    every message under its own id, as the parsed ones do, a tuple either
    has the empty row on one side or shows the same id on both sides, and
    then the id column is not among its changed columns. *)
Theorem rows_aligned_by_id (old_db new_db : DBCDatabase.t) (rows : list row_tuple) :
  keyed_by_id old_db -> keyed_by_id new_db ->
  compare_dbc_files old_db new_db = Ok rows ->
  Forall (fun r => old_row r = build_empty_row \/ new_row r = build_empty_row \/
                   (nth 0 (old_row r) VNone = nth 0 (new_row r) VNone /\
                    ~ In 0%nat (diff_cols r))) rows.
Proof.
  intros Ko Kn. unfold compare_dbc_files. apply concat_mapM_Forall.
  intros id ys _. apply compare_message_aligned; assumption.
Qed.

(* ================================================================== *)
(** ** The order of the categorized messages *)

Lemma flat_map_nil {A B : Type} (f : A -> list B) (l : list A) :
  (forall x, In x l -> f x = []) -> flat_map f l = [].
Proof.
  induction l as [|a l IH]; intros H; [reflexivity|]. simpl.
  rewrite (H a (or_introl eq_refl)), IH; [reflexivity|].
  intros x Hx. apply H. right. exact Hx.
Qed.

Lemma msg_delta_new_messages (old_db new_db : DBCDatabase.t) (id : Z) :
  new_messages (msg_delta old_db new_db id) =
  match get_message id old_db, get_message id new_db with
  | None, Some n => [n]
  | _, _ => []
  end.
Proof.
  unfold msg_delta.
  destruct (get_message id old_db) as [o|], (get_message id new_db) as [n|];
    try reflexivity.
  rewrite fold_changes_new_messages, flat_map_map.
  rewrite flat_map_nil by (intros k _; apply sig_delta_new_messages).
  destruct (msg_diffs_of o n); reflexivity.
Qed.

Lemma msg_delta_removed_messages (old_db new_db : DBCDatabase.t) (id : Z) :
  removed_messages (msg_delta old_db new_db id) =
  match get_message id old_db, get_message id new_db with
  | Some o, None => [o]
  | _, _ => []
  end.
Proof.
  unfold msg_delta.
  destruct (get_message id old_db) as [o|], (get_message id new_db) as [n|];
    try reflexivity.
  rewrite fold_changes_removed_messages, flat_map_map.
  rewrite flat_map_nil by (intros k _; apply sig_delta_removed_messages).
  destruct (msg_diffs_of o n); reflexivity.
Qed.

(** At most one entry per id, each with that id: the entries follow the
    order of the ids. *)
Lemma flat_map_sorted {B : Type} (f : Z -> list B) (g : B -> Z) (ids : list Z) :
  StronglySorted Z.lt ids ->
  (forall id x, In x (f id) -> g x = id) ->
  (forall id, (List.length (f id) <= 1)%nat) ->
  StronglySorted Z.lt (map g (flat_map f ids)).
Proof.
  intros Hs Hg Hl. induction Hs as [|a ids Hs IH Ha]; [constructor|].
  cbn [flat_map]. rewrite map_app.
  assert (Hrest : Forall (Z.lt a) (map g (flat_map f ids))).
  { apply Forall_forall. intros y Hy. apply in_map_iff in Hy.
    destruct Hy as (x & <- & Hx). apply in_flat_map in Hx. destruct Hx as (id & Hid & Hx).
    rewrite (Hg id x Hx). rewrite Forall_forall in Ha. apply Ha. exact Hid. }
  pose proof (Hl a) as La. pose proof (Hg a) as Ga.
  destruct (f a) as [|x [|y l]]; cbn [map app].
  - exact IH.
  - constructor; [exact IH|]. rewrite (Ga x (or_introl eq_refl)). exact Hrest.
  - simpl in La. lia.
Qed.

(** X19. On databases that store every message under its own id, as the
    parsed ones do, the added, the removed and the modified messages that
    [categorize_changes] returns are each in strictly ascending order of
    their ids, so no message is listed twice. *)
Theorem categorized_messages_ascending (old_db new_db : DBCDatabase.t) (r : changes) :
  keyed_by_id old_db -> keyed_by_id new_db ->
  categorize_changes old_db new_db = Ok r ->
  StronglySorted Z.lt (map Message.msg_id (new_messages r)) /\
  StronglySorted Z.lt (map Message.msg_id (removed_messages r)) /\
  StronglySorted Z.lt (map (fun x => Message.msg_id (fst (fst x))) (modified_messages r)).
Proof.
  intros Ko Kn H. apply categorize_changes_Ok_inv in H. destruct H as [_ ->].
  rewrite fold_changes_new_messages, fold_changes_removed_messages,
          fold_changes_modified_messages, !flat_map_map.
  cbn [new_messages removed_messages modified_messages no_changes app].
  pose proof (sorted_set_sorted
                (od_keys (DBCDatabase.messages old_db) ++
                 od_keys (DBCDatabase.messages new_db))) as Hs.
  fold (all_msg_ids old_db new_db) in Hs.
  split; [|split]; apply flat_map_sorted; try exact Hs.
  - intros id x. rewrite msg_delta_new_messages.
    destruct (get_message id old_db) as [o|]; [intros []|].
    destruct (get_message id new_db) as [n|] eqn:En; [|intros []].
    intros [<-|[]]. apply (Kn _ _ En).
  - intros id. rewrite msg_delta_new_messages.
    destruct (get_message id old_db), (get_message id new_db); simpl; lia.
  - intros id x. rewrite msg_delta_removed_messages.
    destruct (get_message id old_db) as [o|] eqn:Eo; [|intros []].
    destruct (get_message id new_db) as [n|]; [intros []|].
    intros [<-|[]]. apply (Ko _ _ Eo).
  - intros id. rewrite msg_delta_removed_messages.
    destruct (get_message id old_db), (get_message id new_db); simpl; lia.
  - intros id x. rewrite msg_delta_modified_messages.
    destruct (get_message id old_db) as [o|] eqn:Eo; [|intros []].
    destruct (get_message id new_db) as [n|]; [|intros []].
    destruct (msg_diffs_of o n); [intros []|].
    intros [<-|[]]. apply (Ko _ _ Eo).
  - intros id. rewrite msg_delta_modified_messages.
    destruct (get_message id old_db), (get_message id new_db); simpl; try lia.
    destruct (msg_diffs_of t t0); simpl; lia.
Qed.

(* ================================================================== *)
(** ** Normal forms *)

(** X20. When [normalize_val] returns, its result compares equal to its
    argument and is its own normal form: normalizing twice is normalizing
    once. *)
Theorem normalize_val_idempotent (v w : pyval) :
  normalize_val v = Ok w -> py_eq v w = true /\ normalize_val w = Ok w.
Proof.
  destruct v as [|z|f|s]; simpl; intros H.
  - injection H as <-. split; reflexivity.
  - injection H as <-. split; [apply Z.eqb_refl | reflexivity].
  - apply bind_Ok in H. destruct H as (z & Hz & H). injection H as <-.
    destruct (float_eq_int f z) eqn:E.
    + split; [exact E | reflexivity].
    + split.
      * apply float_eqb_refl. destruct f; simpl in *; try discriminate; reflexivity.
      * simpl. rewrite Hz. simpl. rewrite E. reflexivity.
  - injection H as <-. split; [apply String.eqb_refl | reflexivity].
Qed.

(* ================================================================== *)
(** ** The self comparison, whenever it returns *)













(* ================================================================== *)
(** ** A message of one database only *)





(* ================================================================== *)
(** ** The statements on the example texts *)

(** The parts of a conjunction of closed equations, each by evaluation. *)
Ltac by_computation :=
  repeat match goal with |- _ /\ _ => split end; vm_compute; reflexivity.

(** C1, on examples: [doc_engine] passes both checks and [parse_dbc]
    returns a database for it; [doc_bad_factor] fails the check of the
    floats and a message declaration with a length of 4301 digits fails
    the check of the integers, and [parse_dbc] raises [ValueError] on both;
    a text without records parses to the empty database. *)
Lemma parse_dbc_returns_iff_witness :
  (ints_ok doc_engine && floats_ok doc_engine = true /\
   exists db, parse_dbc doc_engine = Ok db) /\
  (floats_ok doc_bad_factor = false /\ parse_dbc doc_bad_factor = Raise ValueError) /\
  (ints_ok (doc_long_dlc 4301) && floats_ok (doc_long_dlc 4301) = false /\
   parse_dbc (doc_long_dlc 4301) = Raise ValueError) /\
  parse_dbc "VERSION 1" = Ok DBCDatabase.init.
Proof.
  split; [|split; [|split]].
  - assert (E : ints_ok doc_engine && floats_ok doc_engine = true)
      by (vm_compute; reflexivity).
    split; [exact E|]. exact (proj1 (parse_dbc_returns_iff doc_engine) E).
  - assert (E : ints_ok doc_bad_factor && floats_ok doc_bad_factor = false)
      by (vm_compute; reflexivity).
    split; [vm_compute; reflexivity|].
    exact (proj1 (proj2 (parse_dbc_returns_iff doc_bad_factor)) E).
  - assert (E : ints_ok (doc_long_dlc 4301) && floats_ok (doc_long_dlc 4301) = false)
      by (vm_compute; reflexivity).
    split; [exact E|].
    exact (proj1 (proj2 (parse_dbc_returns_iff (doc_long_dlc 4301))) E).
  - apply (proj2 (proj2 (parse_dbc_returns_iff "VERSION 1"))); vm_compute; reflexivity.
Defined.

(** C1 as stated fails.  A signal line whose scale is not a number makes
    [parse_dbc] raise [ValueError] for the whole text; the well-formed
    signal line and message after it are lost with it.  [int] converts a
    text of 4300 digits and raises [ValueError] on one of 4301, leading
    zeros counted.  A line that matches no record is not always ignored:
    after a signal line without receivers, the line [hello world], which
    alone parses to the empty database, is read as the one receiver of
    that signal. *)
Lemma parse_dbc_not_total :
  parse_dbc doc_bad_factor = Raise ValueError /\
  map (fun m => group m 6) (finditer sig_pattern doc_bad_factor) = ["abc"; "1"] /\
  map (fun m => group m 2) (finditer msg_pattern doc_bad_factor) =
  ["EngineData"; "Status"] /\
  py_int (run_of "0" 4300) = Ok 0 /\
  py_int (run_of "0" 4301) = Raise ValueError /\
  parse_dbc "hello world" = Ok DBCDatabase.init /\
  parse_dbc doc_loose_line = Ok (database_of doc_loose_line) /\
  Signal.receivers (signal_of doc_loose_line 256 "Speed") = ["hello world"] /\
  parse_dbc doc_no_loose_line = Ok (database_of doc_no_loose_line) /\
  Signal.receivers (signal_of doc_no_loose_line 256 "Speed") = [].
Proof. by_computation. Qed.

(** C2, on an example: between [doc_engine] and [doc_engine_wider] the
    length of message 256 and the length of its signal differ, and both are
    reported as modified. *)
Lemma modified_iff_summary_differs_witness :
  db_finite (database_of doc_engine) = true /\
  db_finite (database_of doc_engine_wider) = true /\
  exists r,
    categorize_changes (database_of doc_engine) (database_of doc_engine_wider) = Ok r /\
    forall id o n,
      get_message id (database_of doc_engine) = Some o ->
      get_message id (database_of doc_engine_wider) = Some n ->
      ((exists d, In (o, n, d) (modified_messages r)) <->
       msg_summary_differs o n = true) /\
      forall name s t,
        get_signal name o = Some s -> get_signal name n = Some t ->
        ((exists d, In (o, n, s, t, d) (modified_signals r)) <->
         sig_summary_differs s t = true).
Proof.
  assert (E1 : db_finite (database_of doc_engine) = true) by (vm_compute; reflexivity).
  assert (E2 : db_finite (database_of doc_engine_wider) = true)
    by (vm_compute; reflexivity).
  split; [exact E1|]. split; [exact E2|].
  exact (modified_iff_summary_differs _ _ E1 E2).
Defined.

(** C2 as stated fails: [doc_engine_revised] differs from [doc_engine] in
    the comment of message 256 and in the offset, byte order, sign,
    comment, send type and timeout of its signal, and [categorize_changes]
    reports nothing as modified. *)
Lemma modified_ignores_fields :
  parse_dbc doc_engine = Ok (database_of doc_engine) /\
  parse_dbc doc_engine_revised = Ok (database_of doc_engine_revised) /\
  categorize_changes (database_of doc_engine) (database_of doc_engine_revised) =
  Ok no_changes /\
  map (fun k => (stored k 256 "Speed" (DBCDatabase.messages (database_of doc_engine)),
                 stored k 256 "Speed"
                        (DBCDatabase.messages (database_of doc_engine_revised))))
      [K_cm_msg; K_cm_sig; K_sig_int Signal.F_send_type; K_sig_int Signal.F_timeout_time] =
  [ (Some (VStr ""), Some (VStr "engine frame"));
    (Some (VStr ""), Some (VStr "wheel speed"));
    (Some (VInt 0), Some (VInt 3));
    (Some (VInt 0), Some (VInt 500)) ] /\
  map (fun db => option_map (fun s => (Signal.byte_order s, Signal.value_type s,
                                       format_number (Signal.offset s)))
                            (get_sig 256 "Speed" (DBCDatabase.messages db)))
      [database_of doc_engine; database_of doc_engine_revised] =
  [ Some (1, "+", Ok (VInt 0)); Some (0, "-", Ok (VInt 5)) ].
Proof. by_computation. Qed.

(** C3, on an example: message 512 is in [doc_engine] and not in
    [doc_engine_only]; it is removed in one direction and added in the
    other. *)
Lemma diff_symmetry_witness :
  db_finite (database_of doc_engine) = true /\
  db_finite (database_of doc_engine_only) = true /\
  exists r r',
    categorize_changes (database_of doc_engine_only) (database_of doc_engine) = Ok r /\
    categorize_changes (database_of doc_engine) (database_of doc_engine_only) = Ok r' /\
    new_messages r = removed_messages r' /\ new_signals r = removed_signals r'.
Proof.
  assert (E1 : db_finite (database_of doc_engine) = true) by (vm_compute; reflexivity).
  assert (E2 : db_finite (database_of doc_engine_only) = true)
    by (vm_compute; reflexivity).
  split; [exact E1|]. split; [exact E2|].
  exact (proj2 (diff_symmetry _ _) E2 E1).
Defined.





(** C6, on an example: the float 5.0 normalizes to the integer 5, and
    [doc_default_cycle], which sets the cycle time of message 256 to the
    default 0, parses to the database of the text without that record. *)
Lemma whole_floats_and_defaults_witness :
  py_float "5.0" = Ok float_five /\
  normalize_val (VFloat float_five) = Ok (VInt 5) /\
  parse_dbc doc_default_cycle = Ok (database_of doc_default_cycle) /\
  parse_dbc doc_absent_cycle = Ok (database_of doc_default_cycle).
Proof.
  destruct whole_floats_and_defaults_compare_equal as (H1 & _ & _ & H4).
  assert (E : parse_dbc doc_default_cycle = Ok (database_of doc_default_cycle))
    by (vm_compute; reflexivity).
  split; [vm_compute; reflexivity|].
  split; [apply (H1 float_five 5); vm_compute; reflexivity|].
  split; [exact E|].
  apply (H4 doc_default_cycle doc_absent_cycle (K_msg_int Message.F_cycle_time)
            [] [record_at (K_msg_int Message.F_cycle_time) doc_default_cycle 1]
            (record_at (K_msg_int Message.F_cycle_time) doc_default_cycle 0) _ E).
  - vm_compute. reflexivity.
  - vm_compute. reflexivity.
  - intros a [<-|[]]. vm_compute. reflexivity.
  - unfold same_but. by_computation.
Defined.

(** C7, on an example: with the messages of [doc_engine] in reverse order
    the ids are iterated in the same ascending order and both views are the
    same. *)
Lemma message_ids_ascending_witness :
  all_msg_ids (reversed (database_of doc_engine)) (database_of doc_engine_wider) = [256; 512] /\
  all_msg_ids (reversed (database_of doc_engine)) (database_of doc_engine_wider) =
  all_msg_ids (database_of doc_engine) (database_of doc_engine_wider) /\
  compare_dbc_files (reversed (database_of doc_engine)) (database_of doc_engine_wider) =
  compare_dbc_files (database_of doc_engine) (database_of doc_engine_wider) /\
  categorize_changes (reversed (database_of doc_engine)) (database_of doc_engine_wider) =
  categorize_changes (database_of doc_engine) (database_of doc_engine_wider).
Proof.
  split; [vm_compute; reflexivity|].
  destruct (message_ids_ascending (database_of doc_engine) (database_of doc_engine_wider))
    as (_ & _ & H & _).
  apply (H (reversed (database_of doc_engine)) (database_of doc_engine_wider)).
  - vm_compute. repeat constructor; simpl; intuition discriminate.
  - vm_compute. repeat constructor; simpl; intuition discriminate.
  - unfold reversed. cbn [DBCDatabase.messages DBCDatabase.set_messages].
    apply Permutation_rev.
  - apply Permutation_refl.
Defined.

(** C8, on examples: the cycle time that [doc_stray_cycle] gives for the
    undeclared message id 999 leaves no trace; the text without the line
    of that record, and the text from which the characters of the record
    are cut out, both parse to the same database.  The cycle time that
    [doc_long_id 4301] gives for an undeclared message id of 4301 digits
    makes [parse_dbc] raise. *)
Lemma dangling_record_dropped_witness :
  parse_dbc doc_stray_cycle = Ok (database_of doc_stray_cycle) /\
  rec_msg_id (record_at (K_msg_int Message.F_cycle_time) doc_stray_cycle 0) = 999 /\
  parse_dbc doc_no_stray_cycle = Ok (database_of doc_stray_cycle) /\
  parse_dbc (without_record doc_stray_cycle
               (record_at (K_msg_int Message.F_cycle_time) doc_stray_cycle 0)) =
  Ok (database_of doc_stray_cycle) /\
  finditer (kind_pattern (K_msg_int Message.F_cycle_time)) (doc_long_id 4301) =
  [mk_match 27 4358 [run_of "1" 4301; "10"]] /\
  parse_dbc (doc_long_id 4301) = Raise ValueError.
Proof.
  assert (E : parse_dbc doc_stray_cycle = Ok (database_of doc_stray_cycle))
    by (vm_compute; reflexivity).
  assert (M : finditer (kind_pattern (K_msg_int Message.F_cycle_time)) doc_stray_cycle =
              [] ++ record_at (K_msg_int Message.F_cycle_time) doc_stray_cycle 0
                 :: [record_at (K_msg_int Message.F_cycle_time) doc_stray_cycle 1])
    by (vm_compute; reflexivity).
  assert (D : dangling (K_msg_int Message.F_cycle_time)
                (record_at (K_msg_int Message.F_cycle_time) doc_stray_cycle 0)
                (DBCDatabase.messages (database_of doc_stray_cycle)) = true)
    by (vm_compute; reflexivity).
  assert (L : finditer (kind_pattern (K_msg_int Message.F_cycle_time)) (doc_long_id 4301) =
              [] ++ mk_match 27 4358 [run_of "1" 4301; "10"] :: [])
    by (vm_compute; reflexivity).
  split; [exact E|]. split; [vm_compute; reflexivity|].
  split; [|split; [|split; [exact L|]]].
  - apply (proj2 (dangling_record_dropped doc_stray_cycle doc_no_stray_cycle _ _ _ _ M)
                 _ E D).
    unfold same_but. by_computation.
  - apply (proj2 (dangling_record_dropped doc_stray_cycle
                    (without_record doc_stray_cycle
                       (record_at (K_msg_int Message.F_cycle_time) doc_stray_cycle 0))
                    _ _ _ _ M) _ E D).
    unfold same_but. by_computation.
  - apply (proj1 (dangling_record_dropped (doc_long_id 4301) (doc_long_id 4301)
                    _ _ _ _ L)).
    vm_compute. reflexivity.
Defined.

(** C8 as stated fails.  The comment that [doc_stray_comment] gives for the
    undeclared message id 999 holds a line that is read as the declaration
    of message 768, so the text without the comment record parses to a
    database without that message.  The cycle time that [doc_stray_joined]
    gives for the undeclared message id 999 is followed on its line by a
    text that, once the record is removed, starts the line and declares
    message 5. *)
Lemma dangling_records_not_dropped :
  finditer cm_msg_pattern doc_stray_comment = [record_at K_cm_msg doc_stray_comment 0] /\
  rec_msg_id (record_at K_cm_msg doc_stray_comment 0) = 999 /\
  dangling K_cm_msg (record_at K_cm_msg doc_stray_comment 0)
           (DBCDatabase.messages (database_of doc_stray_comment)) = true /\
  parse_dbc doc_stray_comment = Ok (database_of doc_stray_comment) /\
  od_keys (DBCDatabase.messages (database_of doc_stray_comment)) = [256; 768] /\
  without_record doc_stray_comment (record_at K_cm_msg doc_stray_comment 0) =
  String.append "BO_ 256 EngineData: 8 ECU1" newline /\
  parse_dbc (without_record doc_stray_comment (record_at K_cm_msg doc_stray_comment 0)) =
  Ok (database_of "BO_ 256 EngineData: 8 ECU1") /\
  od_keys (DBCDatabase.messages (database_of "BO_ 256 EngineData: 8 ECU1")) = [256] /\
  finditer (kind_pattern (K_msg_int Message.F_cycle_time)) doc_stray_joined =
  [record_at (K_msg_int Message.F_cycle_time) doc_stray_joined 0] /\
  rec_msg_id (record_at (K_msg_int Message.F_cycle_time) doc_stray_joined 0) = 999 /\
  parse_dbc doc_stray_joined = Ok DBCDatabase.init /\
  without_record doc_stray_joined
                 (record_at (K_msg_int Message.F_cycle_time) doc_stray_joined 0) =
  "BO_ 5 M: 8 E" /\
  parse_dbc "BO_ 5 M: 8 E" = Ok (database_of "BO_ 5 M: 8 E") /\
  od_keys (DBCDatabase.messages (database_of "BO_ 5 M: 8 E")) = [5].
Proof. by_computation. Qed.

(** C9, on an example: [doc_repeats] declares message 256 twice, the first
    time with two lines for the signal Speed and the second time with two
    lines for the signal Rpm, and gives two cycle times and two comments
    for the message and two start values, two comments and two value
    tables for Rpm.  The database holds the second declaration, no signal
    Speed, the second line of Rpm and the second record of each kind. *)
Lemma last_record_wins_witness :
  parse_dbc doc_repeats = Ok (database_of doc_repeats) /\
  option_map msg_decl (get_message 256 (database_of doc_repeats)) =
  Some (256, "EngineInfo", 4, "ECU2") /\
  get_sig 256 "Speed" (DBCDatabase.messages (database_of doc_repeats)) = None /\
  (group (signal_line_of doc_repeats 256 "Rpm") 2,
   group (signal_line_of doc_repeats 256 "Rpm") 6) = ("16", "2") /\
  (exists sig sig0,
      get_sig 256 "Rpm" (DBCDatabase.messages (database_of doc_repeats)) = Some sig /\
      parse_signal (signal_line_of doc_repeats 256 "Rpm") = Ok sig0 /\
      sig_decl sig = sig_decl sig0) /\
  (Signal.start_bit (signal_of doc_repeats 256 "Rpm"),
   Signal.unit (signal_of doc_repeats 256 "Rpm")) = (16, "rpm") /\
  map (fun k => stored k 256 "Rpm" (DBCDatabase.messages (database_of doc_repeats)))
      [K_msg_int Message.F_cycle_time; K_cm_msg; K_long_symbol;
       K_sig_int Signal.F_start_value; K_cm_sig; K_val] =
  [Some (VInt 20); Some (VStr "second"); Some (VStr "");
   Some (VInt 9); Some (VStr "two"); Some (VStr "0: stopped, 1: running")] /\
  stored K_cm_sig 256 "Speed" (DBCDatabase.messages (database_of doc_repeats)) = None /\
  stored K_cm_msg 512 "" (DBCDatabase.messages (database_of doc_repeats)) = None.
Proof.
  assert (E : parse_dbc doc_repeats = Ok (database_of doc_repeats))
    by (vm_compute; reflexivity).
  destruct (last_record_wins doc_repeats _ E) as (H1 & H2 & H3).
  split; [exact E|]. split; [rewrite (H1 256); vm_compute; reflexivity|].
  split.
  { pose proof (H2 256 "Speed") as HS.
    assert (L : last_signal_line doc_repeats 256 "Speed" = None)
      by (vm_compute; reflexivity).
    rewrite L in HS. exact HS. }
  split; [vm_compute; reflexivity|].
  split.
  { pose proof (H2 256 "Rpm") as HR.
    assert (L : last_signal_line doc_repeats 256 "Rpm" =
                Some (signal_line_of doc_repeats 256 "Rpm"))
      by (vm_compute; reflexivity).
    rewrite L in HR. exact HR. }
  split; [vm_compute; reflexivity|].
  split; [cbn [map]; rewrite !H3; vm_compute; reflexivity|].
  split; rewrite H3; vm_compute; reflexivity.
Defined.

(** C10, on an example: message 512 has no signals in [doc_engine] and in
    [doc_engine_revised], and contributes one row tuple. *)
Lemma zero_signal_message_row_witness :
  exists o n t,
    get_message 512 (database_of doc_engine) = Some o /\
    get_message 512 (database_of doc_engine_revised) = Some n /\
    compare_message (database_of doc_engine) (database_of doc_engine_revised) 512 =
    Ok [t] /\
    old_row t = msg_part o ++ repeat VNone NUM_SIG_COLS /\
    new_row t = msg_part n ++ repeat VNone NUM_SIG_COLS.
Proof.
  assert (Eo : get_message 512 (database_of doc_engine) =
               Some (new_message (mk_match 0 0 ["512"; "Status"; "2"; "ECU2"]) []))
    by (vm_compute; reflexivity).
  assert (En : get_message 512 (database_of doc_engine_revised) =
               Some (new_message (mk_match 0 0 ["512"; "Status"; "2"; "ECU2"]) []))
    by (vm_compute; reflexivity).
  destruct (zero_signal_message_row _ _ 512 _ _ Eo En eq_refl eq_refl)
    as (t & H1 & H2 & H3 & _).
  eexists. eexists. exists t.
  split; [exact Eo|]. split; [exact En|]. split; [exact H1|]. split; assumption.
Defined.

(* ================================================================== *)
(** ** The further properties on examples *)

(** X2, on an example: the prefix of 01_BusName_v2.dbc is 01_BusName and
    its bus name is BusName. *)
Lemma bus_name_of_prefix_witness :
  extract_bus_prefix "01_BusName_v2.dbc" = Some "01_BusName" /\
  extract_bus_name "01_BusName" = "BusName" /\
  exists d,
    d <> EmptyString /\ all_in is_digit d = true /\
    "01_BusName" = String.append d (String.append "_" (extract_bus_name "01_BusName")) /\
    extract_bus_name "01_BusName" <> EmptyString /\
    all_in is_word (extract_bus_name "01_BusName") = true /\
    startswith (String.append "01_BusName" "_") "01_BusName_v2.dbc" = true.
Proof.
  assert (E : extract_bus_prefix "01_BusName_v2.dbc" = Some "01_BusName")
    by (vm_compute; reflexivity).
  split; [exact E|]. split; [vm_compute; reflexivity|].
  exact (bus_name_of_prefix _ _ E).
Defined.

(** X4, on an example: [doc_repeats] declares message 256 and two signals
    twice, and its database has each key once. *)
Lemma parse_dbc_keys_witness :
  parse_dbc doc_repeats = Ok (database_of doc_repeats) /\
  od_keys (DBCDatabase.messages (database_of doc_repeats)) = [256] /\
  NoDup (od_keys (DBCDatabase.messages (database_of doc_repeats))) /\
  forall id msg,
    get_message id (database_of doc_repeats) = Some msg ->
    Message.msg_id msg = id /\
    NoDup (od_keys (Message.signals msg)) /\
    forall name sig, get_signal name msg = Some sig -> Signal.name sig = name.
Proof.
  assert (E : parse_dbc doc_repeats = Ok (database_of doc_repeats))
    by (vm_compute; reflexivity).
  split; [exact E|]. split; [vm_compute; reflexivity|].
  exact (parse_dbc_keys _ _ E).
Defined.

(** X5, on an example. *)
Lemma parse_dbc_declared_fields_witness :
  parse_dbc doc_engine = Ok (database_of doc_engine) /\
  forall id msg,
    get_message id (database_of doc_engine) = Some msg ->
    msg_declared msg /\
    forall name sig, get_signal name msg = Some sig -> sig_declared sig.
Proof.
  assert (E : parse_dbc doc_engine = Ok (database_of doc_engine))
    by (vm_compute; reflexivity).
  split; [exact E|]. exact (parse_dbc_declared_fields _ _ E).
Defined.

(** X6, on an example: the maximum of the signal of [doc_unbounded] is an
    infinity and the row-level view raises [OverflowError]. *)
Lemma views_raise_on_unbounded_float_witness :
  compare_dbc_files (database_of doc_unbounded) DBCDatabase.init = Raise OverflowError /\
  exists sig f,
    (holds_signal (database_of doc_unbounded) sig \/ holds_signal DBCDatabase.init sig) /\
    In f (row_floats sig) /\ refused OverflowError f.
Proof.
  assert (E : compare_dbc_files (database_of doc_unbounded) DBCDatabase.init =
              Raise OverflowError) by (vm_compute; reflexivity).
  split; [exact E|].
  exact (proj1 (views_raise_on_unbounded_float _ _ _) E).
Defined.

(** X7, on an example. *)
Lemma compare_dbc_files_returns_iff_witness :
  keys_unique (database_of doc_engine) /\
  keys_unique (database_of doc_unbounded) /\
  db_finite (database_of doc_unbounded) = false /\
  ((exists rows,
       compare_dbc_files (database_of doc_engine) (database_of doc_unbounded) = Ok rows) <->
   db_finite (database_of doc_engine) = true /\
   db_finite (database_of doc_unbounded) = true).
Proof.
  assert (E1 : parse_dbc doc_engine = Ok (database_of doc_engine))
    by (vm_compute; reflexivity).
  assert (E2 : parse_dbc doc_unbounded = Ok (database_of doc_unbounded))
    by (vm_compute; reflexivity).
  pose proof (parsed_keys_unique _ _ E1) as U1.
  pose proof (parsed_keys_unique _ _ E2) as U2.
  split; [exact U1|]. split; [exact U2|]. split; [vm_compute; reflexivity|].
  exact (compare_dbc_files_returns_iff _ _ U1 U2).
Defined.

(** X8, on an example. *)
Lemma compare_dbc_files_row_shape_witness :
  exists rows,
    compare_dbc_files (database_of doc_engine) (database_of doc_engine_wider) = Ok rows /\
    List.length rows = 2%nat /\ Forall row_shape rows.
Proof.
  destruct (compare_dbc_files (database_of doc_engine) (database_of doc_engine_wider))
    as [rows|e] eqn:E; [|vm_compute in E; discriminate E].
  exists rows. split; [reflexivity|]. split.
  - vm_compute in E. injection E as <-. reflexivity.
  - exact (compare_dbc_files_row_shape _ _ _ E).
Defined.

(** X9, on an example: the signal of [doc_engine] is narrower in
    [doc_engine_wider], so it is a modified signal and has a flagged row. *)
Lemma signal_changes_have_flagged_rows_witness :
  exists r rows,
    categorize_changes (database_of doc_engine) (database_of doc_engine_wider) = Ok r /\
    compare_dbc_files (database_of doc_engine) (database_of doc_engine_wider) = Ok rows /\
    List.length (modified_signals r) = 1%nat /\
    (forall o n s t d,
        In (o, n, s, t, d) (modified_signals r) ->
        exists row, In row rows /\ build_signal_row o s = Ok (old_row row) /\
                    build_signal_row n t = Ok (new_row row) /\ has_diff row = true) /\
    (forall m s,
        In (m, s) (removed_signals r) ->
        exists row, In row rows /\ build_signal_row m s = Ok (old_row row) /\
                    has_diff row = true) /\
    (forall m s,
        In (m, s) (new_signals r) ->
        exists row, In row rows /\ build_signal_row m s = Ok (new_row row) /\
                    has_diff row = true).
Proof.
  destruct (categorize_changes (database_of doc_engine) (database_of doc_engine_wider))
    as [r|e] eqn:Er; [|vm_compute in Er; discriminate Er].
  destruct (compare_dbc_files (database_of doc_engine) (database_of doc_engine_wider))
    as [rows|e] eqn:E; [|vm_compute in E; discriminate E].
  exists r, rows. split; [reflexivity|]. split; [reflexivity|]. split.
  - vm_compute in Er. injection Er as <-. reflexivity.
  - exact (signal_changes_have_flagged_rows _ _ _ _ Er E).
Defined.

(** X10, on an example. *)
Lemma compare_dbc_files_exchanged_witness :
  exists rows rows',
    compare_dbc_files (database_of doc_engine) (database_of doc_engine_more) = Ok rows /\
    compare_dbc_files (database_of doc_engine_more) (database_of doc_engine) = Ok rows' /\
    Permutation (map swap_sides rows) rows'.
Proof.
  destruct (compare_dbc_files (database_of doc_engine) (database_of doc_engine_more))
    as [rows|e] eqn:E; [|vm_compute in E; discriminate E].
  destruct (compare_dbc_files_exchanged _ _ _ E) as (rows' & E' & P).
  exists rows, rows'. split; [reflexivity|]. split; [exact E' | exact P].
Defined.

(** X11, on an example: a new row of one cell against an old row of two. *)
Lemma check_row_diff_bounds_witness :
  check_row_diff [VInt 1; VInt 2] [VInt 1] = Raise IndexError /\
  check_row_diff [VInt 1] [VInt 3; VInt 2] = Ok (true, [0%nat]).
Proof.
  split.
  - apply (proj2 (check_row_diff_bounds [VInt 1; VInt 2] [VInt 1])).
    + repeat (constructor; [apply stable_VInt|]). constructor.
    + repeat (constructor; [apply stable_VInt|]). constructor.
    + simpl. lia.
  - apply (proj1 (check_row_diff_bounds [VInt 1] [VInt 3]) true [0%nat]).
    vm_compute. reflexivity.
Defined.

(** X12, on an example: message 256 has the signal Speed in [doc_engine]
    and the signals Rpm and Speed, in that order, in [doc_engine_more];
    Speed is visited first. *)
Lemma all_sig_names_order_witness :
  od_keys (Message.signals (message_of doc_engine 256)) = ["Speed"] /\
  od_keys (Message.signals (message_of doc_engine_more 256)) = ["Rpm"; "Speed"] /\
  all_sig_names (message_of doc_engine 256) (message_of doc_engine_more 256) =
  ["Speed"; "Rpm"] /\
  all_sig_names (message_of doc_engine 256) (message_of doc_engine_more 256) =
  od_keys (Message.signals (message_of doc_engine 256)) ++
  filter (fun k => negb (od_mem String.eqb k (Message.signals (message_of doc_engine 256))))
         (od_keys (Message.signals (message_of doc_engine_more 256))) /\
  NoDup (all_sig_names (message_of doc_engine 256) (message_of doc_engine_more 256)).
Proof.
  split; [vm_compute; reflexivity|]. split; [vm_compute; reflexivity|].
  split; [vm_compute; reflexivity|].
  apply (all_sig_names_order (message_of doc_engine 256) (message_of doc_engine_more 256)).
  - vm_compute. repeat constructor; simpl; intuition discriminate.
  - vm_compute. repeat constructor; simpl; intuition discriminate.
Defined.

(** X14, on an example: the table of [doc_value_table] is cut at the
    semicolon of its first label. *)
Lemma val_record_ends_at_semicolon_witness :
  In (record_at K_val doc_value_table 0) (finditer val_pattern doc_value_table) /\
  group (record_at K_val doc_value_table 0) 3 = String.append "0 " (String dquote "a") /\
  all_in (fun c => negb (is_newline c) && negb (Ascii.eqb c ";"))
         (group (record_at K_val doc_value_table 0) 3) = true.
Proof.
  assert (H : In (record_at K_val doc_value_table 0) (finditer val_pattern doc_value_table))
    by (vm_compute; left; reflexivity).
  split; [exact H|]. split; [vm_compute; reflexivity|].
  exact (val_record_ends_at_semicolon _ _ H).
Defined.

(** X15, on an example: the node line of [doc_no_nodes] has no names, and
    the node names are the words of the message declaration after it. *)
Lemma parse_nodes_words_witness :
  parse_nodes doc_no_nodes = split (strip "BO_ 256 EngineData: 8 ECU1") /\
  split (strip "BO_ 256 EngineData: 8 ECU1") = ["BO_"; "256"; "EngineData:"; "8"; "ECU1"].
Proof.
  split; [|vm_compute; reflexivity].
  apply (proj2 (parse_nodes_words doc_no_nodes) EmptyString newline
               "BO_ 256 EngineData: 8 ECU1" EmptyString); vm_compute; reflexivity.
Defined.

(** X16, on an example. *)
Lemma value_description_of_table_witness :
  table_text [("0", "Off"); ("1", "On")] =
  String.concat " " ["0"; in_quotes "Off"; "1"; in_quotes "On"] /\
  value_description (table_text [("0", "Off"); ("1", "On")]) = "0: Off, 1: On".
Proof.
  split; [vm_compute; reflexivity|].
  rewrite (value_description_of_table [("0", "Off"); ("1", "On")]).
  - vm_compute. reflexivity.
  - repeat (constructor; [split; vm_compute; reflexivity|]). constructor.
Defined.

(** X17, on an example: one row for the signal both versions of message
    256 have, one for the signal of the new version only, one for message
    512. *)
Lemma compare_dbc_files_row_count_witness :
  exists rows,
    compare_dbc_files (database_of doc_engine) (database_of doc_engine_more) = Ok rows /\
    map (rows_for (database_of doc_engine) (database_of doc_engine_more))
        (all_msg_ids (database_of doc_engine) (database_of doc_engine_more)) =
    [2%nat; 1%nat] /\
    List.length rows =
    list_sum (map (rows_for (database_of doc_engine) (database_of doc_engine_more))
                  (all_msg_ids (database_of doc_engine) (database_of doc_engine_more))).
Proof.
  destruct (compare_dbc_files (database_of doc_engine) (database_of doc_engine_more))
    as [rows|e] eqn:E; [|vm_compute in E; discriminate E].
  exists rows. split; [reflexivity|]. split; [vm_compute; reflexivity|].
  exact (compare_dbc_files_row_count _ _ _ E).
Defined.

(** X18, on an example. *)
Lemma rows_aligned_by_id_witness :
  keyed_by_id (database_of doc_engine) /\
  keyed_by_id (database_of doc_engine_only) /\
  exists rows,
    compare_dbc_files (database_of doc_engine) (database_of doc_engine_only) = Ok rows /\
    Forall (fun r => old_row r = build_empty_row \/ new_row r = build_empty_row \/
                     (nth 0 (old_row r) VNone = nth 0 (new_row r) VNone /\
                      ~ In 0%nat (diff_cols r))) rows.
Proof.
  assert (E1 : parse_dbc doc_engine = Ok (database_of doc_engine))
    by (vm_compute; reflexivity).
  assert (E2 : parse_dbc doc_engine_only = Ok (database_of doc_engine_only))
    by (vm_compute; reflexivity).
  pose proof (parsed_keyed_by_id _ _ E1) as K1.
  pose proof (parsed_keyed_by_id _ _ E2) as K2.
  split; [exact K1|]. split; [exact K2|].
  destruct (compare_dbc_files (database_of doc_engine) (database_of doc_engine_only))
    as [rows|e] eqn:E; [|vm_compute in E; discriminate E].
  exists rows. split; [reflexivity|].
  exact (rows_aligned_by_id _ _ _ K1 K2 E).
Defined.

(** X19, on an example: [doc_fleet_old] declares the messages 768, 640,
    512 and 256 in that order and [doc_fleet_new] the messages 1024, 896,
    512 and 256, the last two with another length.  The added messages are
    896 and 1024, the removed ones 640 and 768 and the modified ones 256
    and 512, each list in ascending order of the ids. *)
Lemma categorized_messages_ascending_witness :
  keyed_by_id (database_of doc_fleet_old) /\
  keyed_by_id (database_of doc_fleet_new) /\
  od_keys (DBCDatabase.messages (database_of doc_fleet_old)) = [768; 640; 512; 256] /\
  od_keys (DBCDatabase.messages (database_of doc_fleet_new)) = [1024; 896; 512; 256] /\
  exists r,
    categorize_changes (database_of doc_fleet_old) (database_of doc_fleet_new) = Ok r /\
    map Message.msg_id (new_messages r) = [896; 1024] /\
    map Message.msg_id (removed_messages r) = [640; 768] /\
    map (fun x => Message.msg_id (fst (fst x))) (modified_messages r) = [256; 512] /\
    StronglySorted Z.lt (map Message.msg_id (new_messages r)) /\
    StronglySorted Z.lt (map Message.msg_id (removed_messages r)) /\
    StronglySorted Z.lt (map (fun x => Message.msg_id (fst (fst x))) (modified_messages r)).
Proof.
  assert (E1 : parse_dbc doc_fleet_old = Ok (database_of doc_fleet_old))
    by (vm_compute; reflexivity).
  assert (E2 : parse_dbc doc_fleet_new = Ok (database_of doc_fleet_new))
    by (vm_compute; reflexivity).
  pose proof (parsed_keyed_by_id _ _ E1) as K1.
  pose proof (parsed_keyed_by_id _ _ E2) as K2.
  split; [exact K1|]. split; [exact K2|].
  split; [vm_compute; reflexivity|]. split; [vm_compute; reflexivity|].
  destruct (categorize_changes (database_of doc_fleet_old) (database_of doc_fleet_new))
    as [r|e] eqn:E; [|vm_compute in E; discriminate E].
  exists r.
  pose proof (categorized_messages_ascending _ _ _ K1 K2 E) as Hsorted.
  split; [reflexivity|].
  vm_compute in E. injection E as <-.
  split; [reflexivity|]. split; [reflexivity|]. split; [reflexivity|]. exact Hsorted.
Defined.

(** X20, on an example: the float 5.0 and its normal form, the integer 5. *)
Lemma normalize_val_idempotent_witness :
  normalize_val (VFloat float_five) = Ok (VInt 5) /\
  py_eq (VFloat float_five) (VInt 5) = true /\
  normalize_val (VInt 5) = Ok (VInt 5).
Proof.
  assert (E : normalize_val (VFloat float_five) = Ok (VInt 5)) by (vm_compute; reflexivity).
  split; [exact E|]. exact (normalize_val_idempotent _ _ E).
Defined.
